(** * EasyGUI widget-tree engine: sibling lists, z-order, lifecycle, focus, dialogs

    A shallow embedding of the widget-tree management core of EasyGUI
    (gui_linkedlist.c, gui_widget.c, gui_dialog.c) together with the
    properties its specification states about it.

    Memory is modelled as a store from handles (addresses) to records,
    a NULL pointer as [None].  Every C function becomes a Rocq function
    that threads the store explicitly; loops that follow pointers carry
    a fuel argument and return [None] when it runs out. *)

From Stdlib Require Import List ZArith Lia Bool Arith PeanoNat Permutation.
Import ListNotations.

Set Warnings "-register-all".

(** ** Pointers and stores *)

Definition handle := nat.

(** A possibly-NULL pointer. *)
Definition ptr := option handle.

Definition ptr_eqb (a b : ptr) : bool :=
  match a, b with
  | None, None => true
  | Some x, Some y => Nat.eqb x y
  | _, _ => false
  end.

(** Store update at one address. *)
Definition upd {A : Type} (m : handle -> A) (h : handle) (f : A -> A) : handle -> A :=
  fun x => if Nat.eqb x h then f (m x) else m x.

(** Longest prefix of a list whose elements pass a test, and the rest. *)
Fixpoint take_while {T : Type} (f : T -> bool) (l : list T) : list T :=
  match l with
  | [] => []
  | x :: r => if f x then x :: take_while f r else []
  end.

Fixpoint drop_while {T : Type} (f : T -> bool) (l : list T) : list T :=
  match l with
  | [] => []
  | x :: r => if f x then drop_while f r else l
  end.

(** ** gui_linkedlist.c: the generic doubly linked list *)

(** [gui_linkedlist_t]: the link cell that every list element starts with. *)
Record gui_linkedlist_t : Type := mk_linkedlist { prev : ptr; next : ptr }.

(** [gui_linkedlistroot_t]. *)
Record gui_linkedlistroot_t : Type := mk_linkedlistroot { first : ptr; last : ptr }.

(** Elements of a list are structures whose first member is a
    [gui_linkedlist_t]; the C code reaches it by a cast.  The class below
    is that convention. *)
Class Linked (A : Type) : Type := {
  list_of : A -> gui_linkedlist_t;
  set_list : gui_linkedlist_t -> A -> A;
  list_of_set_list : forall l a, list_of (set_list l a) = l;
  set_list_set_list : forall l l' a, set_list l (set_list l' a) = set_list l a;
  set_list_list_of : forall a, set_list (list_of a) a = a
}.

#[export] Instance Linked_self : Linked gui_linkedlist_t :=
  {| list_of := fun l => l; set_list := fun l _ => l;
     list_of_set_list := fun _ _ => eq_refl;
     set_list_set_list := fun _ _ _ => eq_refl;
     set_list_list_of := fun _ => eq_refl |}.

(** One list: its root and the memory holding its elements. *)
Record lstate (A : Type) : Type := mk_lstate {
  root : gui_linkedlistroot_t;
  mem : handle -> A
}.

Arguments mk_lstate {A} _ _.
Arguments root {A} _.
Arguments mem {A} _ _.

Section Generic.
Context {A : Type} `{Linked A}.

Definition lk (s : lstate A) (x : handle) : gui_linkedlist_t := list_of (mem s x).

(** [x->prev = v] and [x->next = v]. *)
Definition set_prev (x : handle) (v : ptr) (s : lstate A) : lstate A :=
  mk_lstate (root s)
    (upd (mem s) x (fun a => set_list (mk_linkedlist v (next (list_of a))) a)).

Definition set_next (x : handle) (v : ptr) (s : lstate A) : lstate A :=
  mk_lstate (root s)
    (upd (mem s) x (fun a => set_list (mk_linkedlist (prev (list_of a)) v) a)).

(** [root->first = v] and [root->last = v]. *)
Definition set_first (v : ptr) (s : lstate A) : lstate A :=
  mk_lstate (mk_linkedlistroot v (last (root s))) (mem s).

Definition set_last (v : ptr) (s : lstate A) : lstate A :=
  mk_lstate (mk_linkedlistroot (first (root s)) v) (mem s).

(** gui_linkedlist_add_gen *)
Definition gui_linkedlist_add_gen (s : lstate A) (element : handle) : lstate A :=
  match first (root s), last (root s) with
  | Some _, Some l =>
      let s := set_next element None s in
      let s := set_prev element (Some l) s in
      let s := set_next l (Some element) s in
      set_last (Some element) s
  | _, _ =>
      let s := set_prev element None s in
      let s := set_next element None s in
      let s := set_first (Some element) s in
      set_last (Some element) s
  end.

(** gui_linkedlist_remove_gen; the result is the removed element. *)
Definition gui_linkedlist_remove_gen (s : lstate A) (element : ptr) : lstate A * ptr :=
  match element with
  | None => (s, None)
  | Some e =>
      let p := prev (lk s e) in
      let n := next (lk s e) in
      let s := match p with Some p' => set_next p' n s | None => s end in
      let s := match n with Some n' => set_prev n' p s | None => s end in
      let s := if ptr_eqb (first (root s)) (Some e) then set_first n s else s in
      let s := if ptr_eqb (last (root s)) (Some e) then set_last p s else s in
      let s := set_prev e None s in
      let s := set_next e None s in
      (s, Some e)
  end.

(** gui_linkedlist_getnext_gen, with its four-way dispatch on NULL arguments. *)
Definition gui_linkedlist_getnext_gen (s : lstate A) (with_root : bool) (element : ptr) : ptr :=
  match element with
  | None => if with_root then first (root s) else None
  | Some e => next (lk s e)
  end.

(** gui_linkedlist_getprev_gen *)
Definition gui_linkedlist_getprev_gen (s : lstate A) (with_root : bool) (element : ptr) : ptr :=
  match element with
  | None => if with_root then last (root s) else None
  | Some e => prev (lk s e)
  end.

(** gui_linkedlist_movedown_gen *)
Definition gui_linkedlist_movedown_gen (s : lstate A) (element : ptr) : lstate A * Z :=
  match element with
  | None => (s, 0%Z)
  | Some e =>
      if ptr_eqb element (last (root s)) then (s, 0%Z) else
      let Prev := prev (lk s e) in
      let Next := next (lk s e) in
      let NextNext := match Next with Some n => next (lk s n) | None => None end in
      let s := match NextNext with
               | Some nn => set_prev nn (Some e) s
               | None => set_last (Some e) s
               end in
      let s := match Next with
               | Some n => set_prev n Prev (set_next n (Some e) s)
               | None => s
               end in
      let s := set_next e NextNext s in
      let s := set_prev e Next s in
      let s := match Prev with Some p => set_next p Next s | None => s end in
      let s := if ptr_eqb (first (root s)) (Some e) then set_first Next s else s in
      (s, 1%Z)
  end.

(** gui_linkedlist_moveup_gen *)
Definition gui_linkedlist_moveup_gen (s : lstate A) (element : ptr) : lstate A * Z :=
  match element with
  | None => (s, 0%Z)
  | Some e =>
      if ptr_eqb element (first (root s)) then (s, 0%Z) else
      let Prev := prev (lk s e) in
      let Next := next (lk s e) in
      let PrevPrev := match Prev with Some p => prev (lk s p) | None => None end in
      let s := match PrevPrev with
               | Some pp => set_next pp (Some e) s
               | None => set_first (Some e) s
               end in
      let s := match Prev with
               | Some p => set_next p Next (set_prev p (Some e) s)
               | None => s
               end in
      let s := set_prev e PrevPrev s in
      let s := set_next e Prev s in
      let s := match Next with Some n => set_prev n Prev s | None => s end in
      let s := if ptr_eqb (last (root s)) (Some e) then set_last Prev s else s in
      (s, 1%Z)
  end.

(** gui_linkedlist_getnext_byindex_gen; [index] is a [uint16_t], so the
    loop body runs at most [index] times. *)
Fixpoint byindex_loop (s : lstate A) (index : nat) (item : ptr) : ptr :=
  match index, item with
  | S k, Some _ => byindex_loop s k (gui_linkedlist_getnext_gen s false item)
  | _, _ => item
  end.

Definition gui_linkedlist_getnext_byindex_gen (s : lstate A) (index : nat) : ptr :=
  byindex_loop s index (gui_linkedlist_getnext_gen s true None).

End Generic.

(** *** Clients of one list

    The calls a client makes on one list, used to state properties of
    every sequence of calls. *)
Inductive list_op : Type :=
| OpAdd (e : handle)
| OpRemove (e : handle)
| OpMoveUp (e : handle)
| OpMoveDown (e : handle).

Section GenericClients.
Context {A : Type} `{Linked A}.

Definition apply_op (s : lstate A) (o : list_op) : lstate A :=
  match o with
  | OpAdd e => gui_linkedlist_add_gen s e
  | OpRemove e => fst (gui_linkedlist_remove_gen s (Some e))
  | OpMoveUp e => fst (gui_linkedlist_moveup_gen s (Some e))
  | OpMoveDown e => fst (gui_linkedlist_movedown_gen s (Some e))
  end.

Definition run_ops (s : lstate A) (ops : list list_op) : lstate A :=
  fold_left apply_op ops s.

(** Walking forward from [p] along [next], at most [fuel] steps. *)
Fixpoint walk_next (fuel : nat) (s : lstate A) (p : ptr) : list handle :=
  match fuel, p with
  | S f, Some x => x :: walk_next f s (next (lk s x))
  | _, _ => []
  end.

(** The list holds [n] nodes and is doubly consistent: the walk from
    [first] stops after exactly [n] nodes (it is given room for one
    more), the last node visited is [last], the outer pointers of the
    two ends are NULL, and [next] and [prev] are inverse to each other
    on every node of the list. *)
Definition doubly_consistent (s : lstate A) (n : nat) : Prop :=
  let l := walk_next (S n) s (first (root s)) in
  length l = n /\
  List.last (map Some l) None = last (root s) /\
  (forall f, first (root s) = Some f -> prev (lk s f) = None) /\
  (forall z, last (root s) = Some z -> next (lk s z) = None) /\
  (forall x, In x l ->
     (forall y, next (lk s x) = Some y -> prev (lk s y) = Some x) /\
     (forall y, prev (lk s x) = Some y -> next (lk s y) = Some x)).

End GenericClients.

(** The empty list. *)
Definition empty_list {A : Type} (m : handle -> A) : lstate A :=
  mk_lstate (mk_linkedlistroot None None) m.

(** A client uses the list properly when it adds only nodes that are not
    in the list and removes or moves only nodes that are; [m] is the set
    of nodes currently in the list. *)
Fixpoint well_used (m : list handle) (ops : list list_op) : bool :=
  match ops with
  | [] => true
  | OpAdd e :: r => negb (existsb (Nat.eqb e) m) && well_used (e :: m) r
  | OpRemove e :: r =>
      existsb (Nat.eqb e) m && well_used (filter (fun x => negb (Nat.eqb e x)) m) r
  | OpMoveUp e :: r => existsb (Nat.eqb e) m && well_used m r
  | OpMoveDown e :: r => existsb (Nat.eqb e) m && well_used m r
  end.

Definition count_adds (ops : list list_op) : nat :=
  length (filter (fun o => match o with OpAdd _ => true | _ => false end) ops).

Definition count_removes (ops : list list_op) : nat :=
  length (filter (fun o => match o with OpRemove _ => true | _ => false end) ops).

(** ** Widgets (gui_defs.h) *)

(** Flag bits of [gui_handle.flags] and of [gui_widget_t.flags]. *)
Definition GUI_FLAG_REDRAW : Z := 0x00000001.
Definition GUI_FLAG_DYNAMICTEXTALLOC : Z := 0x00000004.
Definition GUI_FLAG_ACTIVE : Z := 0x00000008.
Definition GUI_FLAG_FOCUS : Z := 0x00000010.
Definition GUI_FLAG_REMOVE : Z := 0x00002000.
Definition GUI_FLAG_IGNORE_INVALIDATE : Z := 0x00004000.
Definition GUI_FLAG_TOUCH_MOVE : Z := 0x00008000.
Definition GUI_FLAG_WIDGET_ALLOW_CHILDREN : Z := 0x00040000.
Definition GUI_FLAG_WIDGET_DIALOG_BASE : Z := 0x00080000.
Definition GUI_FLAG_WIDGET_INVALIDATE_PARENT : Z := 0x00100000.

(** [f & flag], read as a truth value. *)
Definition flag_test (f flag : Z) : bool := negb (Z.land f flag =? 0)%Z.

(** [f |= flag] and [f &= ~flag] on a [uint32_t]. *)
Definition flag_set (f flag : Z) : Z := Z.lor f flag.
Definition flag_clr (f flag : Z) : Z := Z.land f (Z.lxor 0xFFFFFFFF flag).

(** Control codes passed to widget callbacks (those the core itself sends). *)
Inductive gui_wc_t : Type :=
| GUI_WC_PreInit
| GUI_WC_ExcludeLinkedList
| GUI_WC_Init
| GUI_WC_ChildWidgetCreated
| GUI_WC_Remove
| GUI_WC_FocusIn
| GUI_WC_FocusOut
| GUI_WC_ActiveIn
| GUI_WC_ActiveOut
| GUI_WC_TextChanged
| GUI_WC_OnDismiss.

(** A widget callback receives the handle, the control code and the value
    the caller has put in [result->u.u8]; it answers whether it processed
    the command and what [result->u.u8] holds afterwards.  Callbacks are
    external code; they are taken not to modify the widget tree. *)
Definition gui_widget_callback_t : Type := handle -> gui_wc_t -> Z -> bool * Z.

(** [gui_widget_t]: the shared description of a widget type. *)
Record gui_widget_t : Type := mk_widget {
  widget_size : Z;
  widget_flags : Z;
  widget_callback : gui_widget_callback_t
}.

(** [gui_handle] and, for widgets with children, [gui_handle_root_t]
    (its [root_list] is kept here as well).  Geometry, font and padding
    play no part in what follows and are left out. *)
Record gui_handle : Type := mk_handle {
  llist : gui_linkedlist_t;   (* the member [list] *)
  Id : Z;
  widget : gui_widget_t;
  callback : option gui_widget_callback_t;
  parent : ptr;
  zindex : Z;
  transparency : Z;
  flags : Z;
  text : option nat;
  timer : option nat;
  colors : option nat;
  root_list : gui_linkedlistroot_t
}.

Definition with_list (l : gui_linkedlist_t) (w : gui_handle) : gui_handle :=
  mk_handle l (Id w) (widget w) (callback w) (parent w) (zindex w)
    (transparency w) (flags w) (text w) (timer w) (colors w) (root_list w).

Definition with_flags (f : Z) (w : gui_handle) : gui_handle :=
  mk_handle (llist w) (Id w) (widget w) (callback w) (parent w) (zindex w)
    (transparency w) f (text w) (timer w) (colors w) (root_list w).

#[export] Instance Linked_handle : Linked gui_handle :=
  {| list_of := llist; set_list := with_list;
     list_of_set_list := fun _ _ => eq_refl;
     set_list_set_list := fun _ _ _ => eq_refl;
     set_list_list_of := fun a => match a with mk_handle _ _ _ _ _ _ _ _ _ _ _ _ => eq_refl end |}.

(** Modelled from the spec: the flag macros of gui_widget.h, which is not
    among the sources.  The spec lists dialog-base and allows-children
    both among the state flags of a node and among the capability flags
    of its type descriptor; a node has the property when either carries
    the bit (gui_dialog_create sets the dialog-base bit on the node, the
    DIALOG descriptor declares it on the type). *)
Definition guii_widget_getflag (w : gui_handle) (flag : Z) : bool := flag_test (flags w) flag.
Definition guii_widget_getcoreflag (w : gui_handle) (flag : Z) : bool :=
  flag_test (widget_flags (widget w)) flag.
Definition guii_widget_setflag (w : gui_handle) (flag : Z) : gui_handle :=
  with_flags (flag_set (flags w) flag) w.
Definition guii_widget_clrflag (w : gui_handle) (flag : Z) : gui_handle :=
  with_flags (flag_clr (flags w) flag) w.
Definition guii_widget_isdialogbase (w : gui_handle) : bool :=
  guii_widget_getcoreflag w GUI_FLAG_WIDGET_DIALOG_BASE
  || guii_widget_getflag w GUI_FLAG_WIDGET_DIALOG_BASE.
Definition guii_widget_allowchildren (w : gui_handle) : bool :=
  guii_widget_getcoreflag w GUI_FLAG_WIDGET_ALLOW_CHILDREN
  || guii_widget_getflag w GUI_FLAG_WIDGET_ALLOW_CHILDREN.

(** ** gui_linkedlist.c: the sibling list of widgets

    A state [s : wlist] is one sibling list: [root s] is the root that
    the C code selects for its members (the parent's [root_list], or
    [GUI.root] for parentless widgets) and [mem s] the widget memory. *)
Definition wlist : Type := lstate gui_handle.

(** gui_linkedlist_widgetmoveup / gui_linkedlist_widgetmovedown *)
Definition gui_linkedlist_widgetmoveup (s : wlist) (h : handle) : wlist * Z :=
  gui_linkedlist_moveup_gen s (Some h).

Definition gui_linkedlist_widgetmovedown (s : wlist) (h : handle) : wlist * Z :=
  gui_linkedlist_movedown_gen s (Some h).

(** [cnt++] on a [uint32_t], and the [uint8_t] the functions return. *)
Definition incr32 (cnt : Z) : Z := ((cnt + 1) mod 2 ^ 32)%Z.
Definition to_uint8 (cnt : Z) : Z := (cnt mod 2 ^ 8)%Z.

(** The [while (h->list.next != NULL)] loop of
    gui_linkedlist_widgetmovetobottom.  [None]: out of fuel. *)
Fixpoint movetobottom_loop (fuel : nat) (s : wlist) (h : handle) (cnt : Z)
  : option (wlist * Z) :=
  match fuel with
  | O => None
  | S fuel' =>
      match next (lk s h) with
      | None => Some (s, cnt)
      | Some n =>
          if guii_widget_isdialogbase (mem s h) then
            let (s', ok) := gui_linkedlist_widgetmovedown s h in
            if (ok =? 0)%Z then Some (s', cnt)
            else movetobottom_loop fuel' s' h (incr32 cnt)
          else if guii_widget_allowchildren (mem s h) then
            if negb (guii_widget_isdialogbase (mem s n)) then
              if (zindex (mem s h) >=? zindex (mem s n))%Z then
                let (s', ok) := gui_linkedlist_widgetmovedown s h in
                if (ok =? 0)%Z then Some (s', cnt)
                else movetobottom_loop fuel' s' h (incr32 cnt)
              else Some (s, cnt)
            else Some (s, cnt)
          else
            if negb (guii_widget_allowchildren (mem s n)) then
              if (zindex (mem s h) >=? zindex (mem s n))%Z then
                let (s', ok) := gui_linkedlist_widgetmovedown s h in
                if (ok =? 0)%Z then Some (s', cnt)
                else movetobottom_loop fuel' s' h (incr32 cnt)
              else Some (s, cnt)
            else Some (s, cnt)
      end
  end.

(** gui_linkedlist_widgetmovetobottom *)
Definition gui_linkedlist_widgetmovetobottom (fuel : nat) (s : wlist) (h : handle)
  : option (wlist * Z) :=
  match next (lk s h) with
  | None => Some (s, 0%Z)
  | Some _ =>
      match movetobottom_loop fuel s h 0%Z with
      | Some (s', cnt) => Some (s', to_uint8 cnt)
      | None => None
      end
  end.

(** The [while (h->list.prev != NULL)] loop of gui_linkedlist_widgetmovetotop. *)
Fixpoint movetotop_loop (fuel : nat) (s : wlist) (h : handle) (cnt : Z)
  : option (wlist * Z) :=
  match fuel with
  | O => None
  | S fuel' =>
      match prev (lk s h) with
      | None => Some (s, cnt)
      | Some p =>
          if guii_widget_isdialogbase (mem s h) then
            if guii_widget_isdialogbase (mem s p) then
              let (s', ok) := gui_linkedlist_widgetmoveup s h in
              if (ok =? 0)%Z then Some (s', cnt)
              else movetotop_loop fuel' s' h (incr32 cnt)
            else Some (s, cnt)
          else if guii_widget_allowchildren (mem s h) then
            if guii_widget_allowchildren (mem s p) then
              if (zindex (mem s h) <=? zindex (mem s p))%Z then
                let (s', ok) := gui_linkedlist_widgetmoveup s h in
                if (ok =? 0)%Z then Some (s', cnt)
                else movetotop_loop fuel' s' h (incr32 cnt)
              else Some (s, cnt)
            else Some (s, cnt)
          else
            if (zindex (mem s h) <=? zindex (mem s p))%Z then
              let (s', ok) := gui_linkedlist_widgetmoveup s h in
              if (ok =? 0)%Z then Some (s', cnt)
              else movetotop_loop fuel' s' h (incr32 cnt)
            else Some (s, cnt)
      end
  end.

(** gui_linkedlist_widgetmovetotop.  The C function declares
    [uint32_t cnt;] without an initialiser (its sibling writes
    [uint32_t cnt = 0;]); [cnt0] is the indeterminate value the variable
    holds when the loop is entered. *)
Definition gui_linkedlist_widgetmovetotop (fuel : nat) (cnt0 : Z) (s : wlist) (h : handle)
  : option (wlist * Z) :=
  match prev (lk s h) with
  | None => Some (s, 0%Z)
  | Some _ =>
      match movetotop_loop fuel s h cnt0 with
      | Some (s', cnt) => Some (s', to_uint8 cnt)
      | None => None
      end
  end.

(** gui_linkedlist_widgetadd; the two counts are discarded. *)
Definition gui_linkedlist_widgetadd (fuel : nat) (cnt0 : Z) (s : wlist) (h : handle)
  : option wlist :=
  let s := gui_linkedlist_add_gen s h in
  match gui_linkedlist_widgetmovetotop fuel cnt0 s h with
  | None => None
  | Some (s, _) =>
      match gui_linkedlist_widgetmovetobottom fuel s h with
      | None => None
      | Some (s, _) => Some s
      end
  end.

(** gui_linkedlist_widgetremove *)
Definition gui_linkedlist_widgetremove (s : wlist) (h : handle) : wlist :=
  fst (gui_linkedlist_remove_gen s (Some h)).

(** May [wh] step down past its successor [wx]?  (The conditions of the
    three branches of gui_linkedlist_widgetmovetobottom.) *)
Definition down_ok (wh wx : gui_handle) : bool :=
  if guii_widget_isdialogbase wh then true
  else if guii_widget_allowchildren wh then
    negb (guii_widget_isdialogbase wx) && (zindex wh >=? zindex wx)%Z
  else negb (guii_widget_allowchildren wx) && (zindex wh >=? zindex wx)%Z.

(** May [wh] step up past its predecessor [wx]? *)
Definition up_ok (wh wx : gui_handle) : bool :=
  if guii_widget_isdialogbase wh then guii_widget_isdialogbase wx
  else if guii_widget_allowchildren wh then
    guii_widget_allowchildren wx && (zindex wh <=? zindex wx)%Z
  else (zindex wh <=? zindex wx)%Z.

(** *** Clients of one sibling list of widgets *)

(** The node guii_widget_create has built when it links it: the memory is
    zeroed by [memset] and the type descriptor stored.  The members the
    ordering never reads (Id, callback, parent, transparency and the
    REDRAW bit set by the first invalidation) are left at zero here. *)
Definition fresh_widget (t : gui_widget_t) : gui_handle :=
  mk_handle (mk_linkedlist None None) 0 t None None 0 0 0 None None None
    (mk_linkedlistroot None None).

Definition store_widget (h : handle) (w : gui_handle) (s : wlist) : wlist :=
  mk_lstate (root s) (upd (mem s) h (fun _ => w)).

(** [guii_widget_setflag(h, flag)] on a node of the list. *)
Definition set_node_flag (h : handle) (flag : Z) (s : wlist) : wlist :=
  mk_lstate (root s) (upd (mem s) h (fun w => guii_widget_setflag w flag)).

(** Modelled from the spec: the constructors of the widget kinds
    (gui_container_create and the like), one of which gui_dialog_create
    is given as [func], are not among the sources.  A constructor builds
    its widget as any creation does: guii_widget_create with the
    descriptor [t] of its kind, which links the new node. *)
Definition widget_constructor (fuel : nat) (cnt0 : Z) (s : wlist) (h : handle)
    (t : gui_widget_t) : option wlist :=
  gui_linkedlist_widgetadd fuel cnt0 (store_widget h (fresh_widget t) s) h.

(** gui_dialog_create of gui_dialog.c, as far as the sibling list goes:
    the constructor builds the node, the node gets the dialog-base flag
    and walks to the bottom; the registration that follows does not
    touch the list. *)
Definition gui_dialog_create (fuel : nat) (cnt0 : Z) (s : wlist) (h : handle)
    (t : gui_widget_t) : option wlist :=
  match widget_constructor fuel cnt0 s h t with
  | Some s =>
      option_map fst
        (gui_linkedlist_widgetmovetobottom fuel
           (set_node_flag h GUI_FLAG_WIDGET_DIALOG_BASE s) h)
  | None => None
  end.

(** The calls of a client that concern one sibling list: creation of a
    widget of type [t], creation of a dialog through the constructor of
    the type [t], and the two moves. *)
Inductive zorder_op : Type :=
| ZCreate (h : handle) (t : gui_widget_t)
| ZDialog (h : handle) (t : gui_widget_t)
| ZMoveToTop (h : handle)
| ZMoveToBottom (h : handle).

Definition apply_zorder_op (fuel : nat) (cnt0 : Z) (s : wlist) (o : zorder_op)
  : option wlist :=
  match o with
  | ZCreate h t => gui_linkedlist_widgetadd fuel cnt0 (store_widget h (fresh_widget t) s) h
  | ZDialog h t => gui_dialog_create fuel cnt0 s h t
  | ZMoveToTop h => option_map fst (gui_linkedlist_widgetmovetotop fuel cnt0 s h)
  | ZMoveToBottom h => option_map fst (gui_linkedlist_widgetmovetobottom fuel s h)
  end.

Fixpoint run_zorder (fuel : nat) (cnt0 : Z) (s : wlist) (ops : list zorder_op)
  : option wlist :=
  match ops with
  | [] => Some s
  | o :: r =>
      match apply_zorder_op fuel cnt0 s o with
      | Some s' => run_zorder fuel cnt0 s' r
      | None => None
      end
  end.

Definition count_creates (ops : list zorder_op) : nat :=
  length (filter (fun o => match o with
                           | ZCreate _ _ | ZDialog _ _ => true
                           | _ => false
                           end) ops).

(** Creations use fresh handles, moves concern members; [m] is the set of
    members.  [node_ok] is a side condition on the nodes created: for a
    creation the node as guii_widget_create links it, for a dialog the
    same node with the dialog-base flag that gui_dialog_create sets. *)
Fixpoint zorder_well_used (node_ok : gui_handle -> bool) (m : list handle)
  (ops : list zorder_op) : bool :=
  match ops with
  | [] => true
  | ZCreate h t :: r =>
      negb (existsb (Nat.eqb h) m) && node_ok (fresh_widget t)
      && zorder_well_used node_ok (h :: m) r
  | ZDialog h t :: r =>
      negb (existsb (Nat.eqb h) m)
      && node_ok (guii_widget_setflag (fresh_widget t) GUI_FLAG_WIDGET_DIALOG_BASE)
      && zorder_well_used node_ok (h :: m) r
  | ZMoveToTop h :: r => existsb (Nat.eqb h) m && zorder_well_used node_ok m r
  | ZMoveToBottom h :: r => existsb (Nat.eqb h) m && zorder_well_used node_ok m r
  end.

(** The stacking group of a widget: 0 plain, 1 container-capable,
    2 dialog base. *)
Definition group (w : gui_handle) : nat :=
  if guii_widget_isdialogbase w then 2
  else if guii_widget_allowchildren w then 1 else 0.

(** The group ordering rule for [a] directly before [b]: the group does
    not decrease (a dialog base never precedes another node, a container
    never precedes a plain node), and within a group the z-index does
    not decrease. *)
Definition ordering_rule (a b : gui_handle) : bool :=
  (group a <=? group b) &&
  (if group a =? group b then (zindex a <=? zindex b)%Z else true).

(** A list of [n] siblings in which every adjacent pair obeys the rule. *)
Definition siblings_ordered (s : wlist) (n : nat) : Prop :=
  let l := walk_next (S n) s (first (root s)) in
  length l = n /\
  forall x y, In x l -> next (lk s x) = Some y ->
    ordering_rule (mem s x) (mem s y) = true.

(** The same, as a test. *)
Definition siblings_ordered_b (s : wlist) (n : nat) : bool :=
  let l := walk_next (S n) s (first (root s)) in
  (length l =? n) &&
  forallb (fun x => match next (lk s x) with
                    | Some y => ordering_rule (mem s x) (mem s y)
                    | None => true
                    end) l.

(** A node that is a dialog base, by its type or by its own flag, also
    allows children. *)
Definition dialogs_are_containers (w : gui_handle) : bool :=
  implb (guii_widget_isdialogbase w) (guii_widget_allowchildren w).

Definition any_node (w : gui_handle) : bool := true.

(** Two widget types for examples: a plain control, and a type declared
    dialog base without children support. *)
Definition no_callback : gui_widget_callback_t := fun _ _ r => (false, r).
Definition plain_type : gui_widget_t := mk_widget 128 0 no_callback.
Definition container_type : gui_widget_t :=
  mk_widget 160 GUI_FLAG_WIDGET_ALLOW_CHILDREN no_callback.
Definition dialog_type : gui_widget_t :=
  mk_widget 160 (Z.lor GUI_FLAG_WIDGET_ALLOW_CHILDREN GUI_FLAG_WIDGET_DIALOG_BASE) no_callback.
Definition bare_dialog_type : gui_widget_t :=
  mk_widget 128 GUI_FLAG_WIDGET_DIALOG_BASE no_callback.

Definition blank_memory : handle -> gui_handle := fun _ => fresh_widget plain_type.

(** A desktop with a control (1) and a window (2), as two creations leave it. *)
Definition control_and_window : wlist :=
  match run_zorder 4 0 (empty_list blank_memory)
          [ZCreate 1 plain_type; ZCreate 2 container_type] with
  | Some s => s
  | None => empty_list blank_memory
  end.

(** ** gui_widget.c: the widget engine

    Above the list module a sibling list is represented by its contents:
    the children of a widget, in stacking order, each with its own
    subtree.  (The pointer-level list and the placement rules were
    treated above.)  All other data of a widget stays in the widget
    memory, addressed by handle; [parent], the focus and the active
    slots are handles into it. *)

Inductive wtree : Type := WNode (h : handle) (kids : list wtree).

Definition wroot (t : wtree) : handle := match t with WNode h _ => h end.
Definition wkids (t : wtree) : list wtree := match t with WNode _ k => k end.

Inductive mbox_msg : Type :=
| GUI_SYS_MBOX_TYPE_REMOVE
| GUI_SYS_MBOX_TYPE_WIDGET_CREATED.

(** What the engine does to its collaborators, in order: callbacks run,
    invalidations requested (the invalidation engine is treated on its
    own below), memory and timers released, messages posted. *)
Inductive event : Type :=
| EvCallback (h : handle) (ctrl : gui_wc_t)
| EvInvalidate (h : handle)
| EvInvalidateWithParent (h : handle)
| EvSetSize (h : handle)
| EvSetPosition (h : handle)
| EvTimerRemove (h : handle)
| EvUnlink (h : handle)
| EvMemAlloc (h : handle)
| EvMemFree (h : handle)
| EvMemFreeText (h : handle)
| EvMemFreeColors (h : handle)
| EvMemFreeEntry (h : handle)
| EvSemRelease (h : handle)
| EvMbox (m : mbox_msg).

(** The [GUI] singleton and the widget memory. *)
Record gui_t : Type := mk_gui {
  wmem : handle -> gui_handle;
  tree : list wtree;               (* GUI.root and everything below *)
  Desktop : ptr;
  FocusedWidget : ptr;
  FocusedWidgetPrev : ptr;
  ActiveWidget : ptr;
  ActiveWidgetPrev : ptr;
  WindowActive : ptr;
  GUI_Flags : Z;
  GUI_CFG_OS : bool;
  trace : list event
}.

Definition set_wmem m g := mk_gui m (tree g) (Desktop g) (FocusedWidget g)
  (FocusedWidgetPrev g) (ActiveWidget g) (ActiveWidgetPrev g) (WindowActive g)
  (GUI_Flags g) (GUI_CFG_OS g) (trace g).
Definition set_tree t g := mk_gui (wmem g) t (Desktop g) (FocusedWidget g)
  (FocusedWidgetPrev g) (ActiveWidget g) (ActiveWidgetPrev g) (WindowActive g)
  (GUI_Flags g) (GUI_CFG_OS g) (trace g).
Definition set_FocusedWidget p g := mk_gui (wmem g) (tree g) (Desktop g) p
  (FocusedWidgetPrev g) (ActiveWidget g) (ActiveWidgetPrev g) (WindowActive g)
  (GUI_Flags g) (GUI_CFG_OS g) (trace g).
Definition set_FocusedWidgetPrev p g := mk_gui (wmem g) (tree g) (Desktop g)
  (FocusedWidget g) p (ActiveWidget g) (ActiveWidgetPrev g) (WindowActive g)
  (GUI_Flags g) (GUI_CFG_OS g) (trace g).
Definition set_ActiveWidget p g := mk_gui (wmem g) (tree g) (Desktop g)
  (FocusedWidget g) (FocusedWidgetPrev g) p (ActiveWidgetPrev g) (WindowActive g)
  (GUI_Flags g) (GUI_CFG_OS g) (trace g).
Definition set_ActiveWidgetPrev p g := mk_gui (wmem g) (tree g) (Desktop g)
  (FocusedWidget g) (FocusedWidgetPrev g) (ActiveWidget g) p (WindowActive g)
  (GUI_Flags g) (GUI_CFG_OS g) (trace g).
Definition set_WindowActive p g := mk_gui (wmem g) (tree g) (Desktop g)
  (FocusedWidget g) (FocusedWidgetPrev g) (ActiveWidget g) (ActiveWidgetPrev g) p
  (GUI_Flags g) (GUI_CFG_OS g) (trace g).
Definition set_GUI_Flags f g := mk_gui (wmem g) (tree g) (Desktop g)
  (FocusedWidget g) (FocusedWidgetPrev g) (ActiveWidget g) (ActiveWidgetPrev g)
  (WindowActive g) f (GUI_CFG_OS g) (trace g).
Definition set_trace t g := mk_gui (wmem g) (tree g) (Desktop g)
  (FocusedWidget g) (FocusedWidgetPrev g) (ActiveWidget g) (ActiveWidgetPrev g)
  (WindowActive g) (GUI_Flags g) (GUI_CFG_OS g) t.

Definition log (e : event) (g : gui_t) : gui_t := set_trace (trace g ++ [e]) g.

(** Update of one widget in memory. *)
Definition on_widget (h : handle) (f : gui_handle -> gui_handle) (g : gui_t) : gui_t :=
  set_wmem (upd (wmem g) h f) g.

(** [GUI.root.First]. *)
Definition root_first (g : gui_t) : ptr :=
  match tree g with t :: _ => Some (wroot t) | [] => None end.

(** Modelled from the spec: gui_window_getdesktop of gui_window.c, which is
    not among the sources, yields the one designated desktop node. *)
Definition gui_window_getdesktop (g : gui_t) : ptr := Desktop g.

(** Modelled from the spec: the macro guii_widget_callback of gui_widget.h,
    not among the sources, sends a control code to the callback of the
    node if one was set, otherwise to the callback of its type. *)
Definition guii_widget_callback (g : gui_t) (h : handle) (ctrl : gui_wc_t) (result : Z)
  : gui_t * (bool * Z) :=
  (log (EvCallback h ctrl) g,
   match callback (wmem g h) with
   | Some cb => cb h ctrl result
   | None => widget_callback (widget (wmem g h)) h ctrl result
   end).

Definition guii_widget_isfocused (w : gui_handle) : bool :=
  guii_widget_getflag w GUI_FLAG_FOCUS.

(** guii_widget_invalidate and guii_widget_invalidatewithparent, as requests. *)
Definition guii_widget_invalidate (g : gui_t) (h : handle) : gui_t := log (EvInvalidate h) g.
Definition guii_widget_invalidatewithparent (g : gui_t) (h : handle) : gui_t :=
  log (EvInvalidateWithParent h) g.

Notation "'do' x <- e ; k" := (match e with Some x => k | None => None end)
  (at level 10, x pattern, e at level 100, k at level 200).

(** *** Focus *)

(** The inner loop of get_common_parentwidget: is [h1] on the parent chain
    that starts at [tmp]? *)
Fixpoint common_inner (fuel : nat) (g : gui_t) (h1 : handle) (tmp : ptr) : option bool :=
  match fuel with
  | O => None
  | S fuel' =>
      match tmp with
      | None => Some false
      | Some t => if Nat.eqb h1 t then Some true
                  else common_inner fuel' g h1 (parent (wmem g t))
      end
  end.

(** Modelled from the spec: the macros guii_widget_iswidget and
    __GUI_ASSERTPARAMS of gui_widget.h are not among the sources.  A
    handle is a widget when it is not NULL and carries the footprint,
    which guii_widget_create stores in every node; a function whose
    parameter check fails returns 0 at once. *)
Definition guii_widget_iswidget (h : ptr) : bool :=
  match h with Some _ => true | None => false end.

(** The outer loop of get_common_parentwidget, with the final
    [return GUI.root.First]. *)
Fixpoint common_outer (fuel : nat) (g : gui_t) (h1 h2 : ptr) : option ptr :=
  match fuel with
  | O => None
  | S fuel' =>
      match h1 with
      | None => Some (root_first g)
      | Some a =>
          do found <- common_inner fuel g a h2;
          if found then Some (Some a)
          else common_outer fuel' g (parent (wmem g a)) h2
      end
  end.

(** get_common_parentwidget: 0 when one of the two handles fails the
    parameter check, otherwise the result of the loops. *)
Definition get_common_parentwidget (fuel : nat) (g : gui_t) (h1 h2 : ptr) : option ptr :=
  if guii_widget_iswidget h1 && guii_widget_iswidget h2
  then common_outer fuel g h1 h2
  else Some None.

(** The first loop of gui_widget_focus_set; [GUI.FocusedWidget] is its
    loop variable. *)
Fixpoint focus_out_loop (fuel : nat) (g : gui_t) (common : handle) : option gui_t :=
  match fuel with
  | O => None
  | S fuel' =>
      match FocusedWidget g with
      | None => Some g
      | Some f =>
          if Nat.eqb f common then Some g
          else
            let g := on_widget f (fun w => guii_widget_clrflag w GUI_FLAG_FOCUS) g in
            let g := fst (guii_widget_callback g f GUI_WC_FocusOut 0) in
            let g := guii_widget_invalidate g f in
            focus_out_loop fuel' (set_FocusedWidget (parent (wmem g f)) g) common
      end
  end.

(** The second loop of gui_widget_focus_set. *)
Fixpoint focus_in_loop (fuel : nat) (g : gui_t) (h : ptr) (common : ptr) : option gui_t :=
  match fuel with
  | O => None
  | S fuel' =>
      match h, common with
      | Some x, Some c =>
          if Nat.eqb x c then Some g
          else
            let g := on_widget x (fun w => guii_widget_setflag w GUI_FLAG_FOCUS) g in
            let g := fst (guii_widget_callback g x GUI_WC_FocusIn 0) in
            let g := guii_widget_invalidate g x in
            focus_in_loop fuel' g (parent (wmem g x)) common
      | _, _ => Some g
      end
  end.

(** gui_widget_focus_set *)
Definition gui_widget_focus_set (fuel : nat) (g : gui_t) (h : ptr) : option gui_t :=
  if ptr_eqb (FocusedWidget g) h then Some g
  else
    do gc <- match FocusedWidget g with
             | Some _ =>
                 do common <- get_common_parentwidget fuel g (FocusedWidget g) h;
                 match common with
                 | Some c => do g' <- focus_out_loop fuel g c; Some (g', common)
                 | None => Some (g, common)
                 end
             | None => Some (g, root_first g)
             end;
    let (g, common) := gc in
    focus_in_loop fuel (set_FocusedWidget h g) h common.

(** The do-while loop of gui_widget_focus_clear.  [None] also when it
    reaches a NULL [GUI.FocusedWidget], which the C code dereferences. *)
Fixpoint focus_clear_loop (fuel : nat) (g : gui_t) : option gui_t :=
  match fuel with
  | O => None
  | S fuel' =>
      match FocusedWidget g with
      | None => None
      | Some f =>
          let g := fst (guii_widget_callback g f GUI_WC_FocusOut 0) in
          let g := on_widget f (fun w => guii_widget_clrflag w GUI_FLAG_FOCUS) g in
          let g := guii_widget_invalidate g f in
          let g := set_FocusedWidget (parent (wmem g f)) g in
          if ptr_eqb (FocusedWidget g) (root_first g) then Some g
          else focus_clear_loop fuel' g
      end
  end.

(** gui_widget_focus_clear *)
Definition gui_widget_focus_clear (fuel : nat) (g : gui_t) : option gui_t :=
  match FocusedWidget g with
  | None => Some g
  | Some _ =>
      if ptr_eqb (FocusedWidget g) (root_first g) then Some g
      else
        let g := set_FocusedWidgetPrev (FocusedWidget g) g in
        do g <- focus_clear_loop fuel g;
        Some (set_FocusedWidget None g)
  end.

(** *** Focus: the words of the specification *)

(** The parent chain of [p], [p] itself first.  [None]: out of fuel. *)
Fixpoint ancestors (fuel : nat) (g : gui_t) (p : ptr) : option (list handle) :=
  match p with
  | None => Some []
  | Some x =>
      match fuel with
      | O => None
      | S fuel' => option_map (cons x) (ancestors fuel' g (parent (wmem g x)))
      end
  end.

(** The nearest common ancestor of two chains: the first node of the
    first chain that also lies on the second; the root's first child
    when there is none (in particular when nothing is focused). *)
Definition nearest_common (g : gui_t) (c1 c2 : list handle) : ptr :=
  match find (fun a => existsb (Nat.eqb a) c2) c1 with
  | Some a => Some a
  | None => root_first g
  end.

(** The nodes of a chain strictly below [common]. *)
Definition below (c : list handle) (common : ptr) : list handle :=
  match common with
  | Some a => take_while (fun x => negb (Nat.eqb x a)) c
  | None => []
  end.

(** One node loses focus: flag cleared, focus-out notification, invalidation. *)
Definition focus_out_step (g : gui_t) (x : handle) : gui_t :=
  guii_widget_invalidate
    (fst (guii_widget_callback
            (on_widget x (fun w => guii_widget_clrflag w GUI_FLAG_FOCUS) g)
            x GUI_WC_FocusOut 0)) x.

(** One node gains focus: flag set, focus-in notification, invalidation. *)
Definition focus_in_step (g : gui_t) (x : handle) : gui_t :=
  guii_widget_invalidate
    (fst (guii_widget_callback
            (on_widget x (fun w => guii_widget_setflag w GUI_FLAG_FOCUS) g)
            x GUI_WC_FocusIn 0)) x.

(** set_focus as the specification words it, given the two chains. *)
Definition set_focus_spec (g : gui_t) (target : ptr) (c1 c2 : list handle) : gui_t :=
  if ptr_eqb (FocusedWidget g) target then g
  else
    let common := nearest_common g c1 c2 in
    let g1 := fold_left focus_out_step (below c1 common) g in
    fold_left focus_in_step (below c2 common) (set_FocusedWidget target g1).

(** What gui_widget_focus_set leaves, given the two chains: the path
    change of the specification for a target that is a widget, the
    emptied focus slot for NULL. *)
Definition focus_set_result (g : gui_t) (target : ptr) (c1 c2 : list handle) : gui_t :=
  match target with
  | Some _ => set_focus_spec g target c1 c2
  | None => set_FocusedWidget None g
  end.

(** A small screen for examples: the desktop 1 holds the window 2 and the
    control 5; window 2 holds window 3, which holds the control 4.  The
    control 4 has the focus, with the focus flag on 4, 3 and 2. *)
Definition example_widget (t : gui_widget_t) (p : ptr) (f : Z) : gui_handle :=
  mk_handle (mk_linkedlist None None) 0 t None p 0 0xFF f None None None
    (mk_linkedlistroot None None).

Definition example_memory : handle -> gui_handle :=
  fun h =>
    match h with
    | 1 => example_widget container_type None 0
    | 2 => example_widget container_type (Some 1) GUI_FLAG_FOCUS
    | 3 => example_widget container_type (Some 2) GUI_FLAG_FOCUS
    | 4 => example_widget plain_type (Some 3) GUI_FLAG_FOCUS
    | 5 => example_widget plain_type (Some 1) 0
    | _ => example_widget plain_type None 0
    end.

Definition example_tree : list wtree :=
  [WNode 1 [WNode 5 []; WNode 2 [WNode 3 [WNode 4 []]]]].

Definition example_gui : gui_t :=
  mk_gui example_memory example_tree (Some 1) (Some 4) None None None (Some 1) 0 false [].

(** *** Removal *)

(** The subtree rooted at [h], searched depth first. *)
Fixpoint find_subtree (h : handle) (t : wtree) {struct t} : option wtree :=
  match t with
  | WNode x kids =>
      if Nat.eqb x h then Some t
      else (fix in_list (ks : list wtree) : option wtree :=
              match ks with
              | [] => None
              | k :: r =>
                  match find_subtree h k with
                  | Some s => Some s
                  | None => in_list r
                  end
              end) kids
  end.

Fixpoint find_in (h : handle) (ts : list wtree) : option wtree :=
  match ts with
  | [] => None
  | t :: r => match find_subtree h t with Some s => Some s | None => find_in h r end
  end.

(** The widget [h] with its children, as the lists hold them; a widget
    that is in no list has none. *)
Definition subtree_at (g : gui_t) (h : handle) : wtree :=
  match find_in h (tree g) with Some t => t | None => WNode h [] end.

(** gui_linkedlist_widgetremove on list contents: [h] leaves the sibling
    list it is in (and takes along what is still below it). *)
Fixpoint unlink_node (h : handle) (t : wtree) {struct t} : wtree :=
  match t with
  | WNode x kids =>
      WNode x ((fix in_list (ks : list wtree) : list wtree :=
                  match ks with
                  | [] => []
                  | k :: r =>
                      if Nat.eqb (wroot k) h then in_list r
                      else unlink_node h k :: in_list r
                  end) kids)
  end.

Fixpoint unlink (h : handle) (ts : list wtree) : list wtree :=
  match ts with
  | [] => []
  | t :: r => if Nat.eqb (wroot t) h then unlink h r else unlink_node h t :: unlink h r
  end.

(** can_remove_widget *)
Fixpoint can_remove_widget (g : gui_t) (t : wtree) {struct t} : gui_t * Z :=
  match t with
  | WNode h kids =>
      if ptr_eqb (Some h) (gui_window_getdesktop g) then (g, 0%Z)
      else
        let (g, cr) := guii_widget_callback g h GUI_WC_Remove 1 in
        let result := if negb (fst cr) || negb (snd cr =? 0)%Z then 1%Z else snd cr in
        if negb (result =? 0)%Z && guii_widget_allowchildren (wmem g h) then
          (fix children (g : gui_t) (ks : list wtree) {struct ks} : gui_t * Z :=
             match ks with
             | [] => (g, result)
             | k :: r =>
                 let (g, c) := can_remove_widget g k in
                 if (c =? 0)%Z then (g, 0%Z) else children g r
             end) g kids
        else (g, result)
  end.

(** guii_widget_remove *)
Definition guii_widget_remove (fuel : nat) (g : gui_t) (h : handle) : option (gui_t * Z) :=
  let (g, c) := can_remove_widget g (subtree_at g h) in
  if negb (c =? 0)%Z then
    let g := on_widget h (fun w => guii_widget_setflag w GUI_FLAG_REMOVE) g in
    let g := set_GUI_Flags (flag_set (GUI_Flags g) GUI_FLAG_REMOVE) g in
    do g <- (if guii_widget_isfocused (wmem g h)
             then gui_widget_focus_set fuel g (parent (wmem g h))
             else Some g);
    let g := if GUI_CFG_OS g then log (EvMbox GUI_SYS_MBOX_TYPE_REMOVE) g else g in
    Some (g, 1%Z)
  else Some (g, 0%Z).

(** guii_widget_freetextmemory *)
Definition guii_widget_freetextmemory (g : gui_t) (h : handle) : gui_t :=
  match text (wmem g h) with
  | Some _ =>
      if guii_widget_getflag (wmem g h) GUI_FLAG_DYNAMICTEXTALLOC then
        let g := log (EvMemFreeText h) g in
        let g := on_widget h (fun w =>
                   guii_widget_clrflag
                     (mk_handle (llist w) (Id w) (widget w) (callback w) (parent w)
                        (zindex w) (transparency w) (flags w) None (timer w) (colors w)
                        (root_list w)) GUI_FLAG_DYNAMICTEXTALLOC) g in
        let g := guii_widget_invalidate g h in
        fst (guii_widget_callback g h GUI_WC_TextChanged 0)
      else g
  | None => g
  end.

(** remove_widget, first part: the focus and active slots give up the
    widget (steps 1 to 4, and the active window). *)
Definition remove_widget_owners (fuel : nat) (g : gui_t) (h : handle) : option gui_t :=
  let p := parent (wmem g h) in
  do g <- (if ptr_eqb (FocusedWidget g) (Some h) then
             match p with
             | Some _ => Some (set_FocusedWidget p g)
             | None => do g <- gui_widget_focus_clear fuel g; Some (set_FocusedWidget None g)
             end
           else Some g);
  let g := if ptr_eqb (FocusedWidgetPrev g) (Some h) then set_FocusedWidgetPrev None g else g in
  let g := if ptr_eqb (ActiveWidget g) (Some h) then set_ActiveWidget None g else g in
  let g := if ptr_eqb (ActiveWidgetPrev g) (Some h) then set_ActiveWidgetPrev p g else g in
  let g := if ptr_eqb (WindowActive g) (Some h) then set_WindowActive p g else g in
  Some g.

(** remove_widget, second part: the final steps. *)
Definition remove_widget_final (g : gui_t) (h : handle) : gui_t :=
  let g := guii_widget_invalidatewithparent g h in
  let g := guii_widget_freetextmemory g h in
  let g := match timer (wmem g h) with
           | Some _ =>
               on_widget h (fun w =>
                 mk_handle (llist w) (Id w) (widget w) (callback w) (parent w) (zindex w)
                   (transparency w) (flags w) (text w) None (colors w) (root_list w))
                 (log (EvTimerRemove h) g)
           | None => g
           end in
  let g := match colors (wmem g h) with
           | Some _ =>
               on_widget h (fun w =>
                 mk_handle (llist w) (Id w) (widget w) (callback w) (parent w) (zindex w)
                   (transparency w) (flags w) (text w) (timer w) None (root_list w))
                 (log (EvMemFreeColors h) g)
           | None => g
           end in
  let g := set_tree (unlink h (tree g)) (log (EvUnlink h) g) in
  log (EvMemFree h) g.

(** remove_widget *)
Definition remove_widget (fuel : nat) (g : gui_t) (h : handle) : option gui_t :=
  do g <- remove_widget_owners fuel g h;
  Some (remove_widget_final g h).

(** The notification at the end of remove_widgets, gated by the static
    recursion level. *)
Definition sweep_notify (lvl : nat) (g : gui_t) : gui_t :=
  if GUI_CFG_OS g && Nat.eqb lvl 0 then log (EvMbox GUI_SYS_MBOX_TYPE_REMOVE) g else g.

(** Step 1 of the sweep: the remove bit on all direct children. *)
Definition flag_children (kids : list wtree) (g : gui_t) : gui_t :=
  fold_left
    (fun g k => on_widget (wroot k) (fun w => guii_widget_setflag w GUI_FLAG_REMOVE) g)
    kids g.

(** One round of the loop of remove_widgets, for the child [t]; the loop
    runs over the children as they were when it was entered (the C code
    reads the next pointer before it removes a node). *)
Fixpoint sweep_node (fuel : nat) (lvl : nat) (t : wtree) (g : gui_t) {struct t}
  : option gui_t :=
  match t with
  | WNode h kids =>
      if guii_widget_getflag (wmem g h) GUI_FLAG_REMOVE then
        do g <- (if guii_widget_allowchildren (wmem g h) then
                   let g := flag_children kids g in
                   do g <- (fix loop (ks : list wtree) (g : gui_t) {struct ks} : option gui_t :=
                              match ks with
                              | [] => Some g
                              | k :: r => do g <- sweep_node fuel (S lvl) k g; loop r g
                              end) kids g;
                   Some (sweep_notify (S lvl) g)
                 else Some g);
        remove_widget fuel g h
      else if guii_widget_allowchildren (wmem g h) then
        do g <- (fix loop (ks : list wtree) (g : gui_t) {struct ks} : option gui_t :=
                   match ks with
                   | [] => Some g
                   | k :: r => do g <- sweep_node fuel lvl k g; loop r g
                   end) kids g;
        Some (sweep_notify lvl g)
      else Some g
  end.

Fixpoint sweep_list (fuel : nat) (lvl : nat) (ks : list wtree) (g : gui_t) : option gui_t :=
  match ks with
  | [] => Some g
  | k :: r => do g <- sweep_node fuel lvl k g; sweep_list fuel lvl r g
  end.

(** remove_widgets, for the children [ks] of the parent it is called on. *)
Definition remove_widgets (fuel : nat) (lvl : nat) (ks : list wtree) (g : gui_t)
  : option gui_t :=
  do g <- sweep_list fuel lvl ks g; Some (sweep_notify lvl g).

(** gui_widget_executeremove *)
Definition gui_widget_executeremove (fuel : nat) (g : gui_t) : option (gui_t * Z) :=
  if flag_test (GUI_Flags g) GUI_FLAG_REMOVE then
    do g <- remove_widgets fuel 0 (tree g) g;
    Some (set_GUI_Flags (flag_clr (GUI_Flags g) GUI_FLAG_REMOVE) g, 1%Z)
  else Some (g, 0%Z).

(** *** Removal: the words of the specification *)

(** The type (or the override) of [h] vetoes the removal: it processes the
    can-remove query and answers 0. *)
Definition vetoes (g : gui_t) (h : handle) : bool :=
  let cr := snd (guii_widget_callback g h GUI_WC_Remove 1) in
  fst cr && (snd cr =? 0)%Z.

(** [h] on its own may be removed: it is not the desktop and is not vetoed. *)
Definition removable (g : gui_t) (h : handle) : bool :=
  negb (ptr_eqb (Some h) (gui_window_getdesktop g)) && negb (vetoes g h).

(** A widget and all its descendants, depth first, parents before
    children.  (Only widgets that allow children have any.) *)
Fixpoint descendants_or_self (g : gui_t) (t : wtree) {struct t} : list handle :=
  match t with
  | WNode h kids =>
      h :: (if guii_widget_allowchildren (wmem g h)
            then flat_map (descendants_or_self g) kids else [])
  end.

(** The widgets whose callback the check asks, given the widgets to
    check in depth-first order: it stops without asking at the desktop,
    and after asking at the first widget that vetoes. *)
Fixpoint queried (g : gui_t) (l : list handle) : list handle :=
  match l with
  | [] => []
  | x :: r =>
      if ptr_eqb (Some x) (gui_window_getdesktop g) then []
      else if vetoes g x then [x]
      else x :: queried g r
  end.


(** Equal in everything but the trace of calls made. *)
Definition same_but_trace (g g' : gui_t) : Prop :=
  wmem g' = wmem g /\ tree g' = tree g /\ Desktop g' = Desktop g /\
  FocusedWidget g' = FocusedWidget g /\ FocusedWidgetPrev g' = FocusedWidgetPrev g /\
  ActiveWidget g' = ActiveWidget g /\ ActiveWidgetPrev g' = ActiveWidgetPrev g /\
  WindowActive g' = WindowActive g /\ GUI_Flags g' = GUI_Flags g /\
  GUI_CFG_OS g' = GUI_CFG_OS g.

(** A window whose callback refuses to close: the desktop 1 holds the
    window 2, which holds the control 3 that vetoes. *)
Definition veto_callback : gui_widget_callback_t :=
  fun _ ctrl _ => match ctrl with GUI_WC_Remove => (true, 0%Z) | _ => (false, 0%Z) end.

Definition veto_gui : gui_t :=
  mk_gui
    (fun h => match h with
              | 1 => example_widget container_type None 0
              | 2 => example_widget container_type (Some 1) 0
              | 3 => mk_handle (mk_linkedlist None None) 0 plain_type (Some veto_callback)
                       (Some 2) 0 0xFF 0 None None None (mk_linkedlistroot None None)
              | _ => example_widget plain_type (Some 2) 0
              end)
    [WNode 1 [WNode 2 [WNode 4 []; WNode 3 []; WNode 5 []]]]
    (Some 1) None None None None (Some 1) 0 false [].

(** ** Dialogs (gui_dialog.c)

    The registry [ddlist] of the dialogs not yet dismissed is a generic
    list of its own; its entries are reached through the same cast as
    widgets are. *)

Record dissmissed_dialog_list_t : Type := mk_dissmissed {
  dl_list : gui_linkedlist_t;
  dl_id : Z;
  dl_h : ptr;
  dl_status : Z;
  dl_sem : bool;                   (* gui_sys_sem_isvalid(&l->sem) *)
  dl_ib : bool
}.

#[export] Instance Linked_dissmissed : Linked dissmissed_dialog_list_t :=
  {| list_of := dl_list;
     set_list := fun l a =>
       mk_dissmissed l (dl_id a) (dl_h a) (dl_status a) (dl_sem a) (dl_ib a);
     list_of_set_list := fun _ _ => eq_refl;
     set_list_set_list := fun _ _ _ => eq_refl;
     set_list_list_of := fun a => match a with mk_dissmissed _ _ _ _ _ _ => eq_refl end |}.

(** The state the dialog functions work on: the registry and the [GUI]
    singleton. *)
Record dialogs_t : Type := mk_dialogs {
  ddlist : lstate dissmissed_dialog_list_t;
  GUI : gui_t
}.

(** Modelled from the spec: the macro guii_widget_getid of gui_widget.h,
    not among the sources, reads the id of the node. *)
Definition guii_widget_getid (w : gui_handle) : Z := Id w.

(** add_to_active_dialogs; [l] is what GUI_MEMALLOC returned.  Only the
    fields [h] and [id] are written. *)
Definition add_to_active_dialogs (st : dialogs_t) (l : ptr) (h : handle) : dialogs_t * ptr :=
  match l with
  | Some e =>
      let g := log (EvMemAlloc e) (GUI st) in
      let d := ddlist st in
      let d := mk_lstate (root d)
                 (upd (mem d) e (fun a =>
                    mk_dissmissed (dl_list a) (guii_widget_getid (wmem g h)) (Some h)
                      (dl_status a) (dl_sem a) (dl_ib a))) in
      (mk_dialogs (gui_linkedlist_add_gen d e) g, Some e)
  | None => (st, None)
  end.

(** remove_from_active_dialogs *)
Definition remove_from_active_dialogs (st : dialogs_t) (l : handle) : dialogs_t :=
  mk_dialogs (fst (gui_linkedlist_remove_gen (ddlist st) (Some l)))
    (log (EvMemFreeEntry l) (GUI st)).

(** get_dialog: the loop over the registry, and the function. *)
Fixpoint get_dialog_loop (fuel : nat) (d : lstate dissmissed_dialog_list_t)
    (h : handle) (id : Z) (l : ptr) : option ptr :=
  match l with
  | None => Some None
  | Some e =>
      if ptr_eqb (dl_h (mem d e)) (Some h) && (dl_id (mem d e) =? id)%Z then Some (Some e)
      else
        match fuel with
        | O => None
        | S f => get_dialog_loop f d h id (gui_linkedlist_getnext_gen d false (Some e))
        end
  end.

Definition get_dialog (fuel : nat) (st : dialogs_t) (h : handle) : option ptr :=
  let id := guii_widget_getid (wmem (GUI st) h) in
  get_dialog_loop fuel (ddlist st) h id (gui_linkedlist_getnext_gen (ddlist st) true None).

(** [l->status = status] *)
Definition set_status (l : handle) (status : Z) (st : dialogs_t) : dialogs_t :=
  mk_dialogs
    (mk_lstate (root (ddlist st))
       (upd (mem (ddlist st)) l (fun a =>
          mk_dissmissed (dl_list a) (dl_id a) (dl_h a) status (dl_sem a) (dl_ib a))))
    (GUI st).

(** gui_dialog_dismiss, for a handle that passed the parameter check.
    The on-dismiss callback receives the stored status as its parameter. *)
Definition gui_dialog_dismiss (fuel : nat) (st : dialogs_t) (h : handle) (status : Z)
  : option (dialogs_t * Z) :=
  let ret := 0%Z in
  do l <- get_dialog fuel st h;
  match l with
  | Some l =>
      let st := set_status l status st in
      let g := fst (guii_widget_callback (GUI st) h GUI_WC_OnDismiss
                      (dl_status (mem (ddlist st) l))) in
      let st := mk_dialogs (ddlist st) g in
      let st := if GUI_CFG_OS g && (dl_ib (mem (ddlist st) l) && dl_sem (mem (ddlist st) l))
                then mk_dialogs (ddlist st) (log (EvSemRelease l) g)
                else remove_from_active_dialogs st l in
      do r <- guii_widget_remove fuel (GUI st) h;
      Some (mk_dialogs (ddlist st) (fst r), ret)
  | None => Some (st, ret)
  end.

(** The entry of the registry that get_dialog is to find. *)
Definition is_entry_of (st : dialogs_t) (h : handle) (e : handle) : bool :=
  ptr_eqb (dl_h (mem (ddlist st) e)) (Some h)
  && (dl_id (mem (ddlist st) e) =? guii_widget_getid (wmem (GUI st) h))%Z.

(** An example: the window 2 of the example screen registered as a
    dialog, in entry 7 of the registry memory. *)
Definition blank_entry : dissmissed_dialog_list_t :=
  mk_dissmissed (mk_linkedlist None None) 0 None 0 false false.

Definition example_dialogs : dialogs_t :=
  fst (add_to_active_dialogs
         (mk_dialogs (mk_lstate (mk_linkedlistroot None None) (fun _ => blank_entry))
            example_gui)
         (Some 7) 2).

(** *** Creation *)

(** gui_linkedlist_widgetadd on list contents: the new node is appended,
    walks up past the longest run of predecessors it may pass, then down
    past the longest run of successors it may pass. *)
Definition widgetadd_contents (m : handle -> gui_handle) (h : handle) (ks : list wtree)
  : list wtree :=
  let up k := up_ok (m h) (m (wroot k)) in
  let down k := down_ok (m h) (m (wroot k)) in
  let before := rev (drop_while up (rev ks)) in
  let after := rev (take_while up (rev ks)) in
  before ++ take_while down after ++ WNode h [] :: drop_while down after.

(** The children list of [p] replaced by [f] of it. *)
Fixpoint on_children (p : handle) (f : list wtree -> list wtree) (t : wtree) {struct t}
  : wtree :=
  match t with
  | WNode x kids =>
      if Nat.eqb x p then WNode x (f kids)
      else WNode x ((fix in_list (ks : list wtree) : list wtree :=
                       match ks with
                       | [] => []
                       | k :: r => on_children p f k :: in_list r
                       end) kids)
  end.

(** The list of [root] (of [GUI.root] when [root] is NULL) replaced. *)
Definition on_list (root : ptr) (f : list wtree -> list wtree) (ts : list wtree)
  : list wtree :=
  match root with
  | Some p => map (on_children p f) ts
  | None => f ts
  end.

Section Create.

(** [sizeof(gui_handle)], [sizeof(gui_handle_ROOT_t)] and the creation
    flag that forces the desktop as parent; none of the three has a value
    in the sources. *)
Variable sizeof_gui_handle : Z.
Variable sizeof_gui_handle_ROOT_t : Z.
Variable GUI_FLAG_WIDGET_CREATE_PARENT_DESKTOP : Z.

(** The memory of a new widget after [memset] and the first stores. *)
Definition created_widget (widget : gui_widget_t) (id : Z)
    (cb : option gui_widget_callback_t) : gui_handle :=
  mk_handle (mk_linkedlist None None) id widget cb None 0 0xFF 0 None None None
    (mk_linkedlistroot None None).

Definition with_parent (p : ptr) (w : gui_handle) : gui_handle :=
  mk_handle (llist w) (Id w) (widget w) (callback w) p (zindex w)
    (transparency w) (flags w) (text w) (timer w) (colors w) (root_list w).

(** The second half of guii_widget_create, after the pre-init callback
    has let the widget pass.  Size and position are set while
    invalidation is ignored and appear as requests in the trace, and so
    do the two invalidations of the new widget.  What a request writes
    depends on the geometry of the widgets, which the source keeps in
    floating point and which appears only in the invalidation part
    below, through the accessors; it writes redraw bits of widgets and
    of GUI and the dirty rectangle, and nothing else.  As everywhere in
    the engine these are not written to the widget memory here, which
    therefore stands for the memory of the program up to redraw bits.
    The font is not represented. *)
Definition create_finish (g : gui_t) (h : handle) : gui_t :=
  let g := on_widget h (fun w => guii_widget_setflag w GUI_FLAG_IGNORE_INVALIDATE) g in
  let g := log (EvSetSize h) g in
  let g := log (EvSetPosition h) g in
  let g := on_widget h (fun w => guii_widget_clrflag w GUI_FLAG_IGNORE_INVALIDATE) g in
  let g := guii_widget_invalidate g h in
  let (g, r) := guii_widget_callback g h GUI_WC_ExcludeLinkedList 0 in
  let g := if (snd r =? 0)%Z
           then set_tree (on_list (parent (wmem g h))
                            (widgetadd_contents (wmem g) h) (tree g)) g
           else g in
  let g := fst (guii_widget_callback g h GUI_WC_Init 0) in
  let g := guii_widget_invalidate g h in
  let g := match parent (wmem g h) with
           | Some p' =>
               fst (guii_widget_callback g p' GUI_WC_ChildWidgetCreated (Z.of_nat h))
           | None => g
           end in
  if GUI_CFG_OS g then log (EvMbox GUI_SYS_MBOX_TYPE_WIDGET_CREATED) g else g.

(** guii_widget_create.  [alloc] is what GUI_MEMALLOC returns. *)
Definition guii_widget_create (g : gui_t) (alloc : ptr) (widget : gui_widget_t) (id : Z)
    (parent_arg : ptr) (cb : option gui_widget_callback_t) (create_flags : Z)
  : gui_t * ptr :=
  if (widget_size widget <? sizeof_gui_handle)%Z
     || (flag_test (widget_flags widget) GUI_FLAG_WIDGET_ALLOW_CHILDREN
         && (widget_size widget <? sizeof_gui_handle_ROOT_t)%Z)
  then (g, None)
  else
    match alloc with
    | None => (g, None)
    | Some h =>
        let g := log (EvMemAlloc h) g in
        let g := on_widget h (fun _ => created_widget widget id cb) g in
        let p :=
          if guii_widget_isdialogbase (wmem g h)
             || flag_test create_flags GUI_FLAG_WIDGET_CREATE_PARENT_DESKTOP
          then gui_window_getdesktop g
          else
            match parent_arg with
            | Some p' => if guii_widget_allowchildren (wmem g p') then parent_arg
                         else WindowActive g
            | None => WindowActive g
            end in
        let g := on_widget h (with_parent p) g in
        let (g, r) := guii_widget_callback g h GUI_WC_PreInit 1 in
        if (snd r =? 0)%Z then (log (EvMemFree h) g, None)
        else (create_finish g h, Some h)
    end.

(** The callback that answers for a new widget: the override given to
    create, or that of the type. *)
Definition answering_callback (widget : gui_widget_t) (cb : option gui_widget_callback_t)
  : gui_widget_callback_t :=
  match cb with Some f => f | None => widget_callback widget end.

(** The four failure cases of create. *)
Definition size_too_small (widget : gui_widget_t) : bool :=
  (widget_size widget <? sizeof_gui_handle)%Z.

Definition container_size_too_small (widget : gui_widget_t) : bool :=
  flag_test (widget_flags widget) GUI_FLAG_WIDGET_ALLOW_CHILDREN
  && (widget_size widget <? sizeof_gui_handle_ROOT_t)%Z.

Definition preinit_vetoes (widget : gui_widget_t) (cb : option gui_widget_callback_t)
    (h : handle) : bool :=
  (snd (answering_callback widget cb h GUI_WC_PreInit 1) =? 0)%Z.

Definition create_fails (alloc : ptr) (widget : gui_widget_t)
    (cb : option gui_widget_callback_t) : bool :=
  size_too_small widget || container_size_too_small widget
  || match alloc with
     | None => true
     | Some h => preinit_vetoes widget cb h
     end.

End Create.

(** Every handle linked below the nodes [ts]. *)
Fixpoint handles_of (t : wtree) {struct t} : list handle :=
  match t with
  | WNode h kids => h :: flat_map handles_of kids
  end.

(** A type that refuses its own creation. *)
Definition refusing_type : gui_widget_t :=
  mk_widget 160 0
    (fun _ ctrl r => match ctrl with GUI_WC_PreInit => (true, 0%Z) | _ => (false, r) end).

(** ** gui_widget.c: invalidation

    invalidate_widget reads the siblings of a widget by their link cells
    and the ancestors by the parent pointers; it writes the redraw bits
    of widgets, the flags of [GUI] and the rectangle [GUI.Display]. *)

Record gui_display_t : Type := mk_display { X1 : Z; Y1 : Z; X2 : Z; Y2 : Z }.

(** Coordinates are of type [gui_dim_t], which gui_defs.h declares as
    [int16_t].  The type [gui_idim_t] of the variables of
    get_lcd_abs_position_and_visible_width_height has no declaration
    among the sources; set_clipping_region passes the addresses of
    [gui_dim_t] variables for it, so it is the same type.  [to_int16] is
    the value a 16-bit variable holds after a store: the value reduced
    modulo 2^16 into the range of [int16_t], as the compilers for the
    targets of the library do. *)
Definition to_int16 (z : Z) : Z := ((z + 2 ^ 15) mod 2 ^ 16 - 2 ^ 15)%Z.

Record inval_t : Type := mk_inval {
  inv_widgets : handle -> gui_handle;
  inv_Flags : Z;                    (* GUI.Flags *)
  inv_Display : gui_display_t       (* GUI.Display *)
}.

(** Modelled from the spec: the macro guii_widget_istransparent of
    gui_widget.h, not among the sources, says whether a node is
    transparent; create stores 0xFF for a node that is not. *)
Definition guii_widget_istransparent (w : gui_handle) : bool := (transparency w <? 0xFF)%Z.

(** Modelled from the spec: gui_linkedlist_iswidgetlast, not among the
    sources, says whether a node is last among its siblings, that is,
    has nothing stacked above it. *)
Definition gui_linkedlist_iswidgetlast (m : handle -> gui_handle) (h : ptr) : bool :=
  match h with
  | Some x => match next (llist (m x)) with None => true | Some _ => false end
  | None => true
  end.

(** [guii_widget_setflag(h, GUI_FLAG_REDRAW)] *)
Definition set_redraw (h : handle) (st : inval_t) : inval_t :=
  mk_inval (upd (inv_widgets st) h (fun w => guii_widget_setflag w GUI_FLAG_REDRAW))
    (inv_Flags st) (inv_Display st).

(** [h->Parent] and [h->list.next]. *)
Definition parent_of (m : handle -> gui_handle) (x : handle) : ptr := parent (m x).
Definition next_of (m : handle -> gui_handle) (x : handle) : ptr := next (llist (m x)).

(** The handles reached from [p] by [step], in order; [None]: out of fuel. *)
Fixpoint walk (step : handle -> ptr) (fuel : nat) (p : ptr) : option (list handle) :=
  match p with
  | None => Some []
  | Some x =>
      match fuel with
      | O => None
      | S f => option_map (cons x) (walk step f (step x))
      end
  end.

Section Invalidation.

(** The geometry of a widget: what guii_widget_getabsolutex and the like
    return.  They read position, size, padding and scroll, which
    invalidation does not write. *)
Variable guii_widget_getabsolutex : handle -> Z.
Variable guii_widget_getabsolutey : handle -> Z.
Variable guii_widget_getwidth : handle -> Z.
Variable guii_widget_getheight : handle -> Z.
Variable guii_widget_getparentabsolutex : handle -> Z.
Variable guii_widget_getparentabsolutey : handle -> Z.
Variable guii_widget_getparentinnerwidth : handle -> Z.
Variable guii_widget_getparentinnerheight : handle -> Z.

(** The macro __GUI_RECT_MATCH (do two rectangles overlap?) and the
    configuration switch for transparency; neither is in the sources. *)
Variable GUI_RECT_MATCH : gui_display_t -> gui_display_t -> bool.
Variable GUI_CFG_USE_TRANSPARENCY : bool.

(** One round of the loop of
    get_lcd_abs_position_and_visible_width_height.  The variables [x],
    [y], [wi] and [hi] and the four results hold 16 bits: what is stored
    in them is reduced by [to_int16].  The sums [x + wi] and [y + hi]
    of the comparisons are formed in [int] and not reduced; the same
    sums are reduced when they are stored. *)
Definition clip_to_parent (h : handle) (r : gui_display_t) : gui_display_t :=
  let x := to_int16 (guii_widget_getparentabsolutex h) in
  let y := to_int16 (guii_widget_getparentabsolutey h) in
  let wi := to_int16 (guii_widget_getparentinnerwidth h) in
  let hi := to_int16 (guii_widget_getparentinnerheight h) in
  mk_display (if (X1 r <? x)%Z then x else X1 r)
             (if (Y1 r <? y)%Z then y else Y1 r)
             (if (X2 r >? x + wi)%Z then to_int16 (x + wi) else X2 r)
             (if (Y2 r >? y + hi)%Z then to_int16 (y + hi) else Y2 r).

Fixpoint visible_loop (fuel : nat) (m : handle -> gui_handle) (h : ptr) (r : gui_display_t)
  : option gui_display_t :=
  match h with
  | None => Some r
  | Some x =>
      match fuel with
      | O => None
      | S f => visible_loop f m (parent (m x)) (clip_to_parent x r)
      end
  end.

(** get_lcd_abs_position_and_visible_width_height, with 16-bit variables
    and results as in its loop: the right and the bottom edge are the
    sums [x + wi] and [y + hi] reduced to 16 bits. *)
Definition get_lcd_abs_position_and_visible_width_height (fuel : nat)
    (m : handle -> gui_handle) (h : handle) : option gui_display_t :=
  let x := to_int16 (guii_widget_getabsolutex h) in
  let y := to_int16 (guii_widget_getabsolutey h) in
  let wi := to_int16 (guii_widget_getwidth h) in
  let hi := to_int16 (guii_widget_getheight h) in
  visible_loop fuel m (Some h) (mk_display x y (to_int16 (x + wi)) (to_int16 (y + hi))).

(** The rectangle [d] grown to hold [r]. *)
Definition grow (d r : gui_display_t) : gui_display_t :=
  mk_display (if (X1 d >? X1 r)%Z then X1 r else X1 d)
             (if (Y1 d >? Y1 r)%Z then Y1 r else Y1 d)
             (if (X2 d <? X2 r)%Z then X2 r else X2 d)
             (if (Y2 d <? Y2 r)%Z then Y2 r else Y2 d).

(** set_clipping_region *)
Definition set_clipping_region (fuel : nat) (st : inval_t) (h : handle) : option inval_t :=
  do r <- get_lcd_abs_position_and_visible_width_height fuel (inv_widgets st) h;
  Some (mk_inval (inv_widgets st) (inv_Flags st) (grow (inv_Display st) r)).

(** The inner loop of invalidate_widget: the siblings [h2] after [h1],
    whose visible rectangle is [r1]. *)
Fixpoint overlap_loop (n fuel : nat) (st : inval_t) (r1 : gui_display_t) (h2 : ptr)
  : option inval_t :=
  match h2 with
  | None => Some st
  | Some x =>
      match fuel with
      | O => None
      | S f =>
          do r2 <- get_lcd_abs_position_and_visible_width_height n (inv_widgets st) x;
          let st := if guii_widget_getflag (inv_widgets st x) GUI_FLAG_REDRAW
                       || negb (GUI_RECT_MATCH r1 r2)
                    then st else set_redraw x st in
          overlap_loop n f st r1 (next (llist (inv_widgets st x)))
      end
  end.

(** The outer loop: [h1] runs from the widget over its later siblings. *)
Fixpoint siblings_loop (n fuel : nat) (st : inval_t) (h1 : ptr) : option inval_t :=
  match h1 with
  | None => Some st
  | Some x =>
      match fuel with
      | O => None
      | S f =>
          do r1 <- get_lcd_abs_position_and_visible_width_height n (inv_widgets st) x;
          do st <- overlap_loop n n st r1 (next (llist (inv_widgets st x)));
          siblings_loop n f st (next (llist (inv_widgets st x)))
      end
  end.

(** The last loop: the first transparent widget from [h] upwards. *)
Fixpoint first_transparent (fuel : nat) (m : handle -> gui_handle) (h : ptr)
  : option ptr :=
  match h with
  | None => Some None
  | Some x =>
      if guii_widget_istransparent (m x) then Some (Some x)
      else
        match fuel with
        | O => None
        | S f => first_transparent f m (parent (m x))
        end
  end.

(** invalidate_widget; a NULL handle fails the parameter check.  [n]
    bounds the loops, [depth] the recursion. *)
Fixpoint invalidate_widget (n depth : nat) (st : inval_t) (h : ptr) (setclipping : bool)
  : option (inval_t * Z) :=
  match h with
  | None => Some (st, 0%Z)
  | Some x =>
      match depth with
      | O => None
      | S d =>
          if guii_widget_getflag (inv_widgets st x) GUI_FLAG_IGNORE_INVALIDATE
          then Some (st, 0%Z)
          else
            let st := set_redraw x st in
            let st := mk_inval (inv_widgets st) (flag_set (inv_Flags st) GUI_FLAG_REDRAW)
                        (inv_Display st) in
            do st <- (if setclipping then set_clipping_region n st x else Some st);
            do st <- (if GUI_CFG_USE_TRANSPARENCY
                         && guii_widget_istransparent (inv_widgets st x)
                      then option_map fst
                             (invalidate_widget n d st (parent (inv_widgets st x)) false)
                      else Some st);
            do st <- siblings_loop n n st (Some x);
            do st <- (match parent (inv_widgets st x) with
                      | Some p =>
                          if negb (gui_linkedlist_iswidgetlast (inv_widgets st) (Some p))
                          then option_map fst (invalidate_widget n d st (Some p) false)
                          else Some st
                      | None => Some st
                      end);
            do st <- (if GUI_CFG_USE_TRANSPARENCY then
                        do t <- first_transparent n (inv_widgets st)
                                  (parent (inv_widgets st x));
                        match t with
                        | Some _ => option_map fst (invalidate_widget n d st t false)
                        | None => Some st
                        end
                      else Some st);
            Some (st, 1%Z)
      end
  end.

(** What the loops need in order to end within [n] rounds: the parent
    chain of the widget has at most [n] nodes, each of them has at most
    [n] siblings from itself on, and these have parent chains of at most
    [n] nodes. *)
Definition parents_end (n : nat) (m : handle -> gui_handle) (z : handle) : bool :=
  match walk (parent_of m) n (Some z) with Some _ => true | None => false end.

Definition siblings_end (n : nat) (m : handle -> gui_handle) (y : handle) : bool :=
  match walk (next_of m) n (Some y) with
  | Some l => forallb (parents_end n m) l
  | None => false
  end.

Definition loops_end (n : nat) (m : handle -> gui_handle) (h : handle) : bool :=
  match walk (parent_of m) n (Some h) with
  | Some c => forallb (siblings_end n m) c
  | None => false
  end.

(** The later siblings of [h]. *)
Definition later_siblings (n : nat) (m : handle -> gui_handle) (h : handle) : list handle :=
  match walk (next_of m) n (next_of m h) with
  | Some l => l
  | None => []
  end.

(** [d] holds [r]. *)
Definition contains (d r : gui_display_t) : Prop :=
  (X1 d <= X1 r /\ Y1 d <= Y1 r /\ X2 r <= X2 d /\ Y2 r <= Y2 d)%Z.

(** The visible rectangle as the specification words it, in unbounded
    integers: the absolute rectangle of the node, clipped against the
    inner rectangle of the parent of each node [x] of its parent chain
    [c]. *)
Definition clip_exact (r : gui_display_t) (x : handle) : gui_display_t :=
  mk_display
    (Z.max (X1 r) (guii_widget_getparentabsolutex x))
    (Z.max (Y1 r) (guii_widget_getparentabsolutey x))
    (Z.min (X2 r) (guii_widget_getparentabsolutex x + guii_widget_getparentinnerwidth x))
    (Z.min (Y2 r) (guii_widget_getparentabsolutey x + guii_widget_getparentinnerheight x)).

Definition visible_rect (c : list handle) (h : handle) : gui_display_t :=
  fold_left clip_exact c
    (mk_display (guii_widget_getabsolutex h) (guii_widget_getabsolutey h)
       (guii_widget_getabsolutex h + guii_widget_getwidth h)
       (guii_widget_getabsolutey h + guii_widget_getheight h)).

(** [z] is a value of [int16_t]. *)
Definition fits16 (z : Z) : Prop := (- 2 ^ 15 <= z < 2 ^ 15)%Z.

(** No coordinate and no edge that get_lcd_abs_position_and_visible_width_height
    forms for [h], with parent chain [c], leaves the range of 16 bits. *)
Definition edges_fit (c : list handle) (h : handle) : Prop :=
  fits16 (guii_widget_getabsolutex h) /\ fits16 (guii_widget_getabsolutey h) /\
  fits16 (guii_widget_getwidth h) /\ fits16 (guii_widget_getheight h) /\
  fits16 (guii_widget_getabsolutex h + guii_widget_getwidth h) /\
  fits16 (guii_widget_getabsolutey h + guii_widget_getheight h) /\
  forall x, In x c ->
    fits16 (guii_widget_getparentabsolutex x) /\ fits16 (guii_widget_getparentabsolutey x) /\
    fits16 (guii_widget_getparentinnerwidth x) /\
    fits16 (guii_widget_getparentinnerheight x) /\
    fits16 (guii_widget_getparentabsolutex x + guii_widget_getparentinnerwidth x) /\
    fits16 (guii_widget_getparentabsolutey x + guii_widget_getparentinnerheight x).

End Invalidation.

(** An example for invalidation: the desktop 1 (100 by 100) holds the
    controls 2, 3 and 4, stacked in this order; 3 overlaps 2, 4 does
    not.  Nothing is marked for redraw and the dirty rectangle is empty. *)
Definition example_rect_match (a b : gui_display_t) : bool :=
  negb ((X1 a >? X2 b)%Z || (Y1 a >? Y2 b)%Z || (X1 b >? X2 a)%Z || (Y1 b >? Y2 a)%Z).

Definition example_position (h : handle) : Z :=
  match h with 2 => 10 | 3 => 20 | 4 => 60 | _ => 0 end.

Definition example_extent (h : handle) : Z :=
  match h with 1 => 100 | 2 => 20 | 3 => 20 | 4 => 10 | _ => 0 end.

Definition example_inval : inval_t :=
  mk_inval
    (fun h =>
       match h with
       | 1 => example_widget container_type None 0
       | 2 => mk_handle (mk_linkedlist None (Some 3)) 0 plain_type None (Some 1) 0 0xFF 0
                None None None (mk_linkedlistroot None None)
       | 3 => mk_handle (mk_linkedlist (Some 2) (Some 4)) 0 plain_type None (Some 1) 0 0xFF 0
                None None None (mk_linkedlistroot None None)
       | 4 => mk_handle (mk_linkedlist (Some 3) None) 0 plain_type None (Some 1) 0 0xFF 0
                None None None (mk_linkedlistroot None None)
       | _ => example_widget plain_type None 0
       end)
    0 (mk_display 0x7FFF 0x7FFF (-0x8000) (-0x8000)).

Definition example_invalidate (h : handle) : option (inval_t * Z) :=
  invalidate_widget example_position example_position example_extent example_extent
    (fun _ => 0%Z) (fun _ => 0%Z) (fun _ => 100%Z) (fun _ => 100%Z)
    example_rect_match true 3 3 example_inval (Some h) true.

(** *** The sweep: the words of the specification *)

(** The nodes the sweep frees below and at [t], in the order in which it
    frees them (children before their parent).  [inherited]: an ancestor
    is being removed, so the node is flagged when the sweep reaches it. *)
Fixpoint doomed (inherited : bool) (m : handle -> gui_handle) (t : wtree) {struct t}
  : list handle :=
  match t with
  | WNode h kids =>
      let gone := inherited || guii_widget_getflag (m h) GUI_FLAG_REMOVE in
      (if guii_widget_allowchildren (m h) then flat_map (doomed gone m) kids else [])
      ++ (if gone then [h] else [])
  end.

(** What finalizing the node [h] does, in order: it and its parent are
    invalidated, the dynamic text buffer, the timer and the colors are
    released, the node is unlinked and freed. *)
Definition finalize_events (m : handle -> gui_handle) (h : handle) : list event :=
  [EvInvalidateWithParent h]
  ++ match text (m h) with
     | Some _ =>
         if guii_widget_getflag (m h) GUI_FLAG_DYNAMICTEXTALLOC
         then [EvMemFreeText h; EvInvalidate h; EvCallback h GUI_WC_TextChanged]
         else []
     | None => []
     end
  ++ match timer (m h) with Some _ => [EvTimerRemove h] | None => [] end
  ++ match colors (m h) with Some _ => [EvMemFreeColors h] | None => [] end
  ++ [EvUnlink h; EvMemFree h].

(** All the sweep does below and at [t], in order. *)
Fixpoint sweep_events (inherited : bool) (m : handle -> gui_handle) (os : bool) (lvl : nat)
    (t : wtree) {struct t} : list event :=
  match t with
  | WNode h kids =>
      let gone := inherited || guii_widget_getflag (m h) GUI_FLAG_REMOVE in
      (if guii_widget_allowchildren (m h)
       then flat_map (sweep_events gone m os (if gone then S lvl else lvl)) kids
       else [])
      ++ (if gone then finalize_events m h
          else if guii_widget_allowchildren (m h) && (os && Nat.eqb lvl 0)
               then [EvMbox GUI_SYS_MBOX_TYPE_REMOVE] else [])
  end.

(** Ownership handed to the parent, or dropped, as the nodes of [D] are
    finalized one after the other. *)
Definition redirect (m : handle -> gui_handle) (D : list handle) (p : ptr) : ptr :=
  fold_left (fun p x => if ptr_eqb p (Some x) then parent (m x) else p) D p.

Definition drop_owner (D : list handle) (p : ptr) : ptr :=
  fold_left (fun p x => if ptr_eqb p (Some x) then None else p) D p.

(** The lists after the nodes of [D] were unlinked one after the other. *)
Definition prune (D : list handle) (ts : list wtree) : list wtree :=
  fold_left (fun ts x => unlink x ts) D ts.

(** The nodes freed according to a trace. *)
Definition freed (tr : list event) : list handle :=
  flat_map (fun e => match e with EvMemFree x => [x] | _ => [] end) tr.

(** The parent pointers agree with the lists: [pp] is the parent of the
    root of [t], and every node is the parent of its children. *)
Fixpoint parents_ok (m : handle -> gui_handle) (pp : ptr) (t : wtree) {struct t} : bool :=
  match t with
  | WNode h kids => ptr_eqb (parent (m h)) pp && forallb (parents_ok m (Some h)) kids
  end.

(** The lists are well formed for the sweep: no widget is linked twice,
    the parent pointers agree with the lists, and no widget of the root
    list is flagged for removal. *)
Definition sweep_ready (g : gui_t) : Prop :=
  NoDup (flat_map handles_of (tree g)) /\
  forallb (parents_ok (wmem g) None) (tree g) = true /\
  forallb (fun t => negb (guii_widget_getflag (wmem g (wroot t)) GUI_FLAG_REMOVE))
    (tree g) = true.

(** Only widgets that allow children have children. *)
Fixpoint containers_ok (m : handle -> gui_handle) (t : wtree) {struct t} : bool :=
  match t with
  | WNode h kids =>
      match kids with [] => true | _ :: _ => guii_widget_allowchildren (m h) end
      && forallb (containers_ok m) kids
  end.

(** After guii_widget_remove: [h] is the one widget flagged for removal. *)
Definition only_flagged (g : gui_t) (h : handle) : Prop :=
  In h (flat_map handles_of (tree g)) /\
  forall x, In x (flat_map handles_of (tree g)) ->
    (guii_widget_getflag (wmem g x) GUI_FLAG_REMOVE = true <-> x = h).
(** The screen of the example once the removal of window 2 is requested. *)
Definition flagged_gui : gui_t :=
  match guii_widget_remove 11 example_gui 2 with
  | Some (g, _) => g
  | None => example_gui
  end.
(** *** Examples of lists

    A list of three plain link cells, 1, 2 and 3, as three calls of
    gui_linkedlist_add_gen leave it. *)
Definition example_list : lstate gui_linkedlist_t :=
  run_ops (empty_list (fun _ => mk_linkedlist None None)) [OpAdd 1; OpAdd 2; OpAdd 3].

(** ** gui_widget.c: the z-index of a widget *)

(** [h->ZIndex = zindex] *)
Definition with_zindex (z : Z) (w : gui_handle) : gui_handle :=
  mk_handle (llist w) (Id w) (widget w) (callback w) (parent w) z
    (transparency w) (flags w) (text w) (timer w) (colors w) (root_list w).

(** guii_widget_setzindex, on the sibling list [s] of the widget.
    [cnt0] is the indeterminate start of the counter of
    gui_linkedlist_widgetmovetotop; both counts are discarded. *)
Definition guii_widget_setzindex (fuel : nat) (cnt0 : Z) (s : wlist) (h : handle) (z : Z)
  : option (wlist * Z) :=
  let ret := 1%Z in
  if negb (zindex (mem s h) =? z)%Z then
    let current := zindex (mem s h) in
    let s := mk_lstate (root s) (upd (mem s) h (with_zindex z)) in
    if (z <? current)%Z then
      do r <- gui_linkedlist_widgetmovetotop fuel cnt0 s h; Some (fst r, ret)
    else
      do r <- gui_linkedlist_widgetmovetobottom fuel s h; Some (fst r, ret)
  else Some (s, ret).

(** The stacking rule when z-indexes are in use: along the list the
    group does not decrease, and among plain widgets and among
    containers the z-index does not decrease.  (The walks never compare
    the z-indexes of two dialog bases.) *)
Definition stacking_rule (a b : gui_handle) : bool :=
  (group a <=? group b) &&
  (if (group a =? group b) && (group a <? 2) then (zindex a <=? zindex b)%Z else true).

(** Every widget of [l] obeys the rule with every later one. *)
Fixpoint stacked (m : handle -> gui_handle) (l : list handle) : Prop :=
  match l with
  | [] => True
  | x :: r => (forall y, In y r -> stacking_rule (m x) (m y) = true) /\ stacked m r
  end.

(** Three controls with z-indexes 0, 5 and 9 and a window behind them. *)
Definition example_stack : wlist :=
  mk_lstate (mk_linkedlistroot (Some 1) (Some 4))
    (fun h =>
       match h with
       | 1 => mk_handle (mk_linkedlist None (Some 2)) 0 plain_type None None 0 0xFF 0
                None None None (mk_linkedlistroot None None)
       | 2 => mk_handle (mk_linkedlist (Some 1) (Some 3)) 0 plain_type None None 5 0xFF 0
                None None None (mk_linkedlistroot None None)
       | 3 => mk_handle (mk_linkedlist (Some 2) (Some 4)) 0 plain_type None None 9 0xFF 0
                None None None (mk_linkedlistroot None None)
       | 4 => mk_handle (mk_linkedlist (Some 3) None) 0 container_type None None 0 0xFF 0
                None None None (mk_linkedlistroot None None)
       | _ => fresh_widget plain_type
       end).

(** ** gui_widget.c: the focus path and the active widget *)

(** The focus flags mark the chain [c]: a widget other than the first
    widget of the root list carries the focus flag exactly when it is on
    [c].  (gui_widget_focus_clear says of the first widget that it is
    always in focus; its flag is never written.) *)
Definition focus_marks (g : gui_t) (c : list handle) : Prop :=
  forall x, root_first g <> Some x ->
    (guii_widget_isfocused (wmem g x) = true <-> In x c).

(** gui_widget_active_clear *)
Definition gui_widget_active_clear (g : gui_t) : gui_t :=
  match ActiveWidget g with
  | Some a =>
      let g := fst (guii_widget_callback g a GUI_WC_ActiveOut 0) in
      let g := on_widget a (fun w =>
                 guii_widget_clrflag w (Z.lor GUI_FLAG_ACTIVE GUI_FLAG_TOUCH_MOVE)) g in
      let g := set_ActiveWidgetPrev (ActiveWidget g) g in
      set_ActiveWidget None g
  | None => g
  end.

(** gui_widget_active_set *)
Definition gui_widget_active_set (g : gui_t) (h : ptr) : gui_t :=
  let g := gui_widget_active_clear g in
  let g := set_ActiveWidget h g in
  match h with
  | Some x =>
      let g := on_widget x (fun w => guii_widget_setflag w GUI_FLAG_ACTIVE) g in
      fst (guii_widget_callback g x GUI_WC_ActiveIn 0)
  | None => g
  end.

(** The active flag marks the active widget and no other. *)
Definition active_marks (g : gui_t) : Prop :=
  forall x, guii_widget_getflag (wmem g x) GUI_FLAG_ACTIVE = true <-> ActiveWidget g = Some x.

(** ** gui_widget.c: widgets by id *)

(** One round of the loop of get_widget_by_id, for the widget at the
    root of [t]: the widget itself, then, when [deep] is set and the
    widget allows children, the recursive call on its list.  [None]:
    the loop goes on with the next sibling. *)
Fixpoint get_widget_by_id_round (m : handle -> gui_handle) (id : Z) (deep : bool)
    (t : wtree) {struct t} : ptr :=
  match t with
  | WNode h kids =>
      if (guii_widget_getid (m h) =? id)%Z then Some h
      else if deep && guii_widget_allowchildren (m h) then
        (fix loop (ks : list wtree) : ptr :=
           match ks with
           | [] => None
           | k :: r =>
               match get_widget_by_id_round m id deep k with
               | Some x => Some x
               | None => loop r
               end
           end) kids
      else None
  end.

(** get_widget_by_id, for the contents [ks] of the list of [parent]
    (of [GUI.root] when [parent] is NULL). *)
Fixpoint get_widget_by_id (m : handle -> gui_handle) (id : Z) (deep : bool)
    (ks : list wtree) : ptr :=
  match ks with
  | [] => None
  | k :: r =>
      match get_widget_by_id_round m id deep k with
      | Some x => Some x
      | None => get_widget_by_id m id deep r
      end
  end.

(** guii_widget_getbyid *)
Definition guii_widget_getbyid (g : gui_t) (id : Z) : ptr :=
  get_widget_by_id (wmem g) id true (tree g).

(** The widgets the search looks at, in the order in which it compares
    their ids: depth first, a widget before its children, and below a
    widget only when the search is deep and the widget allows children. *)
Fixpoint searched (m : handle -> gui_handle) (deep : bool) (t : wtree) {struct t}
  : list handle :=
  match t with
  | WNode h kids =>
      h :: (if deep && guii_widget_allowchildren (m h)
            then flat_map (searched m deep) kids else [])
  end.

(** ** gui_widget.c: the public removal *)

(** gui_widget_remove, for a handle variable that holds [h]; the result
    holds the handle variable after the call.  (The macros __GUI_ENTER
    and __GUI_LEAVE around the call are not among the sources.) *)
Definition gui_widget_remove (fuel : nat) (g : gui_t) (h : handle)
  : option (gui_t * ptr * Z) :=
  do r <- guii_widget_remove fuel g h;
  Some (fst r, Some h, 1%Z).

(** ** gui_widget.c: the invalidation calls

    In the engine above guii_widget_invalidate and
    guii_widget_invalidatewithparent were requests; here they are the
    functions themselves, on the state of the invalidation.  The module
    keeps the two readings apart. *)

Definition GUI_FLAG_HIDDEN : Z := 0x00000020.
Definition GUI_FLAG_3D : Z := 0x00000080.

(** The state of the invalidation, and how many times the message
    [msg_widget_invalidate] was put into [GUI.OS.mbox]. *)
Record redraw_t : Type := mk_redraw {
  rd_inval : inval_t;
  rd_posted : nat
}.

(** Update of one widget. *)
Definition on_redraw (h : handle) (f : gui_handle -> gui_handle) (s : redraw_t) : redraw_t :=
  mk_redraw
    (mk_inval (upd (inv_widgets (rd_inval s)) h f) (inv_Flags (rd_inval s))
       (inv_Display (rd_inval s)))
    (rd_posted s).

Module Redraw.
Section Calls.

Variable guii_widget_getabsolutex : handle -> Z.
Variable guii_widget_getabsolutey : handle -> Z.
Variable guii_widget_getwidth : handle -> Z.
Variable guii_widget_getheight : handle -> Z.
Variable guii_widget_getparentabsolutex : handle -> Z.
Variable guii_widget_getparentabsolutey : handle -> Z.
Variable guii_widget_getparentinnerwidth : handle -> Z.
Variable guii_widget_getparentinnerheight : handle -> Z.
Variable GUI_RECT_MATCH : gui_display_t -> gui_display_t -> bool.
Variable GUI_CFG_USE_TRANSPARENCY : bool.
Variable GUI_CFG_OS : bool.

(** invalidate_widget with the geometry and the configuration at hand;
    [n] bounds its loops and its recursion. *)
Definition invalidate (n : nat) (st : inval_t) (h : handle) (setclipping : bool)
  : option (inval_t * Z) :=
  invalidate_widget guii_widget_getabsolutex guii_widget_getabsolutey
    guii_widget_getwidth guii_widget_getheight
    guii_widget_getparentabsolutex guii_widget_getparentabsolutey
    guii_widget_getparentinnerwidth guii_widget_getparentinnerheight
    GUI_RECT_MATCH GUI_CFG_USE_TRANSPARENCY n n st (Some h) setclipping.

(** The condition under which guii_widget_invalidate invalidates the
    parent as well. *)
Definition wants_parent (w : gui_handle) : bool :=
  guii_widget_getflag w GUI_FLAG_WIDGET_INVALIDATE_PARENT
  || guii_widget_getcoreflag w GUI_FLAG_WIDGET_INVALIDATE_PARENT
  || (GUI_CFG_USE_TRANSPARENCY && guii_widget_istransparent w).

(** guii_widget_invalidate *)
Definition guii_widget_invalidate (n : nat) (s : redraw_t) (h : handle)
  : option (redraw_t * Z) :=
  do r <- invalidate n (rd_inval s) h true;
  let (st, ret) := r in
  do st <- (if wants_parent (inv_widgets st h) then
              match parent (inv_widgets st h) with
              | Some p => option_map fst (invalidate n st p false)
              | None => Some st
              end
            else Some st);
  Some (mk_redraw st (if GUI_CFG_OS then S (rd_posted s) else rd_posted s), ret).

(** guii_widget_invalidatewithparent *)
Definition guii_widget_invalidatewithparent (n : nat) (s : redraw_t) (h : handle)
  : option (redraw_t * Z) :=
  do r <- invalidate n (rd_inval s) h true;
  let st := fst r in
  do st <- (match parent (inv_widgets st h) with
            | Some p => option_map fst (invalidate n st p false)
            | None => Some st
            end);
  Some (mk_redraw st (rd_posted s), 1%Z).

(** guii_widget_set3dstyle; [enable] is a [uint8_t] read as a truth value. *)
Definition guii_widget_set3dstyle (n : nat) (s : redraw_t) (h : handle) (enable : Z)
  : option (redraw_t * Z) :=
  let w := inv_widgets (rd_inval s) h in
  if negb (enable =? 0)%Z && negb (guii_widget_getflag w GUI_FLAG_3D) then
    let s := on_redraw h (fun w => guii_widget_setflag w GUI_FLAG_3D) s in
    do r <- guii_widget_invalidate n s h; Some (fst r, 1%Z)
  else if (enable =? 0)%Z && guii_widget_getflag w GUI_FLAG_3D then
    let s := on_redraw h (fun w => guii_widget_clrflag w GUI_FLAG_3D) s in
    do r <- guii_widget_invalidate n s h; Some (fst r, 1%Z)
  else Some (s, 1%Z).

(** guii_widget_show *)
Definition guii_widget_show (n : nat) (s : redraw_t) (h : handle)
  : option (redraw_t * Z) :=
  if guii_widget_getflag (inv_widgets (rd_inval s) h) GUI_FLAG_HIDDEN then
    let s := on_redraw h (fun w => guii_widget_clrflag w GUI_FLAG_HIDDEN) s in
    do r <- guii_widget_invalidatewithparent n s h; Some (fst r, 1%Z)
  else Some (s, 1%Z).

End Calls.
End Redraw.

(** The example of the invalidation, with control 3 hidden. *)
Definition example_redraw : redraw_t :=
  on_redraw 3 (fun w => guii_widget_setflag w GUI_FLAG_HIDDEN) (mk_redraw example_inval 0).

(** ** gui_linkedlist.c: the multi list

    A multi list links cells that are allocated on their own and point
    to the elements, so that one element can be in several lists. *)

(** [gui_linkedlistmulti_t]; the member [list] comes first, so that the
    generic functions reach it by the same cast. *)
Record gui_linkedlistmulti_t : Type := mk_linkedlistmulti {
  multi_list : gui_linkedlist_t;   (* the member [list] *)
  element : ptr                    (* void* element *)
}.

#[export] Instance Linked_multi : Linked gui_linkedlistmulti_t :=
  {| list_of := multi_list;
     set_list := fun l a => mk_linkedlistmulti l (element a);
     list_of_set_list := fun _ _ => eq_refl;
     set_list_set_list := fun _ _ _ => eq_refl;
     set_list_list_of := fun a => match a with mk_linkedlistmulti _ _ => eq_refl end |}.

(** One multi list: its root, the memory of the link cells, and the link
    cells that were given back with GUI_MEMFREE. *)
Record multi_t : Type := mk_multi {
  links : lstate gui_linkedlistmulti_t;
  released : list handle
}.

Definition is_released (s : multi_t) (l : handle) : bool := existsb (Nat.eqb l) (released s).

(** What a call comes to: it returns, or its loop runs out of fuel, or
    it reads a link cell after the cell was freed. *)
Inductive outcome (T : Type) : Type :=
| Returns (t : T)
| OutOfFuel
| ReadsFreed (l : handle).

Arguments Returns {T} _.
Arguments OutOfFuel {T}.
Arguments ReadsFreed {T} _.

(** gui_linkedlist_multi_add_gen; [alloc] is what GUI_MEMALLOC returned,
    [data] the element. *)
Definition gui_linkedlist_multi_add_gen (s : multi_t) (alloc : option handle) (data : ptr)
  : multi_t * option handle :=
  match alloc with
  | Some p =>
      let d := links s in
      let d := mk_lstate (root d)
                 (upd (mem d) p (fun a => mk_linkedlistmulti (multi_list a) data)) in
      (mk_multi (gui_linkedlist_add_gen d p)
         (filter (fun x => negb (Nat.eqb x p)) (released s)),
       Some p)
  | None => (s, None)
  end.

(** gui_linkedlist_multi_remove_gen *)
Definition gui_linkedlist_multi_remove_gen (s : multi_t) (l : option handle) : multi_t * Z :=
  match l with
  | None => (s, 0%Z)
  | Some e =>
      (mk_multi (fst (gui_linkedlist_remove_gen (links s) (Some e))) (e :: released s), 1%Z)
  end.

(** Modelled from the spec: the macro gui_linkedlist_multi_getdata of
    gui_linkedlist.h, not among the sources, reads the member [element]
    that gui_linkedlist_multi_add_gen has stored. *)
Definition gui_linkedlist_multi_getdata (s : multi_t) (l : handle) : ptr :=
  element (mem (links s) l).

(** gui_linkedlist_multi_getnext_gen *)
Definition gui_linkedlist_multi_getnext_gen (s : lstate gui_linkedlistmulti_t)
    (with_root : bool) (element : ptr) : ptr :=
  match element with
  | None => if with_root then first (root s) else None
  | Some e => next (lk s e)
  end.

(** The loop of gui_linkedlist_multi_find_remove, from the link [link]
    on.  Each round reads the link twice: its data in the comparison,
    and its next pointer in the step, after the body has run. *)
Fixpoint find_remove_loop (fuel : nat) (s : multi_t) (data : ptr) (link : option handle)
    (ret : Z) : outcome (multi_t * Z) :=
  match link with
  | None => Returns (s, ret)
  | Some l =>
      match fuel with
      | O => OutOfFuel
      | S f =>
          if is_released s l then ReadsFreed l
          else
            let (s, ret) :=
              if ptr_eqb (gui_linkedlist_multi_getdata s l) data
              then (fst (gui_linkedlist_multi_remove_gen s (Some l)), 1%Z)
              else (s, ret) in
            if is_released s l then ReadsFreed l
            else find_remove_loop f s data
                   (gui_linkedlist_multi_getnext_gen (links s) false (Some l)) ret
      end
  end.

(** gui_linkedlist_multi_find_remove *)
Definition gui_linkedlist_multi_find_remove (fuel : nat) (s : multi_t) (data : ptr)
  : outcome (multi_t * Z) :=
  find_remove_loop fuel s data (gui_linkedlist_multi_getnext_gen (links s) true None) 0%Z.

(** A multi list with links 1, 2 and 3 for the elements 10, 20 and 10. *)
Definition example_multi : multi_t :=
  let blank := mk_multi (empty_list (fun _ => mk_linkedlistmulti (mk_linkedlist None None) None))
                 [] in
  let s := fst (gui_linkedlist_multi_add_gen blank (Some 1) (Some 10)) in
  let s := fst (gui_linkedlist_multi_add_gen s (Some 2) (Some 20)) in
  fst (gui_linkedlist_multi_add_gen s (Some 3) (Some 10)).

(** ** Invariants and relations of the proofs *)

(** First pointer of a segment holding [xs] and followed by [qn]. *)
Definition headp (xs : list handle) (qn : ptr) : ptr :=
  match xs with [] => qn | x :: _ => Some x end.

(** Last pointer of a segment holding [xs] and preceded by [pp]. *)
Fixpoint lastp (pp : ptr) (xs : list handle) : ptr :=
  match xs with [] => pp | x :: tl => lastp (Some x) tl end.

Section GenericInvariants.
Context {A : Type} `{Linked A}.

(** [dseg s pp p xs q qn]: the nodes [xs] are chained in this order; the
    first is [p] and its [prev] is [pp], the last is [q] and its [next]
    is [qn]. *)
Fixpoint dseg (s : lstate A) (pp p : ptr) (xs : list handle) (q qn : ptr) : Prop :=
  match xs with
  | [] => p = qn /\ q = pp
  | x :: tl =>
      p = Some x /\ prev (lk s x) = pp /\ dseg s (Some x) (next (lk s x)) tl q qn
  end.

(** [dll s l]: the list rooted at [root s] holds exactly [l], first to last. *)
Definition dll (s : lstate A) (l : list handle) : Prop :=
  NoDup l /\ dseg s None (first (root s)) l (last (root s)) None.

(** The operations of the list module touch nothing but link cells. *)
Definition links_only (s s' : lstate A) : Prop :=
  forall x, mem s' x = set_list (lk s' x) (mem s x).

End GenericInvariants.

(** What is left of a widget when its link cell is ignored. *)
Definition payload (w : gui_handle) : gui_handle := with_list (mk_linkedlist None None) w.

(** [ssorted g l]: the keys [g x] do not decrease along [l]. *)
Fixpoint ssorted (g : handle -> nat) (l : list handle) : Prop :=
  match l with
  | [] => True
  | x :: r => (forall y, In y r -> g x <= g y) /\ ssorted g r
  end.

(** Nodes as creation leaves them: z-index zero, and a dialog base also
    allows children. *)
Definition node_ok (w : gui_handle) : Prop :=
  zindex w = 0%Z /\
  (guii_widget_isdialogbase w = true -> guii_widget_allowchildren w = true).

(** The invariant of a sibling list built by creations and moves. *)
Definition zinv (s : wlist) (l : list handle) : Prop :=
  dll s l /\
  (forall x, In x l -> node_ok (mem s x)) /\
  ssorted (fun x => group (mem s x)) l.

(** [chain g p c]: following [parent] from [p] visits exactly [c], then NULL. *)
Fixpoint chain (g : gui_t) (p : ptr) (c : list handle) : Prop :=
  match c with
  | [] => p = None
  | x :: r => p = Some x /\ chain g (parent (wmem g x)) r
  end.

(** The loop over the children in can_remove_widget. *)
Fixpoint can_remove_children (result : Z) (g : gui_t) (ks : list wtree) : gui_t * Z :=
  match ks with
  | [] => (g, result)
  | k :: r =>
      let (g, c) := can_remove_widget g k in
      if (c =? 0)%Z then (g, 0%Z) else can_remove_children result g r
  end.

(** [l] is what [step] reaches from [p], up to NULL. *)
Fixpoint path (step : handle -> ptr) (p : ptr) (l : list handle) : Prop :=
  match l with
  | [] => p = None
  | x :: r => p = Some x /\ path step (step x) r
  end.

(** The only change to the widgets: redraw bits are set. *)
Definition redraw_only (m m' : handle -> gui_handle) : Prop :=
  forall x, m' x = m x \/ m' x = guii_widget_setflag (m x) GUI_FLAG_REDRAW.

(** The flags of [GUI] gain at most the redraw bit. *)
Definition flags_grow (st st' : inval_t) : Prop :=
  inv_Flags st' = inv_Flags st \/ inv_Flags st' = flag_set (inv_Flags st) GUI_FLAG_REDRAW.

(** What a stretch of the sweep has done: [E] are the calls made, [D]
    the nodes finalized, in order, [T] the nodes whose memory may have
    changed; [m] is the widget memory the stretch is compared with. *)
Record swept (m : handle -> gui_handle) (T D : list handle) (E : list event)
    (g g' : gui_t) : Prop := mk_swept {
  sw_trace : trace g' = trace g ++ E;
  sw_frame : forall x, ~ In x T -> wmem g' x = wmem g x;
  sw_parent : forall x, parent (wmem g' x) = parent (wmem g x);
  sw_tree : tree g' = prune D (tree g);
  sw_focused : FocusedWidget g' = redirect m D (FocusedWidget g);
  sw_focused_prev : FocusedWidgetPrev g' = drop_owner D (FocusedWidgetPrev g);
  sw_active : ActiveWidget g' = drop_owner D (ActiveWidget g);
  sw_active_prev : ActiveWidgetPrev g' = redirect m D (ActiveWidgetPrev g);
  sw_window : WindowActive g' = redirect m D (WindowActive g);
  sw_desktop : Desktop g' = Desktop g;
  sw_flags : GUI_Flags g' = GUI_Flags g;
  sw_os : GUI_CFG_OS g' = GUI_CFG_OS g
}.

(** What the sweep reads of a widget. *)
Definition same_attrs (inherited : bool) (w w' : gui_handle) : Prop :=
  guii_widget_allowchildren w' = guii_widget_allowchildren w /\
  text w' = text w /\ timer w' = timer w /\ colors w' = colors w /\
  guii_widget_getflag w' GUI_FLAG_DYNAMICTEXTALLOC
    = guii_widget_getflag w GUI_FLAG_DYNAMICTEXTALLOC /\
  (inherited = false ->
   guii_widget_getflag w' GUI_FLAG_REMOVE = guii_widget_getflag w GUI_FLAG_REMOVE).

(** The sweep of one subtree, as a property of the subtree. *)
Definition sweeps (fuel : nat) (t : wtree) : Prop :=
  forall g lvl pp,
    NoDup (handles_of t) -> parents_ok (wmem g) pp t = true ->
    (guii_widget_getflag (wmem g (wroot t)) GUI_FLAG_REMOVE = true -> pp <> None) ->
    exists g',
      sweep_node fuel lvl t g = Some g' /\
      swept (wmem g) (handles_of t) (doomed false (wmem g) t)
        (sweep_events false (wmem g) (GUI_CFG_OS g) lvl t) g g'.

(** The parent of every node of [D] is finalized after the node, if at
    all, and was not finalized before ([seen]). *)
Fixpoint late_parents (m : handle -> gui_handle) (seen D : list handle) : Prop :=
  match D with
  | [] => True
  | x :: r =>
      (forall z, parent (m x) = Some z -> ~ In z (x :: seen)) /\
      late_parents m (x :: seen) r
  end.

(** In the order of the sweep parents come late. *)
Definition late_in (m : handle -> gui_handle) (t : wtree) : Prop :=
  forall inh pp seen,
    NoDup (handles_of t) -> parents_ok m pp t = true ->
    (forall z, pp = Some z -> ~ In z seen /\ ~ In z (handles_of t)) ->
    (forall z, In z seen -> ~ In z (handles_of t)) ->
    late_parents m seen (doomed inh m t).

(** The flag bit [m] lies apart from the bits [F]: setting or clearing
    [F] in a [uint32_t] leaves the test of [m] as it was. *)
Definition apart (F m : Z) : Prop :=
  Z.land F m = 0%Z /\ Z.land (Z.lxor 0xFFFFFFFF F) m = m.

(** [w'] is [w] but for the flag bits [F]. *)
Definition differ_in (F : list Z) (w w' : gui_handle) : Prop :=
  with_flags 0 w' = with_flags 0 w /\
  forall m, (forall f, In f F -> apart f m) ->
            guii_widget_getflag w' m = guii_widget_getflag w m.

(** * Properties *)

Lemma ptr_eqb_spec (a b : ptr) : reflect (a = b) (ptr_eqb a b).
Proof.
destruct a as [x|], b as [y|]; simpl; try (constructor; congruence).
destruct (Nat.eqb_spec x y); constructor; congruence.
Qed.

Lemma ptr_eqb_refl (a : ptr) : ptr_eqb a a = true.
Proof. destruct (ptr_eqb_spec a a); congruence. Qed.

Lemma upd_same {A : Type} (m : handle -> A) h f : upd m h f h = f (m h).
Proof. unfold upd. now rewrite Nat.eqb_refl. Qed.

Lemma upd_other {A : Type} (m : handle -> A) h f x : x <> h -> upd m h f x = m x.
Proof. unfold upd. intros H. destruct (Nat.eqb_spec x h); congruence. Qed.

(** ** Lists without repetition *)

Lemma NoDup_app_iff {T : Type} (xs ys : list T) :
  NoDup (xs ++ ys) <-> NoDup xs /\ NoDup ys /\ (forall x, In x xs -> In x ys -> False).
Proof.
induction xs as [|a xs IH]; simpl.
- split; [intros Hn; repeat split; [constructor | assumption | tauto] | tauto].
- rewrite !NoDup_cons_iff, IH, in_app_iff. split.
  + intros [Hna [Hx [Hy Hd]]]. repeat split; try tauto.
    intros x [->|Hin] Hy'; [tauto | eauto].
  + intros [[Hna Hx] [Hy Hd]]. repeat split; try tauto.
    * intros [Hin|Hin]; [tauto | eauto].
    * eauto.
Qed.

(** ** The representation invariant of a sibling list *)

Lemma lastp_app pp xs ys : lastp pp (xs ++ ys) = lastp (lastp pp xs) ys.
Proof. revert pp; induction xs; simpl; auto. Qed.

Lemma lastp_in pp xs z : xs <> [] -> lastp pp xs = Some z -> In z xs.
Proof.
revert pp; induction xs as [|x tl IH]; intros pp Hne Hl; [congruence|].
simpl in Hl. destruct tl as [|y tl'].
- simpl in Hl. injection Hl as ->. now left.
- right. apply (IH (Some x)); [discriminate | exact Hl].
Qed.

Lemma lastp_some pp xs : xs <> [] -> exists z, lastp pp xs = Some z /\ In z xs.
Proof.
revert pp; induction xs as [|x tl IH]; intros pp Hne; [congruence|].
destruct tl as [|y tl'].
- exists x; simpl; auto.
- destruct (IH (Some x)) as [z [Hz Hin]]; [discriminate|].
  exists z; split; [exact Hz | now right].
Qed.

Section GenericProps.
Context {A : Type} `{Linked A}.

Lemma lk_set_prev (s : lstate A) x v y :
  lk (set_prev x v s) y =
  if Nat.eqb y x then mk_linkedlist v (next (lk s x)) else lk s y.
Proof.
unfold lk, set_prev; simpl. unfold upd.
destruct (Nat.eqb_spec y x); [subst; now rewrite list_of_set_list | reflexivity].
Qed.

Lemma lk_set_next (s : lstate A) x v y :
  lk (set_next x v s) y =
  if Nat.eqb y x then mk_linkedlist (prev (lk s x)) v else lk s y.
Proof.
unfold lk, set_next; simpl. unfold upd.
destruct (Nat.eqb_spec y x); [subst; now rewrite list_of_set_list | reflexivity].
Qed.

Lemma lk_set_first (s : lstate A) v y : lk (set_first v s) y = lk s y.
Proof. reflexivity. Qed.

Lemma lk_set_last (s : lstate A) v y : lk (set_last v s) y = lk s y.
Proof. reflexivity. Qed.

Lemma dseg_ends s pp p xs q qn :
  dseg s pp p xs q qn -> p = headp xs qn /\ q = lastp pp xs.
Proof.
revert pp p; induction xs as [|x tl IH]; simpl; intros pp p Hd.
- tauto.
- destruct Hd as [Hp [_ Hd]]. apply IH in Hd. tauto.
Qed.

Lemma dseg_app s pp p xs ys q qn :
  dseg s pp p (xs ++ ys) q qn <->
  exists j jn, dseg s pp p xs j jn /\ dseg s j jn ys q qn.
Proof.
revert pp p; induction xs as [|x tl IH]; simpl; intros pp p.
- split.
  + intros Hd. exists pp, p. auto.
  + intros [j [jn [[-> ->] Hd]]]. exact Hd.
- split.
  + intros [Hp [Hpp Hd]]. apply IH in Hd. destruct Hd as [j [jn [H1 H2]]].
    exists j, jn. auto.
  + intros [j [jn [[Hp [Hpp H1]] H2]]]. repeat split; auto.
    apply IH. exists j, jn. auto.
Qed.

Lemma dseg_frame s s' pp p xs q qn :
  (forall x, In x xs -> lk s' x = lk s x) ->
  dseg s pp p xs q qn -> dseg s' pp p xs q qn.
Proof.
revert pp p; induction xs as [|x tl IH]; simpl; intros pp p Hf Hd; [exact Hd|].
destruct Hd as [Hp [Hpp Hd]]. rewrite (Hf x) by auto. repeat split; auto.
Qed.

(** Changing the [next] of the last node of a segment. *)
Lemma dseg_retarget_r s s' pp p xs q qn qn' :
  NoDup xs -> dseg s pp p xs q qn ->
  (forall x, In x xs -> q <> Some x -> lk s' x = lk s x) ->
  (forall x, In x xs -> q = Some x ->
     lk s' x = mk_linkedlist (prev (lk s x)) qn') ->
  dseg s' pp (match xs with [] => qn' | _ => p end) xs q qn'.
Proof.
revert pp p; induction xs as [|x tl IH]; simpl; intros pp p Hnd Hd Hf Hl.
- tauto.
- destruct Hd as [Hp [Hpp Hd]]. apply NoDup_cons_iff in Hnd. destruct Hnd as [Hx Hnd].
  destruct tl as [|y tl'].
  + simpl in Hd. destruct Hd as [Hn Hq]. rewrite (Hl x) by auto. simpl. auto.
  + assert (Hq : q <> Some x).
    { destruct (dseg_ends _ _ _ _ _ _ Hd) as [_ Hq]. intros Heq. apply Hx.
      apply lastp_in with (pp := Some x); [discriminate | congruence]. }
    rewrite (Hf x) by auto. split; [exact Hp|]. split; [exact Hpp|].
    apply (IH (Some x) (next (lk s x))) in Hd; auto.
Qed.

(** Changing the [prev] of the first node of a segment. *)
Lemma dseg_retarget_l s s' pp pp' p xs q qn :
  NoDup xs -> dseg s pp p xs q qn ->
  (forall x, In x xs -> p <> Some x -> lk s' x = lk s x) ->
  (forall x, In x xs -> p = Some x ->
     lk s' x = mk_linkedlist pp' (next (lk s x))) ->
  dseg s' pp' p xs (match xs with [] => pp' | _ => q end) qn.
Proof.
destruct xs as [|x tl]; simpl; intros Hnd Hd Hf Hl.
- tauto.
- destruct Hd as [Hp [Hpp Hd]]. apply NoDup_cons_iff in Hnd. destruct Hnd as [Hx Hnd].
  rewrite (Hl x) by auto. simpl. repeat split; auto.
  apply dseg_frame with (s := s); auto.
  intros y Hy. apply Hf; auto. subst p. intros Heq. injection Heq as ->. tauto.
Qed.

Lemma dll_split s l1 e l2 :
  dll s (l1 ++ e :: l2) ->
  NoDup l1 /\ NoDup l2 /\ ~ In e l1 /\ ~ In e l2 /\
  (forall x, In x l1 -> In x l2 -> False) /\
  dseg s None (first (root s)) l1 (prev (lk s e)) (Some e) /\
  dseg s (Some e) (next (lk s e)) l2 (last (root s)) None.
Proof.
intros [Hnd Hd]. apply NoDup_app_iff in Hnd. destruct Hnd as [N1 [N2 D12]].
apply NoDup_cons_iff in N2. destruct N2 as [E2 N2].
apply dseg_app in Hd. destruct Hd as [j [jn [S1 S2]]]. simpl in S2.
destruct S2 as [-> [<- S2]].
repeat split; auto.
- intros Hin. apply (D12 e); simpl; auto.
- intros x H1 H2. apply (D12 x); simpl; auto.
Qed.

Lemma lastp_None_in l z : lastp None l = Some z -> In z l.
Proof.
intros Hl. apply lastp_in with (pp := None); [|exact Hl].
intros ->. discriminate.
Qed.

Lemma headp_None_in l z : headp l None = Some z -> In z l.
Proof. destruct l; simpl; [discriminate | intros [= ->]; auto]. Qed.

Ltac lk_norm :=
  repeat (rewrite ?lk_set_prev, ?lk_set_next, ?lk_set_first, ?lk_set_last).

Ltac eqb_cases :=
  repeat match goal with
         | |- context [Nat.eqb ?a ?b] => destruct (Nat.eqb_spec a b); try subst
         end.

(** Removing a member unlinks it and clears its own pointers. *)
Lemma remove_gen_dll s l1 e l2 :
  dll s (l1 ++ e :: l2) ->
  dll (fst (gui_linkedlist_remove_gen s (Some e))) (l1 ++ l2) /\
  lk (fst (gui_linkedlist_remove_gen s (Some e))) e = mk_linkedlist None None.
Proof.
intros Hd. destruct (dll_split _ _ _ _ Hd) as (N1 & N2 & E1 & E2 & D12 & S1 & S2).
destruct (dseg_ends _ _ _ _ _ _ S1) as [Hf Hp].
destruct (dseg_ends _ _ _ _ _ _ S2) as [Hn Hl].
unfold gui_linkedlist_remove_gen.
set (p := prev (lk s e)) in *. set (n := next (lk s e)) in *.
cbv zeta. simpl fst.
match goal with |- dll ?t _ /\ _ => set (s' := t) end.
assert (Hpin : forall p', p = Some p' -> In p' l1)
  by (intros p' Hp'; apply lastp_None_in; congruence).
assert (Hnin : forall n', n = Some n' -> In n' l2)
  by (intros n' Hn'; apply headp_None_in; congruence).
assert (K : forall x, x <> e ->
          lk s' x = if ptr_eqb p (Some x) then mk_linkedlist (prev (lk s x)) n
                    else if ptr_eqb n (Some x) then mk_linkedlist p (next (lk s x))
                    else lk s x).
{ intros x Hx. subst s'.
  destruct p as [p'|] eqn:Ep, n as [n'|] eqn:En; simpl;
    repeat match goal with
           | |- context [if ?c then set_first ?a ?b else ?d] => destruct c
           | |- context [if ?c then set_last ?a ?b else ?d] => destruct c
           end;
    lk_norm; eqb_cases; simpl; try congruence; try reflexivity;
    try (exfalso; eapply D12; eauto; fail). }
assert (R1 : first (root s') = match l1 with [] => n | _ => first (root s) end).
{ subst s'. destruct l1 as [|x1 l1']; simpl in Hf.
  - simpl in Hp. rewrite Hp. destruct n; simpl; rewrite Hf; simpl;
      rewrite Nat.eqb_refl; simpl;
      match goal with |- context [if ?c then _ else _] => destruct c end; reflexivity.
  - assert (x1 <> e) by (intros ->; apply E1; simpl; auto).
    destruct p, n; simpl; rewrite Hf; simpl;
      destruct (Nat.eqb_spec x1 e); try congruence;
      match goal with |- context [if ?c then _ else _] => destruct c end; simpl;
      auto. }
assert (R2 : last (root s') = match l2 with [] => p | _ => last (root s) end).
{ subst s'. destruct l2 as [|x2 l2']; simpl in Hl.
  - destruct p, n; simpl;
      match goal with |- context [if ?c then set_first ?a ?b else ?d] => destruct c end;
      simpl; rewrite Hl; simpl; rewrite Nat.eqb_refl; reflexivity.
  - destruct (lastp_some (Some e) (x2 :: l2')) as [z [Hz Hzin]]; [discriminate|].
    simpl in Hz. rewrite Hz in Hl.
    assert (z <> e) by (intros ->; tauto).
    destruct p, n; simpl;
      match goal with |- context [if ?c then set_first ?a ?b else ?d] => destruct c end;
      simpl; rewrite Hl; simpl; destruct (Nat.eqb_spec z e); try congruence; simpl; auto. }
split.
- split.
  + apply NoDup_app_iff. auto.
  + apply dseg_app. exists p, n. split.
    * rewrite R1. apply dseg_retarget_r with (s := s) (qn := Some e); auto.
      -- intros x Hx Hq. rewrite K by (intros ->; tauto).
         destruct (ptr_eqb_spec p (Some x)); [congruence|].
         destruct (ptr_eqb_spec n (Some x)) as [Heq|]; [|reflexivity].
         exfalso. eapply D12; eauto.
      -- intros x Hx Hq. rewrite K by (intros ->; tauto).
         destruct (ptr_eqb_spec p (Some x)); [reflexivity|congruence].
    * rewrite R2. apply dseg_retarget_l with (s := s) (pp := Some e); auto.
      -- intros x Hx Hq. rewrite K by (intros ->; tauto).
         destruct (ptr_eqb_spec p (Some x)) as [Heq|].
         { exfalso. eapply D12; eauto. }
         destruct (ptr_eqb_spec n (Some x)); [congruence|reflexivity].
      -- intros x Hx Hq. rewrite K by (intros ->; tauto).
         destruct (ptr_eqb_spec p (Some x)) as [Heq|].
         { exfalso. eapply D12; eauto. }
         destruct (ptr_eqb_spec n (Some x)); [reflexivity|congruence].
- subst s'. lk_norm. rewrite Nat.eqb_refl. reflexivity.
Qed.

Lemma links_only_refl s : links_only s s.
Proof. intros x. unfold lk. now rewrite set_list_list_of. Qed.

Lemma links_only_trans s1 s2 s3 :
  links_only s1 s2 -> links_only s2 s3 -> links_only s1 s3.
Proof. intros H12 H23 x. now rewrite H23, H12, set_list_set_list. Qed.

Lemma links_only_set_prev s x v : links_only s (set_prev x v s).
Proof.
intros y. unfold lk, set_prev; simpl. unfold upd.
destruct (Nat.eqb_spec y x).
- subst. now rewrite list_of_set_list.
- now rewrite set_list_list_of.
Qed.

Lemma links_only_set_next s x v : links_only s (set_next x v s).
Proof.
intros y. unfold lk, set_next; simpl. unfold upd.
destruct (Nat.eqb_spec y x).
- subst. now rewrite list_of_set_list.
- now rewrite set_list_list_of.
Qed.

Lemma links_only_set_first s v : links_only s (set_first v s).
Proof. intros y. unfold lk, set_first; simpl. now rewrite set_list_list_of. Qed.

Lemma links_only_set_last s v : links_only s (set_last v s).
Proof. intros y. unfold lk, set_last; simpl. now rewrite set_list_list_of. Qed.

Ltac links_only_tac :=
  repeat first
    [ apply links_only_refl
    | match goal with
      | |- links_only _ (match ?c with _ => _ end) => destruct c
      | |- links_only _ (if ?c then _ else _) => destruct c
      end
    | eapply links_only_trans; [| first [ apply links_only_set_prev
                                        | apply links_only_set_next
                                        | apply links_only_set_first
                                        | apply links_only_set_last ] ] ].

Lemma add_gen_links_only s e : links_only s (gui_linkedlist_add_gen s e).
Proof. unfold gui_linkedlist_add_gen. links_only_tac. Qed.

Lemma remove_gen_links_only s e : links_only s (fst (gui_linkedlist_remove_gen s e)).
Proof.
unfold gui_linkedlist_remove_gen. destruct e as [e|]; [|apply links_only_refl].
cbv zeta. unfold fst. links_only_tac.
Qed.

Lemma movedown_gen_links_only s e : links_only s (fst (gui_linkedlist_movedown_gen s e)).
Proof.
unfold gui_linkedlist_movedown_gen. destruct e as [e|]; [|apply links_only_refl].
destruct (ptr_eqb (Some e) (last (root s))); [apply links_only_refl|].
cbv zeta. unfold fst. links_only_tac.
Qed.

Lemma moveup_gen_links_only s e : links_only s (fst (gui_linkedlist_moveup_gen s e)).
Proof.
unfold gui_linkedlist_moveup_gen. destruct e as [e|]; [|apply links_only_refl].
destruct (ptr_eqb (Some e) (first (root s))); [apply links_only_refl|].
cbv zeta. unfold fst. links_only_tac.
Qed.

Lemma lastp_not_in pp e l : Some e <> pp -> ~ In e l -> lastp pp l <> Some e.
Proof.
revert pp; induction l as [|x tl IH]; simpl; intros pp Hpp Hin; [congruence|].
apply IH; [|tauto]. intros [= ->]. tauto.
Qed.

Lemma headp_not_in qn e l : Some e <> qn -> ~ In e l -> headp l qn <> Some e.
Proof. destruct l; simpl; [congruence|]. intros _ Hin [= ->]. tauto. Qed.

Ltac root_cases :=
  repeat match goal with
         | |- context [if ?c then set_first ?a ?b else ?d] => destruct c
         | |- context [if ?c then set_last ?a ?b else ?d] => destruct c
         end.

(** Appending a node that is not yet in the list. *)
Lemma add_gen_dll s l e :
  dll s l -> ~ In e l -> dll (gui_linkedlist_add_gen s e) (l ++ [e]).
Proof.
intros [Hnd Hd] Hin.
destruct (dseg_ends _ _ _ _ _ _ Hd) as [Hf Hl].
assert (Hnd' : NoDup (l ++ [e])).
{ apply NoDup_app_iff. repeat split; auto.
  - constructor; [simpl; tauto | constructor].
  - intros x Hx [<-|[]]. tauto. }
split; [exact Hnd'|].
unfold gui_linkedlist_add_gen. destruct l as [|x0 l0].
- simpl in Hf, Hl. rewrite Hf. simpl. lk_norm. rewrite Nat.eqb_refl. simpl. auto.
- destruct (lastp_some None (x0 :: l0)) as [z [Hz Hzin]]; [discriminate|].
  simpl in Hf. rewrite Hf, Hl, Hz.
  assert (Hze : z <> e) by (intros ->; tauto).
  match goal with |- dseg ?t _ _ _ _ _ => set (s' := t) end.
  change (first (root s')) with (first (root s)).
  change (last (root s')) with (Some e).
  assert (Ke : lk s' e = mk_linkedlist (Some z) None).
  { subst s'. lk_norm. eqb_cases; simpl; congruence. }
  assert (Kz : lk s' z = mk_linkedlist (prev (lk s z)) (Some e)).
  { subst s'. lk_norm. eqb_cases; simpl; congruence. }
  assert (K : forall x, x <> e -> x <> z -> lk s' x = lk s x).
  { intros x Hx Hxz. subst s'. lk_norm. eqb_cases; simpl; congruence. }
  apply dseg_app. exists (Some z), (Some e). split.
  + rewrite Hf.
    apply (dseg_retarget_r s s' None (Some x0) (x0 :: l0) (Some z) None (Some e)); auto.
    * rewrite <- Hf, <- Hz, <- Hl. exact Hd.
    * intros x Hx Hq. apply K; [intros ->; tauto | congruence].
    * intros x Hx [= ->]. exact Kz.
  + simpl. rewrite Ke. simpl. auto.
Qed.

(** Moving a node that is already last fails and changes nothing. *)
Lemma movedown_gen_last s l1 e :
  dll s (l1 ++ [e]) -> gui_linkedlist_movedown_gen s (Some e) = (s, 0%Z).
Proof.
intros Hd. destruct (dll_split _ _ _ _ Hd) as (_ & _ & _ & _ & _ & _ & S2).
simpl in S2. destruct S2 as [_ Hl].
unfold gui_linkedlist_movedown_gen. rewrite Hl, ptr_eqb_refl. reflexivity.
Qed.

(** Moving down swaps a node with its successor. *)
Lemma movedown_gen_swap s l1 e n l2 :
  dll s (l1 ++ e :: n :: l2) ->
  snd (gui_linkedlist_movedown_gen s (Some e)) = 1%Z /\
  dll (fst (gui_linkedlist_movedown_gen s (Some e))) (l1 ++ n :: e :: l2).
Proof.
intros Hd. destruct (dll_split _ _ _ _ Hd) as (N1 & N2 & E1 & E2 & D12 & S1 & S2).
simpl in S2. destruct S2 as [Hn [Hpn S3]].
apply NoDup_cons_iff in N2. destruct N2 as [Nn N2].
assert (Hen : e <> n) by (intros ->; apply E2; simpl; auto).
assert (E2' : ~ In e l2) by (intros Hi; apply E2; simpl; auto).
assert (Nn1 : ~ In n l1) by (intros Hi; apply (D12 n); simpl; auto).
assert (D12' : forall x, In x l1 -> In x l2 -> False)
  by (intros x H1 H2; apply (D12 x); simpl; auto).
destruct (dseg_ends _ _ _ _ _ _ S1) as [Hf Hp].
destruct (dseg_ends _ _ _ _ _ _ S3) as [Hnn Hl].
assert (Hle : last (root s) <> Some e).
{ rewrite Hl. apply lastp_not_in; [congruence | exact E2']. }
unfold gui_linkedlist_movedown_gen.
destruct (ptr_eqb_spec (Some e) (last (root s))) as [Heq|_]; [congruence|].
rewrite Hn. cbv zeta. simpl fst. simpl snd. split; [reflexivity|].
set (p := prev (lk s e)) in *. set (nn := next (lk s n)) in *.
match goal with |- dll ?t _ => set (s' := t) end.
assert (Hpin : forall p', p = Some p' -> In p' l1)
  by (intros p' Hp'; apply lastp_None_in; congruence).
assert (Hnin : forall n', nn = Some n' -> In n' l2)
  by (intros n' Hn'; apply headp_None_in; congruence).
assert (K : forall x, x <> e -> x <> n ->
          lk s' x = if ptr_eqb p (Some x) then mk_linkedlist (prev (lk s x)) (Some n)
                    else if ptr_eqb nn (Some x) then mk_linkedlist (Some e) (next (lk s x))
                    else lk s x).
{ intros x Hx Hxn. subst s'.
  destruct p as [p'|] eqn:Ep, nn as [n'|] eqn:En; simpl; root_cases;
    lk_norm; eqb_cases; simpl; try congruence; try reflexivity;
    try (exfalso; eapply D12'; eauto; fail). }
assert (Ke : lk s' e = mk_linkedlist (Some n) nn).
{ subst s'. destruct p as [p'|] eqn:Ep; root_cases; lk_norm; eqb_cases; simpl;
    try congruence; try reflexivity; exfalso; apply E1; apply Hpin; reflexivity. }
assert (Kn : lk s' n = mk_linkedlist p (Some e)).
{ subst s'.
  destruct p as [p'|] eqn:Ep, nn as [n'|] eqn:En; root_cases; lk_norm; eqb_cases; simpl;
    try congruence; try reflexivity;
    try (exfalso; apply Nn1; apply Hpin; reflexivity);
    try (exfalso; apply Nn; apply Hnin; reflexivity). }
assert (R1 : first (root s') = match l1 with [] => Some n | _ => first (root s) end).
{ subst s'. destruct l1 as [|x1 l1']; simpl in Hf.
  - simpl in Hp. rewrite Hp. destruct nn; simpl; rewrite Hf; simpl;
      rewrite Nat.eqb_refl; reflexivity.
  - assert (x1 <> e) by (intros ->; apply E1; simpl; auto).
    destruct p, nn; simpl; rewrite Hf; simpl;
      destruct (Nat.eqb_spec x1 e); try congruence; simpl; auto. }
assert (R2 : last (root s') = match l2 with [] => Some e | _ => last (root s) end).
{ subst s'. destruct l2 as [|x2 l2']; simpl in Hnn.
  - rewrite Hnn. destruct p; simpl; root_cases; reflexivity.
  - rewrite Hnn. destruct p; simpl; root_cases; reflexivity. }
split.
- apply NoDup_app_iff. repeat split; auto.
  + constructor; [simpl; intros [Heq|Hi]; [congruence | tauto]|].
    constructor; auto.
  + intros x H1 [<-|[<-|H2]]; eauto.
- apply dseg_app. exists p, (Some n). split.
  + rewrite R1. apply dseg_retarget_r with (s := s) (qn := Some e); auto.
    * intros x Hx Hq. rewrite K by (intros ->; tauto).
      destruct (ptr_eqb_spec p (Some x)); [congruence|].
      destruct (ptr_eqb_spec nn (Some x)) as [Heq|]; [|reflexivity].
      exfalso. eapply D12'; eauto.
    * intros x Hx Hq. rewrite K by (intros ->; tauto).
      destruct (ptr_eqb_spec p (Some x)); [reflexivity|congruence].
  + simpl. rewrite Kn, Ke. simpl. repeat split.
    rewrite R2. apply dseg_retarget_l with (s := s) (pp := Some n); auto.
    * intros x Hx Hq. rewrite K by (intros ->; tauto).
      destruct (ptr_eqb_spec p (Some x)) as [Heq|].
      { exfalso. eapply D12'; eauto. }
      destruct (ptr_eqb_spec nn (Some x)); [congruence|reflexivity].
    * intros x Hx Hq. rewrite K by (intros ->; tauto).
      destruct (ptr_eqb_spec p (Some x)) as [Heq|].
      { exfalso. eapply D12'; eauto. }
      destruct (ptr_eqb_spec nn (Some x)); [reflexivity|congruence].
Qed.

(** Moving a node that is already first fails and changes nothing. *)
Lemma moveup_gen_first s e l2 :
  dll s (e :: l2) -> gui_linkedlist_moveup_gen s (Some e) = (s, 0%Z).
Proof.
intros [_ Hd]. simpl in Hd. destruct Hd as [Hf _].
unfold gui_linkedlist_moveup_gen. rewrite Hf, ptr_eqb_refl. reflexivity.
Qed.

(** Moving up swaps a node with its predecessor. *)
Lemma moveup_gen_swap s l1 p e l2 :
  dll s (l1 ++ p :: e :: l2) ->
  snd (gui_linkedlist_moveup_gen s (Some e)) = 1%Z /\
  dll (fst (gui_linkedlist_moveup_gen s (Some e))) (l1 ++ e :: p :: l2).
Proof.
intros Hd.
destruct (dll_split _ _ _ _ Hd) as (N1 & N2 & P1 & P2e & D12 & S1 & S2).
simpl in S2. destruct S2 as [Hpn [Hep S4]].
apply NoDup_cons_iff in N2. destruct N2 as [E2' N2'].
assert (Hpe : p <> e) by (intros ->; apply P2e; simpl; auto).
assert (P2 : ~ In p l2) by (intros Hi; apply P2e; simpl; auto).
assert (E1' : ~ In e l1) by (intros Hi; apply (D12 e); simpl; auto).
assert (D12' : forall x, In x l1 -> In x l2 -> False)
  by (intros x H1 H2; apply (D12 x); simpl; auto).
destruct (dseg_ends _ _ _ _ _ _ S1) as [Hf Hj].
destruct (dseg_ends _ _ _ _ _ _ S4) as [Hn Hl].
assert (Hfe : first (root s) <> Some e).
{ rewrite Hf. apply headp_not_in; [congruence | exact E1']. }
unfold gui_linkedlist_moveup_gen.
destruct (ptr_eqb_spec (Some e) (first (root s))) as [Heq|_]; [congruence|].
rewrite Hep. cbv zeta. simpl fst. simpl snd. split; [reflexivity|].
set (pp := prev (lk s p)) in *. set (n := next (lk s e)) in *.
match goal with |- dll ?t _ => set (s' := t) end.
assert (Hpin : forall p', pp = Some p' -> In p' l1)
  by (intros p' Hp'; apply lastp_None_in; congruence).
assert (Hnin : forall n', n = Some n' -> In n' l2)
  by (intros n' Hn'; apply headp_None_in; congruence).
assert (K : forall x, x <> e -> x <> p ->
          lk s' x = if ptr_eqb pp (Some x) then mk_linkedlist (prev (lk s x)) (Some e)
                    else if ptr_eqb n (Some x) then mk_linkedlist (Some p) (next (lk s x))
                    else lk s x).
{ intros x Hx Hxn. subst s'.
  destruct pp as [p'|] eqn:Ep, n as [n'|] eqn:En; simpl; root_cases;
    lk_norm; eqb_cases; simpl; try congruence; try reflexivity;
    try (exfalso; eapply D12'; eauto; fail). }
assert (Ke : lk s' e = mk_linkedlist pp (Some p)).
{ subst s'.
  destruct pp as [p'|] eqn:Ep, n as [n'|] eqn:En; root_cases; lk_norm; eqb_cases; simpl;
    try congruence; try reflexivity;
    try (exfalso; apply E1'; apply Hpin; reflexivity);
    try (exfalso; apply E2'; apply Hnin; reflexivity). }
assert (Kp : lk s' p = mk_linkedlist (Some e) n).
{ subst s'.
  destruct pp as [p'|] eqn:Ep, n as [n'|] eqn:En; root_cases; lk_norm; eqb_cases; simpl;
    try congruence; try reflexivity;
    try (exfalso; apply P1; apply Hpin; reflexivity);
    try (exfalso; apply P2; apply Hnin; reflexivity). }
assert (R1 : first (root s') = match l1 with [] => Some e | _ => first (root s) end).
{ subst s'. destruct l1 as [|x1 l1']; simpl in Hj.
  - rewrite Hj. destruct n; simpl; root_cases; reflexivity.
  - destruct (lastp_some None (x1 :: l1')) as [z [Hz Hzin]]; [discriminate|].
    simpl in Hz. rewrite Hz in Hj. rewrite Hj. destruct n; simpl; root_cases; reflexivity. }
assert (R2 : last (root s') = match l2 with [] => Some p | _ => last (root s) end).
{ subst s'. destruct l2 as [|x2 l2']; simpl in Hl.
  - simpl in Hn. rewrite Hn. destruct pp; simpl; rewrite Hl; simpl;
      rewrite Nat.eqb_refl; reflexivity.
  - destruct (lastp_some (Some e) (x2 :: l2')) as [z [Hz Hzin]]; [discriminate|].
    simpl in Hz. rewrite Hz in Hl.
    assert (z <> e) by (intros ->; tauto).
    destruct pp, n; simpl; rewrite Hl; simpl;
      destruct (Nat.eqb_spec z e); try congruence; simpl; auto. }
split.
- apply NoDup_app_iff. repeat split; auto.
  + constructor; [simpl; intros [Heq|Hi]; [congruence | tauto]|].
    constructor; auto.
  + intros x H1 [<-|[<-|H2]]; eauto.
- apply dseg_app. exists pp, (Some e). split.
  + rewrite R1. apply dseg_retarget_r with (s := s) (qn := Some p); auto.
    * intros x Hx Hq. rewrite K by (intros ->; tauto).
      destruct (ptr_eqb_spec pp (Some x)); [congruence|].
      destruct (ptr_eqb_spec n (Some x)) as [Heq|]; [|reflexivity].
      exfalso. eapply D12'; eauto.
    * intros x Hx Hq. rewrite K by (intros ->; tauto).
      destruct (ptr_eqb_spec pp (Some x)); [reflexivity|congruence].
  + simpl. rewrite Kp, Ke. simpl. repeat split.
    rewrite R2. apply dseg_retarget_l with (s := s) (pp := Some e); auto.
    * intros x Hx Hq. rewrite K by (intros ->; tauto).
      destruct (ptr_eqb_spec pp (Some x)) as [Heq|].
      { exfalso. eapply D12'; eauto. }
      destruct (ptr_eqb_spec n (Some x)); [congruence|reflexivity].
    * intros x Hx Hq. rewrite K by (intros ->; tauto).
      destruct (ptr_eqb_spec pp (Some x)) as [Heq|].
      { exfalso. eapply D12'; eauto. }
      destruct (ptr_eqb_spec n (Some x)); [reflexivity|congruence].
Qed.

End GenericProps.

(** ** List integrity under every sequence of calls *)

Lemma last_default {T : Type} (l : list T) d d' :
  l <> [] -> List.last l d = List.last l d'.
Proof.
induction l as [|x tl IH]; intros Hne; [congruence|].
destruct tl as [|y tl']; [reflexivity|].
change (List.last (y :: tl') d = List.last (y :: tl') d').
apply IH. discriminate.
Qed.

Lemma last_map_Some_lastp l pp : List.last (map Some l) pp = lastp pp l.
Proof.
revert pp; induction l as [|x tl IH]; intros pp; [reflexivity|].
simpl lastp. rewrite <- IH. destruct tl as [|y tl']; [reflexivity|].
change (List.last (map Some (y :: tl')) pp = List.last (map Some (y :: tl')) (Some x)).
apply last_default. discriminate.
Qed.

Lemma existsb_eqb_In e m : existsb (Nat.eqb e) m = true <-> In e m.
Proof.
rewrite existsb_exists. split.
- intros [x [Hin Hx]]. apply Nat.eqb_eq in Hx. now subst.
- intros Hin. exists e. split; [exact Hin | apply Nat.eqb_refl].
Qed.

Section GenericTrace.
Context {A : Type} `{Linked A}.

Lemma walk_dseg (s : lstate A) pp p xs q :
  dseg s pp p xs q None -> walk_next (S (length xs)) s p = xs.
Proof.
revert pp p; induction xs as [|x tl IH]; intros pp p Hd.
- simpl in Hd. destruct Hd as [-> _]. reflexivity.
- simpl in Hd. destruct Hd as [-> [_ Hd]].
  change (x :: walk_next (S (length tl)) s (next (lk s x)) = x :: tl).
  f_equal. eapply IH; eauto.
Qed.

Lemma dseg_last_next (s : lstate A) pp p xs q qn :
  dseg s pp p xs q qn -> xs <> [] -> exists z, q = Some z /\ next (lk s z) = qn.
Proof.
revert pp p; induction xs as [|x tl IH]; intros pp p Hd Hne; [congruence|].
simpl in Hd. destruct Hd as [_ [_ Hd]]. destruct tl as [|y tl'].
- simpl in Hd. destruct Hd as [Hn ->]. exists x. auto.
- eapply IH; [exact Hd | discriminate].
Qed.

(** What the representation invariant says about the pointers. *)
Lemma dll_doubly_consistent (s : lstate A) l :
  dll s l -> doubly_consistent s (length l).
Proof.
intros Hd. assert (Hd0 := Hd). destruct Hd0 as [Hnd Hs].
unfold doubly_consistent. rewrite (walk_dseg _ _ _ _ _ Hs).
destruct (dseg_ends _ _ _ _ _ _ Hs) as [Hf Hl].
split; [reflexivity|]. split; [rewrite last_map_Some_lastp; auto|].
split; [|split].
- intros f Hff. destruct l as [|x tl]; simpl in Hf; [congruence|].
  simpl in Hs. destruct Hs as [_ [Hp _]]. congruence.
- intros z Hz. destruct l as [|x tl]; [simpl in Hl; congruence|].
  destruct (dseg_last_next _ _ _ _ _ _ Hs) as [z' [Hz' Hn]]; [discriminate|].
  congruence.
- intros x Hin. apply in_split in Hin. destruct Hin as [l1 [l2 ->]].
  destruct (dll_split _ _ _ _ Hd) as (_ & _ & _ & _ & _ & S1 & S2).
  split; intros y Hy.
  + rewrite Hy in S2. destruct l2 as [|y' l2']; simpl in S2.
    * destruct S2; congruence.
    * destruct S2 as [[= ->] [Hp _]]. exact Hp.
  + rewrite Hy in S1. destruct l1 as [|x1 l1'].
    * simpl in S1. destruct S1; congruence.
    * destruct (dseg_last_next _ _ _ _ _ _ S1) as [z [[= ->] Hn]]; [discriminate|].
      exact Hn.
Qed.

Lemma apply_op_dll (s : lstate A) l m o r :
  dll s l -> (forall x, In x l <-> In x m) ->
  well_used m (o :: r) = true ->
  exists l' m',
    dll (apply_op s o) l' /\ (forall x, In x l' <-> In x m') /\
    well_used m' r = true /\
    length l' + count_removes [o] = length l + count_adds [o].
Proof.
intros Hd Hm Hw. unfold count_removes, count_adds.
destruct o as [e|e|e|e]; simpl in Hw;
  apply andb_true_iff in Hw; destruct Hw as [He Hw].
- apply negb_true_iff in He.
  assert (Hin : ~ In e l).
  { intros Hi. apply Hm in Hi. apply existsb_eqb_In in Hi. congruence. }
  exists (l ++ [e]), (e :: m).
  split; [apply add_gen_dll; auto|]. split; [|split; [exact Hw|]].
  + intros x. rewrite in_app_iff. simpl. rewrite (Hm x). tauto.
  + rewrite length_app. simpl. lia.
- apply existsb_eqb_In in He. apply Hm in He. apply in_split in He.
  destruct He as [l1 [l2 ->]].
  destruct (remove_gen_dll _ _ _ _ Hd) as [Hd' _].
  destruct (dll_split _ _ _ _ Hd) as (N1 & N2 & E1 & E2 & D12 & _).
  exists (l1 ++ l2), (filter (fun x => negb (Nat.eqb e x)) m).
  split; [exact Hd'|]. split; [|split; [exact Hw|]].
  + intros x. rewrite filter_In, <- (Hm x), negb_true_iff, Nat.eqb_neq, !in_app_iff.
    simpl. split.
    * intros Hi. split; [tauto|]. intros ->. tauto.
    * intros [[Hi|[Hi|Hi]] Hne]; auto. congruence.
  + rewrite !length_app. simpl. lia.
- apply existsb_eqb_In in He. apply Hm in He. apply in_split in He.
  destruct He as [l1 [l2 ->]]. unfold apply_op.
  destruct l1 as [|x1 l1' _] using rev_ind.
  + exists (e :: l2), m. rewrite (moveup_gen_first _ _ _ Hd). simpl fst.
    split; [exact Hd|]. split; [exact Hm|]. split; [exact Hw|]. simpl. lia.
  + rewrite <- app_assoc in Hd. simpl in Hd.
    destruct (moveup_gen_swap _ _ _ _ _ Hd) as [_ Hd'].
    exists (l1' ++ e :: x1 :: l2), m.
    split; [exact Hd'|]. split; [|split; [exact Hw|]].
    * intros x. rewrite <- (Hm x), <- app_assoc, !in_app_iff. simpl. tauto.
    * rewrite !length_app. simpl. rewrite ?length_app. simpl. lia.
- apply existsb_eqb_In in He. apply Hm in He. apply in_split in He.
  destruct He as [l1 [l2 ->]]. unfold apply_op.
  destruct l2 as [|n l2'].
  + exists (l1 ++ [e]), m. rewrite (movedown_gen_last _ _ _ Hd). simpl fst.
    split; [exact Hd|]. split; [exact Hm|]. split; [exact Hw|]. simpl. lia.
  + destruct (movedown_gen_swap _ _ _ _ _ Hd) as [_ Hd'].
    exists (l1 ++ n :: e :: l2'), m.
    split; [exact Hd'|]. split; [|split; [exact Hw|]].
    * intros x. rewrite <- (Hm x), !in_app_iff. simpl. tauto.
    * rewrite !length_app. simpl. lia.
Qed.

Lemma run_ops_dll (ops : list list_op) : forall (s : lstate A) l m,
  dll s l -> (forall x, In x l <-> In x m) ->
  well_used m ops = true ->
  exists l', dll (run_ops s ops) l' /\
             length l' + count_removes ops = length l + count_adds ops.
Proof.
induction ops as [|o r IH]; intros s l m Hd Hm Hw.
- exists l. simpl. split; [exact Hd | reflexivity].
- destruct (apply_op_dll _ _ _ _ _ Hd Hm Hw) as [l1 [m1 [Hd1 [Hm1 [Hw1 Hc1]]]]].
  destruct (IH _ _ _ Hd1 Hm1 Hw1) as [l' [Hd' Hc']].
  exists l'. split; [exact Hd'|].
  change (count_removes (o :: r)) with (count_removes ([o] ++ r)).
  change (count_adds (o :: r)) with (count_adds ([o] ++ r)).
  unfold count_removes, count_adds in *. rewrite !filter_app, !length_app. lia.
Qed.

Lemma well_used_firstn k : forall ops m,
  well_used m ops = true -> well_used m (firstn k ops) = true.
Proof.
induction k as [|k IH]; intros ops m Hw; [reflexivity|].
destruct ops as [|o r]; [reflexivity|].
destruct o; simpl in *; apply andb_true_iff in Hw; destruct Hw as [He Hw];
  rewrite He; simpl; auto.
Qed.

Lemma empty_list_dll (m : handle -> A) : dll (empty_list m) [].
Proof. split; [constructor | simpl; auto]. Qed.

(** C2 (list integrity).  Start from the empty list and let a client make
    any sequence of add / remove / move-up / move-down calls, adding only
    nodes that are not in the list and removing or moving only nodes that
    are.  Then at every point of the sequence (after each prefix of [k]
    calls) the list is doubly consistent: [first->prev] and [last->next]
    are NULL, [next] and [prev] are inverse on every node, and the walk
    from [first] along [next] visits exactly as many nodes as were added
    minus those removed, ending at [last]. *)
Theorem list_integrity (m0 : handle -> A) (ops : list list_op) (k : nat) :
  well_used [] ops = true ->
  doubly_consistent (run_ops (empty_list m0) (firstn k ops))
    (count_adds (firstn k ops) - count_removes (firstn k ops)).
Proof.
intros Hw. apply (well_used_firstn k) in Hw.
destruct (run_ops_dll (firstn k ops) (empty_list m0) [] [] (empty_list_dll m0)
            (fun x => conj (fun h => h) (fun h => h)) Hw) as [l [Hd Hc]].
simpl in Hc.
replace (count_adds (firstn k ops) - count_removes (firstn k ops)) with (length l) by lia.
apply dll_doubly_consistent. exact Hd.
Qed.

End GenericTrace.

(** A run of the list on plain link cells: four nodes are added, one is
    moved and one removed. *)
Lemma list_integrity_witness :
  well_used [] [OpAdd 1; OpAdd 2; OpAdd 3; OpMoveUp 3; OpRemove 2; OpAdd 4; OpMoveDown 1] = true /\
  doubly_consistent
    (run_ops (empty_list (fun _ => mk_linkedlist None None))
       (firstn 7 [OpAdd 1; OpAdd 2; OpAdd 3; OpMoveUp 3; OpRemove 2; OpAdd 4; OpMoveDown 1]))
    (count_adds (firstn 7 [OpAdd 1; OpAdd 2; OpAdd 3; OpMoveUp 3; OpRemove 2; OpAdd 4; OpMoveDown 1])
     - count_removes (firstn 7 [OpAdd 1; OpAdd 2; OpAdd 3; OpMoveUp 3; OpRemove 2; OpAdd 4; OpMoveDown 1])).
Proof.
split; [reflexivity|].
apply (list_integrity (fun _ => mk_linkedlist None None)). reflexivity.
Defined.

(** ** The z-order policy: what the two bounded walks do *)

Lemma take_drop_while {T : Type} (f : T -> bool) l :
  take_while f l ++ drop_while f l = l.
Proof. induction l as [|x r IH]; simpl; [reflexivity|]. destruct (f x); simpl; congruence. Qed.

Lemma take_while_ext {T : Type} (f g : T -> bool) l :
  (forall x, f x = g x) -> take_while f l = take_while g l.
Proof. intros E. induction l as [|x r IH]; simpl; [reflexivity|]. now rewrite E, IH. Qed.

Lemma drop_while_ext {T : Type} (f g : T -> bool) l :
  (forall x, f x = g x) -> drop_while f l = drop_while g l.
Proof. intros E. induction l as [|x r IH]; simpl; [reflexivity|]. now rewrite E, IH. Qed.

Lemma links_only_payload (s s' : wlist) x :
  links_only s s' -> payload (mem s' x) = payload (mem s x).
Proof. intros Hlo. rewrite (Hlo x). reflexivity. Qed.

Lemma down_ok_payload wh wx : down_ok wh wx = down_ok (payload wh) (payload wx).
Proof. reflexivity. Qed.

Lemma up_ok_payload wh wx : up_ok wh wx = up_ok (payload wh) (payload wx).
Proof. reflexivity. Qed.

Lemma down_ok_links_only (s s' : wlist) h x :
  links_only s s' -> down_ok (mem s' h) (mem s' x) = down_ok (mem s h) (mem s x).
Proof.
intros Hlo. rewrite down_ok_payload, !(links_only_payload s s') by exact Hlo.
reflexivity.
Qed.

Lemma up_ok_links_only (s s' : wlist) h x :
  links_only s s' -> up_ok (mem s' h) (mem s' x) = up_ok (mem s h) (mem s x).
Proof.
intros Hlo. rewrite up_ok_payload, !(links_only_payload s s') by exact Hlo.
reflexivity.
Qed.

Lemma movetobottom_loop_unfold fuel (s : wlist) h cnt :
  movetobottom_loop (S fuel) s h cnt =
  match next (lk s h) with
  | None => Some (s, cnt)
  | Some n =>
      if down_ok (mem s h) (mem s n) then
        let (s', ok) := gui_linkedlist_widgetmovedown s h in
        if (ok =? 0)%Z then Some (s', cnt)
        else movetobottom_loop fuel s' h (incr32 cnt)
      else Some (s, cnt)
  end.
Proof.
cbn [movetobottom_loop]. destruct (next (lk s h)) as [n|]; [|reflexivity]. unfold down_ok.
destruct (guii_widget_isdialogbase (mem s h)); [reflexivity|].
destruct (guii_widget_allowchildren (mem s h)).
- destruct (guii_widget_isdialogbase (mem s n)); simpl; [reflexivity|].
  destruct (zindex (mem s h) >=? zindex (mem s n))%Z; reflexivity.
- destruct (guii_widget_allowchildren (mem s n)); simpl; [reflexivity|].
  destruct (zindex (mem s h) >=? zindex (mem s n))%Z; reflexivity.
Qed.

Lemma movetotop_loop_unfold fuel (s : wlist) h cnt :
  movetotop_loop (S fuel) s h cnt =
  match prev (lk s h) with
  | None => Some (s, cnt)
  | Some p =>
      if up_ok (mem s h) (mem s p) then
        let (s', ok) := gui_linkedlist_widgetmoveup s h in
        if (ok =? 0)%Z then Some (s', cnt)
        else movetotop_loop fuel s' h (incr32 cnt)
      else Some (s, cnt)
  end.
Proof.
cbn [movetotop_loop]. destruct (prev (lk s h)) as [p|]; [|reflexivity]. unfold up_ok.
destruct (guii_widget_isdialogbase (mem s h)).
- destruct (guii_widget_isdialogbase (mem s p)); reflexivity.
- destruct (guii_widget_allowchildren (mem s h)).
  + destruct (guii_widget_allowchildren (mem s p)); simpl; [|reflexivity].
    destruct (zindex (mem s h) <=? zindex (mem s p))%Z; reflexivity.
  + destruct (zindex (mem s h) <=? zindex (mem s p))%Z; reflexivity.
Qed.

(** The downward walk moves [h] past the longest run of successors it may
    pass, one successful step each, and touches link cells only. *)
Lemma movetobottom_loop_spec h : forall l2 l1 (s : wlist) cnt fuel,
  dll s (l1 ++ h :: l2) -> length l2 < fuel ->
  exists s',
    movetobottom_loop fuel s h cnt =
      Some (s', Nat.iter (length (take_while (fun x => down_ok (mem s h) (mem s x)) l2))
                  incr32 cnt) /\
    dll s' (l1 ++ take_while (fun x => down_ok (mem s h) (mem s x)) l2
               ++ h :: drop_while (fun x => down_ok (mem s h) (mem s x)) l2) /\
    links_only s s'.
Proof.
induction l2 as [|n l2 IH]; intros l1 s cnt fuel Hd Hf.
- destruct fuel as [|fuel]; [simpl in Hf; lia|].
  rewrite movetobottom_loop_unfold.
  destruct (dll_split _ _ _ _ Hd) as (_ & _ & _ & _ & _ & _ & S2).
  destruct S2 as [Hn _]. rewrite Hn.
  exists s. simpl. split; [reflexivity|]. split; [exact Hd | apply links_only_refl].
- destruct fuel as [|fuel]; [simpl in Hf; lia|]. simpl in Hf.
  rewrite movetobottom_loop_unfold.
  destruct (dll_split _ _ _ _ Hd) as (_ & _ & _ & _ & _ & _ & S2).
  destruct S2 as [Hn _]. rewrite Hn. simpl take_while. simpl drop_while.
  destruct (down_ok (mem s h) (mem s n)) eqn:Hok.
  + destruct (movedown_gen_swap _ _ _ _ _ Hd) as [Hr Hd1].
    assert (Hlo : links_only s (fst (gui_linkedlist_widgetmovedown s h)))
      by apply movedown_gen_links_only.
    unfold gui_linkedlist_widgetmovedown in *.
    destruct (gui_linkedlist_movedown_gen s (Some h)) as [s1 ok]. simpl in Hr, Hd1, Hlo.
    subst ok. simpl.
    replace (l1 ++ n :: h :: l2) with ((l1 ++ [n]) ++ h :: l2) in Hd1
      by (rewrite <- app_assoc; reflexivity).
    destruct (IH (l1 ++ [n]) s1 (incr32 cnt) fuel Hd1) as [s' [Hrun [Hd' Hlo']]]; [lia|].
    rewrite (take_while_ext _ (fun x => down_ok (mem s h) (mem s x))) in Hrun, Hd'
      by (intros x; apply down_ok_links_only; exact Hlo).
    rewrite (drop_while_ext _ (fun x => down_ok (mem s h) (mem s x))) in Hd'
      by (intros x; apply down_ok_links_only; exact Hlo).
    exists s'. split; [|split].
    * rewrite Hrun. rewrite <- Nat.iter_succ_r. reflexivity.
    * rewrite <- app_assoc in Hd'. exact Hd'.
    * eapply links_only_trans; eauto.
  + exists s. simpl. split; [reflexivity|]. split; [exact Hd | apply links_only_refl].
Qed.

(** The upward walk, likewise, past the longest run of predecessors. *)
Lemma movetotop_loop_spec h : forall l1 l2 (s : wlist) cnt fuel,
  dll s (l1 ++ h :: l2) -> length l1 < fuel ->
  exists s',
    movetotop_loop fuel s h cnt =
      Some (s', Nat.iter (length (take_while (fun x => up_ok (mem s h) (mem s x)) (rev l1)))
                  incr32 cnt) /\
    dll s' (rev (drop_while (fun x => up_ok (mem s h) (mem s x)) (rev l1))
              ++ h :: rev (take_while (fun x => up_ok (mem s h) (mem s x)) (rev l1)) ++ l2) /\
    links_only s s'.
Proof.
induction l1 as [|p l1 IH] using rev_ind; intros l2 s cnt fuel Hd Hf.
- destruct fuel as [|fuel]; [simpl in Hf; lia|].
  rewrite movetotop_loop_unfold.
  destruct (dll_split _ _ _ _ Hd) as (_ & _ & _ & _ & _ & S1 & _).
  destruct S1 as [_ Hp]. rewrite Hp.
  exists s. simpl. split; [reflexivity|]. split; [exact Hd | apply links_only_refl].
- destruct fuel as [|fuel]; [simpl in Hf; lia|]. rewrite length_app in Hf. simpl in Hf.
  rewrite movetotop_loop_unfold.
  destruct (dll_split _ _ _ _ Hd) as (_ & _ & _ & _ & _ & S1 & _).
  destruct (dseg_ends _ _ _ _ _ _ S1) as [_ Hp]. rewrite lastp_app in Hp. cbn [lastp] in Hp.
  rewrite Hp. rewrite rev_app_distr. simpl rev. simpl take_while. simpl drop_while.
  destruct (up_ok (mem s h) (mem s p)) eqn:Hok.
  + rewrite <- app_assoc in Hd. simpl in Hd.
    destruct (moveup_gen_swap _ _ _ _ _ Hd) as [Hr Hd1].
    assert (Hlo : links_only s (fst (gui_linkedlist_widgetmoveup s h)))
      by apply moveup_gen_links_only.
    unfold gui_linkedlist_widgetmoveup in *.
    destruct (gui_linkedlist_moveup_gen s (Some h)) as [s1 ok]. simpl in Hr, Hd1, Hlo.
    subst ok. simpl.
    destruct (IH (p :: l2) s1 (incr32 cnt) fuel Hd1) as [s' [Hrun [Hd' Hlo']]]; [lia|].
    rewrite (take_while_ext _ (fun x => up_ok (mem s h) (mem s x))) in Hrun, Hd'
      by (intros x; apply up_ok_links_only; exact Hlo).
    rewrite (drop_while_ext _ (fun x => up_ok (mem s h) (mem s x))) in Hd'
      by (intros x; apply up_ok_links_only; exact Hlo).
    exists s'. split; [|split].
    * rewrite Hrun. rewrite <- Nat.iter_succ_r. reflexivity.
    * rewrite <- app_assoc. simpl. exact Hd'.
    * eapply links_only_trans; eauto.
  + exists s. simpl. split; [reflexivity|]. split; [|apply links_only_refl].
    rewrite rev_involutive. exact Hd.
Qed.

(** C1, as stated, fails: create a widget whose type is a dialog base
    without children support, then a plain widget.  The plain widget
    first walks to the top, then walks down again past the dialog base,
    which the plain branch of the downward walk does not stop at: the
    list ends as dialog base, plain widget. *)
Lemma ordering_counterexample :
  zorder_well_used any_node [] [ZCreate 1 bare_dialog_type; ZCreate 2 plain_type] = true /\
  exists s,
    run_zorder 5 0 (empty_list blank_memory)
      [ZCreate 1 bare_dialog_type; ZCreate 2 plain_type] = Some s /\
    walk_next 3 s (first (root s)) = [1; 2] /\
    guii_widget_isdialogbase (mem s 1) = true /\
    guii_widget_isdialogbase (mem s 2) = false /\
    ~ siblings_ordered s 2.
Proof.
split; [reflexivity|]. eexists. split; [reflexivity|].
split; [reflexivity|]. split; [reflexivity|]. split; [reflexivity|].
intros [_ Hrule]. specialize (Hrule 1 2 (or_introl eq_refl) eq_refl).
vm_compute in Hrule. discriminate.
Qed.

(** ** The ordering invariant *)

Lemma ssorted_app g a b :
  ssorted g (a ++ b) <->
  ssorted g a /\ ssorted g b /\ (forall x y, In x a -> In y b -> g x <= g y).
Proof.
induction a as [|x a IH]; simpl.
- intuition.
- rewrite IH. split.
  + intros [Hx [Ha [Hb Hab]]]. repeat split; auto.
    * intros y Hy. apply Hx. apply in_or_app. auto.
    * intros x' y [<-|Hx'] Hy; [apply Hx; apply in_or_app; auto | auto].
  + intros [[Hx Ha] [Hb Hab]]. repeat split; auto.
    intros y Hy. apply in_app_or in Hy. destruct Hy; auto.
Qed.

Lemma ssorted_ext g g' l :
  (forall x, In x l -> g' x = g x) -> ssorted g l -> ssorted g' l.
Proof.
induction l as [|x r IH]; simpl; intros E Hs; [exact I|].
destruct Hs as [Hx Hr]. split.
- intros y Hy. rewrite !E by auto. auto.
- apply IH; auto.
Qed.

Lemma ssorted_adjacent g l1 x y l2 : ssorted g (l1 ++ x :: y :: l2) -> g x <= g y.
Proof.
intros Hs. apply ssorted_app in Hs. destruct Hs as [_ [Hs _]].
simpl in Hs. destruct Hs as [Hx _]. apply Hx. now left.
Qed.

Lemma take_while_all {T : Type} (f : T -> bool) l x :
  In x (take_while f l) -> f x = true.
Proof.
induction l as [|a r IH]; simpl; [tauto|].
destruct (f a) eqn:Ha; simpl; [|tauto]. intros [<-|Hin]; auto.
Qed.

Lemma drop_while_head {T : Type} (f : T -> bool) l d r :
  drop_while f l = d :: r -> f d = false.
Proof.
induction l as [|a l' IH]; simpl; [discriminate|].
destruct (f a) eqn:Ha; [exact IH|]. intros [= <- _]. exact Ha.
Qed.

Lemma rev_drop_take_while {T : Type} (f : T -> bool) (l : list T) :
  rev (drop_while f (rev l)) ++ rev (take_while f (rev l)) = l.
Proof.
rewrite <- rev_app_distr, take_drop_while. apply rev_involutive.
Qed.

(** Keys below a bound: everything in the part of [l] that an upward walk
    from the tail cannot pass lies strictly below [b], when failing the
    test means lying below [b]. *)
Lemma blocked_above_bound g (f : handle -> bool) l b :
  ssorted g l ->
  (forall x, In x l -> f x = false -> g x < b) ->
  forall x, In x (rev (drop_while f (rev l))) -> g x < b.
Proof.
intros Hs Hf x Hx.
assert (Hl := rev_drop_take_while f l).
destruct (drop_while f (rev l)) as [|d r] eqn:Hd; [simpl in Hx; tauto|].
apply drop_while_head in Hd. simpl in Hx, Hl.
rewrite <- Hl in Hs, Hf. rewrite <- app_assoc in Hs. apply ssorted_app in Hs.
destruct Hs as [_ [_ Hs]].
assert (Hdb : g d < b).
{ apply Hf; [|exact Hd]. rewrite !in_app_iff. simpl. auto. }
apply in_app_or in Hx. destruct Hx as [Hx|[<-|[]]]; [|exact Hdb].
specialize (Hs x d Hx). simpl in Hs. specialize (Hs (or_introl eq_refl)). lia.
Qed.

(** Keys above a bound, for the part a downward walk cannot pass. *)
Lemma blocked_below_bound g (f : handle -> bool) l b :
  ssorted g l ->
  (forall x, In x l -> f x = false -> b < g x) ->
  forall x, In x (drop_while f l) -> b < g x.
Proof.
intros Hs Hf x Hx.
assert (Hl := take_drop_while f l).
destruct (drop_while f l) as [|d r] eqn:Hd; [simpl in Hx; tauto|].
apply drop_while_head in Hd.
rewrite <- Hl in Hs, Hf. apply ssorted_app in Hs. destruct Hs as [_ [Hs _]].
simpl in Hs. destruct Hs as [Hs _].
assert (Hdb : b < g d).
{ apply Hf; [|exact Hd]. rewrite in_app_iff. simpl. auto. }
destruct Hx as [<-|Hx]; [exact Hdb|]. specialize (Hs x Hx). lia.
Qed.

(** A downward walk that passes only nodes of its own key keeps a sorted
    list sorted. *)
Lemma movetobottom_sorted g (f : handle -> bool) l1 h l2 :
  ssorted g (l1 ++ h :: l2) ->
  (forall x, In x l2 -> f x = true -> g x = g h) ->
  ssorted g (l1 ++ take_while f l2 ++ h :: drop_while f l2).
Proof.
intros Hs Hf.
assert (Ht : forall x, In x (take_while f l2) -> g x = g h).
{ intros x Hx. apply Hf; [|eapply take_while_all; eauto].
  rewrite <- (take_drop_while f l2). apply in_or_app. auto. }
rewrite <- (take_drop_while f l2) in Hs.
set (T := take_while f l2) in *. set (D := drop_while f l2) in *.
apply ssorted_app in Hs. destruct Hs as [H1 [Hs H1x]]. simpl in Hs.
destruct Hs as [Hh Hs]. apply ssorted_app in Hs. destruct Hs as [HT [HD HTD]].
apply ssorted_app. split; [exact H1|]. split.
- apply ssorted_app. split; [exact HT|]. split.
  + simpl. split; [|exact HD]. intros y Hy. apply Hh. apply in_or_app. auto.
  + intros x y Hx [<-|Hy]; [rewrite (Ht x Hx); lia | auto].
- intros x y Hx Hy. apply H1x; [exact Hx|].
  apply in_app_or in Hy. simpl. destruct Hy as [Hy|[<-|Hy]]; auto;
    right; apply in_or_app; auto.
Qed.

(** The same for an upward walk. *)
Lemma movetotop_sorted g (f : handle -> bool) l1 h l2 :
  ssorted g (l1 ++ h :: l2) ->
  (forall x, In x l1 -> f x = true -> g x = g h) ->
  ssorted g (rev (drop_while f (rev l1)) ++ h :: rev (take_while f (rev l1)) ++ l2).
Proof.
intros Hs Hf.
assert (Ht : forall x, In x (rev (take_while f (rev l1))) -> g x = g h).
{ intros x Hx. apply in_rev in Hx. apply Hf; [|eapply take_while_all; eauto].
  apply in_rev. rewrite <- (take_drop_while f (rev l1)). apply in_or_app. auto. }
rewrite <- (rev_drop_take_while f l1) in Hs.
set (X := rev (drop_while f (rev l1))) in *.
set (Y := rev (take_while f (rev l1))) in *.
rewrite <- app_assoc in Hs.
apply ssorted_app in Hs. destruct Hs as [HX [Hs HXr]].
apply ssorted_app in Hs. destruct Hs as [HY [Hs HYr]]. simpl in Hs.
destruct Hs as [Hh H2].
apply ssorted_app. split; [exact HX|]. split.
- simpl. split.
  + intros y Hy. apply in_app_or in Hy. destruct Hy as [Hy|Hy]; [rewrite (Ht y Hy); lia | auto].
  + apply ssorted_app. split; [exact HY|]. split; [exact H2|].
    intros x y Hx Hy. apply HYr; simpl; auto.
- intros x y Hx Hy. apply HXr; [exact Hx|].
  simpl in Hy. rewrite in_app_iff in *. simpl. tauto.
Qed.

(** Linking at the tail, walking up, then walking down puts a new node
    behind everything of its own or a smaller key. *)
Lemma widgetadd_sorted g (up down : handle -> bool) l h :
  ssorted g l ->
  (forall x, In x l -> up x = false -> g x < g h) ->
  (forall x, In x l -> up x = true -> down x = true -> g x = g h) ->
  (forall x, In x l -> down x = false -> g h < g x) ->
  ssorted g (rev (drop_while up (rev l))
             ++ take_while down (rev (take_while up (rev l)))
             ++ h :: drop_while down (rev (take_while up (rev l)))).
Proof.
intros Hs HU HUD HD.
assert (HX := blocked_above_bound g up l (g h) Hs HU).
assert (Hl := rev_drop_take_while up l).
set (X := rev (drop_while up (rev l))) in *.
set (Y := rev (take_while up (rev l))) in *.
assert (HYl : forall x, In x Y -> In x l).
{ intros x Hx. rewrite <- Hl. apply in_or_app. auto. }
assert (HYup : forall x, In x Y -> up x = true).
{ intros x Hx. apply in_rev in Hx. eapply take_while_all; eauto. }
rewrite <- Hl in Hs. apply ssorted_app in Hs. destruct Hs as [HsX [HsY HXY]].
assert (HDr := blocked_below_bound g down Y (g h) HsY
                 (fun x Hx Hd => HD x (HYl x Hx) Hd)).
assert (HYs := take_drop_while down Y).
set (T := take_while down Y) in *. set (D := drop_while down Y) in *.
assert (HT : forall x, In x T -> g x = g h).
{ intros x Hx. assert (HxY : In x Y) by (rewrite <- HYs; apply in_or_app; auto).
  apply HUD; auto. eapply take_while_all; eauto. }
rewrite <- HYs in HsY, HXY. apply ssorted_app in HsY. destruct HsY as [HsT [HsD HTD]].
apply ssorted_app. split; [exact HsX|]. split.
- apply ssorted_app. split; [exact HsT|]. split.
  + simpl. split; [|exact HsD]. intros y Hy. specialize (HDr y Hy). lia.
  + intros x y Hx [<-|Hy]; [rewrite (HT x Hx); lia | auto].
- intros x y Hx Hy. apply in_app_or in Hy. destruct Hy as [Hy|[<-|Hy]].
  + apply HXY; [exact Hx | apply in_or_app; auto].
  + specialize (HX x Hx). lia.
  + apply HXY; [exact Hx | apply in_or_app; auto].
Qed.

Ltac group_cases wh wx :=
  unfold up_ok, down_ok, group;
  intros [Zh Ch] [Zx Cx]; rewrite Zh, Zx;
  destruct (guii_widget_isdialogbase wh), (guii_widget_allowchildren wh),
           (guii_widget_isdialogbase wx), (guii_widget_allowchildren wx);
  simpl; intros; try lia; try discriminate;
  try (specialize (Ch eq_refl); discriminate);
  try (specialize (Cx eq_refl); discriminate).

Lemma up_ok_same_group wh wx :
  node_ok wh -> node_ok wx ->
  up_ok wh wx = true -> group wx <= group wh -> group wx = group wh.
Proof. group_cases wh wx. Qed.

Lemma down_ok_same_group wh wx :
  node_ok wh -> node_ok wx ->
  down_ok wh wx = true -> group wh <= group wx -> group wx = group wh.
Proof. group_cases wh wx. Qed.

Lemma up_blocked_group wh wx :
  node_ok wh -> node_ok wx -> up_ok wh wx = false -> group wx < group wh.
Proof. group_cases wh wx. Qed.

Lemma down_blocked_group wh wx :
  node_ok wh -> node_ok wx -> down_ok wh wx = false -> group wh < group wx.
Proof. group_cases wh wx. Qed.

Lemma up_down_same_group wh wx :
  node_ok wh -> node_ok wx ->
  up_ok wh wx = true -> down_ok wh wx = true -> group wx = group wh.
Proof. group_cases wh wx. Qed.

(** ** Flag bits *)

Lemma flag_test_set_same f m : m <> 0%Z -> flag_test (flag_set f m) m = true.
Proof.
intros Hm. unfold flag_test, flag_set. apply negb_true_iff. apply Z.eqb_neq.
rewrite Z.land_lor_distr_l, Z.land_diag. intros H0. apply Z.lor_eq_0_iff in H0. tauto.
Qed.

Lemma flag_test_set_other f m m' :
  Z.land m m' = 0%Z -> flag_test (flag_set f m) m' = flag_test f m'.
Proof.
intros Hm. unfold flag_test, flag_set.
now rewrite Z.land_lor_distr_l, Hm, Z.lor_0_r.
Qed.

Lemma flag_test_clr_same f m :
  Z.land (Z.lxor 0xFFFFFFFF m) m = 0%Z -> flag_test (flag_clr f m) m = false.
Proof.
intros Hm. unfold flag_test, flag_clr.
now rewrite <- Z.land_assoc, Hm, Z.land_0_r.
Qed.

Lemma flag_test_clr_other f m m' :
  Z.land (Z.lxor 0xFFFFFFFF m) m' = m' -> flag_test (flag_clr f m) m' = flag_test f m'.
Proof.
intros Hm. unfold flag_test, flag_clr. now rewrite <- Z.land_assoc, Hm.
Qed.

Lemma fresh_widget_node_ok t :
  dialogs_are_containers (fresh_widget t) = true -> node_ok (fresh_widget t).
Proof.
unfold dialogs_are_containers, node_ok. intros Ht. split; [reflexivity|].
intros Hd. rewrite Hd in Ht. exact Ht.
Qed.

(** The constructor type of a dialog allows children when the dialog it
    becomes does. *)
Lemma dialog_constructor_allows t :
  dialogs_are_containers
    (guii_widget_setflag (fresh_widget t) GUI_FLAG_WIDGET_DIALOG_BASE) = true ->
  guii_widget_allowchildren (fresh_widget t) = true.
Proof.
unfold dialogs_are_containers, guii_widget_isdialogbase, guii_widget_allowchildren,
  guii_widget_getcoreflag, guii_widget_getflag. simpl.
change (flag_test (flag_set 0 GUI_FLAG_WIDGET_DIALOG_BASE) GUI_FLAG_WIDGET_DIALOG_BASE)
  with true.
change (flag_test (flag_set 0 GUI_FLAG_WIDGET_DIALOG_BASE) GUI_FLAG_WIDGET_ALLOW_CHILDREN)
  with false.
change (flag_test 0 GUI_FLAG_WIDGET_ALLOW_CHILDREN) with false.
rewrite orb_true_r. simpl. tauto.
Qed.

Lemma node_ok_payload w : node_ok w <-> node_ok (payload w).
Proof. reflexivity. Qed.

Lemma node_ok_links_only (s s' : wlist) x :
  links_only s s' -> node_ok (mem s x) -> node_ok (mem s' x).
Proof.
intros Hlo Hok. apply node_ok_payload. rewrite (links_only_payload s s') by exact Hlo.
apply node_ok_payload. exact Hok.
Qed.

Lemma group_links_only (s s' : wlist) x :
  links_only s s' -> group (mem s' x) = group (mem s x).
Proof.
intros Hlo. change (group (payload (mem s' x)) = group (payload (mem s x))).
now rewrite (links_only_payload s s').
Qed.

Lemma uint8_of_iter k c :
  (0 <= c < 2 ^ 32)%Z -> to_uint8 (Nat.iter k incr32 c) = ((c + Z.of_nat k) mod 2 ^ 8)%Z.
Proof.
intros Hc. unfold to_uint8.
assert (Hk : Nat.iter k incr32 c = ((c + Z.of_nat k) mod 2 ^ 32)%Z).
{ induction k as [|k IH].
  - simpl. rewrite Z.add_0_r, Z.mod_small; lia.
  - rewrite Nat.iter_succ, IH. unfold incr32.
    rewrite Zplus_mod_idemp_l. f_equal. lia. }
rewrite Hk. apply Z.mod_mod_divide. exists (2 ^ 24)%Z. reflexivity.
Qed.

(** What gui_linkedlist_widgetmovetobottom does to a consistent list. *)
Lemma widgetmovetobottom_spec h l1 l2 (s : wlist) fuel :
  dll s (l1 ++ h :: l2) -> length l2 < fuel ->
  exists s',
    gui_linkedlist_widgetmovetobottom fuel s h =
      Some (s', (Z.of_nat (length (take_while (fun x => down_ok (mem s h) (mem s x)) l2))
                 mod 2 ^ 8)%Z) /\
    dll s' (l1 ++ take_while (fun x => down_ok (mem s h) (mem s x)) l2
               ++ h :: drop_while (fun x => down_ok (mem s h) (mem s x)) l2) /\
    links_only s s'.
Proof.
intros Hd Hf. unfold gui_linkedlist_widgetmovetobottom.
destruct (dll_split _ _ _ _ Hd) as (_ & _ & _ & _ & _ & _ & S2).
destruct l2 as [|n l2].
- destruct S2 as [Hn _]. rewrite Hn. exists s. simpl.
  split; [reflexivity|]. split; [exact Hd | apply links_only_refl].
- destruct S2 as [Hn _]. rewrite Hn.
  destruct (movetobottom_loop_spec h (n :: l2) l1 s 0%Z fuel Hd Hf) as [s' [Hrun [Hd' Hlo]]].
  rewrite Hrun. exists s'. split; [|split; assumption].
  rewrite uint8_of_iter by lia. reflexivity.
Qed.

(** What gui_linkedlist_widgetmovetotop does; the count it returns starts
    from the indeterminate [cnt0] unless the node is already first. *)
Lemma widgetmovetotop_spec h l1 l2 (s : wlist) fuel cnt0 :
  dll s (l1 ++ h :: l2) -> length l1 < fuel ->
  exists s',
    gui_linkedlist_widgetmovetotop fuel cnt0 s h =
      Some (s', match l1 with
                | [] => 0%Z
                | _ => to_uint8 (Nat.iter
                         (length (take_while (fun x => up_ok (mem s h) (mem s x)) (rev l1)))
                         incr32 cnt0)
                end) /\
    dll s' (rev (drop_while (fun x => up_ok (mem s h) (mem s x)) (rev l1))
              ++ h :: rev (take_while (fun x => up_ok (mem s h) (mem s x)) (rev l1)) ++ l2) /\
    links_only s s'.
Proof.
intros Hd Hf. unfold gui_linkedlist_widgetmovetotop.
destruct (dll_split _ _ _ _ Hd) as (_ & _ & _ & _ & _ & S1 & _).
destruct (dseg_ends _ _ _ _ _ _ S1) as [_ Hp].
destruct l1 as [|p l1] using rev_ind.
- cbn [lastp] in Hp. rewrite Hp. exists s. simpl.
  split; [reflexivity|]. split; [exact Hd | apply links_only_refl].
- clear IHl1. rewrite lastp_app in Hp. cbn [lastp] in Hp. rewrite Hp.
  destruct (movetotop_loop_spec h (l1 ++ [p]) l2 s cnt0 fuel Hd Hf) as [s' [Hrun [Hd' Hlo]]].
  rewrite Hrun. exists s'. split; [|split; assumption].
  destruct (l1 ++ [p]) eqn:E; [destruct l1; discriminate | reflexivity].
Qed.

Lemma take_drop_while_perm (f : handle -> bool) l1 h l2 :
  Permutation (l1 ++ take_while f l2 ++ h :: drop_while f l2) (l1 ++ h :: l2).
Proof.
apply Permutation_app_head. rewrite <- (take_drop_while f l2) at 3.
symmetry. apply Permutation_middle.
Qed.

Lemma rev_drop_take_while_perm (f : handle -> bool) l1 h l2 :
  Permutation (rev (drop_while f (rev l1)) ++ h :: rev (take_while f (rev l1)) ++ l2)
              (l1 ++ h :: l2).
Proof.
rewrite <- (rev_drop_take_while f l1) at 3. rewrite <- app_assoc.
apply Permutation_app_head. apply Permutation_middle.
Qed.

Lemma ssorted_le_of_split g l1 h l2 :
  ssorted g (l1 ++ h :: l2) ->
  (forall x, In x l1 -> g x <= g h) /\ (forall x, In x l2 -> g h <= g x).
Proof.
intros Hs. apply ssorted_app in Hs. destruct Hs as [_ [Hs H1]]. simpl in Hs.
destruct Hs as [Hh _]. split; [|exact Hh].
intros x Hx. apply H1; simpl; auto.
Qed.

Lemma zinv_movetobottom (s : wlist) l h fuel :
  zinv s l -> In h l -> length l < fuel ->
  exists s' l',
    option_map fst (gui_linkedlist_widgetmovetobottom fuel s h) = Some s' /\
    zinv s' l' /\ Permutation l' l.
Proof.
intros [Hd [Hok Hs]] Hin Hf. apply in_split in Hin. destruct Hin as [l1 [l2 ->]].
destruct (widgetmovetobottom_spec h l1 l2 s fuel Hd) as [s' [Hrun [Hd' Hlo]]].
{ rewrite length_app in Hf. simpl in Hf. lia. }
rewrite Hrun. simpl. eexists s', _. split; [reflexivity|]. split.
- split; [exact Hd'|]. split.
  + intros x Hx. apply (node_ok_links_only s s'); [exact Hlo|]. apply Hok.
    eapply Permutation_in; [apply take_drop_while_perm | exact Hx].
  + apply ssorted_ext with (g := fun x => group (mem s x)).
    { intros x _. apply group_links_only. exact Hlo. }
    apply movetobottom_sorted; [exact Hs|].
    intros x Hx Hdown. destruct (ssorted_le_of_split _ _ _ _ Hs) as [_ Hle].
    apply down_ok_same_group; auto.
    * apply Hok. apply in_or_app. simpl. auto.
    * apply Hok. apply in_or_app. simpl. auto.
- apply take_drop_while_perm.
Qed.

Lemma zinv_movetotop (s : wlist) l h fuel cnt0 :
  zinv s l -> In h l -> length l < fuel ->
  exists s' l',
    option_map fst (gui_linkedlist_widgetmovetotop fuel cnt0 s h) = Some s' /\
    zinv s' l' /\ Permutation l' l.
Proof.
intros [Hd [Hok Hs]] Hin Hf. apply in_split in Hin. destruct Hin as [l1 [l2 ->]].
destruct (widgetmovetotop_spec h l1 l2 s fuel cnt0 Hd) as [s' [Hrun [Hd' Hlo]]].
{ rewrite length_app in Hf. simpl in Hf. lia. }
rewrite Hrun. simpl. eexists s', _. split; [reflexivity|]. split.
- split; [exact Hd'|]. split.
  + intros x Hx. apply (node_ok_links_only s s'); [exact Hlo|]. apply Hok.
    eapply Permutation_in; [apply rev_drop_take_while_perm | exact Hx].
  + apply ssorted_ext with (g := fun x => group (mem s x)).
    { intros x _. apply group_links_only. exact Hlo. }
    apply movetotop_sorted; [exact Hs|].
    intros x Hx Hup. destruct (ssorted_le_of_split _ _ _ _ Hs) as [Hle _].
    apply up_ok_same_group; auto.
    * apply Hok. apply in_or_app. simpl. auto.
    * apply Hok. apply in_or_app. auto.
- apply rev_drop_take_while_perm.
Qed.

Lemma store_widget_dll (s : wlist) l h w :
  dll s l -> ~ In h l -> dll (store_widget h w s) l.
Proof.
intros [Hnd Hd] Hin. split; [exact Hnd|]. simpl.
apply dseg_frame with (s := s); [|exact Hd].
intros x Hx. unfold lk, store_widget. simpl. rewrite upd_other; [reflexivity|].
intros ->. tauto.
Qed.

Lemma zinv_create (s : wlist) l h t fuel cnt0 :
  zinv s l -> ~ In h l -> dialogs_are_containers (fresh_widget t) = true ->
  S (length l) < fuel ->
  exists s' l',
    gui_linkedlist_widgetadd fuel cnt0 (store_widget h (fresh_widget t) s) h = Some s' /\
    zinv s' l' /\ Permutation l' (h :: l) /\
    links_only (store_widget h (fresh_widget t) s) s'.
Proof.
intros [Hd [Hok Hs]] Hin Ht Hf.
set (s0 := store_widget h (fresh_widget t) s).
assert (Hd0 : dll s0 l) by (apply store_widget_dll; assumption).
assert (Hm0 : forall x, In x l -> mem s0 x = mem s x).
{ intros x Hx. unfold s0, store_widget. simpl. apply upd_other. intros ->. tauto. }
assert (Hh0 : mem s0 h = fresh_widget t).
{ unfold s0, store_widget. simpl. apply upd_same. }
assert (Hok0 : forall x, In x l -> node_ok (mem s0 x)).
{ intros x Hx. rewrite Hm0 by exact Hx. auto. }
assert (Hokh : node_ok (mem s0 h)).
{ rewrite Hh0. apply fresh_widget_node_ok. exact Ht. }
assert (Hs0 : ssorted (fun x => group (mem s0 x)) l).
{ apply ssorted_ext with (g := fun x => group (mem s x)); [|exact Hs].
  intros x Hx. now rewrite Hm0. }
unfold gui_linkedlist_widgetadd.
assert (Hd1 := add_gen_dll s0 l h Hd0 Hin).
assert (Hlo1 := add_gen_links_only s0 h).
set (s1 := gui_linkedlist_add_gen s0 h) in *.
destruct (widgetmovetotop_spec h l [] s1 fuel cnt0 Hd1) as [s2 [Hrun2 [Hd2 Hlo2]]]; [lia|].
rewrite Hrun2.
rewrite (take_while_ext _ (fun x => up_ok (mem s0 h) (mem s0 x))) in Hd2
  by (intros x; apply up_ok_links_only; exact Hlo1).
rewrite (drop_while_ext _ (fun x => up_ok (mem s0 h) (mem s0 x))) in Hd2
  by (intros x; apply up_ok_links_only; exact Hlo1).
rewrite app_nil_r in Hd2.
set (up := fun x => up_ok (mem s0 h) (mem s0 x)) in *.
assert (Hlo02 : links_only s0 s2) by (eapply links_only_trans; eauto).
assert (HlenY : length (rev (take_while up (rev l))) <= length l).
{ rewrite <- (rev_drop_take_while up l) at 2. rewrite length_app. lia. }
destruct (widgetmovetobottom_spec h _ _ s2 fuel Hd2) as [s3 [Hrun3 [Hd3 Hlo3]]]; [lia|].
rewrite Hrun3.
rewrite (take_while_ext (fun x => down_ok (mem s2 h) (mem s2 x))
           (fun x => down_ok (mem s0 h) (mem s0 x))) in Hd3
  by (intros x; apply down_ok_links_only; exact Hlo02).
rewrite (drop_while_ext (fun x => down_ok (mem s2 h) (mem s2 x))
           (fun x => down_ok (mem s0 h) (mem s0 x))) in Hd3
  by (intros x; apply down_ok_links_only; exact Hlo02).
set (down := fun x => down_ok (mem s0 h) (mem s0 x)) in *.
assert (Hlo03 : links_only s0 s3) by (eapply links_only_trans; eauto).
assert (Hperm : Permutation
          (rev (drop_while up (rev l)) ++ take_while down (rev (take_while up (rev l)))
             ++ h :: drop_while down (rev (take_while up (rev l)))) (h :: l)).
{ etransitivity; [apply take_drop_while_perm|].
  etransitivity; [symmetry; apply Permutation_middle|].
  constructor. rewrite rev_drop_take_while. reflexivity. }
eexists s3, _. split; [reflexivity|]. split; [|split; [exact Hperm | exact Hlo03]].
split; [exact Hd3|]. split.
- intros x Hx. apply (node_ok_links_only s0 s3); [exact Hlo03|].
  apply (Permutation_in _ Hperm) in Hx. destruct Hx as [<-|Hx]; auto.
- apply ssorted_ext with (g := fun x => group (mem s0 x)).
  { intros x _. apply group_links_only. exact Hlo03. }
  apply widgetadd_sorted; [exact Hs0| | |].
  + intros x Hx Hup. apply up_blocked_group; auto.
  + intros x Hx Hup Hdown. apply up_down_same_group; auto.
  + intros x Hx Hdown. apply down_blocked_group; auto.
Qed.

Lemma take_while_true {T : Type} (f : T -> bool) l :
  (forall x, In x l -> f x = true) -> take_while f l = l /\ drop_while f l = [].
Proof.
induction l as [|x r IH]; intros H; [split; reflexivity|].
simpl. rewrite (H x (or_introl eq_refl)).
destruct IH as [E1 E2]; [intros y Hy; apply H; now right|]. now rewrite E1, E2.
Qed.

Lemma group_le_2 w : group w <= 2.
Proof.
unfold group. destruct (guii_widget_isdialogbase w); [lia|].
destruct (guii_widget_allowchildren w); lia.
Qed.

(** A dialog: the node is created, flagged and walks behind every other
    node of the list. *)
Lemma zinv_dialog (s : wlist) l h t fuel cnt0 :
  zinv s l -> ~ In h l ->
  dialogs_are_containers
    (guii_widget_setflag (fresh_widget t) GUI_FLAG_WIDGET_DIALOG_BASE) = true ->
  S (length l) < fuel ->
  exists s' l',
    gui_dialog_create fuel cnt0 s h t = Some s' /\
    zinv s' l' /\ Permutation l' (h :: l).
Proof.
intros Hinv Hin Ht Hf.
assert (Hac := dialog_constructor_allows t Ht).
assert (Htc : dialogs_are_containers (fresh_widget t) = true).
{ unfold dialogs_are_containers. rewrite Hac. now destruct (guii_widget_isdialogbase _). }
destruct (zinv_create s l h t fuel cnt0 Hinv Hin Htc Hf)
  as (s1 & l1 & Hrun1 & [Hd1 [Hok1 Hs1]] & Hp1 & Hlo1).
unfold gui_dialog_create, widget_constructor. rewrite Hrun1.
assert (Hin1 : In h l1) by (apply (Permutation_in _ (Permutation_sym Hp1)); now left).
apply in_split in Hin1. destruct Hin1 as [a [b ->]].
set (s2 := set_node_flag h GUI_FLAG_WIDGET_DIALOG_BASE s1).
assert (Hnd : NoDup (a ++ h :: b)) by apply Hd1.
assert (Hha : ~ In h (a ++ b)) by (apply NoDup_remove_2; exact Hnd).
assert (Hm2 : forall x, x <> h -> mem s2 x = mem s1 x).
{ intros x Hx. unfold s2, set_node_flag. simpl. now apply upd_other. }
assert (Hh2 : mem s2 h = guii_widget_setflag (mem s1 h) GUI_FLAG_WIDGET_DIALOG_BASE).
{ unfold s2, set_node_flag. simpl. apply upd_same. }
assert (Hd2 : dll s2 (a ++ h :: b)).
{ destruct Hd1 as [_ D]. split; [exact Hnd|].
  apply dseg_frame with (s := s1); [|exact D].
  intros x _. unfold lk, s2, set_node_flag. simpl. unfold upd.
  destruct (Nat.eqb x h); reflexivity. }
assert (Hdb2 : guii_widget_isdialogbase (mem s2 h) = true).
{ rewrite Hh2. unfold guii_widget_isdialogbase, guii_widget_getflag, guii_widget_setflag.
  simpl. rewrite flag_test_set_same by discriminate. apply orb_true_r. }
assert (Hac1 : guii_widget_allowchildren (mem s1 h) = true).
{ change (guii_widget_allowchildren (payload (mem s1 h)) = true).
  rewrite (links_only_payload _ _ h Hlo1). unfold store_widget. simpl. rewrite upd_same.
  exact Hac. }
assert (Hac2 : guii_widget_allowchildren (mem s2 h) = true).
{ rewrite Hh2. revert Hac1.
  unfold guii_widget_allowchildren, guii_widget_getcoreflag, guii_widget_getflag,
    guii_widget_setflag. simpl.
  rewrite flag_test_set_other by reflexivity. tauto. }
destruct (widgetmovetobottom_spec h a b s2 fuel Hd2) as [s3 [Hrun3 [Hd3 Hlo3]]].
{ apply Permutation_length in Hp1. rewrite length_app in Hp1. simpl in Hp1. lia. }
rewrite Hrun3. simpl.
destruct (take_while_true (fun x => down_ok (mem s2 h) (mem s2 x)) b) as [Et Ed].
{ intros x _. unfold down_ok. now rewrite Hdb2. }
rewrite Et, Ed in Hd3.
exists s3, (a ++ b ++ [h]). split; [reflexivity|]. split.
- split; [exact Hd3|]. split.
  + intros x Hx. apply (node_ok_links_only s2 s3); [exact Hlo3|].
    destruct (Nat.eq_dec x h) as [->|Hx'].
    * split; [|intros _; exact Hac2]. rewrite Hh2. simpl.
      apply (Hok1 h). apply in_or_app. simpl. auto.
    * rewrite (Hm2 x Hx'). apply Hok1.
      rewrite !in_app_iff in Hx. rewrite in_app_iff. simpl in *. tauto.
  + apply ssorted_ext with (g := fun x => group (mem s2 x)).
    { intros x _. apply group_links_only. exact Hlo3. }
    rewrite app_assoc. apply ssorted_app. split; [|split].
    * apply ssorted_ext with (g := fun x => group (mem s1 x)).
      { intros x Hx. rewrite Hm2; [reflexivity|]. intros ->. contradiction. }
      apply ssorted_app in Hs1. destruct Hs1 as (Sa & Sb & Sab). simpl in Sb.
      apply ssorted_app. split; [exact Sa|]. split; [apply Sb|].
      intros x y Hx Hy. apply Sab; simpl; auto.
    * simpl. split; [intros y []|exact I].
    * intros x y _ [<-|[]]. unfold group at 2. rewrite Hdb2. apply group_le_2.
- etransitivity; [|exact Hp1]. apply Permutation_app_head. symmetry.
  apply Permutation_cons_append.
Qed.

Lemma zinv_siblings_ordered (s : wlist) l : zinv s l -> siblings_ordered s (length l).
Proof.
intros [Hd [Hok Hs]]. assert (Hd0 := Hd). destruct Hd0 as [_ Hseg].
unfold siblings_ordered. rewrite (walk_dseg _ _ _ _ _ Hseg).
split; [reflexivity|]. intros x y Hx Hy.
assert (Hx0 := Hx). apply in_split in Hx0. destruct Hx0 as [l1 [l2 ->]].
destruct (dll_split _ _ _ _ Hd) as (_ & _ & _ & _ & _ & _ & S2).
rewrite Hy in S2. destruct l2 as [|y' l2']; [destruct S2; discriminate|].
destruct S2 as [[= ->] _].
assert (Hg := ssorted_adjacent _ _ _ _ _ Hs). simpl in Hg.
destruct (Hok x Hx) as [Zx _].
destruct (Hok y') as [Zy _]; [apply in_or_app; simpl; auto|].
unfold ordering_rule. rewrite Zx, Zy.
apply Nat.leb_le in Hg. rewrite Hg. simpl.
destruct (group (mem s x) =? group (mem s y')); reflexivity.
Qed.

Lemma run_zorder_zinv fuel cnt0 (ops : list zorder_op) : forall (s : wlist) l m,
  zinv s l -> (forall x, In x l <-> In x m) ->
  zorder_well_used dialogs_are_containers m ops = true ->
  length l + length ops < fuel ->
  exists s' l',
    run_zorder fuel cnt0 s ops = Some s' /\ zinv s' l' /\
    length l' = length l + count_creates ops.
Proof.
induction ops as [|o r IH]; intros s l m Hinv Hm Hw Hf.
- exists s, l. simpl. split; [reflexivity|]. split; [exact Hinv | unfold count_creates; simpl; lia].
- simpl in Hf. destruct o as [h t|h t|h|h]; simpl in Hw.
  + apply andb_true_iff in Hw. destruct Hw as [Hw Hr].
    apply andb_true_iff in Hw. destruct Hw as [Hfresh Ht].
    apply negb_true_iff in Hfresh.
    assert (Hin : ~ In h l).
    { intros Hi. apply Hm in Hi. apply existsb_eqb_In in Hi. congruence. }
    destruct (zinv_create s l h t fuel cnt0 Hinv Hin Ht) as [s1 [l1 [Hrun [Hinv1 [Hp _]]]]];
      [lia|].
    destruct (IH s1 l1 (h :: m) Hinv1) as [s' [l' [Hrun' [Hinv' Hlen]]]]; auto.
    * intros x. split; intros Hx.
      -- apply (Permutation_in _ Hp) in Hx. destruct Hx as [<-|Hx]; [now left|].
         right. now apply Hm.
      -- apply (Permutation_in _ (Permutation_sym Hp)). destruct Hx as [<-|Hx]; [now left|].
         right. now apply Hm.
    * rewrite (Permutation_length Hp). simpl. lia.
    * exists s', l'. cbn [run_zorder apply_zorder_op]. rewrite Hrun.
      split; [exact Hrun'|]. split; [exact Hinv'|].
      rewrite Hlen, (Permutation_length Hp). unfold count_creates. simpl. lia.
  + apply andb_true_iff in Hw. destruct Hw as [Hw Hr].
    apply andb_true_iff in Hw. destruct Hw as [Hfresh Ht].
    apply negb_true_iff in Hfresh.
    assert (Hin : ~ In h l).
    { intros Hi. apply Hm in Hi. apply existsb_eqb_In in Hi. congruence. }
    destruct (zinv_dialog s l h t fuel cnt0 Hinv Hin Ht) as [s1 [l1 [Hrun [Hinv1 Hp]]]]; [lia|].
    destruct (IH s1 l1 (h :: m) Hinv1) as [s' [l' [Hrun' [Hinv' Hlen]]]]; auto.
    * intros x. split; intros Hx.
      -- apply (Permutation_in _ Hp) in Hx. destruct Hx as [<-|Hx]; [now left|].
         right. now apply Hm.
      -- apply (Permutation_in _ (Permutation_sym Hp)). destruct Hx as [<-|Hx]; [now left|].
         right. now apply Hm.
    * rewrite (Permutation_length Hp). simpl. lia.
    * exists s', l'. cbn [run_zorder apply_zorder_op]. rewrite Hrun.
      split; [exact Hrun'|]. split; [exact Hinv'|].
      rewrite Hlen, (Permutation_length Hp). unfold count_creates. simpl. lia.
  + apply andb_true_iff in Hw. destruct Hw as [He Hr].
    apply existsb_eqb_In in He. apply Hm in He.
    destruct (zinv_movetotop s l h fuel cnt0 Hinv He) as [s1 [l1 [Hrun [Hinv1 Hp]]]]; [lia|].
    destruct (IH s1 l1 m Hinv1) as [s' [l' [Hrun' [Hinv' Hlen]]]]; auto.
    * intros x. rewrite <- (Hm x). split; intros Hx.
      -- apply (Permutation_in _ Hp). exact Hx.
      -- apply (Permutation_in _ (Permutation_sym Hp)). exact Hx.
    * rewrite (Permutation_length Hp). lia.
    * exists s', l'. cbn [run_zorder apply_zorder_op]. rewrite Hrun.
      split; [exact Hrun'|]. split; [exact Hinv'|].
      rewrite Hlen, (Permutation_length Hp). unfold count_creates. simpl. lia.
  + apply andb_true_iff in Hw. destruct Hw as [He Hr].
    apply existsb_eqb_In in He. apply Hm in He.
    destruct (zinv_movetobottom s l h fuel Hinv He) as [s1 [l1 [Hrun [Hinv1 Hp]]]]; [lia|].
    destruct (IH s1 l1 m Hinv1) as [s' [l' [Hrun' [Hinv' Hlen]]]]; auto.
    * intros x. rewrite <- (Hm x). split; intros Hx.
      -- apply (Permutation_in _ Hp). exact Hx.
      -- apply (Permutation_in _ (Permutation_sym Hp)). exact Hx.
    * rewrite (Permutation_length Hp). lia.
    * exists s', l'. cbn [run_zorder apply_zorder_op]. rewrite Hrun.
      split; [exact Hrun'|]. split; [exact Hinv'|].
      rewrite Hlen, (Permutation_length Hp). unfold count_creates. simpl. lia.
Qed.

(** C1, amended.  Let every node that is a dialog base also allow
    children: every created widget type that is a dialog base allows
    children, as the DIALOG descriptor does, and gui_dialog_create is
    given constructors of types that allow children, as its
    documentation advises (gui_container_create).  Then for every
    sequence of creations and dialog creations (fresh handles; create
    leaves the z-index of a new node at zero) and move-to-top /
    move-to-bottom calls on members, starting from an empty sibling list
    and with fuel for the walks, every call returns and in the resulting
    list every adjacent pair of siblings obeys the group ordering rule:
    no dialog base precedes a node that is none, no container precedes
    a plain node, and within a group the z-index does not decrease. *)
Theorem ordering_invariant (fuel : nat) (cnt0 : Z) (m0 : handle -> gui_handle)
  (ops : list zorder_op) :
  zorder_well_used dialogs_are_containers [] ops = true ->
  length ops < fuel ->
  exists s,
    run_zorder fuel cnt0 (empty_list m0) ops = Some s /\
    siblings_ordered s (count_creates ops).
Proof.
intros Hw Hf.
assert (Hinv : zinv (empty_list m0) []).
{ split; [apply empty_list_dll|]. split; [intros x []|exact I]. }
destruct (run_zorder_zinv fuel cnt0 ops (empty_list m0) [] [] Hinv
            (fun x => conj (fun h => h) (fun h => h)) Hw Hf) as [s [l [Hrun [Hinv' Hlen]]]].
exists s. split; [exact Hrun|]. simpl in Hlen. rewrite <- Hlen.
apply zinv_siblings_ordered. exact Hinv'.
Qed.

(** A desktop's children: a control, a window, a widget of the dialog
    type, a dialog made from the constructor of a container, another
    control, and raises. *)
Lemma ordering_invariant_witness :
  exists s,
    run_zorder 9 0 (empty_list blank_memory)
      [ZCreate 1 plain_type; ZCreate 2 container_type; ZCreate 3 dialog_type;
       ZDialog 6 container_type; ZCreate 4 plain_type; ZMoveToBottom 1;
       ZCreate 5 container_type; ZMoveToTop 5] = Some s /\
    siblings_ordered s 6.
Proof.
apply (ordering_invariant 9 0 blank_memory
         [ZCreate 1 plain_type; ZCreate 2 container_type; ZCreate 3 dialog_type;
          ZDialog 6 container_type; ZCreate 4 plain_type; ZMoveToBottom 1;
          ZCreate 5 container_type; ZMoveToTop 5]).
- reflexivity.
- simpl. lia.
Defined.

(** Why the proviso covers the constructor given to gui_dialog_create: a
    dialog made from the constructor of a plain control, then a plain
    control.  No type is a dialog base, yet the list ends as dialog
    base, plain control; the dialog is a dialog base that allows no
    children. *)
Example dialog_from_plain_constructor :
  zorder_well_used dialogs_are_containers [] [ZDialog 1 plain_type; ZCreate 2 plain_type]
    = false /\
  exists s,
    run_zorder 5 0 (empty_list blank_memory) [ZDialog 1 plain_type; ZCreate 2 plain_type]
      = Some s /\
    walk_next 3 s (first (root s)) = [1; 2] /\
    guii_widget_isdialogbase (mem s 1) = true /\
    guii_widget_isdialogbase (mem s 2) = false /\
    siblings_ordered_b s 2 = false.
Proof.
split; [reflexivity|]. eexists. split; [reflexivity|]. repeat split.
Qed.

(** ** The counts the two walks return *)

(** Moving the only element of a list returns 0, in both directions. *)
Lemma move_only_element_returns_zero (s : wlist) h fuel cnt0 :
  dll s [h] ->
  gui_linkedlist_widgetmovetotop fuel cnt0 s h = Some (s, 0%Z) /\
  gui_linkedlist_widgetmovetobottom fuel s h = Some (s, 0%Z).
Proof.
intros Hd. destruct (dll_split s [] h [] Hd) as (_ & _ & _ & _ & _ & S1 & S2).
destruct S1 as [_ Hp]. destruct S2 as [Hn _].
unfold gui_linkedlist_widgetmovetotop, gui_linkedlist_widgetmovetobottom.
rewrite Hp, Hn. split; reflexivity.
Qed.

(** The downward walk returns the number of steps it made (as a
    [uint8_t]), 0 when the first step is blocked. *)
Lemma movetobottom_count (s : wlist) h l1 l2 fuel :
  dll s (l1 ++ h :: l2) -> length l2 < fuel ->
  option_map snd (gui_linkedlist_widgetmovetobottom fuel s h) =
  Some (Z.of_nat (length (take_while (fun x => down_ok (mem s h) (mem s x)) l2)) mod 2 ^ 8)%Z.
Proof.
intros Hd Hf. destruct (widgetmovetobottom_spec h l1 l2 s fuel Hd Hf) as [s' [Hrun _]].
rewrite Hrun. reflexivity.
Qed.

(** The upward walk returns the number of steps it made only up to the
    indeterminate start value of its counter. *)
Lemma movetotop_count (s : wlist) h l1 p l2 fuel cnt0 :
  dll s ((l1 ++ [p]) ++ h :: l2) -> length (l1 ++ [p]) < fuel ->
  (0 <= cnt0 < 2 ^ 32)%Z ->
  option_map snd (gui_linkedlist_widgetmovetotop fuel cnt0 s h) =
  Some ((cnt0 + Z.of_nat (length (take_while (fun x => up_ok (mem s h) (mem s x))
                                    (rev (l1 ++ [p]))))) mod 2 ^ 8)%Z.
Proof.
intros Hd Hf Hc.
destruct (widgetmovetotop_spec h (l1 ++ [p]) l2 s fuel cnt0 Hd Hf) as [s' [Hrun _]].
rewrite Hrun. simpl. destruct (l1 ++ [p]) eqn:E; [destruct l1; discriminate|].
rewrite uint8_of_iter by exact Hc. reflexivity.
Qed.

(** C3 (defect).  On the list control, window the call
    gui_linkedlist_widgetmovetotop(window) is blocked at its first step:
    the previous sibling does not allow children.  No move is made and
    the list is unchanged, yet the value returned is whatever the
    uninitialised counter held, not 0. *)
Theorem movetotop_blocked_returns_garbage (cnt0 : Z) :
  option_map (fun r => (walk_next 3 (fst r) (first (root (fst r))), snd r))
    (gui_linkedlist_widgetmovetotop 3 cnt0 control_and_window 2)
  = Some ([1; 2], to_uint8 cnt0).
Proof. reflexivity. Qed.

Lemma movetotop_blocked_returns_7 :
  walk_next 3 control_and_window (first (root control_and_window)) = [1; 2] /\
  option_map snd (gui_linkedlist_widgetmovetotop 3 7 control_and_window 2) = Some 7%Z.
Proof. split; reflexivity. Qed.

(** ** Focus *)

Lemma ancestors_chain fuel : forall g p c,
  ancestors fuel g p = Some c -> chain g p c /\ length c <= fuel.
Proof.
induction fuel as [|fuel IH]; intros g p c Ha.
- destruct p; simpl in Ha; [discriminate|]. injection Ha as <-. simpl. auto.
- destruct p as [x|]; simpl in Ha.
  + destruct (ancestors fuel g (parent (wmem g x))) as [r|] eqn:Hr; [|discriminate].
    injection Ha as <-. apply IH in Hr. simpl. split; [tauto | lia].
  + injection Ha as <-. simpl. split; [reflexivity | lia].
Qed.

Lemma chain_ext g g' p c :
  (forall x, parent (wmem g' x) = parent (wmem g x)) -> chain g p c -> chain g' p c.
Proof.
intros E. revert p; induction c as [|x r IH]; simpl; intros p Hc; [exact Hc|].
destruct Hc as [-> Hc]. split; [reflexivity|]. rewrite E. auto.
Qed.

Lemma parent_with_flags f w : parent (with_flags f w) = parent w.
Proof. reflexivity. Qed.

Lemma parent_focus_out_step g x y :
  parent (wmem (focus_out_step g x) y) = parent (wmem g y).
Proof. simpl. unfold upd. destruct (Nat.eqb y x); reflexivity. Qed.

Lemma parent_focus_in_step g x y :
  parent (wmem (focus_in_step g x) y) = parent (wmem g y).
Proof. simpl. unfold upd. destruct (Nat.eqb y x); reflexivity. Qed.

Lemma common_inner_spec g a : forall c2 tmp fuel,
  chain g tmp c2 -> length c2 < fuel ->
  common_inner fuel g a tmp = Some (existsb (Nat.eqb a) c2).
Proof.
induction c2 as [|t r IH]; intros tmp fuel Hc Hf;
  (destruct fuel as [|fuel]; [simpl in Hf; lia|]); simpl in Hc.
- subst tmp. reflexivity.
- destruct Hc as [-> Hc]. simpl. destruct (Nat.eqb a t); [reflexivity|].
  apply IH; [exact Hc | simpl in Hf; lia].
Qed.

Lemma common_outer_spec g h2 c2 : forall c1 h1 fuel,
  chain g h1 c1 -> chain g h2 c2 -> length c1 + length c2 < fuel ->
  common_outer fuel g h1 h2 = Some (nearest_common g c1 c2).
Proof.
induction c1 as [|a r IH]; intros h1 fuel H1 H2 Hf;
  (destruct fuel as [|fuel]; [simpl in Hf; lia|]); simpl in H1.
- subst h1. reflexivity.
- destruct H1 as [-> H1]. cbn [common_outer].
  rewrite (common_inner_spec g a c2 h2 (S fuel) H2) by (simpl in Hf; lia).
  unfold nearest_common. simpl. destruct (existsb (Nat.eqb a) c2); [reflexivity|].
  apply IH; [exact H1 | exact H2 | simpl in Hf; lia].
Qed.

(** Between two widgets get_common_parentwidget finds the nearest common
    ancestor; a NULL handle fails its parameter check. *)
Lemma get_common_parentwidget_spec g f t c1 c2 fuel :
  chain g (Some f) c1 -> chain g (Some t) c2 -> length c1 + length c2 < fuel ->
  get_common_parentwidget fuel g (Some f) (Some t) = Some (nearest_common g c1 c2).
Proof. intros H1 H2 Hf. unfold get_common_parentwidget. simpl. now apply common_outer_spec. Qed.

Lemma get_common_parentwidget_null fuel g h1 :
  get_common_parentwidget fuel g h1 None = Some None.
Proof. unfold get_common_parentwidget. destruct h1; reflexivity. Qed.

Lemma focus_out_step_set_FocusedWidget q g x :
  focus_out_step (set_FocusedWidget q g) x = set_FocusedWidget q (focus_out_step g x).
Proof. reflexivity. Qed.

Lemma fold_focus_out_set_FocusedWidget p q l : forall g,
  set_FocusedWidget p (fold_left focus_out_step l (set_FocusedWidget q g)) =
  set_FocusedWidget p (fold_left focus_out_step l g).
Proof.
induction l as [|x r IH]; intros g; [reflexivity|].
simpl. rewrite focus_out_step_set_FocusedWidget. apply IH.
Qed.

(** The first loop clears the old path below [common], node by node. *)
Lemma focus_out_loop_spec common : forall c1 g fuel,
  chain g (FocusedWidget g) c1 -> length c1 < fuel ->
  exists g1,
    focus_out_loop fuel g common = Some g1 /\
    forall p, set_FocusedWidget p g1 =
              set_FocusedWidget p (fold_left focus_out_step (below c1 (Some common)) g).
Proof.
induction c1 as [|f r IH]; intros g fuel Hc Hf;
  (destruct fuel as [|fuel]; [simpl in Hf; lia|]); simpl in Hc.
- exists g. cbn [focus_out_loop]. rewrite Hc. split; reflexivity.
- destruct Hc as [Hfw Hc]. cbn [focus_out_loop]. rewrite Hfw. simpl below.
  destruct (Nat.eqb f common) eqn:E; simpl.
  + exists g. split; reflexivity.
  + change (exists g1,
      focus_out_loop fuel
        (set_FocusedWidget (parent (wmem (focus_out_step g f) f)) (focus_out_step g f))
        common = Some g1 /\
      forall p, set_FocusedWidget p g1 =
        set_FocusedWidget p
          (fold_left focus_out_step (take_while (fun x => negb (x =? common)) r)
             (focus_out_step g f))).
    rewrite parent_focus_out_step.
    destruct (IH (set_FocusedWidget (parent (wmem g f)) (focus_out_step g f)) fuel)
      as [g1 [Hrun Hg1]].
    * simpl FocusedWidget. apply chain_ext with (g := g); [|exact Hc].
      intros x. apply parent_focus_out_step.
    * simpl in Hf. lia.
    * exists g1. split; [exact Hrun|]. intros p. rewrite Hg1.
      apply fold_focus_out_set_FocusedWidget.
Qed.

(** The second loop sets the new path below [common], node by node. *)
Lemma focus_in_loop_spec common : forall c2 g h fuel,
  chain g h c2 -> length c2 < fuel ->
  focus_in_loop fuel g h common = Some (fold_left focus_in_step (below c2 common) g).
Proof.
induction c2 as [|x r IH]; intros g h fuel Hc Hf;
  (destruct fuel as [|fuel]; [simpl in Hf; lia|]); simpl in Hc.
- subst h. simpl. destruct common; reflexivity.
- destruct Hc as [-> Hc]. cbn [focus_in_loop]. destruct common as [c|]; [|reflexivity].
  simpl below. destruct (Nat.eqb x c); simpl; [reflexivity|].
  change (focus_in_loop fuel (focus_in_step g x) (parent (wmem (focus_in_step g x) x)) (Some c)
          = Some (fold_left focus_in_step (take_while (fun y => negb (y =? c)) r)
                    (focus_in_step g x))).
  rewrite parent_focus_in_step. apply IH; [|simpl in Hf; lia].
  apply chain_ext with (g := g); [|exact Hc]. intros y. apply parent_focus_in_step.
Qed.

Lemma chain_fold_focus_out l : forall g p c,
  chain g p c -> chain (fold_left focus_out_step l g) p c.
Proof.
induction l as [|x r IH]; intros g p c Hc; [exact Hc|].
simpl. apply IH. apply chain_ext with (g := g); [|exact Hc].
intros y. apply parent_focus_out_step.
Qed.

Lemma set_FocusedWidget_same g : set_FocusedWidget (FocusedWidget g) g = g.
Proof. destruct g; reflexivity. Qed.

(** For a target that is a widget gui_widget_focus_set computes what the
    specification describes. *)
Lemma gui_widget_focus_set_spec (fuel : nat) (g : gui_t) (t : handle) (c1 c2 : list handle) :
  ancestors fuel g (FocusedWidget g) = Some c1 ->
  ancestors fuel g (Some t) = Some c2 ->
  gui_widget_focus_set (S (fuel + fuel)) g (Some t) = Some (set_focus_spec g (Some t) c1 c2).
Proof.
intros H1 H2. apply ancestors_chain in H1. apply ancestors_chain in H2.
destruct H1 as [H1 L1]. destruct H2 as [H2 L2].
unfold gui_widget_focus_set, set_focus_spec.
destruct (ptr_eqb (FocusedWidget g) (Some t)); [reflexivity|].
destruct (FocusedWidget g) as [f|] eqn:Ef.
- rewrite (get_common_parentwidget_spec g f t c1 c2 (S (fuel + fuel)) H1 H2) by lia.
  destruct (nearest_common g c1 c2) as [c|] eqn:Ec.
  + destruct (focus_out_loop_spec c c1 g (S (fuel + fuel))) as [g1 [Hrun Hg1]];
      [rewrite Ef; exact H1 | lia |].
    rewrite Hrun, Hg1. apply focus_in_loop_spec; [|lia].
    apply chain_ext with (g := fold_left focus_out_step (below c1 (Some c)) g).
    { intros x. reflexivity. }
    apply chain_fold_focus_out. exact H2.
  + reflexivity.
- destruct c1 as [|x r]; [|destruct H1; discriminate].
  unfold nearest_common. simpl find. cbv iota.
  replace (below [] (root_first g)) with (@nil handle)
    by (destruct (root_first g); reflexivity).
  simpl fold_left at 2.
  apply focus_in_loop_spec; [|lia].
  apply chain_ext with (g := g); [|exact H2]. intros x. reflexivity.
Qed.

(** Called with NULL gui_widget_focus_set empties the focus slot and does
    nothing else: get_common_parentwidget fails its parameter check, so
    no flag is cleared and no widget is notified. *)
Lemma gui_widget_focus_set_null (fuel : nat) (g : gui_t) :
  gui_widget_focus_set (S fuel) g None = Some (set_FocusedWidget None g).
Proof.
unfold gui_widget_focus_set.
destruct (ptr_eqb_spec (FocusedWidget g) None) as [E|N].
- f_equal. destruct g; simpl in *; subst; reflexivity.
- destruct (FocusedWidget g) as [f|]; [|congruence].
  rewrite get_common_parentwidget_null. reflexivity.
Qed.

Lemma gui_widget_focus_set_result (fuel : nat) (g : gui_t) (target : ptr)
    (c1 c2 : list handle) :
  ancestors fuel g (FocusedWidget g) = Some c1 ->
  ancestors fuel g target = Some c2 ->
  gui_widget_focus_set (S (fuel + fuel)) g target = Some (focus_set_result g target c1 c2).
Proof.
intros H1 H2. destruct target as [t|]; simpl.
- now apply gui_widget_focus_set_spec.
- apply gui_widget_focus_set_null.
Qed.

Lemma FocusedWidget_fold_focus_in l : forall g,
  FocusedWidget (fold_left focus_in_step l g) = FocusedWidget g.
Proof. induction l as [|x r IH]; intros g; [reflexivity|]. simpl. now rewrite IH. Qed.

Lemma trace_fold_focus_out l : forall g,
  trace (fold_left focus_out_step l g) =
  trace g ++ flat_map (fun x => [EvCallback x GUI_WC_FocusOut; EvInvalidate x]) l.
Proof.
induction l as [|x r IH]; intros g; simpl; [now rewrite app_nil_r|].
rewrite IH. simpl. rewrite <- !app_assoc. reflexivity.
Qed.

Lemma trace_fold_focus_in l : forall g,
  trace (fold_left focus_in_step l g) =
  trace g ++ flat_map (fun x => [EvCallback x GUI_WC_FocusIn; EvInvalidate x]) l.
Proof.
induction l as [|x r IH]; intros g; simpl; [now rewrite app_nil_r|].
rewrite IH. simpl. rewrite <- !app_assoc. reflexivity.
Qed.

(** After set_focus the target is the focused widget. *)
Lemma set_focus_spec_focused g target c1 c2 :
  FocusedWidget (set_focus_spec g target c1 c2) = target.
Proof.
unfold set_focus_spec. destruct (ptr_eqb_spec (FocusedWidget g) target) as [E|_]; [exact E|].
rewrite FocusedWidget_fold_focus_in. reflexivity.
Qed.

(** The notifications and invalidations of set_focus, in order. *)
Lemma set_focus_spec_trace g target c1 c2 :
  FocusedWidget g <> target ->
  trace (set_focus_spec g target c1 c2) =
  trace g
  ++ flat_map (fun x => [EvCallback x GUI_WC_FocusOut; EvInvalidate x])
       (below c1 (nearest_common g c1 c2))
  ++ flat_map (fun x => [EvCallback x GUI_WC_FocusIn; EvInvalidate x])
       (below c2 (nearest_common g c1 c2)).
Proof.
intros Hne. unfold set_focus_spec.
destruct (ptr_eqb_spec (FocusedWidget g) target) as [E|_]; [congruence|].
rewrite trace_fold_focus_in. simpl trace. rewrite trace_fold_focus_out.
now rewrite <- app_assoc.
Qed.

(** C8 (focus path).  Let the parent chains of the focused widget and of
    the target end within the fuel.  Then gui_widget_focus_set returns
    with the target in the focus slot, and it changes nothing when the
    target is already focused.  For a target that is a widget it does
    what the specification says: with the nearest common ancestor of the
    two chains (the root's first child when nothing is focused), it
    clears the flag, notifies focus-out and invalidates on each node of
    the old path strictly below the common ancestor, in order from the
    old focus upwards, then sets the flag, notifies focus-in and
    invalidates on each node from the target up to but excluding the
    common ancestor.  Called with NULL, which is no widget, it empties
    the focus slot and does nothing else: get_common_parentwidget fails
    its parameter check, so no flag is cleared and no widget is notified
    or invalidated. *)
Theorem focus_set_correct (fuel : nat) (g : gui_t) (target : ptr) (c1 c2 : list handle) :
  ancestors fuel g (FocusedWidget g) = Some c1 ->
  ancestors fuel g target = Some c2 ->
  exists g',
    gui_widget_focus_set (S (fuel + fuel)) g target = Some g' /\
    FocusedWidget g' = target /\
    (FocusedWidget g = target -> g' = g) /\
    (forall t, target = Some t ->
       g' = set_focus_spec g target c1 c2 /\
       (FocusedWidget g <> target ->
          trace g' =
          trace g
          ++ flat_map (fun x => [EvCallback x GUI_WC_FocusOut; EvInvalidate x])
               (below c1 (nearest_common g c1 c2))
          ++ flat_map (fun x => [EvCallback x GUI_WC_FocusIn; EvInvalidate x])
               (below c2 (nearest_common g c1 c2)))) /\
    (target = None -> g' = set_FocusedWidget None g).
Proof.
intros H1 H2. destruct target as [t|].
- exists (set_focus_spec g (Some t) c1 c2).
  split; [apply gui_widget_focus_set_spec; assumption|].
  split; [apply set_focus_spec_focused|].
  split.
  + intros E. unfold set_focus_spec.
    destruct (ptr_eqb_spec (FocusedWidget g) (Some t)) as [_|N]; [reflexivity | contradiction].
  + split; [|discriminate]. intros t' _. split; [reflexivity|]. apply set_focus_spec_trace.
- exists (set_FocusedWidget None g).
  split; [apply gui_widget_focus_set_null|].
  split; [reflexivity|].
  split; [intros E; rewrite <- E; apply set_FocusedWidget_same|].
  split; [discriminate | reflexivity].
Qed.

(** The screen of the example: focus moves from control 4, three levels
    deep, to control 5 on the desktop. *)
Lemma focus_set_correct_witness :
  ancestors 5 example_gui (FocusedWidget example_gui) = Some [4; 3; 2; 1] /\
  ancestors 5 example_gui (Some 5) = Some [5; 1] /\
  exists g',
    gui_widget_focus_set 11 example_gui (Some 5) = Some g' /\
    FocusedWidget g' = Some 5.
Proof.
split; [reflexivity|]. split; [reflexivity|].
destruct (focus_set_correct 5 example_gui (Some 5) [4; 3; 2; 1] [5; 1])
  as [g' [Hrun [Hf _]]]; [reflexivity | reflexivity |].
exists g'. split; [exact Hrun | exact Hf].
Defined.

Example focus_path_example :
  option_map (fun g => (trace g, FocusedWidget g,
                        map (fun x => guii_widget_isfocused (wmem g x)) [1; 2; 3; 4; 5]))
    (gui_widget_focus_set 11 example_gui (Some 5)) =
  Some ([EvCallback 4 GUI_WC_FocusOut; EvInvalidate 4;
         EvCallback 3 GUI_WC_FocusOut; EvInvalidate 3;
         EvCallback 2 GUI_WC_FocusOut; EvInvalidate 2;
         EvCallback 5 GUI_WC_FocusIn; EvInvalidate 5],
        Some 5, [false; false; false; false; true]).
Proof. reflexivity. Qed.

(** The same screen, and the call with NULL: the focus slot is emptied,
    no widget is notified, and the focus flags stay on 2, 3 and 4. *)
Example focus_null_example :
  option_map (fun g => (trace g, FocusedWidget g,
                        map (fun x => guii_widget_isfocused (wmem g x)) [1; 2; 3; 4; 5]))
    (gui_widget_focus_set 11 example_gui None) =
  Some ([], None, [false; true; true; true; false]).
Proof. reflexivity. Qed.

(** ** Removal: the permission check *)

(** Induction on widget trees. *)
Lemma wtree_induction (P : wtree -> Prop) :
  (forall h kids, Forall P kids -> P (WNode h kids)) -> forall t, P t.
Proof.
intros Hstep. fix IH 1. intros [h kids]. apply Hstep.
induction kids as [|k r IHr]; constructor; [apply IH | exact IHr].
Qed.

Lemma same_but_trace_refl g : same_but_trace g g.
Proof. repeat split. Qed.

Lemma same_but_trace_trans g1 g2 g3 :
  same_but_trace g1 g2 -> same_but_trace g2 g3 -> same_but_trace g1 g3.
Proof.
unfold same_but_trace. intros H12 H23.
decompose [and] H12. decompose [and] H23. repeat split; congruence.
Qed.

Lemma same_but_trace_log g e : same_but_trace g (log e g).
Proof. repeat split. Qed.

Lemma removable_same_but_trace g g' h :
  same_but_trace g g' -> removable g' h = removable g h.
Proof.
intros Hs. unfold same_but_trace in Hs. decompose [and] Hs.
unfold removable, vetoes, gui_window_getdesktop, guii_widget_callback. simpl.
rewrite H, H0. reflexivity.
Qed.

Lemma descendants_same_but_trace g g' t :
  same_but_trace g g' -> descendants_or_self g' t = descendants_or_self g t.
Proof.
intros Hs. assert (Hm : wmem g' = wmem g) by apply Hs.
induction t as [h kids IH] using wtree_induction. simpl. rewrite Hm. f_equal.
destruct (guii_widget_allowchildren (wmem g h)); [|reflexivity].
induction IH as [|k r Hk _ IHr]; simpl; [reflexivity|]. now rewrite Hk, IHr.
Qed.

Lemma can_remove_widget_unfold g h kids :
  can_remove_widget g (WNode h kids) =
  if ptr_eqb (Some h) (gui_window_getdesktop g) then (g, 0%Z)
  else
    let g1 := log (EvCallback h GUI_WC_Remove) g in
    if removable g h && guii_widget_allowchildren (wmem g h)
    then can_remove_children 1 g1 kids
    else (g1, if removable g h then 1%Z else 0%Z).
Proof.
assert (Hfix : forall result ks g0,
  (fix children (g1 : gui_t) (ks0 : list wtree) {struct ks0} : gui_t * Z :=
     match ks0 with
     | [] => (g1, result)
     | k :: r =>
         let (g2, c) := can_remove_widget g1 k in
         if (c =? 0)%Z then (g2, 0%Z) else children g2 r
     end) g0 ks = can_remove_children result g0 ks).
{ intros result ks. induction ks as [|k r IH]; intros g0; [reflexivity|].
  simpl. destruct (can_remove_widget g0 k) as [g2 c]. destruct (c =? 0)%Z; [reflexivity|].
  apply IH. }
cbn [can_remove_widget]. unfold removable, vetoes.
destruct (ptr_eqb (Some h) (gui_window_getdesktop g)); [reflexivity|].
unfold guii_widget_callback. cbn [fst snd]. simpl negb at 1. simpl andb at 1.
set (cr := match callback (wmem g h) with
           | Some cb => cb h GUI_WC_Remove 1%Z
           | None => widget_callback (widget (wmem g h)) h GUI_WC_Remove 1%Z
           end).
rewrite Hfix.
destruct (fst cr); simpl; destruct (snd cr =? 0)%Z eqn:E; simpl; try reflexivity.
apply Z.eqb_eq in E. rewrite E. reflexivity.
Qed.

Lemma can_remove_children_spec g kids :
  Forall (fun t => forall g,
            same_but_trace g (fst (can_remove_widget g t)) /\
            snd (can_remove_widget g t) =
              if forallb (removable g) (descendants_or_self g t) then 1%Z else 0%Z) kids ->
  forall g1, same_but_trace g g1 ->
    same_but_trace g (fst (can_remove_children 1 g1 kids)) /\
    snd (can_remove_children 1 g1 kids) =
      if forallb (removable g) (flat_map (descendants_or_self g) kids) then 1%Z else 0%Z.
Proof.
intros Hk. induction Hk as [|k r Hk _ IH]; intros g1 Hs; simpl.
- split; [exact Hs | reflexivity].
- destruct (Hk g1) as [Hs1 Hr1].
  destruct (can_remove_widget g1 k) as [g2 c]. simpl in Hs1, Hr1.
  rewrite forallb_app.
  rewrite <- (descendants_same_but_trace g g1 k Hs).
  assert (Hfe : forall l, forallb (removable g1) l = forallb (removable g) l).
  { induction l as [|x l IHl]; simpl; [reflexivity|].
    now rewrite IHl, (removable_same_but_trace g g1 x Hs). }
  rewrite <- Hfe.
  assert (Hs2 : same_but_trace g g2) by (eapply same_but_trace_trans; eauto).
  destruct (forallb (removable g1) (descendants_or_self g1 k)); subst c; simpl.
  + apply IH. exact Hs2.
  + split; [exact Hs2 | reflexivity].
Qed.

(** The check changes nothing but the trace, and passes exactly when the
    widget and all its descendants are removable on their own. *)
Lemma can_remove_widget_spec t : forall g,
  same_but_trace g (fst (can_remove_widget g t)) /\
  snd (can_remove_widget g t) =
    if forallb (removable g) (descendants_or_self g t) then 1%Z else 0%Z.
Proof.
induction t as [h kids IH] using wtree_induction. intros g.
rewrite can_remove_widget_unfold. cbn [descendants_or_self forallb].
destruct (ptr_eqb (Some h) (gui_window_getdesktop g)) eqn:Ed.
- unfold removable at 1. rewrite Ed. simpl. split; [apply same_but_trace_refl | reflexivity].
- destruct (removable g h) eqn:Er; simpl.
  + destruct (guii_widget_allowchildren (wmem g h)).
    * apply can_remove_children_spec; [exact IH | apply same_but_trace_log].
    * simpl. split; [apply same_but_trace_log | reflexivity].
  + split; [apply same_but_trace_log | reflexivity].
Qed.

Lemma ancestors_ext fuel g g' :
  (forall x, parent (wmem g' x) = parent (wmem g x)) ->
  forall p, ancestors fuel g' p = ancestors fuel g p.
Proof.
intros E. induction fuel as [|fuel IH]; intros p; destruct p as [x|]; simpl; try reflexivity.
now rewrite E, IH.
Qed.

Lemma getflag_remove_focus_out_step g x y :
  guii_widget_getflag (wmem (focus_out_step g x) y) GUI_FLAG_REMOVE =
  guii_widget_getflag (wmem g y) GUI_FLAG_REMOVE.
Proof.
simpl. unfold upd. destruct (Nat.eqb y x); [|reflexivity].
unfold guii_widget_getflag, guii_widget_clrflag. simpl.
apply flag_test_clr_other. reflexivity.
Qed.

Lemma getflag_remove_focus_in_step g x y :
  guii_widget_getflag (wmem (focus_in_step g x) y) GUI_FLAG_REMOVE =
  guii_widget_getflag (wmem g y) GUI_FLAG_REMOVE.
Proof.
simpl. unfold upd. destruct (Nat.eqb y x); [|reflexivity].
unfold guii_widget_getflag, guii_widget_setflag. simpl.
apply flag_test_set_other. reflexivity.
Qed.

Lemma set_focus_spec_keeps g target c1 c2 :
  GUI_Flags (set_focus_spec g target c1 c2) = GUI_Flags g /\
  forall y, guii_widget_getflag (wmem (set_focus_spec g target c1 c2) y) GUI_FLAG_REMOVE =
            guii_widget_getflag (wmem g y) GUI_FLAG_REMOVE.
Proof.
unfold set_focus_spec. destruct (ptr_eqb (FocusedWidget g) target); [split; reflexivity|].
set (outs := below c1 (nearest_common g c1 c2)).
set (ins := below c2 (nearest_common g c1 c2)).
assert (Hout : forall l g0,
  GUI_Flags (fold_left focus_out_step l g0) = GUI_Flags g0 /\
  forall y, guii_widget_getflag (wmem (fold_left focus_out_step l g0) y) GUI_FLAG_REMOVE =
            guii_widget_getflag (wmem g0 y) GUI_FLAG_REMOVE).
{ induction l as [|x r IH]; intros g0; [split; reflexivity|]. simpl.
  destruct (IH (focus_out_step g0 x)) as [Hf Hw]. split; [exact Hf|].
  intros y. rewrite Hw. apply getflag_remove_focus_out_step. }
assert (Hin : forall l g0,
  GUI_Flags (fold_left focus_in_step l g0) = GUI_Flags g0 /\
  forall y, guii_widget_getflag (wmem (fold_left focus_in_step l g0) y) GUI_FLAG_REMOVE =
            guii_widget_getflag (wmem g0 y) GUI_FLAG_REMOVE).
{ induction l as [|x r IH]; intros g0; [split; reflexivity|]. simpl.
  destruct (IH (focus_in_step g0 x)) as [Hf Hw]. split; [exact Hf|].
  intros y. rewrite Hw. apply getflag_remove_focus_in_step. }
destruct (Hin ins (set_FocusedWidget target (fold_left focus_out_step outs g))) as [Hf Hw].
destruct (Hout outs g) as [Hf' Hw'].
split.
- rewrite Hf. simpl. exact Hf'.
- intros y. rewrite Hw. simpl. apply Hw'.
Qed.

Lemma focus_set_result_keeps g target c1 c2 :
  GUI_Flags (focus_set_result g target c1 c2) = GUI_Flags g /\
  tree (focus_set_result g target c1 c2) = tree g /\
  forall y, guii_widget_getflag (wmem (focus_set_result g target c1 c2) y) GUI_FLAG_REMOVE =
            guii_widget_getflag (wmem g y) GUI_FLAG_REMOVE.
Proof.
destruct target as [t|]; simpl; [|repeat split].
destruct (set_focus_spec_keeps g (Some t) c1 c2) as [Hf Hw].
split; [exact Hf|]. split; [|exact Hw].
unfold set_focus_spec. destruct (ptr_eqb _ _); [reflexivity|].
assert (Ht : forall l g0, tree (fold_left focus_in_step l g0) = tree g0)
  by (induction l; intros; simpl; [reflexivity | now rewrite IHl]).
assert (Ht' : forall l g0, tree (fold_left focus_out_step l g0) = tree g0)
  by (induction l; intros; simpl; [reflexivity | now rewrite IHl]).
rewrite Ht. simpl. now rewrite Ht'.
Qed.

Lemma queried_app g l1 l2 :
  queried g (l1 ++ l2) =
  queried g l1 ++ (if forallb (removable g) l1 then queried g l2 else []).
Proof.
induction l1 as [|x r IH]; [reflexivity|]. cbn [app queried forallb]. unfold removable at 1.
destruct (ptr_eqb (Some x) (gui_window_getdesktop g)); [reflexivity|].
destruct (vetoes g x); [reflexivity|]. cbn [negb andb app]. now rewrite IH.
Qed.

Lemma queried_same_but_trace g g' l : same_but_trace g g' -> queried g' l = queried g l.
Proof.
intros Hs. induction l as [|x r IH]; [reflexivity|]. cbn [queried]. rewrite IH.
assert (Hd : gui_window_getdesktop g' = gui_window_getdesktop g) by apply Hs.
assert (Hv : vetoes g' x = vetoes g x).
{ unfold vetoes, guii_widget_callback. simpl.
  assert (Hm : wmem g' = wmem g) by apply Hs. now rewrite Hm. }
now rewrite Hd, Hv.
Qed.

(** The can-remove queries made, in order: depth first, up to the first
    widget that may not be removed. *)
Lemma can_remove_widget_trace t : forall g,
  trace (fst (can_remove_widget g t)) =
  trace g ++ map (fun x => EvCallback x GUI_WC_Remove) (queried g (descendants_or_self g t)).
Proof.
induction t as [h kids IH] using wtree_induction. intros g.
rewrite can_remove_widget_unfold. cbn [descendants_or_self queried].
destruct (ptr_eqb (Some h) (gui_window_getdesktop g)) eqn:Ed.
{ simpl. now rewrite app_nil_r. }
unfold removable. rewrite Ed. cbn [negb andb].
destruct (vetoes g h) eqn:Ev; cbn [negb andb]; [reflexivity|].
destruct (guii_widget_allowchildren (wmem g h)); [|reflexivity].
cbn [map].
set (g1 := log (EvCallback h GUI_WC_Remove) g).
assert (Hk : forall g2, same_but_trace g g2 ->
          trace (fst (can_remove_children 1 g2 kids)) =
          trace g2 ++ map (fun x => EvCallback x GUI_WC_Remove)
                        (queried g (flat_map (descendants_or_self g) kids))).
{ induction IH as [|k r Hk _ IHr]; intros g2 Hs.
  - simpl. now rewrite app_nil_r.
  - cbn [can_remove_children flat_map]. rewrite queried_app, map_app.
    destruct (can_remove_widget_spec k g2) as [Hs2 Hr2]. specialize (Hk g2).
    destruct (can_remove_widget g2 k) as [g3 c]. simpl in Hs2, Hr2, Hk.
    rewrite (descendants_same_but_trace g g2 k Hs) in Hk, Hr2.
    rewrite (queried_same_but_trace g g2 _ Hs) in Hk.
    assert (Hfe : forallb (removable g2) (descendants_or_self g k)
                  = forallb (removable g) (descendants_or_self g k)).
    { clear - Hs. induction (descendants_or_self g k) as [|x l IHl]; simpl; [reflexivity|].
      now rewrite IHl, (removable_same_but_trace g g2 x Hs). }
    rewrite Hfe in Hr2. subst c.
    destruct (forallb (removable g) (descendants_or_self g k)); simpl.
    + rewrite IHr by (eapply same_but_trace_trans; eauto).
      rewrite Hk, <- app_assoc. reflexivity.
    + rewrite Hk, app_nil_r. reflexivity. }
rewrite Hk by apply same_but_trace_log.
unfold g1. simpl. now rewrite <- app_assoc.
Qed.

(** guii_widget_remove: when it returns 1, when 0, and what it changes. *)
Lemma guii_widget_remove_spec (fuel : nat) (g : gui_t) (h : handle) (c1 c2 : list handle) :
  ancestors fuel g (FocusedWidget g) = Some c1 ->
  ancestors fuel g (parent (wmem g h)) = Some c2 ->
  exists g',
    guii_widget_remove (S (fuel + fuel)) g h =
      Some (g', if forallb (removable g) (descendants_or_self g (subtree_at g h))
                then 1%Z else 0%Z) /\
    (forallb (removable g) (descendants_or_self g (subtree_at g h)) = false ->
       same_but_trace g g' /\
       trace g' = trace g ++ map (fun x => EvCallback x GUI_WC_Remove)
                               (queried g (descendants_or_self g (subtree_at g h)))) /\
    (forallb (removable g) (descendants_or_self g (subtree_at g h)) = true ->
       guii_widget_getflag (wmem g' h) GUI_FLAG_REMOVE = true /\
       flag_test (GUI_Flags g') GUI_FLAG_REMOVE = true /\
       tree g' = tree g /\
       forall x, x <> h ->
         guii_widget_getflag (wmem g' x) GUI_FLAG_REMOVE =
         guii_widget_getflag (wmem g x) GUI_FLAG_REMOVE).
Proof.
intros H1 H2. unfold guii_widget_remove.
destruct (can_remove_widget_spec (subtree_at g h) g) as [Hs Hr].
pose proof (can_remove_widget_trace (subtree_at g h) g) as Htr.
destruct (can_remove_widget g (subtree_at g h)) as [g1 c]. simpl in Hs, Hr, Htr. subst c.
destruct (forallb (removable g) (descendants_or_self g (subtree_at g h)));
  [change (negb (1 =? 0)%Z) with true | change (negb (0 =? 0)%Z) with false]; cbv iota zeta.
- set (g2 := on_widget h (fun w => guii_widget_setflag w GUI_FLAG_REMOVE) g1).
  set (g3 := set_GUI_Flags (flag_set (GUI_Flags g2) GUI_FLAG_REMOVE) g2).
  unfold same_but_trace in Hs. decompose [and] Hs. clear Hs.
  assert (Hflag3 : guii_widget_getflag (wmem g3 h) GUI_FLAG_REMOVE = true).
  { simpl. rewrite upd_same. unfold guii_widget_getflag, guii_widget_setflag. simpl.
    apply flag_test_set_same. discriminate. }
  assert (Hother3 : forall x, x <> h ->
            guii_widget_getflag (wmem g3 x) GUI_FLAG_REMOVE =
            guii_widget_getflag (wmem g x) GUI_FLAG_REMOVE).
  { intros x Hx. simpl. rewrite upd_other by exact Hx. now rewrite H. }
  assert (Hgf3 : flag_test (GUI_Flags g3) GUI_FLAG_REMOVE = true).
  { simpl. apply flag_test_set_same. discriminate. }
  assert (Hpar : forall x, parent (wmem g3 x) = parent (wmem g x)).
  { intros x. simpl. unfold upd. rewrite H. destruct (Nat.eqb x h); reflexivity. }
  destruct (guii_widget_isfocused (wmem g3 h)).
  + rewrite (gui_widget_focus_set_result fuel g3 (parent (wmem g3 h)) c1 c2).
    * set (g4 := focus_set_result g3 (parent (wmem g3 h)) c1 c2).
      destruct (focus_set_result_keeps g3 (parent (wmem g3 h)) c1 c2) as (Hf4 & Ht4 & Hw4).
      fold g4 in Hf4, Ht4, Hw4.
      assert (Ht4' : tree g3 = tree g) by (simpl; assumption).
      rewrite Ht4' in Ht4.
      eexists. split; [reflexivity|]. split; [discriminate|]. intros _.
      destruct (GUI_CFG_OS g4); simpl; rewrite ?Hw4, ?Hf4;
        (split; [exact Hflag3|]); (split; [exact Hgf3|]); (split; [exact Ht4|]);
        intros x Hx; rewrite Hw4; apply Hother3; exact Hx.
    * rewrite (ancestors_ext fuel g g3 Hpar). simpl FocusedWidget. rewrite H4. exact H1.
    * rewrite (ancestors_ext fuel g g3 Hpar). rewrite Hpar. exact H2.
  + eexists. split; [reflexivity|]. split; [discriminate|]. intros _.
    destruct (GUI_CFG_OS g3); simpl;
      (split; [exact Hflag3|]); (split; [exact Hgf3|]); (split; [assumption|]);
      exact Hother3.
- exists g1. split; [reflexivity|]. split; [intros _; split; [exact Hs | exact Htr] | discriminate].
Qed.

Lemma find_subtree_root h t : forall s, find_subtree h t = Some s -> wroot s = h.
Proof.
induction t as [x kids IH] using wtree_induction. intros s. simpl.
destruct (Nat.eqb_spec x h) as [->|_]; [intros [= <-]; reflexivity|].
induction IH as [|k r Hk _ IHr]; [discriminate|].
destruct (find_subtree h k) as [s'|] eqn:E; [intros [= <-]; now apply Hk | exact IHr].
Qed.

Lemma subtree_at_root g h : wroot (subtree_at g h) = h.
Proof.
unfold subtree_at. destruct (find_in h (tree g)) as [t|] eqn:E; [|reflexivity].
induction (tree g) as [|k r IH]; [discriminate|]. simpl in E.
destruct (find_subtree h k) as [s|] eqn:Ek; [|now apply IH].
injection E as <-. now apply (find_subtree_root h k).
Qed.

Lemma descendants_or_self_head g t :
  exists l, descendants_or_self g t = wroot t :: l.
Proof. destruct t as [h kids]. simpl. eexists. reflexivity. Qed.

(** Removal is always refused for the desktop. *)
Lemma remove_desktop_refused g h :
  gui_window_getdesktop g = Some h ->
  forallb (removable g) (descendants_or_self g (subtree_at g h)) = false.
Proof.
intros Hd. destruct (descendants_or_self_head g (subtree_at g h)) as [l ->].
rewrite subtree_at_root. simpl. unfold removable. rewrite Hd.
now rewrite ptr_eqb_refl.
Qed.

(** Removal is refused when the callback of the widget vetoes. *)
Lemma remove_vetoed_refused g h :
  vetoes g h = true ->
  forallb (removable g) (descendants_or_self g (subtree_at g h)) = false.
Proof.
intros Hv. destruct (descendants_or_self_head g (subtree_at g h)) as [l ->].
rewrite subtree_at_root. simpl. unfold removable. rewrite Hv.
now rewrite andb_false_r.
Qed.

(** Removal is refused when any descendant is not removable. *)
Lemma remove_descendant_refused g h x :
  In x (descendants_or_self g (subtree_at g h)) ->
  removable g x = false ->
  forallb (removable g) (descendants_or_self g (subtree_at g h)) = false.
Proof.
intros Hin Hx.
destruct (forallb (removable g) (descendants_or_self g (subtree_at g h))) eqn:E; [|reflexivity].
rewrite forallb_forall in E. specialize (E x Hin). congruence.
Qed.

(** C4 (removal is all or nothing).  With fuel for the parent chains of
    the focused widget and of the parent of [h], guii_widget_remove
    returns, and it returns 1 exactly when [h] and every descendant of
    [h] is removable on its own, that is, is not the desktop and is not
    vetoed by its callback.  When it returns 0 nothing but the trace of
    can-remove queries has changed: no widget, no flag, no list; the
    queries were made depth first and stopped at the first widget that
    may not be removed.  When it returns 1 the being-removed flag is set
    on [h] and on no other widget, and the global flag that schedules
    the sweep is set.  The check fails for the desktop, for a widget
    whose callback vetoes, and for a widget with a descendant that is
    not removable. *)
Theorem widget_remove_correct (fuel : nat) (g : gui_t) (h : handle) (c1 c2 : list handle) :
  ancestors fuel g (FocusedWidget g) = Some c1 ->
  ancestors fuel g (parent (wmem g h)) = Some c2 ->
  let ok := forallb (removable g) (descendants_or_self g (subtree_at g h)) in
  (exists g',
     guii_widget_remove (S (fuel + fuel)) g h = Some (g', if ok then 1%Z else 0%Z) /\
     (ok = false ->
        same_but_trace g g' /\
        trace g' = trace g ++ map (fun x => EvCallback x GUI_WC_Remove)
                                (queried g (descendants_or_self g (subtree_at g h)))) /\
     (ok = true ->
        guii_widget_getflag (wmem g' h) GUI_FLAG_REMOVE = true /\
        flag_test (GUI_Flags g') GUI_FLAG_REMOVE = true /\
        tree g' = tree g /\
        forall x, x <> h ->
          guii_widget_getflag (wmem g' x) GUI_FLAG_REMOVE =
          guii_widget_getflag (wmem g x) GUI_FLAG_REMOVE)) /\
  (gui_window_getdesktop g = Some h -> ok = false) /\
  (vetoes g h = true -> ok = false) /\
  (forall x, In x (descendants_or_self g (subtree_at g h)) ->
             removable g x = false -> ok = false).
Proof.
intros H1 H2 ok. split; [exact (guii_widget_remove_spec fuel g h c1 c2 H1 H2)|].
split; [apply remove_desktop_refused|].
split; [apply remove_vetoed_refused | apply remove_descendant_refused].
Qed.

(** On the screen of the example the window 2 is removed with all it
    holds; it has the focus on its path, which moves to the desktop. *)
Lemma widget_remove_correct_witness :
  ancestors 5 example_gui (FocusedWidget example_gui) = Some [4; 3; 2; 1] /\
  ancestors 5 example_gui (parent (wmem example_gui 2)) = Some [1] /\
  exists g',
    guii_widget_remove 11 example_gui 2 = Some (g', 1%Z) /\
    guii_widget_getflag (wmem g' 2) GUI_FLAG_REMOVE = true /\
    flag_test (GUI_Flags g') GUI_FLAG_REMOVE = true.
Proof.
split; [reflexivity|]. split; [reflexivity|].
destruct (widget_remove_correct 5 example_gui 2 [4; 3; 2; 1] [1])
  as [[g' [Hrun [_ Hok]]] _]; [reflexivity | reflexivity |].
exists g'. split; [exact Hrun|].
destruct Hok as [Hf [Hg _]]; [reflexivity|].
split; [exact Hf | exact Hg].
Defined.

Example remove_refused_example :
  option_map (fun r => (snd r, trace (fst r), tree (fst r),
                        map (fun x => guii_widget_getflag (wmem (fst r) x) GUI_FLAG_REMOVE)
                          [1; 2; 3; 4; 5],
                        GUI_Flags (fst r)))
    (guii_widget_remove 11 veto_gui 2) =
  Some (0%Z,
        [EvCallback 2 GUI_WC_Remove; EvCallback 4 GUI_WC_Remove; EvCallback 3 GUI_WC_Remove],
        tree veto_gui, [false; false; false; false; false], 0%Z).
Proof. reflexivity. Qed.

(** ** Dialogs *)

(** On a well-formed registry get_dialog returns, with the first entry
    that holds the handle and its id, or NULL when there is none. *)
Lemma get_dialog_loop_spec (d : lstate dissmissed_dialog_list_t) h id xs :
  forall fuel pp p q,
    dseg d pp p xs q None -> length xs <= fuel ->
    get_dialog_loop fuel d h id p =
      Some (find (fun e => ptr_eqb (dl_h (mem d e)) (Some h) && (dl_id (mem d e) =? id)%Z) xs).
Proof.
induction xs as [|x tl IH]; intros fuel pp p q Hd Hf.
- destruct Hd as [-> _]. destruct fuel; reflexivity.
- destruct Hd as [-> [_ Hd]]. simpl in Hf.
  destruct fuel as [|f]; [lia|]. simpl.
  destruct (ptr_eqb (dl_h (mem d x)) (Some h) && (dl_id (mem d x) =? id)%Z); [reflexivity|].
  apply (IH f _ _ _ Hd). lia.
Qed.

Lemma get_dialog_spec fuel st h l :
  dll (ddlist st) l -> length l <= fuel ->
  get_dialog fuel st h = Some (find (is_entry_of st h) l).
Proof.
intros [_ Hd] Hf. unfold get_dialog. simpl.
apply (get_dialog_loop_spec _ _ _ _ _ _ _ _ Hd Hf).
Qed.

(** C9 (dismiss of an unregistered node).  On a well-formed registry in
    which no entry holds the handle [h] with its id, gui_dialog_dismiss
    returns and changes nothing at all: the registry, the widgets and
    the trace of calls are the same, so no status was stored, no
    on-dismiss callback ran, no entry was freed, no semaphore released
    and the removal of the widget was not requested. *)
Theorem dismiss_unregistered_noop (fuel : nat) (st : dialogs_t) (h : handle) (status : Z)
    (l : list handle) :
  dll (ddlist st) l -> length l <= fuel ->
  (forall e, In e l -> is_entry_of st h e = false) ->
  gui_dialog_dismiss fuel st h status = Some (st, 0%Z).
Proof.
intros Hd Hf Hno. unfold gui_dialog_dismiss.
rewrite (get_dialog_spec fuel st h l Hd Hf).
destruct (find (is_entry_of st h) l) as [e|] eqn:E; [|reflexivity].
apply find_some in E. destruct E as [Hin He]. rewrite (Hno e Hin) in He. discriminate.
Qed.

Lemma dismiss_unregistered_noop_witness :
  dll (ddlist example_dialogs) [7] /\ length [7] <= 3 /\
  (forall e, In e [7] -> is_entry_of example_dialogs 5 e = false) /\
  gui_dialog_dismiss 3 example_dialogs 5 42 = Some (example_dialogs, 0%Z).
Proof.
assert (Hd : dll (ddlist example_dialogs) [7]).
{ split; [repeat constructor; simpl; tauto|]. simpl. auto. }
assert (Hno : forall e, In e [7] -> is_entry_of example_dialogs 5 e = false).
{ intros e [<-|[]]. reflexivity. }
split; [exact Hd|]. split; [simpl; lia|]. split; [exact Hno|].
apply (dismiss_unregistered_noop 3 example_dialogs 5 42 [7] Hd); [simpl; lia | exact Hno].
Defined.

(** C10 (the result of dismiss).  On a well-formed registry, with fuel
    for the registry and for the parent chains that the removal walks,
    gui_dialog_dismiss returns, and what it returns is 0 in every case.
    In particular, when the registry has an entry for [h], the status is
    stored in that entry, the on-dismiss callback runs, the entry is
    freed or its semaphore released, the removal of the widget is
    requested, and the result is still 0. *)
Theorem dismiss_returns_zero (fuel : nat) (st : dialogs_t) (h : handle) (status : Z)
    (l c1 c2 : list handle) :
  dll (ddlist st) l -> length l <= S (fuel + fuel) ->
  ancestors fuel (GUI st) (FocusedWidget (GUI st)) = Some c1 ->
  ancestors fuel (GUI st) (parent (wmem (GUI st) h)) = Some c2 ->
  exists st',
    gui_dialog_dismiss (S (fuel + fuel)) st h status = Some (st', 0%Z) /\
    forall e, find (is_entry_of st h) l = Some e ->
      dl_status (mem (ddlist st') e) = status /\
      exists g r,
        same_but_trace (GUI st) g /\
        trace g =
          trace (GUI st) ++
          [EvCallback h GUI_WC_OnDismiss;
           if GUI_CFG_OS (GUI st) && (dl_ib (mem (ddlist st) e) && dl_sem (mem (ddlist st) e))
           then EvSemRelease e else EvMemFreeEntry e] /\
        guii_widget_remove (S (fuel + fuel)) g h = Some r /\
        GUI st' = fst r.
Proof.
intros Hd Hf H1 H2. unfold gui_dialog_dismiss.
rewrite (get_dialog_spec _ st h l Hd Hf).
destruct (find (is_entry_of st h) l) as [e|] eqn:E.
2:{ exists st. split; [reflexivity | discriminate]. }
cbv zeta.
set (st1 := set_status e status st).
set (g1 := fst (guii_widget_callback (GUI st1) h GUI_WC_OnDismiss
                  (dl_status (mem (ddlist st1) e)))).
set (st2 := mk_dialogs (ddlist st1) g1).
set (st3 := if GUI_CFG_OS g1 && (dl_ib (mem (ddlist st2) e) && dl_sem (mem (ddlist st2) e))
            then mk_dialogs (ddlist st2) (log (EvSemRelease e) g1)
            else remove_from_active_dialogs st2 e).
assert (Hs3 : same_but_trace (GUI st) (GUI st3)).
{ unfold st3. destruct (GUI_CFG_OS g1 && _); simpl; repeat split. }
assert (Htr3 : trace (GUI st3) =
          trace (GUI st) ++
          [EvCallback h GUI_WC_OnDismiss;
           if GUI_CFG_OS (GUI st) && (dl_ib (mem (ddlist st) e) && dl_sem (mem (ddlist st) e))
           then EvSemRelease e else EvMemFreeEntry e]).
{ unfold st3. simpl. rewrite upd_same. simpl.
  destruct (GUI_CFG_OS (GUI st) && (dl_ib (mem (ddlist st) e) && dl_sem (mem (ddlist st) e)));
    simpl; rewrite <- app_assoc; reflexivity. }
assert (Hst3 : dl_status (mem (ddlist st3) e) = status).
{ unfold st3. destruct (GUI_CFG_OS g1 && _).
  - simpl. rewrite upd_same. reflexivity.
  - unfold remove_from_active_dialogs. cbn [ddlist].
    rewrite (remove_gen_links_only (ddlist st2) (Some e) e).
    simpl. rewrite upd_same. reflexivity. }
assert (Hs3' := Hs3).
unfold same_but_trace in Hs3. decompose [and] Hs3. clear Hs3.
assert (Hpar : forall x, parent (wmem (GUI st3) x) = parent (wmem (GUI st) x))
  by (intros x; now rewrite H).
destruct (guii_widget_remove_spec fuel (GUI st3) h c1 c2) as [g' [Hrun _]].
{ rewrite (ancestors_ext fuel (GUI st) (GUI st3) Hpar). rewrite H4. exact H1. }
{ rewrite (ancestors_ext fuel (GUI st) (GUI st3) Hpar). rewrite Hpar. exact H2. }
rewrite Hrun. eexists. split; [reflexivity|].
intros e' [= <-]. cbn [ddlist GUI fst]. split; [exact Hst3|].
exists (GUI st3). eexists. split; [exact Hs3'|]. split; [exact Htr3|].
split; [exact Hrun | reflexivity].
Qed.

Lemma dismiss_returns_zero_witness :
  dll (ddlist example_dialogs) [7] /\ length [7] <= 11 /\
  ancestors 5 (GUI example_dialogs) (FocusedWidget (GUI example_dialogs)) = Some [4; 3; 2; 1] /\
  ancestors 5 (GUI example_dialogs) (parent (wmem (GUI example_dialogs) 2)) = Some [1] /\
  exists st',
    gui_dialog_dismiss 11 example_dialogs 2 42 = Some (st', 0%Z) /\
    dl_status (mem (ddlist st') 7) = 42%Z.
Proof.
assert (Hd : dll (ddlist example_dialogs) [7]).
{ split; [repeat constructor; simpl; tauto|]. simpl. auto. }
split; [exact Hd|]. split; [simpl; lia|]. split; [reflexivity|]. split; [reflexivity|].
destruct (dismiss_returns_zero 5 example_dialogs 2 42 [7] [4; 3; 2; 1] [1] Hd)
  as [st' [Hrun Hfound]]; [simpl; lia | reflexivity | reflexivity |].
exists st'. split; [exact Hrun|].
destruct (Hfound 7) as [Hs _]; [reflexivity | exact Hs].
Defined.

(** The dismissal of the registered dialog 2 carried out in full: the
    status is stored, the callback runs, the entry is taken from the
    registry and freed, the widget is flagged for removal and loses the
    focus; the result is 0. *)
Example dismiss_registered_example :
  option_map (fun r => (snd r,
                        dl_status (mem (ddlist (fst r)) 7),
                        first (root (ddlist (fst r))),
                        trace (GUI (fst r)),
                        guii_widget_getflag (wmem (GUI (fst r)) 2) GUI_FLAG_REMOVE,
                        FocusedWidget (GUI (fst r))))
    (gui_dialog_dismiss 11 example_dialogs 2 42) =
  Some (0%Z, 42%Z, None,
        [EvMemAlloc 7;
         EvCallback 2 GUI_WC_OnDismiss; EvMemFreeEntry 7;
         EvCallback 2 GUI_WC_Remove; EvCallback 3 GUI_WC_Remove; EvCallback 4 GUI_WC_Remove;
         EvCallback 4 GUI_WC_FocusOut; EvInvalidate 4;
         EvCallback 3 GUI_WC_FocusOut; EvInvalidate 3;
         EvCallback 2 GUI_WC_FocusOut; EvInvalidate 2],
        true, Some 1).
Proof. reflexivity. Qed.

(** ** Creation *)

(** C6 (failed creation).  guii_widget_create returns NULL when the
    declared size of the type is below the size of the base node, when
    the type allows children and its size is below the size of the
    container node, when the allocation fails, and when the pre-init
    callback answers 0; otherwise it returns the allocated node.  In the
    failure cases the lists are as they were, so the node is in no
    sibling list; the focus and active slots, the flags and every widget
    other than the allocated one are as they were; and the only calls
    made are, in the veto case, the allocation, the pre-init callback
    and the release of the allocated memory. *)
Theorem create_failure (size_h size_root parent_desktop : Z) (g : gui_t) (alloc : ptr)
    (ty : gui_widget_t) (id : Z) (parent_arg : ptr)
    (cb : option gui_widget_callback_t) (create_flags : Z) :
  let r := guii_widget_create size_h size_root parent_desktop g alloc ty id
             parent_arg cb create_flags in
  snd r = (if create_fails size_h size_root alloc ty cb then None else alloc) /\
  (create_fails size_h size_root alloc ty cb = true ->
     tree (fst r) = tree g /\
     Desktop (fst r) = Desktop g /\
     FocusedWidget (fst r) = FocusedWidget g /\
     FocusedWidgetPrev (fst r) = FocusedWidgetPrev g /\
     ActiveWidget (fst r) = ActiveWidget g /\
     ActiveWidgetPrev (fst r) = ActiveWidgetPrev g /\
     WindowActive (fst r) = WindowActive g /\
     GUI_Flags (fst r) = GUI_Flags g /\
     (forall x, Some x <> alloc -> wmem (fst r) x = wmem g x) /\
     trace (fst r) =
       trace g ++
       (if size_too_small size_h ty || container_size_too_small size_root ty
        then []
        else match alloc with
             | Some h => [EvMemAlloc h; EvCallback h GUI_WC_PreInit; EvMemFree h]
             | None => []
             end)).
Proof.
unfold guii_widget_create, create_fails, size_too_small, container_size_too_small.
destruct ((widget_size ty <? size_h)%Z
          || flag_test (widget_flags ty) GUI_FLAG_WIDGET_ALLOW_CHILDREN
             && (widget_size ty <? size_root)%Z) eqn:Esz.
- simpl. split; [reflexivity|]. intros _. rewrite app_nil_r. repeat split.
- cbv zeta. destruct alloc as [h|].
  2:{ simpl. split; [reflexivity|]. intros _. rewrite app_nil_r. repeat split. }
  set (g1 := on_widget h (fun _ => created_widget ty id cb) (log (EvMemAlloc h) g)).
  set (p := if guii_widget_isdialogbase (wmem g1 h) || flag_test create_flags parent_desktop
            then gui_window_getdesktop g1
            else match parent_arg with
                 | Some p' => if guii_widget_allowchildren (wmem g1 p') then parent_arg
                              else WindowActive g1
                 | None => WindowActive g1
                 end).
  set (g2 := on_widget h (with_parent p) g1).
  assert (Hcb : guii_widget_callback g2 h GUI_WC_PreInit 1 =
                (log (EvCallback h GUI_WC_PreInit) g2,
                 answering_callback ty cb h GUI_WC_PreInit 1%Z)).
  { unfold guii_widget_callback, answering_callback, g2, g1. simpl. rewrite !upd_same. simpl.
    destruct cb; reflexivity. }
  rewrite Hcb. unfold preinit_vetoes. cbn [orb snd].
  destruct (snd (answering_callback ty cb h GUI_WC_PreInit 1%Z) =? 0)%Z.
  + split; [reflexivity|]. intros _. unfold g2, g1. simpl.
    repeat (split; [reflexivity|]). split.
    * intros x Hx. rewrite !upd_other by congruence. reflexivity.
    * rewrite <- !app_assoc. reflexivity.
  + split; [reflexivity | discriminate].
Qed.

Lemma create_failure_witness :
  create_fails 128 160 (Some 9) refusing_type None = true /\
  snd (guii_widget_create 128 160 1 example_gui (Some 9) refusing_type 0 (Some 2) None 0)
    = None /\
  tree (fst (guii_widget_create 128 160 1 example_gui (Some 9) refusing_type 0 (Some 2)
               None 0)) = tree example_gui.
Proof.
split; [reflexivity|].
pose proof (create_failure 128 160 1 example_gui (Some 9) refusing_type 0 (Some 2) None 0)
  as H.
cbv zeta in H. destruct H as [Hr Hs].
split; [exact Hr|].
destruct Hs as [Ht _]; [reflexivity | exact Ht].
Defined.

(** The four failure cases and a success on the screen of the example,
    with 128 and 160 bytes for the two node structures: what is returned,
    the lists, and the calls made. *)
Example create_examples :
  let run alloc ty :=
    let r := guii_widget_create 128 160 1 example_gui alloc ty 0 (Some 2) None 0 in
    (snd r, tree (fst r), trace (fst r)) in
  run (Some 9) (mk_widget 100 0 no_callback) = (None, example_tree, []) /\
  run (Some 9) (mk_widget 140 GUI_FLAG_WIDGET_ALLOW_CHILDREN no_callback)
    = (None, example_tree, []) /\
  run None plain_type = (None, example_tree, []) /\
  run (Some 9) refusing_type
    = (None, example_tree, [EvMemAlloc 9; EvCallback 9 GUI_WC_PreInit; EvMemFree 9]) /\
  run (Some 9) plain_type
    = (Some 9,
       [WNode 1 [WNode 5 []; WNode 2 [WNode 9 []; WNode 3 [WNode 4 []]]]],
       [EvMemAlloc 9; EvCallback 9 GUI_WC_PreInit; EvSetSize 9; EvSetPosition 9;
        EvInvalidate 9; EvCallback 9 GUI_WC_ExcludeLinkedList; EvCallback 9 GUI_WC_Init;
        EvInvalidate 9; EvCallback 2 GUI_WC_ChildWidgetCreated]).
Proof. repeat split. Qed.

(** ** Invalidation *)

Lemma walk_path step n : forall p l,
  walk step n p = Some l -> path step p l /\ length l <= n.
Proof.
induction n as [|n IH]; intros p l; destruct p as [x|]; simpl.
- discriminate.
- intros [= <-]. simpl. auto.
- destruct (walk step n (step x)) as [r|] eqn:E; [|discriminate].
  intros [= <-]. apply IH in E. simpl. split; [tauto | lia].
- intros [= <-]. simpl. split; [reflexivity | lia].
Qed.

Lemma path_walk step l : forall n p,
  path step p l -> length l <= n -> walk step n p = Some l.
Proof.
induction l as [|x r IH]; intros n p Hp Hn; simpl in Hp.
- subst p. destruct n; reflexivity.
- destruct Hp as [-> Hp]. simpl in Hn. destruct n as [|n]; [lia|].
  simpl. rewrite (IH n _ Hp) by lia. reflexivity.
Qed.

Lemma path_ext step step' l : forall p,
  (forall x, step' x = step x) -> path step p l -> path step' p l.
Proof.
induction l as [|x r IH]; intros p E Hp; simpl in *; [exact Hp|].
destruct Hp as [-> Hp]. split; [reflexivity|]. rewrite E. now apply IH.
Qed.

Lemma walk_ext step step' n : forall p,
  (forall x, step' x = step x) -> walk step' n p = walk step n p.
Proof.
induction n as [|n IH]; intros p E; destruct p as [x|]; simpl; try reflexivity.
now rewrite E, IH.
Qed.

Lemma redraw_only_refl m : redraw_only m m.
Proof. intros x. now left. Qed.

Lemma setflag_idem w f :
  guii_widget_setflag (guii_widget_setflag w f) f = guii_widget_setflag w f.
Proof.
unfold guii_widget_setflag, with_flags, flag_set. simpl.
now rewrite <- Z.lor_assoc, Z.lor_diag.
Qed.

Lemma redraw_only_trans m1 m2 m3 :
  redraw_only m1 m2 -> redraw_only m2 m3 -> redraw_only m1 m3.
Proof.
intros H12 H23 x. destruct (H23 x) as [E|E]; rewrite E; destruct (H12 x) as [E'|E']; rewrite E'.
- now left.
- now right.
- now right.
- right. apply setflag_idem.
Qed.

Lemma redraw_only_set_redraw st x :
  redraw_only (inv_widgets st) (inv_widgets (set_redraw x st)).
Proof.
intros y. simpl. unfold upd. destruct (Nat.eqb y x) eqn:E; [right | left]; reflexivity.
Qed.

Lemma redraw_only_parent m m' : redraw_only m m' -> forall x, parent_of m' x = parent_of m x.
Proof. intros H x. unfold parent_of. destruct (H x) as [E|E]; rewrite E; reflexivity. Qed.

Lemma redraw_only_next m m' : redraw_only m m' -> forall x, next_of m' x = next_of m x.
Proof. intros H x. unfold next_of. destruct (H x) as [E|E]; rewrite E; reflexivity. Qed.

Lemma redraw_only_transparent m m' x :
  redraw_only m m' -> guii_widget_istransparent (m' x) = guii_widget_istransparent (m x).
Proof. intros H. destruct (H x) as [E|E]; rewrite E; reflexivity. Qed.

Lemma redraw_only_mono m m' x :
  redraw_only m m' ->
  guii_widget_getflag (m x) GUI_FLAG_REDRAW = true ->
  guii_widget_getflag (m' x) GUI_FLAG_REDRAW = true.
Proof.
intros H Hx. destruct (H x) as [E|E]; rewrite E; [exact Hx|].
unfold guii_widget_getflag, guii_widget_setflag. simpl.
apply flag_test_set_same. discriminate.
Qed.

Lemma parents_end_ext n m m' z :
  redraw_only m m' -> parents_end n m' z = parents_end n m z.
Proof.
intros H. unfold parents_end.
now rewrite (walk_ext (parent_of m) (parent_of m') n _ (redraw_only_parent m m' H)).
Qed.

Lemma siblings_end_ext n m m' y :
  redraw_only m m' -> siblings_end n m' y = siblings_end n m y.
Proof.
intros H. unfold siblings_end.
rewrite (walk_ext (next_of m) (next_of m') n _ (redraw_only_next m m' H)).
destruct (walk (next_of m) n (Some y)) as [l|]; [|reflexivity].
induction l as [|z l IH]; simpl; [reflexivity|].
now rewrite IH, (parents_end_ext n m m' z H).
Qed.

Section InvalidationProps.

Variables ax ay wd ht pax pay piw pih : handle -> Z.
Variable RM : gui_display_t -> gui_display_t -> bool.
Variable TR : bool.

Local Notation "'vis'" := (get_lcd_abs_position_and_visible_width_height
                         ax ay wd ht pax pay piw pih).
Local Notation "'vloop'" := (visible_loop pax pay piw pih).
Local Notation "'oloop'" := (overlap_loop ax ay wd ht pax pay piw pih RM).
Local Notation "'sloop'" := (siblings_loop ax ay wd ht pax pay piw pih RM).
Local Notation "'inval'" := (invalidate_widget ax ay wd ht pax pay piw pih RM TR).
Local Notation "'clipreg'" := (set_clipping_region ax ay wd ht pax pay piw pih).

Lemma visible_loop_ext n m m' : redraw_only m m' ->
  forall h r, vloop n m' h r = vloop n m h r.
Proof.
intros H. induction n as [|n IH]; intros h r; destruct h as [x|]; simpl; try reflexivity.
rewrite IH. f_equal. apply (redraw_only_parent m m' H).
Qed.

Lemma vis_ext n m m' z : redraw_only m m' -> vis n m' z = vis n m z.
Proof.
intros H. unfold get_lcd_abs_position_and_visible_width_height.
apply visible_loop_ext. exact H.
Qed.

Lemma visible_loop_some n m : forall h r,
  walk (parent_of m) n h <> None -> exists r', vloop n m h r = Some r'.
Proof.
induction n as [|n IH]; intros h r Hw; destruct h as [x|]; simpl in *.
- congruence.
- eauto.
- apply IH. intros E. apply Hw. unfold parent_of at 2. now rewrite E.
- eauto.
Qed.

Lemma vis_some n m z : parents_end n m z = true -> exists r, vis n m z = Some r.
Proof.
intros H. unfold get_lcd_abs_position_and_visible_width_height.
apply visible_loop_some. unfold parents_end in H.
destruct (walk (parent_of m) n (Some z)); [discriminate | discriminate].
Qed.

(** The inner loop flags every sibling it passes whose rectangle
    overlaps [r1], and changes nothing else. *)
Lemma overlap_loop_spec n r1 : forall l fuel st h2,
  path (next_of (inv_widgets st)) h2 l -> length l <= fuel ->
  (forall z, In z l -> parents_end n (inv_widgets st) z = true) ->
  exists st',
    oloop n fuel st r1 h2 = Some st' /\
    redraw_only (inv_widgets st) (inv_widgets st') /\
    inv_Flags st' = inv_Flags st /\ inv_Display st' = inv_Display st /\
    forall z r2, In z l -> vis n (inv_widgets st) z = Some r2 -> RM r1 r2 = true ->
      guii_widget_getflag (inv_widgets st' z) GUI_FLAG_REDRAW = true.
Proof.
induction l as [|x l IH]; intros fuel st h2 Hp Hf Hok; simpl in Hp.
- subst h2. exists st. destruct fuel; simpl;
    (split; [reflexivity|]; split; [apply redraw_only_refl|]; repeat split; intros z r2 []).
- destruct Hp as [-> Hp]. simpl in Hf. destruct fuel as [|fuel]; [lia|].
  destruct (vis_some n (inv_widgets st) x (Hok x (or_introl eq_refl))) as [r2 Hr2].
  simpl. rewrite Hr2.
  set (st1 := if guii_widget_getflag (inv_widgets st x) GUI_FLAG_REDRAW || negb (RM r1 r2)
              then st else set_redraw x st).
  assert (H1 : redraw_only (inv_widgets st) (inv_widgets st1)).
  { unfold st1. destruct (_ || _); [apply redraw_only_refl | apply redraw_only_set_redraw]. }
  assert (Hf1 : inv_Flags st1 = inv_Flags st /\ inv_Display st1 = inv_Display st).
  { unfold st1. destruct (_ || _); split; reflexivity. }
  assert (Hx1 : RM r1 r2 = true ->
                guii_widget_getflag (inv_widgets st1 x) GUI_FLAG_REDRAW = true).
  { intros Hm. unfold st1.
    destruct (guii_widget_getflag (inv_widgets st x) GUI_FLAG_REDRAW) eqn:Ef; simpl;
      [exact Ef|].
    rewrite Hm. simpl. rewrite upd_same.
    unfold guii_widget_getflag, guii_widget_setflag. simpl.
    apply flag_test_set_same. discriminate. }
  destruct (IH fuel st1 (next (llist (inv_widgets st1 x)))) as [st' (Hrun & Hr & Hfl & Hd & Hall)].
  + apply path_ext with (step := next_of (inv_widgets st)).
    * apply (redraw_only_next _ _ H1).
    * change (next (llist (inv_widgets st1 x))) with (next_of (inv_widgets st1) x).
      rewrite (redraw_only_next _ _ H1). exact Hp.
  + lia.
  + intros z Hz. rewrite (parents_end_ext n _ _ z H1). apply Hok. now right.
  + exists st'. split; [exact Hrun|].
    split; [eapply redraw_only_trans; eauto|].
    split; [rewrite Hfl; apply Hf1|]. split; [rewrite Hd; apply Hf1|].
    intros z rz [<-|Hz] Hvz Hm.
    * apply (redraw_only_mono _ _ _ Hr). apply Hx1. congruence.
    * apply (Hall z rz Hz); [|exact Hm]. rewrite (vis_ext n _ _ z H1). exact Hvz.
Qed.


(** The outer loop: every sibling after the first that overlaps it is
    flagged; nothing but redraw bits changes. *)
Lemma siblings_loop_spec n : forall l fuel st h1,
  path (next_of (inv_widgets st)) h1 l -> length l <= fuel -> length l <= n ->
  (forall z, In z l -> parents_end n (inv_widgets st) z = true) ->
  exists st',
    sloop n fuel st h1 = Some st' /\
    redraw_only (inv_widgets st) (inv_widgets st') /\
    inv_Flags st' = inv_Flags st /\ inv_Display st' = inv_Display st /\
    forall x l', l = x :: l' ->
      forall z r1 r2, In z l' ->
        vis n (inv_widgets st) x = Some r1 -> vis n (inv_widgets st) z = Some r2 ->
        RM r1 r2 = true ->
        guii_widget_getflag (inv_widgets st' z) GUI_FLAG_REDRAW = true.
Proof.
induction l as [|x l IH]; intros fuel st h1 Hp Hf Hn Hok; simpl in Hp.
- subst h1. exists st. destruct fuel; simpl;
    (split; [reflexivity|]; split; [apply redraw_only_refl|]; repeat split; discriminate).
- destruct Hp as [-> Hp]. simpl in Hf, Hn. destruct fuel as [|fuel]; [lia|].
  destruct (vis_some n (inv_widgets st) x (Hok x (or_introl eq_refl))) as [r1 Hr1].
  simpl. rewrite Hr1.
  destruct (overlap_loop_spec n r1 l n st (next (llist (inv_widgets st x))))
    as [st1 (Hrun1 & H1 & Hfl1 & Hd1 & Hall1)].
  { exact Hp. } { lia. } { intros z Hz. apply Hok. now right. }
  rewrite Hrun1.
  destruct (IH fuel st1 (next (llist (inv_widgets st1 x)))) as [st' (Hrun & Hr & Hfl & Hd & _)].
  + apply path_ext with (step := next_of (inv_widgets st)).
    * apply (redraw_only_next _ _ H1).
    * change (next (llist (inv_widgets st1 x))) with (next_of (inv_widgets st1) x).
      rewrite (redraw_only_next _ _ H1). exact Hp.
  + lia.
  + lia.
  + intros z Hz. rewrite (parents_end_ext n _ _ z H1). apply Hok. now right.
  + exists st'. split; [exact Hrun|].
    split; [eapply redraw_only_trans; eauto|].
    split; [congruence|]. split; [congruence|].
    intros x' l' [= <- <-] z r1' r2 Hz Hv1 Hv2 Hm.
    apply (redraw_only_mono _ _ _ Hr).
    apply (Hall1 z r2 Hz Hv2). congruence.
Qed.

Lemma first_transparent_spec m : forall c fuel p,
  path (parent_of m) p c -> length c <= fuel ->
  exists t, first_transparent fuel m p = Some t /\
    match t with
    | None => True
    | Some y => exists ct, path (parent_of m) (Some y) ct /\
                           (forall z, In z ct -> In z c) /\ length ct <= length c
    end.
Proof.
induction c as [|x c IH]; intros fuel p Hp Hf; simpl in Hp.
- subst p. exists None. destruct fuel; simpl; auto.
- destruct Hp as [-> Hp]. simpl in Hf. destruct fuel as [|fuel]; [lia|]. simpl.
  destruct (guii_widget_istransparent (m x)).
  + exists (Some x). split; [reflexivity|]. exists (x :: c). simpl. auto.
  + destruct (IH fuel (parent (m x)) Hp) as [t [Ht Hc]]; [lia|].
    exists t. split; [exact Ht|]. destruct t as [y|]; [|exact I].
    destruct Hc as [ct (Hpt & Hin & Hl)]. exists ct. simpl. split; [exact Hpt|].
    split; [auto | lia].
Qed.

Lemma flags_grow_refl st : flags_grow st st.
Proof. now left. Qed.

Lemma flags_grow_trans st1 st2 st3 :
  flags_grow st1 st2 -> flags_grow st2 st3 -> flags_grow st1 st3.
Proof.
unfold flags_grow. intros [E|E] [E'|E']; rewrite E', E; auto.
right. unfold flag_set. now rewrite <- Z.lor_assoc, Z.lor_diag.
Qed.

Lemma flags_grow_test st st' :
  flags_grow st st' -> flag_test (inv_Flags st) GUI_FLAG_REDRAW = true ->
  flag_test (inv_Flags st') GUI_FLAG_REDRAW = true.
Proof.
intros [E|E] H; rewrite E; [exact H|]. apply flag_test_set_same. discriminate.
Qed.

Lemma contains_grow d r : contains (grow d r) r.
Proof.
unfold contains, grow. simpl.
destruct (Z.gtb_spec (X1 d) (X1 r)), (Z.gtb_spec (Y1 d) (Y1 r)),
         (Z.ltb_spec (X2 d) (X2 r)), (Z.ltb_spec (Y2 d) (Y2 r)); lia.
Qed.

Lemma invalidate_widget_unfold n d st x b :
  inval n (S d) st (Some x) b =
  if guii_widget_getflag (inv_widgets st x) GUI_FLAG_IGNORE_INVALIDATE
  then Some (st, 0%Z)
  else
    let st := set_redraw x st in
    let st := mk_inval (inv_widgets st) (flag_set (inv_Flags st) GUI_FLAG_REDRAW)
                (inv_Display st) in
    do st <- (if b then clipreg n st x else Some st);
    do st <- (if TR && guii_widget_istransparent (inv_widgets st x)
              then option_map fst (inval n d st (parent (inv_widgets st x)) false)
              else Some st);
    do st <- sloop n n st (Some x);
    do st <- (match parent (inv_widgets st x) with
              | Some p =>
                  if negb (gui_linkedlist_iswidgetlast (inv_widgets st) (Some p))
                  then option_map fst (inval n d st (Some p) false)
                  else Some st
              | None => Some st
              end);
    do st <- (if TR then
                do t <- first_transparent n (inv_widgets st) (parent (inv_widgets st x));
                match t with
                | Some _ => option_map fst (inval n d st t false)
                | None => Some st
                end
              else Some st);
    Some (st, 1%Z).
Proof. reflexivity. Qed.


Lemma siblings_end_path n m y :
  siblings_end n m y = true ->
  exists l, path (next_of m) (Some y) (y :: l) /\ length (y :: l) <= n /\
            (forall z, In z (y :: l) -> parents_end n m z = true) /\
            later_siblings n m y = l.
Proof.
unfold siblings_end. destruct (walk (next_of m) n (Some y)) as [l|] eqn:E; [|discriminate].
intros Hall. apply walk_path in E. destruct E as [Hp Hl].
destruct l as [|y' l]; [simpl in Hp; discriminate|].
simpl in Hp. destruct Hp as [[= <-] Hp].
exists l. split; [simpl; auto|]. split; [exact Hl|]. split.
- intros z Hz. rewrite forallb_forall in Hall. auto.
- unfold later_siblings. rewrite (path_walk _ l n _ Hp); [reflexivity | simpl in Hl; lia].
Qed.

(** invalidate_widget returns when the loops end, and what it does. *)
Lemma invalidate_widget_spec n : forall depth st x b c,
  path (parent_of (inv_widgets st)) (Some x) c -> length c <= depth -> length c <= n ->
  (forall y, In y c -> siblings_end n (inv_widgets st) y = true) ->
  exists st' ret,
    inval n depth st (Some x) b = Some (st', ret) /\
    redraw_only (inv_widgets st) (inv_widgets st') /\
    flags_grow st st' /\
    (b = false -> inv_Display st' = inv_Display st) /\
    (guii_widget_getflag (inv_widgets st x) GUI_FLAG_IGNORE_INVALIDATE = true ->
       st' = st /\ ret = 0%Z) /\
    (guii_widget_getflag (inv_widgets st x) GUI_FLAG_IGNORE_INVALIDATE = false ->
       ret = 1%Z /\
       guii_widget_getflag (inv_widgets st' x) GUI_FLAG_REDRAW = true /\
       flag_test (inv_Flags st') GUI_FLAG_REDRAW = true /\
       (b = true -> forall rA, vis n (inv_widgets st) x = Some rA ->
                    contains (inv_Display st') rA) /\
       (forall z rA rz, In z (later_siblings n (inv_widgets st) x) ->
          vis n (inv_widgets st) x = Some rA -> vis n (inv_widgets st) z = Some rz ->
          RM rA rz = true ->
          guii_widget_getflag (inv_widgets st' z) GUI_FLAG_REDRAW = true)).
Proof.
induction depth as [|d IH]; intros st x b c Hp Hd Hn Hok.
{ destruct c; simpl in Hp; [discriminate | simpl in Hd; lia]. }
destruct c as [|x' c']; [simpl in Hp; discriminate|].
simpl in Hp. destruct Hp as [[= <-] Hp]. simpl in Hd, Hn.
set (m := inv_widgets st) in *.
assert (Hrec : forall st0 t ct,
          redraw_only m (inv_widgets st0) ->
          path (parent_of m) t ct -> (forall z, In z ct -> In z c') ->
          length ct <= length c' ->
          exists st', option_map fst (inval n d st0 t false) = Some st' /\
            redraw_only (inv_widgets st0) (inv_widgets st') /\ flags_grow st0 st' /\
            inv_Display st' = inv_Display st0).
{ intros st0 t ct H0 Hpt Hsub Hlen. destruct t as [y|].
  - destruct (IH st0 y false ct) as [st' [ret (Hrun & Hr & Hg & Hdis & _)]].
    + apply path_ext with (step := parent_of m);
        [apply (redraw_only_parent _ _ H0) | exact Hpt].
    + lia.
    + lia.
    + intros z Hz. rewrite (siblings_end_ext n _ _ z H0). apply Hok. right. auto.
    + exists st'. rewrite Hrun. simpl. auto.
  - exists st0. destruct d; simpl;
      (split; [reflexivity|]; split; [apply redraw_only_refl|];
       split; [apply flags_grow_refl | reflexivity]). }
rewrite invalidate_widget_unfold. fold m.
destruct (guii_widget_getflag (m x) GUI_FLAG_IGNORE_INVALIDATE) eqn:Eig.
{ exists st, 0%Z. split; [reflexivity|]. split; [apply redraw_only_refl|].
  split; [apply flags_grow_refl|]. split; [reflexivity|]. split; [auto | discriminate]. }
cbv zeta.
set (st2 := mk_inval (inv_widgets (set_redraw x st))
              (flag_set (inv_Flags (set_redraw x st)) GUI_FLAG_REDRAW)
              (inv_Display (set_redraw x st))).
assert (H2 : redraw_only m (inv_widgets st2)) by apply redraw_only_set_redraw.
assert (Hx2 : guii_widget_getflag (inv_widgets st2 x) GUI_FLAG_REDRAW = true).
{ simpl. rewrite upd_same. unfold guii_widget_getflag, guii_widget_setflag. simpl.
  apply flag_test_set_same. discriminate. }
assert (Hg2 : flags_grow st st2) by (right; reflexivity).
assert (Hf2 : flag_test (inv_Flags st2) GUI_FLAG_REDRAW = true)
  by (simpl; apply flag_test_set_same; discriminate).
destruct (siblings_end_path n m x (Hok x (or_introl eq_refl)))
  as [lx (Hpx & Hlx & Hpe & Hlater)].
destruct (vis_some n m x (Hpe x (or_introl eq_refl))) as [rA HrA].
(* the clipping region *)
assert (Ha : exists st3,
          (if b then clipreg n st2 x else Some st2) = Some st3 /\
          inv_widgets st3 = inv_widgets st2 /\ inv_Flags st3 = inv_Flags st2 /\
          (b = false -> inv_Display st3 = inv_Display st) /\
          (b = true -> inv_Display st3 = grow (inv_Display st) rA)).
{ destruct b.
  - unfold set_clipping_region. rewrite (vis_ext n m _ x H2), HrA.
    eexists. split; [reflexivity|]. simpl. repeat split; auto. discriminate.
  - exists st2. repeat split; auto. discriminate. }
destruct Ha as [st3 (Ea & Hw3 & Hf3 & Hd3f & Hd3t)]. rewrite Ea.
assert (H3 : redraw_only m (inv_widgets st3)) by (rewrite Hw3; exact H2).
assert (G3 : flags_grow st2 st3) by (left; exact Hf3).
(* the parent of a transparent widget *)
assert (Hb : exists st4,
          (if TR && guii_widget_istransparent (inv_widgets st3 x)
           then option_map fst (inval n d st3 (parent (inv_widgets st3 x)) false)
           else Some st3) = Some st4 /\
          redraw_only (inv_widgets st3) (inv_widgets st4) /\ flags_grow st3 st4 /\
          inv_Display st4 = inv_Display st3).
{ destruct (TR && _).
  - apply (Hrec st3 _ c' H3); [|auto|lia].
    change (parent (inv_widgets st3 x)) with (parent_of (inv_widgets st3) x).
    rewrite (redraw_only_parent _ _ H3). exact Hp.
  - exists st3. split; [reflexivity|]. split; [apply redraw_only_refl|].
    split; [apply flags_grow_refl | reflexivity]. }
destruct Hb as [st4 (Eb & R34 & G34 & D4)]. rewrite Eb.
assert (H4 : redraw_only m (inv_widgets st4)) by (eapply redraw_only_trans; eauto).
(* the siblings *)
destruct (siblings_loop_spec n (x :: lx) n st4 (Some x))
  as [st5 (Ec & R45 & F5 & D5 & Hall5)].
{ apply path_ext with (step := next_of m); [apply (redraw_only_next _ _ H4) | exact Hpx]. }
{ exact Hlx. } { exact Hlx. }
{ intros z Hz. rewrite (parents_end_ext n _ _ z H4). auto. }
rewrite Ec.
assert (H5 : redraw_only m (inv_widgets st5)) by (eapply redraw_only_trans; eauto).
assert (G45 : flags_grow st4 st5) by (left; exact F5).
(* the parent, when it is not last *)
assert (Hd' : exists st6,
          match parent (inv_widgets st5 x) with
          | Some p =>
              if negb (gui_linkedlist_iswidgetlast (inv_widgets st5) (Some p))
              then option_map fst (inval n d st5 (Some p) false)
              else Some st5
          | None => Some st5
          end = Some st6 /\
          redraw_only (inv_widgets st5) (inv_widgets st6) /\ flags_grow st5 st6 /\
          inv_Display st6 = inv_Display st5).
{ assert (Hno : exists st6, Some st5 = Some st6 /\
            redraw_only (inv_widgets st5) (inv_widgets st6) /\ flags_grow st5 st6 /\
            inv_Display st6 = inv_Display st5).
  { exists st5. split; [reflexivity|]. split; [apply redraw_only_refl|].
    split; [apply flags_grow_refl | reflexivity]. }
  destruct (parent (inv_widgets st5 x)) as [p|] eqn:Epar; [|exact Hno].
  destruct (negb _); [|exact Hno].
  apply (Hrec st5 (Some p) c' H5); [|auto|lia].
  change (parent (inv_widgets st5 x)) with (parent_of (inv_widgets st5) x) in Epar.
  rewrite (redraw_only_parent _ _ H5) in Epar. rewrite <- Epar. exact Hp. }
destruct Hd' as [st6 (Ed & R56 & G56 & D6)]. rewrite Ed.
assert (H6 : redraw_only m (inv_widgets st6)) by (eapply redraw_only_trans; eauto).
(* the first transparent ancestor *)
assert (He : exists st7,
          (if TR then
             do t <- first_transparent n (inv_widgets st6) (parent (inv_widgets st6 x));
             match t with
             | Some _ => option_map fst (inval n d st6 t false)
             | None => Some st6
             end
           else Some st6) = Some st7 /\
          redraw_only (inv_widgets st6) (inv_widgets st7) /\ flags_grow st6 st7 /\
          inv_Display st7 = inv_Display st6).
{ assert (Hno : exists st7, Some st6 = Some st7 /\
            redraw_only (inv_widgets st6) (inv_widgets st7) /\ flags_grow st6 st7 /\
            inv_Display st7 = inv_Display st6).
  { exists st6. split; [reflexivity|]. split; [apply redraw_only_refl|].
    split; [apply flags_grow_refl | reflexivity]. }
  destruct TR; [|exact Hno].
  assert (Hp6 : path (parent_of (inv_widgets st6)) (parent (inv_widgets st6 x)) c').
  { apply path_ext with (step := parent_of m); [apply (redraw_only_parent _ _ H6)|].
    change (parent (inv_widgets st6 x)) with (parent_of (inv_widgets st6) x).
    rewrite (redraw_only_parent _ _ H6). exact Hp. }
  destruct (first_transparent_spec (inv_widgets st6) c' n _ Hp6) as [t [Et Ht]]; [lia|].
  rewrite Et. destruct t as [y|]; [|exact Hno].
  destruct Ht as [ct (Hpt & Hsub & Hlen)].
  apply (Hrec st6 (Some y) ct H6); [|exact Hsub|exact Hlen].
  apply path_ext with (step := parent_of (inv_widgets st6)); [|exact Hpt].
  intros z. symmetry. apply (redraw_only_parent _ _ H6). }
destruct He as [st7 (Ee & R67 & G67 & D7)]. rewrite Ee.
exists st7, 1%Z. split; [reflexivity|].
assert (R27 : redraw_only (inv_widgets st2) (inv_widgets st7)).
{ rewrite <- Hw3. eapply redraw_only_trans; [exact R34|].
  eapply redraw_only_trans; [exact R45|]. eapply redraw_only_trans; eauto. }
assert (G27 : flags_grow st2 st7).
{ eapply flags_grow_trans; [exact G3|]. eapply flags_grow_trans; [exact G34|].
  eapply flags_grow_trans; [exact G45|]. eapply flags_grow_trans; eauto. }
assert (D73 : inv_Display st7 = inv_Display st3) by congruence.
split; [eapply redraw_only_trans; eauto|].
split; [eapply flags_grow_trans; eauto|].
split; [intros Hbf; rewrite D73; auto|].
split; [discriminate|]. intros _.
split; [reflexivity|].
split; [apply (redraw_only_mono _ _ _ R27); exact Hx2|].
split; [apply (flags_grow_test _ _ G27); exact Hf2|].
split.
- intros Hbt r Hr. rewrite D73, (Hd3t Hbt).
  assert (r = rA) by congruence. subst r. apply contains_grow.
- intros z r1 rz Hz Hv1 Hvz Hm. rewrite Hlater in Hz.
  assert (R57 : redraw_only (inv_widgets st5) (inv_widgets st7))
    by (eapply redraw_only_trans; eauto).
  apply (redraw_only_mono _ _ _ R57).
  apply (Hall5 x lx eq_refl z r1 rz Hz); [| |exact Hm].
  + rewrite (vis_ext n m _ x H4). exact Hv1.
  + rewrite (vis_ext n m _ z H4). exact Hvz.
Qed.



(** The rectangle of C7 and the specification.  The program computes
    in 16-bit coordinates; where no coordinate and no edge leaves their
    range, the rectangle it computes is the visible rectangle of the
    specification: the rectangle of the widget clipped against the inner
    rectangles along its parent chain. *)
Lemma to_int16_fits z : fits16 z -> to_int16 z = z.
Proof. unfold fits16, to_int16. intros H. rewrite Z.mod_small; lia. Qed.

Lemma clip_to_parent_exact x r :
  fits16 (pax x) -> fits16 (pay x) -> fits16 (piw x) -> fits16 (pih x) ->
  fits16 (pax x + piw x) -> fits16 (pay x + pih x) ->
  clip_to_parent pax pay piw pih x r = clip_exact pax pay piw pih r x.
Proof.
intros F1 F2 F3 F4 F5 F6. unfold clip_to_parent, clip_exact. cbv zeta.
rewrite (to_int16_fits (pax x) F1), (to_int16_fits (pay x) F2), (to_int16_fits (piw x) F3),
  (to_int16_fits (pih x) F4), (to_int16_fits _ F5), (to_int16_fits _ F6).
destruct r as [x1 y1 x2 y2]. simpl. f_equal.
- destruct (Z.ltb_spec x1 (pax x)); lia.
- destruct (Z.ltb_spec y1 (pay x)); lia.
- rewrite Z.gtb_ltb. destruct (Z.ltb_spec (pax x + piw x) x2); lia.
- rewrite Z.gtb_ltb. destruct (Z.ltb_spec (pay x + pih x) y2); lia.
Qed.

Lemma visible_loop_exact m : forall c n p r,
  path (parent_of m) p c -> length c <= n ->
  (forall x, In x c ->
     fits16 (pax x) /\ fits16 (pay x) /\ fits16 (piw x) /\ fits16 (pih x) /\
     fits16 (pax x + piw x) /\ fits16 (pay x + pih x)) ->
  vloop (S n) m p r = Some (fold_left (clip_exact pax pay piw pih) c r).
Proof.
induction c as [|x c IH]; intros n p r Hp Hl Hf; simpl in Hp.
- subst p. reflexivity.
- destruct Hp as [-> Hp]. destruct n as [|n]; [simpl in Hl; lia|].
  cbn [visible_loop fold_left].
  destruct (Hf x (or_introl eq_refl)) as (F1 & F2 & F3 & F4 & F5 & F6).
  rewrite clip_to_parent_exact by assumption.
  apply IH; [exact Hp | simpl in Hl; lia | intros y Hy; apply Hf; now right].
Qed.

Lemma visible_rectangle_exact (n : nat) (m : handle -> gui_handle) (h : handle)
    (c : list handle) :
  walk (parent_of m) n (Some h) = Some c ->
  edges_fit ax ay wd ht pax pay piw pih c h ->
  vis (S n) m h = Some (visible_rect ax ay wd ht pax pay piw pih c h).
Proof.
intros Hw (F1 & F2 & F3 & F4 & F5 & F6 & Hc). apply walk_path in Hw. destruct Hw as [Hp Hl].
unfold get_lcd_abs_position_and_visible_width_height, visible_rect. cbv zeta.
rewrite (to_int16_fits (ax h) F1), (to_int16_fits (ay h) F2), (to_int16_fits (wd h) F3),
  (to_int16_fits (ht h) F4), (to_int16_fits _ F5), (to_int16_fits _ F6).
apply visible_loop_exact; assumption.
Qed.

End InvalidationProps.

(** A widget at x = 30000 that is 10000 wide, on a desktop of 100 by
    100: the right edge 40000 is stored in 16 bits and reads -25536. *)
Example visible_rectangle_wraps :
  get_lcd_abs_position_and_visible_width_height
    (fun _ => 30000%Z) (fun _ => 0%Z) (fun _ => 10000%Z) (fun _ => 10%Z)
    (fun _ => 0%Z) (fun _ => 0%Z) (fun _ => 100%Z) (fun _ => 100%Z)
    2 (inv_widgets example_inval) 1
  = Some (mk_display 30000 0 (-25536) 10).
Proof. reflexivity. Qed.


(** Invalidating the control 2: the redraw flags of 1, 2, 3 and 4, the
    flags of GUI and the dirty rectangle afterwards; and the same for a
    control that ignores invalidation. *)
Example invalidate_example :
  option_map (fun r => (snd r,
                        map (fun x => guii_widget_getflag (inv_widgets (fst r) x)
                                        GUI_FLAG_REDRAW) [1; 2; 3; 4],
                        inv_Flags (fst r), inv_Display (fst r)))
    (example_invalidate 2) =
  Some (1%Z, [false; true; true; false], GUI_FLAG_REDRAW, mk_display 10 10 30 30).
Proof. reflexivity. Qed.

(** ** Removal: the sweep *)

Lemma redirect_app m D1 D2 p : redirect m (D1 ++ D2) p = redirect m D2 (redirect m D1 p).
Proof. unfold redirect. apply fold_left_app. Qed.

Lemma drop_owner_app D1 D2 p : drop_owner (D1 ++ D2) p = drop_owner D2 (drop_owner D1 p).
Proof. unfold drop_owner. apply fold_left_app. Qed.

Lemma prune_app D1 D2 ts : prune (D1 ++ D2) ts = prune D2 (prune D1 ts).
Proof. unfold prune. apply fold_left_app. Qed.

Lemma freed_app t1 t2 : freed (t1 ++ t2) = freed t1 ++ freed t2.
Proof. unfold freed. apply flat_map_app. Qed.

Lemma redirect_ext m m' D : (forall x, In x D -> parent (m' x) = parent (m x)) ->
  forall p, redirect m' D p = redirect m D p.
Proof.
induction D as [|x D IH]; intros E p; [reflexivity|]. simpl.
rewrite (E x (or_introl eq_refl)). apply IH. intros y Hy. apply E. now right.
Qed.

Lemma swept_refl m g : swept m [] [] [] g g.
Proof. constructor; try reflexivity. symmetry. apply app_nil_r. Qed.

Lemma swept_trans m T1 T2 D1 D2 E1 E2 g g1 g2 :
  swept m T1 D1 E1 g g1 -> swept m T2 D2 E2 g1 g2 ->
  swept m (T1 ++ T2) (D1 ++ D2) (E1 ++ E2) g g2.
Proof.
intros [] []. constructor.
- rewrite sw_trace1, sw_trace0. now rewrite app_assoc.
- intros x Hx. rewrite sw_frame1, sw_frame0; [reflexivity| |];
    intros Hin; apply Hx; apply in_or_app; auto.
- intros x. now rewrite sw_parent1.
- now rewrite prune_app, <- sw_tree0.
- now rewrite redirect_app, <- sw_focused0.
- now rewrite drop_owner_app, <- sw_focused_prev0.
- now rewrite drop_owner_app, <- sw_active0.
- now rewrite redirect_app, <- sw_active_prev0.
- now rewrite redirect_app, <- sw_window0.
- congruence.
- congruence.
- congruence.
Qed.

Lemma swept_weaken m T T' D E g g' :
  (forall x, In x T -> In x T') -> swept m T D E g g' -> swept m T' D E g g'.
Proof. intros Hsub []. constructor; auto. Qed.

Lemma swept_memory m m' T D E g g' :
  (forall x, In x D -> parent (m' x) = parent (m x)) ->
  swept m T D E g g' -> swept m' T D E g g'.
Proof.
intros Hp []. constructor; auto; rewrite (redirect_ext m m' D Hp); assumption.
Qed.

Lemma swept_log m e g : swept m [] [] [e] g (log e g).
Proof. constructor; reflexivity. Qed.

Lemma swept_notify m lvl g :
  swept m [] [] (if GUI_CFG_OS g && Nat.eqb lvl 0 then [EvMbox GUI_SYS_MBOX_TYPE_REMOVE] else [])
    g (sweep_notify lvl g).
Proof.
unfold sweep_notify. destruct (GUI_CFG_OS g && Nat.eqb lvl 0);
  [apply swept_log | apply swept_refl].
Qed.

(** The second part of remove_widget makes the calls of
    [finalize_events] and touches the node alone. *)
Lemma remove_widget_final_spec g h :
  let g' := remove_widget_final g h in
  trace g' = trace g ++ finalize_events (wmem g) h /\
  (forall x, x <> h -> wmem g' x = wmem g x) /\
  (forall x, parent (wmem g' x) = parent (wmem g x)) /\
  tree g' = unlink h (tree g) /\
  FocusedWidget g' = FocusedWidget g /\ FocusedWidgetPrev g' = FocusedWidgetPrev g /\
  ActiveWidget g' = ActiveWidget g /\ ActiveWidgetPrev g' = ActiveWidgetPrev g /\
  WindowActive g' = WindowActive g /\ Desktop g' = Desktop g /\
  GUI_Flags g' = GUI_Flags g /\ GUI_CFG_OS g' = GUI_CFG_OS g.
Proof.
unfold remove_widget_final, finalize_events, guii_widget_freetextmemory,
  guii_widget_invalidatewithparent, guii_widget_invalidate, guii_widget_callback.
cbn [wmem log set_trace].
destruct (text (wmem g h)) as [tx|] eqn:Etx;
  [destruct (guii_widget_getflag (wmem g h) GUI_FLAG_DYNAMICTEXTALLOC) eqn:Edyn|];
  repeat first [ rewrite upd_same
               | progress cbn [wmem log set_trace on_widget set_wmem fst timer colors
                               guii_widget_clrflag with_flags] ];
  destruct (timer (wmem g h)) as [tm|] eqn:Etm;
  repeat first [ rewrite upd_same
               | progress cbn [wmem log set_trace on_widget set_wmem fst timer colors
                               guii_widget_clrflag with_flags] ];
  destruct (colors (wmem g h)) as [cl|] eqn:Ecl;
  cbn -[unlink]; rewrite <- ?app_assoc; cbn [app];
  (split; [reflexivity|]);
  (split; [intros x Hx; rewrite ?upd_other by exact Hx; reflexivity|]);
  (split; [intros x; unfold upd; destruct (Nat.eqb x h); reflexivity|]);
  repeat split.
Qed.

(** The first part, for a widget that has a parent: the slots that hold
    the widget pass to the parent or are cleared. *)
Lemma remove_widget_owners_spec fuel g h p :
  parent (wmem g h) = Some p ->
  exists g',
    remove_widget_owners fuel g h = Some g' /\
    trace g' = trace g /\ wmem g' = wmem g /\ tree g' = tree g /\
    FocusedWidget g' = redirect (wmem g) [h] (FocusedWidget g) /\
    FocusedWidgetPrev g' = drop_owner [h] (FocusedWidgetPrev g) /\
    ActiveWidget g' = drop_owner [h] (ActiveWidget g) /\
    ActiveWidgetPrev g' = redirect (wmem g) [h] (ActiveWidgetPrev g) /\
    WindowActive g' = redirect (wmem g) [h] (WindowActive g) /\
    Desktop g' = Desktop g /\ GUI_Flags g' = GUI_Flags g /\ GUI_CFG_OS g' = GUI_CFG_OS g.
Proof.
intros Hp. unfold remove_widget_owners. rewrite Hp. cbn [redirect drop_owner fold_left].
rewrite Hp.
destruct g as [wm tr dk fw fwp aw awp wa gf os tc].
unfold set_FocusedWidget, set_FocusedWidgetPrev, set_ActiveWidget, set_ActiveWidgetPrev,
  set_WindowActive. cbn.
destruct (ptr_eqb fw (Some h)); cbn;
  destruct (ptr_eqb fwp (Some h)); cbn;
  destruct (ptr_eqb aw (Some h)); cbn;
  destruct (ptr_eqb awp (Some h)); cbn;
  destruct (ptr_eqb wa (Some h)); cbn;
  eexists; (split; [reflexivity|]); cbn; repeat split.
Qed.

Lemma swept_remove_widget m fuel g h p :
  parent (wmem g h) = Some p -> parent (m h) = Some p ->
  exists g',
    remove_widget fuel g h = Some g' /\
    swept m [h] [h] (finalize_events (wmem g) h) g g'.
Proof.
intros Hp Hm. unfold remove_widget.
destruct (remove_widget_owners_spec fuel g h p Hp)
  as [g1 (Hrun & Ht & Hw & Htr & Hf & Hfp & Ha & Hap & Hwa & Hd & Hfl & Hos)].
rewrite Hrun. eexists. split; [reflexivity|].
destruct (remove_widget_final_spec g1 h)
  as (Ft & Fw & Fp & Ftr & Ff & Ffp & Fa & Fap & Fwa & Fd & Ffl & Fos).
assert (Hr : forall q, redirect (wmem g) [h] q = redirect m [h] q).
{ intros q. apply redirect_ext. intros x [<-|[]]. congruence. }
constructor.
- rewrite Ft, Ht, Hw. reflexivity.
- intros x Hx. rewrite Fw, Hw; [reflexivity|]. intros ->. apply Hx. now left.
- intros x. rewrite Fp, Hw. reflexivity.
- rewrite Ftr, Htr. reflexivity.
- rewrite Ff, Hf. apply Hr.
- rewrite Ffp, Hfp. reflexivity.
- rewrite Fa, Ha. reflexivity.
- rewrite Fap, Hap. apply Hr.
- rewrite Fwa, Hwa. apply Hr.
- congruence.
- congruence.
- congruence.
Qed.

(** Setting the remove bit on the children. *)
Lemma flag_children_spec kids : forall g,
  trace (flag_children kids g) = trace g /\
  (forall x, ~ In x (map wroot kids) -> wmem (flag_children kids g) x = wmem g x) /\
  (forall x, In x (map wroot kids) ->
     guii_widget_getflag (wmem (flag_children kids g) x) GUI_FLAG_REMOVE = true) /\
  (forall x, exists f, wmem (flag_children kids g) x = with_flags f (wmem g x)
                       /\ forall b, Z.land GUI_FLAG_REMOVE b = 0%Z ->
                                    flag_test f b = flag_test (flags (wmem g x)) b) /\
  tree (flag_children kids g) = tree g /\
  FocusedWidget (flag_children kids g) = FocusedWidget g /\
  FocusedWidgetPrev (flag_children kids g) = FocusedWidgetPrev g /\
  ActiveWidget (flag_children kids g) = ActiveWidget g /\
  ActiveWidgetPrev (flag_children kids g) = ActiveWidgetPrev g /\
  WindowActive (flag_children kids g) = WindowActive g /\
  Desktop (flag_children kids g) = Desktop g /\
  GUI_Flags (flag_children kids g) = GUI_Flags g /\
  GUI_CFG_OS (flag_children kids g) = GUI_CFG_OS g.
Proof.
unfold flag_children.
induction kids as [|k r IH]; intros g.
- simpl. repeat split; try tauto.
  intros x. exists (flags (wmem g x)). split; [|reflexivity].
  destruct (wmem g x); reflexivity.
- cbn [fold_left map].
  set (g1 := on_widget (wroot k) (fun w => guii_widget_setflag w GUI_FLAG_REMOVE) g).
  destruct (IH g1) as (Ht & Hw & Hfl & Hst & Hrest).
  split; [rewrite Ht; reflexivity|].
  split.
  { intros x Hx. rewrite Hw by (intros Hin; apply Hx; now right).
    unfold g1. simpl. apply upd_other. intros ->. apply Hx. now left. }
  split.
  { intros x Hx. destruct (Hst x) as [f [Ef Hf]].
    destruct (in_dec Nat.eq_dec x (map wroot r)) as [Hin|Hnin]; [now apply Hfl|].
    destruct Hx as [<-|Hx]; [|contradiction].
    rewrite Hw by exact Hnin. unfold g1. simpl. rewrite upd_same.
    unfold guii_widget_getflag, guii_widget_setflag. simpl.
    apply flag_test_set_same. discriminate. }
  split.
  { intros x. destruct (Hst x) as [f [Ef Hf]]. exists f. split.
    - rewrite Ef. unfold g1. simpl. unfold upd. destruct (Nat.eqb x (wroot k)); [|reflexivity].
      unfold guii_widget_setflag, with_flags. reflexivity.
    - intros b Hb. rewrite (Hf b Hb). unfold g1. simpl. unfold upd.
      destruct (Nat.eqb x (wroot k)); [|reflexivity].
      unfold guii_widget_setflag. simpl. unfold flag_test, flag_set.
      rewrite Z.land_lor_distr_l, Hb, Z.lor_0_r. reflexivity. }
  exact Hrest.
Qed.

Lemma same_attrs_refl b w : same_attrs b w w.
Proof. repeat split. Qed.

Lemma same_attrs_inherited b w w' : same_attrs b w w' -> same_attrs true w w'.
Proof. unfold same_attrs. intuition discriminate. Qed.

Lemma flat_map_ext_in {A B : Type} (f g : A -> list B) l :
  (forall a, In a l -> f a = g a) -> flat_map f l = flat_map g l.
Proof.
induction l as [|a l IH]; intros E; simpl; [reflexivity|].
rewrite (E a (or_introl eq_refl)), IH; [reflexivity|]. intros b Hb. apply E. now right.
Qed.

Lemma forallb_pointwise {A : Type} (f g : A -> bool) l :
  (forall a, f a = g a) -> forallb f l = forallb g l.
Proof. intros E. induction l as [|a l IH]; simpl; [reflexivity|]. now rewrite E, IH. Qed.

Lemma doomed_ext m m' t : forall inh,
  (forall x, In x (handles_of t) -> same_attrs inh (m x) (m' x)) ->
  doomed inh m' t = doomed inh m t /\
  forall os lvl, sweep_events inh m' os lvl t = sweep_events inh m os lvl t.
Proof.
induction t as [h kids IH] using wtree_induction. intros inh E.
assert (Eh := E h (or_introl eq_refl)). destruct Eh as (Ea & Et & Etm & Ec & Ed & Er).
assert (Egone : inh || guii_widget_getflag (m' h) GUI_FLAG_REMOVE =
                inh || guii_widget_getflag (m h) GUI_FLAG_REMOVE).
{ destruct inh; [reflexivity|]. simpl. now apply Er. }
assert (Ekids : forall b k, In k kids ->
          (b = true \/ b = inh) ->
          doomed b m' k = doomed b m k /\
          forall os lvl, sweep_events b m' os lvl k = sweep_events b m os lvl k).
{ intros b k Hk Hb. rewrite Forall_forall in IH. apply (IH k Hk).
  intros x Hx.
  assert (Hin : In x (handles_of (WNode h kids))).
  { simpl. right. apply in_flat_map. exists k. auto. }
  destruct Hb as [->| ->]; [eapply same_attrs_inherited|]; apply E; exact Hin. }
assert (Hb : inh || guii_widget_getflag (m h) GUI_FLAG_REMOVE = true \/
             inh || guii_widget_getflag (m h) GUI_FLAG_REMOVE = inh).
{ destruct inh; simpl; [now left|].
  destruct (guii_widget_getflag (m h) GUI_FLAG_REMOVE); auto. }
split.
- cbn [doomed]. rewrite Egone, Ea. f_equal.
  destruct (guii_widget_allowchildren (m h)); [|reflexivity].
  apply flat_map_ext_in. intros k Hk. apply (Ekids _ k Hk Hb).
- intros os lvl. cbn [sweep_events]. rewrite Egone, Ea. f_equal.
  + destruct (guii_widget_allowchildren (m h)); [|reflexivity].
    apply flat_map_ext_in. intros k Hk. apply (Ekids _ k Hk Hb).
  + unfold finalize_events. rewrite Et, Etm, Ec, Ed. reflexivity.
Qed.

Lemma doomed_flagged m t :
  guii_widget_getflag (m (wroot t)) GUI_FLAG_REMOVE = true ->
  doomed false m t = doomed true m t /\
  forall os lvl, sweep_events false m os lvl t = sweep_events true m os lvl t.
Proof.
destruct t as [h kids]. simpl. intros ->. split; reflexivity.
Qed.

Lemma doomed_subset m t : forall inh x, In x (doomed inh m t) -> In x (handles_of t).
Proof.
induction t as [h kids IH] using wtree_induction. intros inh x. cbn [doomed handles_of].
intros Hx. apply in_app_or in Hx. destruct Hx as [Hx|Hx].
- right. destruct (guii_widget_allowchildren (m h)); [|destruct Hx].
  apply in_flat_map in Hx. destruct Hx as [k [Hk Hx]].
  apply in_flat_map. exists k. split; [exact Hk|].
  rewrite Forall_forall in IH. eapply IH; eauto.
- destruct (inh || _); [|destruct Hx]. destruct Hx as [<-|[]]. now left.
Qed.

Lemma parents_ok_ext m m' : (forall x, parent (m' x) = parent (m x)) ->
  forall t pp, parents_ok m' pp t = parents_ok m pp t.
Proof.
intros E. induction t as [h kids IH] using wtree_induction. intros pp.
cbn [parents_ok]. rewrite E. f_equal.
induction IH as [|k r Hk _ IHr]; simpl; [reflexivity|]. now rewrite Hk, IHr.
Qed.

Lemma sweep_node_unfold fuel lvl h kids g :
  sweep_node fuel lvl (WNode h kids) g =
  if guii_widget_getflag (wmem g h) GUI_FLAG_REMOVE then
    do g <- (if guii_widget_allowchildren (wmem g h) then
               do g <- sweep_list fuel (S lvl) kids (flag_children kids g);
               Some (sweep_notify (S lvl) g)
             else Some g);
    remove_widget fuel g h
  else if guii_widget_allowchildren (wmem g h) then
    do g <- sweep_list fuel lvl kids g;
    Some (sweep_notify lvl g)
  else Some g.
Proof.
assert (Hfix : forall l ks g0,
  (fix loop (ks : list wtree) (g : gui_t) {struct ks} : option gui_t :=
     match ks with
     | [] => Some g
     | k :: r => do g <- sweep_node fuel l k g; loop r g
     end) ks g0 = sweep_list fuel l ks g0).
{ intros l ks. induction ks as [|k r IH]; intros g0; [reflexivity|].
  simpl. destruct (sweep_node fuel l k g0); [apply IH | reflexivity]. }
cbn [sweep_node]. rewrite !Hfix. reflexivity.
Qed.

Lemma sweep_notify_inner lvl g : sweep_notify (S lvl) g = g.
Proof. unfold sweep_notify. simpl. now rewrite andb_false_r. Qed.

Lemma finalize_events_ext m m' h : m' h = m h -> finalize_events m' h = finalize_events m h.
Proof. intros E. unfold finalize_events. now rewrite E. Qed.

Lemma sweep_list_spec fuel kids : Forall (sweeps fuel) kids ->
  forall g lvl pp,
    NoDup (flat_map handles_of kids) ->
    forallb (parents_ok (wmem g) pp) kids = true ->
    (forall k, In k kids ->
       guii_widget_getflag (wmem g (wroot k)) GUI_FLAG_REMOVE = true -> pp <> None) ->
    exists g',
      sweep_list fuel lvl kids g = Some g' /\
      swept (wmem g) (flat_map handles_of kids) (flat_map (doomed false (wmem g)) kids)
        (flat_map (sweep_events false (wmem g) (GUI_CFG_OS g) lvl) kids) g g'.
Proof.
intros HP. induction HP as [|k r Hk _ IH]; intros g lvl pp Hnd Hpo Hfl.
- exists g. split; [reflexivity | apply swept_refl].
- cbn [flat_map] in Hnd. apply NoDup_app_iff in Hnd. destruct Hnd as (Nk & Nr & Hdis).
  cbn [forallb] in Hpo. apply andb_true_iff in Hpo. destruct Hpo as [Pk Pr].
  destruct (Hk g lvl pp Nk Pk (Hfl k (or_introl eq_refl))) as [g1 [Hrun1 S1]].
  cbn [sweep_list]. rewrite Hrun1.
  assert (Hsame : forall x, In x (flat_map handles_of r) -> wmem g1 x = wmem g x).
  { intros x Hx. apply (sw_frame _ _ _ _ _ _ S1). intros Hin. exact (Hdis x Hin Hx). }
  destruct (IH g1 lvl pp Nr) as [g2 [Hrun2 S2]].
  + rewrite <- Pr. apply forallb_pointwise. intros t.
    apply parents_ok_ext. apply (sw_parent _ _ _ _ _ _ S1).
  + intros k' Hk' Hf. apply (Hfl k' (or_intror Hk')).
    rewrite <- Hsame; [exact Hf|].
    apply in_flat_map. exists k'. split; [exact Hk'|]. destruct k'. now left.
  + exists g2. split; [exact Hrun2|]. cbn [flat_map].
    apply swept_trans with (g1 := g1); [exact S1|].
    apply swept_memory with (m := wmem g1);
      [intros x _; symmetry; apply (sw_parent _ _ _ _ _ _ S1)|].
    assert (Hext : forall t, In t r ->
              doomed false (wmem g1) t = doomed false (wmem g) t /\
              forall os l, sweep_events false (wmem g1) os l t
                           = sweep_events false (wmem g) os l t).
    { intros t Ht. apply doomed_ext. intros x Hx.
      rewrite Hsame; [apply same_attrs_refl|].
      apply in_flat_map. exists t. auto. }
    rewrite <- (flat_map_ext_in _ _ r (fun t Ht => proj1 (Hext t Ht))).
    rewrite <- (flat_map_ext_in _ _ r
                  (fun t Ht => proj2 (Hext t Ht) (GUI_CFG_OS g) lvl)).
    rewrite <- (sw_os _ _ _ _ _ _ S1). exact S2.
Qed.

Lemma sweep_node_spec fuel t : sweeps fuel t.
Proof.
induction t as [h kids IH] using wtree_induction.
intros g lvl pp Hnd Hpo Hfl.
cbn [handles_of] in Hnd. apply NoDup_cons_iff in Hnd. destruct Hnd as [Hh Nk].
cbn [parents_ok] in Hpo. apply andb_true_iff in Hpo. destruct Hpo as [Ph Pk].
destruct (ptr_eqb_spec (parent (wmem g h)) pp) as [Epp|]; [|discriminate]. clear Ph.
cbn [wroot] in Hfl.
rewrite sweep_node_unfold. cbn [doomed sweep_events handles_of]. cbn [orb].
destruct (guii_widget_getflag (wmem g h) GUI_FLAG_REMOVE) eqn:Ef.
- (* the node is flagged *)
  destruct pp as [p|]; [|exfalso; now apply Hfl]. clear Hfl.
  destruct (guii_widget_allowchildren (wmem g h)) eqn:Ea.
  + set (gf := flag_children kids g).
    destruct (flag_children_spec kids g)
      as (Ft & Fw & Ffl & Fst & Ftr & Ff & Ffp & Fa & Fap & Fwa & Fd & Fgf & Fos).
    fold gf in Ft, Fw, Ffl, Fst, Ftr, Ff, Ffp, Fa, Fap, Fwa, Fd, Fgf, Fos.
    assert (Fpar : forall x, parent (wmem gf x) = parent (wmem g x)).
    { intros x. destruct (Fst x) as [f [-> _]]. reflexivity. }
    assert (Fattr : forall x, same_attrs true (wmem g x) (wmem gf x)).
    { intros x. destruct (Fst x) as [f [-> Hf]].
      unfold same_attrs, guii_widget_allowchildren, guii_widget_getflag,
        guii_widget_getcoreflag. simpl.
      rewrite !Hf by reflexivity. repeat split. discriminate. }
    assert (S0 : swept (wmem g) (map wroot kids) [] [] gf gf) by
      (apply swept_weaken with (T := []); [intros x []|apply swept_refl]).
    assert (Sf : swept (wmem g) (map wroot kids) [] [] g gf).
    { constructor; auto. rewrite Ft. symmetry. apply app_nil_r. }
    destruct (sweep_list_spec fuel kids IH gf (S lvl) (Some h) Nk) as [g2 [Hrun2 S2]].
    { rewrite <- Pk. apply forallb_pointwise. intros t. apply parents_ok_ext. exact Fpar. }
    { intros k _ _. discriminate. }
    rewrite Hrun2. cbn iota beta. rewrite sweep_notify_inner.
    assert (Hh2 : wmem g2 h = wmem g h).
    { rewrite (sw_frame _ _ _ _ _ _ S2) by exact Hh.
      apply Fw. intros Hin. apply Hh. apply in_map_iff in Hin.
      destruct Hin as [k [<- Hk]]. apply in_flat_map. exists k. split; [exact Hk|].
      destruct k. now left. }
    destruct (swept_remove_widget (wmem g) fuel g2 h p) as [g3 [Hrun3 S3]].
    { rewrite Hh2. exact Epp. } { exact Epp. }
    rewrite Hrun3. exists g3. split; [reflexivity|].
    rewrite (finalize_events_ext _ _ _ Hh2) in S3.
    apply swept_memory with (m' := wmem g) in S2; [|intros x _; symmetry; apply Fpar].
    assert (Hext : forall k, In k kids ->
              doomed false (wmem gf) k = doomed true (wmem g) k /\
              forall os l, sweep_events false (wmem gf) os l k
                           = sweep_events true (wmem g) os l k).
    { intros k Hk.
      assert (Hkf : guii_widget_getflag (wmem gf (wroot k)) GUI_FLAG_REMOVE = true)
        by (apply Ffl; now apply in_map).
      destruct (doomed_flagged (wmem gf) k Hkf) as [E1 E2].
      destruct (doomed_ext (wmem g) (wmem gf) k true (fun x _ => Fattr x)) as [E3 E4].
      split; [congruence|]. intros os l. rewrite E2. apply E4. }
    rewrite (flat_map_ext_in _ _ kids (fun k Hk => proj1 (Hext k Hk))) in S2.
    rewrite (flat_map_ext_in _ _ kids
               (fun k Hk => proj2 (Hext k Hk) (GUI_CFG_OS gf) (S lvl))) in S2.
    rewrite Fos in S2.
    pose proof (swept_trans _ _ _ _ _ _ _ _ _ _ Sf (swept_trans _ _ _ _ _ _ _ _ _ _ S2 S3))
      as St.
    cbn [app] in St.
    apply swept_weaken with (T' := h :: flat_map handles_of kids) in St; [exact St|].
    intros x Hx. apply in_app_or in Hx. destruct Hx as [Hx|Hx].
    * right. apply in_map_iff in Hx. destruct Hx as [k [<- Hk]].
      apply in_flat_map. exists k. split; [exact Hk|]. destruct k. now left.
    * apply in_app_or in Hx. destruct Hx as [Hx|[<-|[]]]; [now right | now left].
  + cbn iota beta.
    destruct (swept_remove_widget (wmem g) fuel g h p Epp Epp) as [g3 [Hrun3 S3]].
    rewrite Hrun3. exists g3. split; [reflexivity|]. cbn [app].
    apply swept_weaken with (T := [h]); [|exact S3].
    intros x [<-|[]]. now left.
- (* the node stays *)
  destruct (guii_widget_allowchildren (wmem g h)) eqn:Ea.
  + destruct (sweep_list_spec fuel kids IH g lvl (Some h) Nk Pk) as [g2 [Hrun2 S2]].
    { intros k _ _. discriminate. }
    rewrite Hrun2. eexists. split; [reflexivity|].
    rewrite app_nil_r. cbn [andb].
    pose proof (swept_notify (wmem g) lvl g2) as Sn.
    rewrite (sw_os _ _ _ _ _ _ S2) in Sn.
    pose proof (swept_trans _ _ _ _ _ _ _ _ _ _ S2 Sn) as St.
    rewrite !app_nil_r in St.
    apply swept_weaken with (T := flat_map handles_of kids); [|exact St].
    intros x Hx. now right.
  + exists g. split; [reflexivity|]. cbn [app andb].
    apply swept_weaken with (T := []); [intros x []|apply swept_refl].
Qed.

Lemma late_parents_incl m D : forall seen seen',
  (forall z, In z seen' -> In z seen) -> late_parents m seen D -> late_parents m seen' D.
Proof.
induction D as [|x r IH]; intros seen seen' Hsub H; simpl in *; [exact I|].
destruct H as [Hx Hr]. split.
- intros z Hz Hin. apply (Hx z Hz). destruct Hin as [E|Hin]; [now left | right; auto].
- apply (IH (x :: seen)); [|exact Hr]. intros z [<-|Hz]; [now left | right; auto].
Qed.

Lemma late_parents_app m D1 : forall D2 seen,
  late_parents m seen D1 -> late_parents m (rev D1 ++ seen) D2 ->
  late_parents m seen (D1 ++ D2).
Proof.
induction D1 as [|x r IH]; intros D2 seen H1 H2; simpl in *; [exact H2|].
destruct H1 as [Hx Hr]. split; [exact Hx|].
apply IH; [exact Hr|]. rewrite <- app_assoc in H2. exact H2.
Qed.

(** A slot that passes to the parent never ends on a finalized node. *)
Lemma redirect_avoids m D : forall seen p0,
  late_parents m seen D -> (forall y, In y seen -> p0 <> Some y) ->
  forall y, In y seen \/ In y D -> redirect m D p0 <> Some y.
Proof.
induction D as [|x r IH]; intros seen p0 Hl Hp y Hy.
- simpl. destruct Hy as [Hy|[]]. now apply Hp.
- destruct Hl as [Hx Hr]. cbn [redirect fold_left].
  apply (IH (x :: seen)); [exact Hr| |].
  + intros z Hz. destruct (ptr_eqb_spec p0 (Some x)) as [->|Hne].
    * intros E. exact (Hx z E Hz).
    * destruct Hz as [<-|Hz]; [exact Hne | now apply Hp].
  + destruct Hy as [Hy|[<-|Hy]]; [left; now right | left; now left | now right].
Qed.

Lemma drop_owner_avoids D : forall seen p0,
  (forall y, In y seen -> p0 <> Some y) ->
  forall y, In y seen \/ In y D -> drop_owner D p0 <> Some y.
Proof.
induction D as [|x r IH]; intros seen p0 Hp y Hy.
- simpl. destruct Hy as [Hy|[]]. now apply Hp.
- cbn [drop_owner fold_left]. apply (IH (x :: seen)).
  + intros z Hz. destruct (ptr_eqb_spec p0 (Some x)) as [->|Hne]; [discriminate|].
    destruct Hz as [<-|Hz]; [exact Hne | now apply Hp].
  + destruct Hy as [Hy|[<-|Hy]]; [left; now right | left; now left | now right].
Qed.

Lemma doomed_list_late m kids : Forall (late_in m) kids ->
  forall inh pp seen,
    NoDup (flat_map handles_of kids) -> forallb (parents_ok m pp) kids = true ->
    (forall z, pp = Some z -> ~ In z seen /\ ~ In z (flat_map handles_of kids)) ->
    (forall z, In z seen -> ~ In z (flat_map handles_of kids)) ->
    late_parents m seen (flat_map (doomed inh m) kids).
Proof.
intros HP. induction HP as [|k r Hk _ IH]; intros inh pp seen Hnd Hpo Hpp Hs.
- exact I.
- cbn [flat_map] in *. apply NoDup_app_iff in Hnd. destruct Hnd as (Nk & Nr & Hdis).
  cbn [forallb] in Hpo. apply andb_true_iff in Hpo. destruct Hpo as [Pk Pr].
  apply late_parents_app.
  + apply (Hk inh pp seen Nk Pk).
    * intros z Hz. destruct (Hpp z Hz) as [H1 H2]. split; [exact H1|].
      intros Hin. apply H2. apply in_or_app. now left.
    * intros z Hz Hin. apply (Hs z Hz). apply in_or_app. now left.
  + apply (IH inh pp _ Nr Pr).
    * intros z Hz. destruct (Hpp z Hz) as [H1 H2]. split.
      -- intros Hin. apply in_app_or in Hin. destruct Hin as [Hin|Hin]; [|now apply H1].
         apply H2. apply in_or_app. left. apply in_rev in Hin.
         eapply doomed_subset; eauto.
      -- intros Hin. apply H2. apply in_or_app. now right.
    * intros z Hz Hin. apply in_app_or in Hz. destruct Hz as [Hz|Hz].
      -- apply in_rev in Hz. apply doomed_subset in Hz. exact (Hdis z Hz Hin).
      -- apply (Hs z Hz). apply in_or_app. now right.
Qed.

Lemma doomed_late m t : late_in m t.
Proof.
induction t as [h kids IH] using wtree_induction.
intros inh pp seen Hnd Hpo Hpp Hs.
cbn [handles_of] in *. apply NoDup_cons_iff in Hnd. destruct Hnd as [Hh Nk].
cbn [parents_ok] in Hpo. apply andb_true_iff in Hpo. destruct Hpo as [Ph Pk].
destruct (ptr_eqb_spec (parent (m h)) pp) as [Epp|]; [|discriminate]. clear Ph.
cbn [doomed].
set (gone := inh || guii_widget_getflag (m h) GUI_FLAG_REMOVE).
set (Dk := if guii_widget_allowchildren (m h) then flat_map (doomed gone m) kids else []).
assert (Hsub : forall z, In z Dk -> In z (flat_map handles_of kids)).
{ unfold Dk. destruct (guii_widget_allowchildren (m h)); [|intros z []].
  intros z Hz. apply in_flat_map in Hz. destruct Hz as [k [Hk Hz]].
  apply in_flat_map. exists k. split; [exact Hk|]. eapply doomed_subset; eauto. }
apply late_parents_app.
- unfold Dk. destruct (guii_widget_allowchildren (m h)); [|exact I].
  apply (doomed_list_late m kids IH gone (Some h) seen Nk Pk).
  + intros z [= <-]. split; [|exact Hh]. intros Hin. apply (Hs h Hin). now left.
  + intros z Hz Hin. apply (Hs z Hz). now right.
- destruct gone; [|exact I]. simpl. split; [|exact I].
  intros z Hz. rewrite Epp in Hz. destruct (Hpp z Hz) as [H1 H2].
  intros [<-|Hin]; [apply H2; now left|].
  apply in_app_or in Hin. destruct Hin as [Hin|Hin]; [|now apply H1].
  apply H2. right. apply Hsub. now apply in_rev.
Qed.

(** Unlinking takes a node out of the lists and adds none. *)
Lemma unlink_node_unfold h x kids :
  unlink_node h (WNode x kids) = WNode x (unlink h kids).
Proof.
cbn [unlink_node]. f_equal.
induction kids as [|k r IH]; [reflexivity|]. cbn [unlink].
destruct (Nat.eqb (wroot k) h); [exact IH | now rewrite IH].
Qed.

Lemma unlink_node_handles h t :
  wroot t <> h ->
  forall y, In y (handles_of (unlink_node h t)) -> In y (handles_of t) /\ y <> h.
Proof.
induction t as [x kids IH] using wtree_induction. cbn [wroot]. intros Hx y.
rewrite unlink_node_unfold. cbn [handles_of]. intros [<-|Hy]; [split; [now left | exact Hx]|].
assert (Hl : In y (flat_map handles_of kids) /\ y <> h).
{ clear Hx. induction IH as [|k r Hk _ IHr]; [destruct Hy|].
  cbn [unlink] in Hy. cbn [flat_map].
  destruct (Nat.eqb_spec (wroot k) h) as [E|E].
  - destruct (IHr Hy) as [H1 H2]. split; [apply in_or_app; now right | exact H2].
  - cbn [flat_map] in Hy. apply in_app_or in Hy. destruct Hy as [Hy|Hy].
    + destruct (Hk E y Hy) as [H1 H2]. split; [apply in_or_app; now left | exact H2].
    + destruct (IHr Hy) as [H1 H2]. split; [apply in_or_app; now right | exact H2]. }
destruct Hl as [H1 H2]. split; [now right | exact H2].
Qed.

Lemma unlink_handles h ts : forall y,
  In y (flat_map handles_of (unlink h ts)) -> In y (flat_map handles_of ts) /\ y <> h.
Proof.
induction ts as [|k r IH]; intros y Hy; [destruct Hy|].
cbn [unlink] in Hy. cbn [flat_map].
destruct (Nat.eqb_spec (wroot k) h) as [E|E].
- destruct (IH y Hy) as [H1 H2]. split; [apply in_or_app; now right | exact H2].
- cbn [flat_map] in Hy. apply in_app_or in Hy. destruct Hy as [Hy|Hy].
  + destruct (unlink_node_handles h k E y Hy) as [H1 H2].
    split; [apply in_or_app; now left | exact H2].
  + destruct (IH y Hy) as [H1 H2]. split; [apply in_or_app; now right | exact H2].
Qed.

Lemma prune_handles D : forall ts y,
  In y (flat_map handles_of (prune D ts)) -> In y (flat_map handles_of ts) /\ ~ In y D.
Proof.
induction D as [|x r IH]; intros ts y Hy; [split; [exact Hy | intros []]|].
cbn [prune fold_left] in Hy. apply IH in Hy. destruct Hy as [H1 H2].
apply unlink_handles in H1. destruct H1 as [H1 H3].
split; [exact H1|]. intros [->|Hin]; [now apply H3 | now apply H2].
Qed.

(** The frees among the calls of the sweep are those of the doomed nodes. *)
Lemma freed_finalize_events m h : freed (finalize_events m h) = [h].
Proof.
unfold finalize_events.
destruct (text (m h)); [destruct (guii_widget_getflag (m h) GUI_FLAG_DYNAMICTEXTALLOC)|];
  destruct (timer (m h)); destruct (colors (m h)); reflexivity.
Qed.

Lemma freed_sweep_events m os t : forall inh lvl,
  freed (sweep_events inh m os lvl t) = doomed inh m t.
Proof.
induction t as [h kids IH] using wtree_induction. intros inh lvl.
cbn [sweep_events doomed]. rewrite freed_app. f_equal.
- destruct (guii_widget_allowchildren (m h)); [|reflexivity].
  generalize (if inh || guii_widget_getflag (m h) GUI_FLAG_REMOVE then S lvl else lvl).
  intros l. induction IH as [|k r Hk _ IHr]; [reflexivity|].
  cbn [flat_map]. rewrite freed_app, Hk, IHr. reflexivity.
- destruct (inh || _); [apply freed_finalize_events|].
  destruct (_ && _); reflexivity.
Qed.

(** A node that is removed goes with all its descendants. *)
Lemma doomed_inherited_all g t :
  Permutation (doomed true (wmem g) t) (descendants_or_self g t).
Proof.
induction t as [h kids IH] using wtree_induction.
cbn [doomed descendants_or_self orb].
eapply Permutation_trans; [apply Permutation_app_comm|]. cbn [app].
apply perm_skip.
destruct (guii_widget_allowchildren (wmem g h)); [|constructor].
induction IH as [|k r Hk _ IHr]; [constructor|].
cbn [flat_map]. apply Permutation_app; assumption.
Qed.

Lemma doomed_nodup m t : forall inh, NoDup (handles_of t) -> NoDup (doomed inh m t).
Proof.
induction t as [h kids IH] using wtree_induction. intros inh Hnd.
cbn [handles_of] in Hnd. apply NoDup_cons_iff in Hnd. destruct Hnd as [Hh Nk].
cbn [doomed]. set (gone := inh || guii_widget_getflag (m h) GUI_FLAG_REMOVE).
assert (Hk : NoDup (flat_map (doomed gone m) kids) /\
             forall x, In x (flat_map (doomed gone m) kids) -> In x (flat_map handles_of kids)).
{ clear Hh. generalize gone. intros b. induction IH as [|k r Hk _ IHr].
  - split; [constructor | intros x []].
  - cbn [flat_map] in *. apply NoDup_app_iff in Nk. destruct Nk as (N1 & N2 & Hdis).
    destruct (IHr N2) as [Nr Sr]. split.
    + apply NoDup_app_iff. split; [now apply Hk|]. split; [exact Nr|].
      intros x H1 H2. apply (Hdis x); [eapply doomed_subset; eauto | now apply Sr].
    + intros x Hx. apply in_app_or in Hx. apply in_or_app.
      destruct Hx as [Hx|Hx]; [left; eapply doomed_subset; eauto | right; now apply Sr]. }
destruct Hk as [Nd Sd].
apply NoDup_app_iff. split; [|split].
- destruct (guii_widget_allowchildren (m h)); [exact Nd | constructor].
- destruct gone; [|constructor]. constructor; [intros [] | constructor].
- intros x H1 H2. destruct gone; [|destruct H2]. destruct H2 as [<-|[]].
  destruct (guii_widget_allowchildren (m h)); [|destruct H1]. apply Hh. now apply Sd.
Qed.

Lemma doomed_list_nodup m inh ts :
  NoDup (flat_map handles_of ts) -> NoDup (flat_map (doomed inh m) ts).
Proof.
induction ts as [|k r IH]; intros Hnd; [constructor|].
cbn [flat_map] in *. apply NoDup_app_iff in Hnd. destruct Hnd as (N1 & N2 & Hdis).
apply NoDup_app_iff. split; [now apply doomed_nodup|]. split; [now apply IH|].
intros x H1 H2. apply (Hdis x); [eapply doomed_subset; eauto|].
apply in_flat_map in H2. destruct H2 as [t [Ht Hx]].
apply in_flat_map. exists t. split; [exact Ht | eapply doomed_subset; eauto].
Qed.

(** Every doomed node is finalized: its calls are made one after the other. *)
Lemma finalized_in_sweep m os t : forall inh lvl x,
  In x (doomed inh m t) ->
  exists pre post, sweep_events inh m os lvl t = pre ++ finalize_events m x ++ post.
Proof.
induction t as [h kids IH] using wtree_induction. intros inh lvl x.
cbn [doomed sweep_events].
set (gone := inh || guii_widget_getflag (m h) GUI_FLAG_REMOVE).
intros Hx. apply in_app_or in Hx. destruct Hx as [Hx|Hx].
- destruct (guii_widget_allowchildren (m h)); [|destruct Hx].
  assert (Hk : exists pre post,
            flat_map (sweep_events gone m os (if gone then S lvl else lvl)) kids
            = pre ++ finalize_events m x ++ post).
  { generalize (if gone then S lvl else lvl). intros l.
    induction IH as [|k r Hk _ IHr]; [destruct Hx|].
    cbn [flat_map] in *. apply in_app_or in Hx. destruct Hx as [Hx|Hx].
    - destruct (Hk gone l x Hx) as [pre [post E]]. rewrite E.
      exists pre, (post ++ flat_map (sweep_events gone m os l) r).
      now rewrite <- !app_assoc.
    - destruct (IHr Hx) as [pre [post E]]. rewrite E.
      exists (sweep_events gone m os l k ++ pre), post. now rewrite <- !app_assoc. }
  destruct Hk as [pre [post E]]. rewrite E.
  eexists pre, (post ++ _). rewrite <- !app_assoc. reflexivity.
- destruct gone; [|destruct Hx]. destruct Hx as [<-|[]].
  eexists _, []. rewrite app_nil_r. reflexivity.
Qed.

Lemma find_subtree_unfold h x kids :
  find_subtree h (WNode x kids) = if Nat.eqb x h then Some (WNode x kids) else find_in h kids.
Proof.
cbn [find_subtree]. destruct (Nat.eqb x h); [reflexivity|].
induction kids as [|k r IH]; [reflexivity|]. cbn [find_in].
destruct (find_subtree h k); [reflexivity | exact IH].
Qed.

Lemma find_subtree_none h t : find_subtree h t = None -> ~ In h (handles_of t).
Proof.
induction t as [x kids IH] using wtree_induction. rewrite find_subtree_unfold.
destruct (Nat.eqb_spec x h) as [E|E]; [discriminate|]. intros Hf.
cbn [handles_of]. intros [Hx|Hin]; [contradiction|].
induction IH as [|k r Hk _ IHr]; [destruct Hin|].
cbn [find_in] in Hf. destruct (find_subtree h k) eqn:Ek; [discriminate|].
cbn [flat_map] in Hin. apply in_app_or in Hin. destruct Hin as [Hin|Hin].
- now apply Hk.
- now apply IHr.
Qed.

Lemma find_subtree_some h t s : find_subtree h t = Some s -> In h (handles_of t).
Proof.
intros Hf. destruct (in_dec Nat.eq_dec h (handles_of t)) as [Hin|Hnin]; [exact Hin|].
exfalso. revert s Hf Hnin.
induction t as [x kids IH] using wtree_induction. intros s. rewrite find_subtree_unfold.
cbn [handles_of].
destruct (Nat.eqb_spec x h) as [E|E]; [intros _ Hn; apply Hn; now left|].
intros Hf Hn.
assert (Hn' : ~ In h (flat_map handles_of kids)) by (intros Hin; apply Hn; now right).
clear Hn. induction IH as [|k r Hk _ IHr]; [discriminate|].
cbn [find_in] in Hf. cbn [flat_map] in Hn'.
destruct (find_subtree h k) as [s'|] eqn:Ek.
- apply (Hk s' eq_refl). intros Hin. apply Hn'. apply in_or_app. now left.
- apply IHr; [exact Hf|]. intros Hin. apply Hn'. apply in_or_app. now right.
Qed.

Lemma doomed_none m t :
  (forall x, In x (handles_of t) -> guii_widget_getflag (m x) GUI_FLAG_REMOVE = false) ->
  doomed false m t = [].
Proof.
induction t as [h kids IH] using wtree_induction. intros Hno.
cbn [doomed]. rewrite (Hno h) by now left. cbn [orb]. rewrite app_nil_r.
destruct (guii_widget_allowchildren (m h)); [|reflexivity].
assert (Hk : forall x, In x (flat_map handles_of kids) ->
                       guii_widget_getflag (m x) GUI_FLAG_REMOVE = false)
  by (intros x Hx; apply Hno; now right).
clear Hno. induction IH as [|k r Hk' _ IHr]; [reflexivity|].
cbn [flat_map] in *. rewrite Hk', IHr; [reflexivity| |];
  intros x Hx; apply Hk; apply in_or_app; auto.
Qed.

Lemma doomed_list_none m ts :
  (forall x, In x (flat_map handles_of ts) ->
             guii_widget_getflag (m x) GUI_FLAG_REMOVE = false) ->
  flat_map (doomed false m) ts = [].
Proof.
induction ts as [|t r IH]; intros Hno; [reflexivity|]. cbn [flat_map] in *.
rewrite doomed_none, IH; [reflexivity| |]; intros x Hx; apply Hno; apply in_or_app; auto.
Qed.

Lemma doomed_list_single m h ts :
  Forall (fun t =>
    NoDup (handles_of t) -> containers_ok m t = true ->
    (forall x, In x (handles_of t) ->
       guii_widget_getflag (m x) GUI_FLAG_REMOVE = true -> x = h) ->
    guii_widget_getflag (m h) GUI_FLAG_REMOVE = true ->
    doomed false m t = match find_subtree h t with
                       | Some s => doomed true m s
                       | None => []
                       end) ts ->
  NoDup (flat_map handles_of ts) -> forallb (containers_ok m) ts = true ->
  (forall x, In x (flat_map handles_of ts) ->
     guii_widget_getflag (m x) GUI_FLAG_REMOVE = true -> x = h) ->
  guii_widget_getflag (m h) GUI_FLAG_REMOVE = true ->
  flat_map (doomed false m) ts = match find_in h ts with
                                 | Some s => doomed true m s
                                 | None => []
                                 end.
Proof.
intros HP. induction HP as [|k r Hk _ IHr]; intros Hnd Hc Hone Hh; [reflexivity|].
cbn [flat_map find_in forallb] in *.
apply NoDup_app_iff in Hnd. destruct Hnd as (N1 & N2 & Hdis).
apply andb_true_iff in Hc. destruct Hc as [C1 C2].
rewrite (Hk N1 C1) by (auto using in_or_app).
destruct (find_subtree h k) as [s|] eqn:Ek.
- apply find_subtree_some in Ek.
  assert (Hr : flat_map (doomed false m) r = []).
  { apply doomed_list_none. intros x Hx.
    destruct (guii_widget_getflag (m x) GUI_FLAG_REMOVE) eqn:Ef; [|reflexivity].
    exfalso. assert (x = h) by (apply Hone; [apply in_or_app; now right | exact Ef]).
    subst x. exact (Hdis h Ek Hx). }
  rewrite Hr. apply app_nil_r.
- cbn [app]. apply IHr; auto. intros x Hx. apply Hone. apply in_or_app. now right.
Qed.

Lemma doomed_single m h t :
  NoDup (handles_of t) -> containers_ok m t = true ->
  (forall x, In x (handles_of t) ->
     guii_widget_getflag (m x) GUI_FLAG_REMOVE = true -> x = h) ->
  guii_widget_getflag (m h) GUI_FLAG_REMOVE = true ->
  doomed false m t = match find_subtree h t with
                     | Some s => doomed true m s
                     | None => []
                     end.
Proof.
induction t as [x kids IH] using wtree_induction. intros Hnd Hc Hone Hh.
rewrite find_subtree_unfold.
destruct (Nat.eqb_spec x h) as [->|E].
- apply (doomed_flagged m (WNode h kids)). exact Hh.
- cbn [handles_of] in *. apply NoDup_cons_iff in Hnd. destruct Hnd as [_ Nk].
  cbn [containers_ok] in Hc. apply andb_true_iff in Hc. destruct Hc as [Ca Ck].
  assert (Ex : guii_widget_getflag (m x) GUI_FLAG_REMOVE = false).
  { destruct (guii_widget_getflag (m x) GUI_FLAG_REMOVE) eqn:Ef; [|reflexivity].
    exfalso. apply E. apply Hone; [now left | exact Ef]. }
  cbn [doomed]. rewrite Ex. cbn [orb]. rewrite app_nil_r.
  destruct (guii_widget_allowchildren (m x)).
  + apply (doomed_list_single m h kids IH Nk Ck); [|exact Hh].
    intros y Hy. apply Hone. now right.
  + destruct kids; [reflexivity | discriminate].
Qed.

(** C5 (the removal sweep).  On well-formed lists with the global remove
    flag set, gui_widget_executeremove returns 1.  It frees the doomed
    nodes, every node flagged for removal and every node below one in
    the lists, each of them once and children before their parent.  Each
    such node is finalized by the calls of [finalize_events]: it and its
    parent are invalidated, its dynamic text, its timer and its colors
    are released, it is unlinked and it is freed; a slot that holds it
    passes to its parent (focus, previous active, active window) or is
    cleared (previous focus, active).  Afterwards no freed
    node is in a list and none is referenced by the focus, previous
    focus, active, previous active or active window slot, and the global
    remove flag is clear.  When one container alone is flagged, the
    nodes freed are that container and its descendants: one more than
    it has descendants. *)
Theorem sweep_correct (fuel : nat) (g : gui_t) :
  sweep_ready g -> flag_test (GUI_Flags g) GUI_FLAG_REMOVE = true ->
  exists g',
    gui_widget_executeremove fuel g = Some (g', 1%Z) /\
    freed (trace g') = freed (trace g) ++ flat_map (doomed false (wmem g)) (tree g) /\
    NoDup (flat_map (doomed false (wmem g)) (tree g)) /\
    (tree g' = prune (flat_map (doomed false (wmem g)) (tree g)) (tree g) /\
     FocusedWidget g' =
       redirect (wmem g) (flat_map (doomed false (wmem g)) (tree g)) (FocusedWidget g) /\
     FocusedWidgetPrev g' =
       drop_owner (flat_map (doomed false (wmem g)) (tree g)) (FocusedWidgetPrev g) /\
     ActiveWidget g' =
       drop_owner (flat_map (doomed false (wmem g)) (tree g)) (ActiveWidget g) /\
     ActiveWidgetPrev g' =
       redirect (wmem g) (flat_map (doomed false (wmem g)) (tree g)) (ActiveWidgetPrev g) /\
     WindowActive g' =
       redirect (wmem g) (flat_map (doomed false (wmem g)) (tree g)) (WindowActive g)) /\
    (forall x, In x (flat_map (doomed false (wmem g)) (tree g)) ->
       (exists pre post, trace g' = pre ++ finalize_events (wmem g) x ++ post) /\
       ~ In x (flat_map handles_of (tree g')) /\
       FocusedWidget g' <> Some x /\ FocusedWidgetPrev g' <> Some x /\
       ActiveWidget g' <> Some x /\ ActiveWidgetPrev g' <> Some x /\
       WindowActive g' <> Some x) /\
    flag_test (GUI_Flags g') GUI_FLAG_REMOVE = false /\
    (forall h,
       only_flagged g h -> forallb (containers_ok (wmem g)) (tree g) = true ->
       Permutation (flat_map (doomed false (wmem g)) (tree g))
         (descendants_or_self g (subtree_at g h)) /\
       length (freed (trace g')) =
         length (freed (trace g)) + S (length (tl (descendants_or_self g (subtree_at g h))))).
Proof.
intros (Hnd & Hpo & Hroot) Hfl.
unfold gui_widget_executeremove. rewrite Hfl. unfold remove_widgets.
set (D := flat_map (doomed false (wmem g)) (tree g)).
destruct (sweep_list_spec fuel (tree g)
            (proj2 (Forall_forall _ _) (fun t _ => sweep_node_spec fuel t))
            g 0 None Hnd Hpo) as [g1 [Hrun S1]].
{ intros k Hk Hf. rewrite forallb_forall in Hroot. specialize (Hroot k Hk).
  rewrite Hf in Hroot. discriminate. }
rewrite Hrun. cbn iota beta.
pose proof (swept_notify (wmem g) 0 g1) as Sn.
pose proof (swept_trans _ _ _ _ _ _ _ _ _ _ S1 Sn) as S2.
rewrite !app_nil_r in S2. fold D in S2.
set (g2 := sweep_notify 0 g1) in *.
set (E := flat_map (sweep_events false (wmem g) (GUI_CFG_OS g) 0) (tree g)) in *.
eexists. split; [reflexivity|].
assert (Hfreed : freed E = D).
{ unfold E, D. clear. induction (tree g) as [|t r IH]; [reflexivity|].
  cbn [flat_map]. now rewrite freed_app, freed_sweep_events, IH. }
assert (Htrace : freed (trace g2) = freed (trace g) ++ D).
{ rewrite (sw_trace _ _ _ _ _ _ S2), !freed_app, Hfreed.
  destruct (GUI_CFG_OS g1 && Nat.eqb 0 0); simpl; now rewrite app_nil_r. }
assert (Hlate : late_parents (wmem g) [] D).
{ apply (doomed_list_late (wmem g) (tree g)
           (proj2 (Forall_forall _ _) (fun t _ => doomed_late (wmem g) t))
           false None [] Hnd Hpo).
  - intros z [=].
  - intros z []. }
cbn [trace set_GUI_Flags tree FocusedWidget FocusedWidgetPrev ActiveWidget
     ActiveWidgetPrev WindowActive GUI_Flags].
split; [exact Htrace|].
split; [apply doomed_list_nodup; exact Hnd|].
split.
{ split; [apply (sw_tree _ _ _ _ _ _ S2)|]. split; [apply (sw_focused _ _ _ _ _ _ S2)|].
  split; [apply (sw_focused_prev _ _ _ _ _ _ S2)|]. split; [apply (sw_active _ _ _ _ _ _ S2)|].
  split; [apply (sw_active_prev _ _ _ _ _ _ S2) | apply (sw_window _ _ _ _ _ _ S2)]. }
split; [|split].
- intros x Hx. split; [|split; [|split; [|split; [|split; [|split]]]]].
  + unfold D in Hx. apply in_flat_map in Hx. destruct Hx as [t [Ht Hx]].
    destruct (finalized_in_sweep (wmem g) (GUI_CFG_OS g) t false 0 x Hx) as [pre [post Ee]].
    apply in_split in Ht. destruct Ht as [l1 [l2 Hts]].
    rewrite (sw_trace _ _ _ _ _ _ S2). unfold E. rewrite Hts, flat_map_app.
    cbn [flat_map]. rewrite Ee.
    exists (trace g ++ flat_map (sweep_events false (wmem g) (GUI_CFG_OS g) 0) l1 ++ pre).
    exists (post ++ flat_map (sweep_events false (wmem g) (GUI_CFG_OS g) 0) l2
              ++ (if GUI_CFG_OS g1 && Nat.eqb 0 0
                  then [EvMbox GUI_SYS_MBOX_TYPE_REMOVE] else [])).
    rewrite <- !app_assoc. reflexivity.
  + rewrite (sw_tree _ _ _ _ _ _ S2). intros Hin. apply prune_handles in Hin. tauto.
  + rewrite (sw_focused _ _ _ _ _ _ S2).
    apply (redirect_avoids _ _ [] _ Hlate); [intros y []|now right].
  + rewrite (sw_focused_prev _ _ _ _ _ _ S2).
    apply (drop_owner_avoids _ []); [intros y []|now right].
  + rewrite (sw_active _ _ _ _ _ _ S2).
    apply (drop_owner_avoids _ []); [intros y []|now right].
  + rewrite (sw_active_prev _ _ _ _ _ _ S2).
    apply (redirect_avoids _ _ [] _ Hlate); [intros y []|now right].
  + rewrite (sw_window _ _ _ _ _ _ S2).
    apply (redirect_avoids _ _ [] _ Hlate); [intros y []|now right].
- apply flag_test_clr_same. reflexivity.
- intros h [Hin Honly] Hc.
  assert (HD : D = doomed true (wmem g) (subtree_at g h)).
  { unfold D. rewrite (doomed_list_single (wmem g) h (tree g)); [| |exact Hnd|exact Hc| |].
    - unfold subtree_at. destruct (find_in h (tree g)) as [s|] eqn:Ef; [reflexivity|].
      exfalso. clear - Hin Ef. induction (tree g) as [|t r IH]; [destruct Hin|].
      cbn [find_in flat_map] in *. destruct (find_subtree h t) eqn:Et; [discriminate|].
      apply in_app_or in Hin. destruct Hin as [Hin|Hin]; [|now apply IH].
      now apply find_subtree_none in Et.
    - apply Forall_forall. intros t _. apply doomed_single.
    - intros x Hx Hf. now apply Honly.
    - now apply Honly. }
  assert (HP := doomed_inherited_all g (subtree_at g h)).
  split; [rewrite HD; exact HP|].
  rewrite Htrace, length_app. f_equal. rewrite HD, (Permutation_length HP).
  destruct (subtree_at g h). reflexivity.
Qed.

Lemma sweep_correct_witness :
  sweep_ready flagged_gui /\
  flag_test (GUI_Flags flagged_gui) GUI_FLAG_REMOVE = true /\
  exists g',
    gui_widget_executeremove 5 flagged_gui = Some (g', 1%Z) /\
    freed (trace g') = [4; 3; 2] /\
    FocusedWidget g' <> Some 2.
Proof.
assert (Hready : sweep_ready flagged_gui).
{ split; [|split; reflexivity].
  change (NoDup [1; 5; 2; 3; 4]).
  repeat constructor; simpl; intuition discriminate. }
split; [exact Hready|]. split; [reflexivity|].
destruct (sweep_correct 5 flagged_gui Hready eq_refl)
  as [g' (Hrun & Hfreed & _ & _ & Hall & _)].
exists g'. split; [exact Hrun|]. split; [rewrite Hfreed; reflexivity|].
apply (Hall 2). vm_compute. tauto.
Defined.

(** The sweep on the example: window 2 goes with window 3 and control 4,
    three nodes for a container with two descendants; the focus, which
    guii_widget_remove had moved to the desktop, stays there. *)
Example sweep_example :
  option_map (fun r => (snd r, freed (trace (fst r)), tree (fst r),
                        FocusedWidget (fst r), FocusedWidgetPrev (fst r),
                        flag_test (GUI_Flags (fst r)) GUI_FLAG_REMOVE))
    (gui_widget_executeremove 5 flagged_gui) =
  Some (1%Z, [4; 3; 2], [WNode 1 [WNode 5 []]], Some 1, None, false).
Proof. reflexivity. Qed.

(** ** The generic list as a sequence *)

Lemma headp_hd_error l : headp l None = hd_error l.
Proof. destruct l; reflexivity. Qed.

Lemma lastp_hd_error_rev l : forall pp,
  lastp pp l = match hd_error (rev l) with Some z => Some z | None => pp end.
Proof.
induction l as [|x r IH]; intros pp; [reflexivity|].
simpl. rewrite IH. destruct (rev r) as [|z t]; reflexivity.
Qed.

Lemma lastp_None_hd_error_rev l : lastp None l = hd_error (rev l).
Proof. rewrite lastp_hd_error_rev. destruct (hd_error (rev l)); reflexivity. Qed.

Ltac seq_norm :=
  repeat (rewrite ?lk_set_prev, ?lk_set_next, ?lk_set_first, ?lk_set_last).

Ltac seq_eqb :=
  repeat match goal with
         | |- context [Nat.eqb ?a ?b] => destruct (Nat.eqb_spec a b); try subst
         end.

Ltac seq_root :=
  repeat match goal with
         | |- context [if ?c then set_first ?a ?b else ?d] => destruct c
         | |- context [if ?c then set_last ?a ?b else ?d] => destruct c
         end.

Section GenericSequence.
Context {A : Type} `{Linked A}.

Lemma linkedlist_eta (c : gui_linkedlist_t) : mk_linkedlist (prev c) (next c) = c.
Proof. destruct c; reflexivity. Qed.

Lemma mem_set_prev (s : lstate A) x v y :
  mem (set_prev x v s) y =
  if Nat.eqb y x then set_list (mk_linkedlist v (next (lk s x))) (mem s x) else mem s y.
Proof. unfold set_prev, lk; simpl. unfold upd. destruct (Nat.eqb_spec y x); subst; reflexivity. Qed.

Lemma mem_set_next (s : lstate A) x v y :
  mem (set_next x v s) y =
  if Nat.eqb y x then set_list (mk_linkedlist (prev (lk s x)) v) (mem s x) else mem s y.
Proof. unfold set_next, lk; simpl. unfold upd. destruct (Nat.eqb_spec y x); subst; reflexivity. Qed.

(** Two states that hold the same segment agree on its link cells. *)
Lemma dseg_unique (s s' : lstate A) xs : forall pp p q q' qn,
  dseg s pp p xs q qn -> dseg s' pp p xs q' qn ->
  q = q' /\ forall x, In x xs -> lk s' x = lk s x.
Proof.
induction xs as [|x tl IH]; intros pp p q q' qn D D'.
- simpl in *. destruct D as [_ ->], D' as [_ ->]. split; [reflexivity | intros x []].
- simpl in D, D'. destruct D as (_ & Hp & D), D' as (_ & Hp' & D').
  destruct (dseg_ends _ _ _ _ _ _ D) as [Hn _].
  destruct (dseg_ends _ _ _ _ _ _ D') as [Hn' _].
  rewrite Hn' in D'. rewrite Hn in D.
  destruct (IH _ _ _ _ _ D D') as [Hq Hx]. split; [exact Hq|].
  intros y [<-|Hy]; [|auto].
  rewrite <- (linkedlist_eta (lk s' x)), <- (linkedlist_eta (lk s x)). congruence.
Qed.

(** The sequence a list holds determines its root and the link cell of
    every member. *)
Lemma dll_unique (s s' : lstate A) l :
  dll s l -> dll s' l ->
  root s' = root s /\ forall x, In x l -> lk s' x = lk s x.
Proof.
intros [_ D] [_ D'].
destruct (dseg_ends _ _ _ _ _ _ D) as [Hf Hl].
destruct (dseg_ends _ _ _ _ _ _ D') as [Hf' Hl'].
rewrite Hf in D. rewrite Hf' in D'.
destruct (dseg_unique _ _ _ _ _ _ _ _ D D') as [Hq Hx]. split; [|exact Hx].
destruct (root s) as [f z], (root s') as [f' z']. simpl in *. congruence.
Qed.

Lemma byindex_loop_spec (s : lstate A) xs : forall index pp p q,
  dseg s pp p xs q None -> byindex_loop s index p = nth_error xs index.
Proof.
induction xs as [|x tl IH]; intros index pp p q D.
- simpl in D. destruct D as [-> _]. destruct index; reflexivity.
- simpl in D. destruct D as (-> & _ & D). destruct index as [|k]; [reflexivity|].
  simpl. eapply IH; eauto.
Qed.

(** gui_linkedlist_getnext_byindex_gen returns the element at position
    [index], counted from 0 at the first element, and NULL when the list
    has no such position; in particular NULL on the empty list. *)
Theorem getnext_byindex_nth (s : lstate A) (l : list handle) (index : nat) :
  dll s l -> gui_linkedlist_getnext_byindex_gen s index = nth_error l index.
Proof.
intros [_ D]. unfold gui_linkedlist_getnext_byindex_gen. simpl.
eapply byindex_loop_spec; eauto.
Qed.

(** For a member of the list gui_linkedlist_getnext_gen returns its
    successor and gui_linkedlist_getprev_gen its predecessor; at the last
    and at the first element they return NULL, also when a root is
    given: the walk never wraps around.  Without an element and with a
    root they return the first and the last element. *)
Theorem getnext_getprev_neighbours (s : lstate A) (l1 l2 : list handle) (x : handle)
    (with_root : bool) :
  dll s (l1 ++ x :: l2) ->
  gui_linkedlist_getnext_gen s with_root (Some x) = hd_error l2 /\
  gui_linkedlist_getprev_gen s with_root (Some x) = hd_error (rev l1) /\
  gui_linkedlist_getnext_gen s true None = hd_error (l1 ++ x :: l2) /\
  gui_linkedlist_getprev_gen s true None = hd_error (rev (l1 ++ x :: l2)).
Proof.
intros Hd. destruct (dll_split _ _ _ _ Hd) as (_ & _ & _ & _ & _ & S1 & S2).
destruct (dseg_ends _ _ _ _ _ _ S1) as [_ Hp].
destruct (dseg_ends _ _ _ _ _ _ S2) as [Hn _].
destruct Hd as [_ D]. destruct (dseg_ends _ _ _ _ _ _ D) as [Hf Hl].
simpl. rewrite Hn, Hp, Hf, Hl.
rewrite !headp_hd_error, !lastp_None_hd_error_rev. auto.
Qed.

(** gui_linkedlist_add_gen puts a node that is not in the list behind
    the last element, keeps the order of the others and writes nothing
    but link cells. *)
Theorem add_gen_appends (s : lstate A) (l : list handle) (e : handle) :
  dll s l -> ~ In e l ->
  dll (gui_linkedlist_add_gen s e) (l ++ [e]) /\
  links_only s (gui_linkedlist_add_gen s e).
Proof.
intros Hd He. split; [apply add_gen_dll; assumption | apply add_gen_links_only].
Qed.

(** gui_linkedlist_remove_gen takes a member out of the list, keeps the
    order of the others, clears both pointers of the removed node,
    returns it, and writes nothing but link cells.  Called with NULL it
    returns NULL and changes nothing. *)
Theorem remove_gen_removes (s : lstate A) (l1 l2 : list handle) (e : handle) :
  dll s (l1 ++ e :: l2) ->
  dll (fst (gui_linkedlist_remove_gen s (Some e))) (l1 ++ l2) /\
  snd (gui_linkedlist_remove_gen s (Some e)) = Some e /\
  lk (fst (gui_linkedlist_remove_gen s (Some e))) e = mk_linkedlist None None /\
  links_only s (fst (gui_linkedlist_remove_gen s (Some e))) /\
  gui_linkedlist_remove_gen s None = (s, None).
Proof.
intros Hd. destruct (remove_gen_dll _ _ _ _ Hd) as [H1 H2].
repeat split; try assumption; try apply H1. apply remove_gen_links_only.
Qed.

(** gui_linkedlist_movedown_gen swaps a member with its successor and
    returns 1; on the last element, and on NULL, it returns 0 and
    changes nothing. *)
Theorem movedown_gen_moves (s : lstate A) (l1 l2 : list handle) (e : handle) :
  dll s (l1 ++ e :: l2) ->
  match l2 with
  | [] => gui_linkedlist_movedown_gen s (Some e) = (s, 0%Z)
  | n :: l2' =>
      snd (gui_linkedlist_movedown_gen s (Some e)) = 1%Z /\
      dll (fst (gui_linkedlist_movedown_gen s (Some e))) (l1 ++ n :: e :: l2') /\
      links_only s (fst (gui_linkedlist_movedown_gen s (Some e)))
  end /\
  gui_linkedlist_movedown_gen s None = (s, 0%Z).
Proof.
intros Hd. split; [|reflexivity]. destruct l2 as [|n l2'].
- eapply movedown_gen_last; eauto.
- destruct (movedown_gen_swap _ _ _ _ _ Hd) as [H1 H2].
  repeat split; try assumption; try apply H2. apply movedown_gen_links_only.
Qed.

(** gui_linkedlist_moveup_gen swaps a member with its predecessor and
    returns 1; on the first element, and on NULL, it returns 0 and
    changes nothing. *)
Theorem moveup_gen_moves (s : lstate A) (l1 l2 : list handle) (e : handle) :
  dll s (l1 ++ e :: l2) ->
  match rev l1 with
  | [] => gui_linkedlist_moveup_gen s (Some e) = (s, 0%Z)
  | p :: r =>
      snd (gui_linkedlist_moveup_gen s (Some e)) = 1%Z /\
      dll (fst (gui_linkedlist_moveup_gen s (Some e))) (rev r ++ e :: p :: l2) /\
      links_only s (fst (gui_linkedlist_moveup_gen s (Some e)))
  end /\
  gui_linkedlist_moveup_gen s None = (s, 0%Z).
Proof.
intros Hd. split; [|reflexivity].
destruct (rev l1) as [|p r] eqn:Er.
- assert (l1 = []) by (rewrite <- (rev_involutive l1), Er; reflexivity). subst l1.
  eapply moveup_gen_first; eauto.
- assert (El : l1 = rev r ++ [p]) by (rewrite <- (rev_involutive l1), Er; reflexivity).
  subst l1. rewrite <- app_assoc in Hd. simpl in Hd.
  destruct (moveup_gen_swap _ _ _ _ _ Hd) as [H1 H2].
  repeat split; try assumption; try apply H2. apply moveup_gen_links_only.
Qed.

(** Outside the cells it relinks a move leaves every link cell alone. *)
Lemma movedown_gen_frame (s : lstate A) e x :
  x <> e -> prev (lk s e) <> Some x -> next (lk s e) <> Some x ->
  (forall n, next (lk s e) = Some n -> next (lk s n) <> Some x) ->
  lk (fst (gui_linkedlist_movedown_gen s (Some e))) x = lk s x.
Proof.
intros Hx Hp Hn Hnn. unfold gui_linkedlist_movedown_gen.
destruct (ptr_eqb (Some e) (last (root s))); [reflexivity|].
destruct (prev (lk s e)) as [p|] eqn:Ep, (next (lk s e)) as [n|] eqn:En; cbv zeta;
  try (specialize (Hnn n eq_refl); destruct (next (lk s n)) as [nn|] eqn:Enn);
  simpl fst; seq_root; seq_norm; seq_eqb; simpl; congruence.
Qed.

Lemma moveup_gen_frame (s : lstate A) e x :
  x <> e -> prev (lk s e) <> Some x -> next (lk s e) <> Some x ->
  (forall p, prev (lk s e) = Some p -> prev (lk s p) <> Some x) ->
  lk (fst (gui_linkedlist_moveup_gen s (Some e))) x = lk s x.
Proof.
intros Hx Hp Hn Hpp. unfold gui_linkedlist_moveup_gen.
destruct (ptr_eqb (Some e) (first (root s))); [reflexivity|].
destruct (prev (lk s e)) as [p|] eqn:Ep, (next (lk s e)) as [n|] eqn:En; cbv zeta;
  try (specialize (Hpp p eq_refl); destruct (prev (lk s p)) as [pp|] eqn:Epp);
  simpl fst; seq_root; seq_norm; seq_eqb; simpl; congruence.
Qed.

End GenericSequence.
Section GenericRoundTrips.
Context {A : Type} `{Linked A}.

Lemma add_gen_frame (s : lstate A) e x :
  x <> e -> last (root s) <> Some x -> lk (gui_linkedlist_add_gen s e) x = lk s x.
Proof.
intros Hx Hl. unfold gui_linkedlist_add_gen.
destruct (first (root s)) as [f|], (last (root s)) as [z|];
  seq_norm; seq_eqb; simpl; congruence.
Qed.

Lemma remove_gen_frame (s : lstate A) e x :
  x <> e -> prev (lk s e) <> Some x -> next (lk s e) <> Some x ->
  lk (fst (gui_linkedlist_remove_gen s (Some e))) x = lk s x.
Proof.
intros Hx Hp Hn. unfold gui_linkedlist_remove_gen.
destruct (prev (lk s e)) as [p|] eqn:Ep, (next (lk s e)) as [n|] eqn:En; cbv zeta;
  simpl fst; seq_root; seq_norm; seq_eqb; simpl; congruence.
Qed.

Lemma dll_neighbours (s : lstate A) l1 e l2 :
  dll s (l1 ++ e :: l2) ->
  prev (lk s e) = hd_error (rev l1) /\ next (lk s e) = hd_error l2 /\
  first (root s) = hd_error (l1 ++ e :: l2) /\
  last (root s) = hd_error (rev (l1 ++ e :: l2)).
Proof.
intros Hd. destruct (dll_split _ _ _ _ Hd) as (_ & _ & _ & _ & _ & S1 & S2).
destruct (dseg_ends _ _ _ _ _ _ S1) as [_ Hp].
destruct (dseg_ends _ _ _ _ _ _ S2) as [Hn _].
destruct Hd as [_ D]. destruct (dseg_ends _ _ _ _ _ _ D) as [Hf Hl].
rewrite Hn, Hp, Hf, Hl, !headp_hd_error, !lastp_None_hd_error_rev. auto.
Qed.

Lemma hd_error_in {T : Type} (l : list T) x : hd_error l = Some x -> In x l.
Proof. destruct l; simpl; [discriminate | intros [= ->]; auto]. Qed.

Lemma hd_error_rev_in {T : Type} (l : list T) x : hd_error (rev l) = Some x -> In x l.
Proof. intros Hx. apply in_rev. apply hd_error_in. exact Hx. Qed.

(** A state that holds the same sequence as before, whose other link
    cells are as before and in which only link cells were written, is
    the state before. *)
Lemma dll_restored (s s' : lstate A) l :
  links_only s s' -> dll s l -> dll s' l ->
  (forall x, ~ In x l -> lk s' x = lk s x) ->
  root s' = root s /\ forall x, mem s' x = mem s x.
Proof.
intros Hlo Hd Hd' Hout. destruct (dll_unique _ _ _ Hd Hd') as [Hr Hin].
split; [exact Hr|]. intros x. rewrite (Hlo x).
assert (E : lk s' x = lk s x).
{ destruct (in_dec Nat.eq_dec x l); auto. }
rewrite E. apply set_list_list_of.
Qed.

(** Adding a node that is not in the list and removing it again gives
    back the list: the root and every other node are as before, and the
    node itself is left with both pointers NULL. *)
Theorem add_remove_round_trip (s : lstate A) (l : list handle) (e : handle) :
  dll s l -> ~ In e l ->
  root (fst (gui_linkedlist_remove_gen (gui_linkedlist_add_gen s e) (Some e))) = root s /\
  (forall x, x <> e ->
     mem (fst (gui_linkedlist_remove_gen (gui_linkedlist_add_gen s e) (Some e))) x = mem s x) /\
  mem (fst (gui_linkedlist_remove_gen (gui_linkedlist_add_gen s e) (Some e))) e
    = set_list (mk_linkedlist None None) (mem s e).
Proof.
intros Hd He.
assert (Hd1 := add_gen_dll _ _ _ Hd He).
destruct (remove_gen_dll _ _ _ _ Hd1) as [Hd2 Hc]. rewrite app_nil_r in Hd2.
destruct (dll_neighbours _ _ _ _ Hd1) as (Hp & Hn & _ & _). simpl in Hn.
set (s1 := gui_linkedlist_add_gen s e) in *.
set (s2 := fst (gui_linkedlist_remove_gen s1 (Some e))) in *.
assert (Hlo : links_only s s2).
{ eapply links_only_trans; [apply add_gen_links_only | apply remove_gen_links_only]. }
destruct (dll_unique _ _ _ Hd Hd2) as [Hr Hin].
split; [exact Hr|]. split.
- intros x Hx. rewrite (Hlo x).
  assert (E : lk s2 x = lk s x).
  { destruct (in_dec Nat.eq_dec x l) as [i|o]; [auto|].
    unfold s2. rewrite remove_gen_frame.
    - apply add_gen_frame; [exact Hx|].
      destruct Hd as [_ D]. destruct (dseg_ends _ _ _ _ _ _ D) as [_ Hl].
      rewrite Hl. intros E. apply o. apply lastp_None_in. exact E.
    - exact Hx.
    - rewrite Hp. intros E. apply o. apply hd_error_rev_in. exact E.
    - rewrite Hn. discriminate. }
  rewrite E. apply set_list_list_of.
- rewrite (Hlo e), Hc. reflexivity.
Qed.

(** Moving a member down and up again gives back the state before: both
    calls return 1, and the root and the whole memory are as they were. *)
Theorem movedown_moveup_round_trip (s : lstate A) (l1 l2 : list handle) (e n : handle) :
  dll s (l1 ++ e :: n :: l2) ->
  snd (gui_linkedlist_movedown_gen s (Some e)) = 1%Z /\
  snd (gui_linkedlist_moveup_gen (fst (gui_linkedlist_movedown_gen s (Some e))) (Some e)) = 1%Z /\
  root (fst (gui_linkedlist_moveup_gen (fst (gui_linkedlist_movedown_gen s (Some e))) (Some e)))
    = root s /\
  forall x,
    mem (fst (gui_linkedlist_moveup_gen (fst (gui_linkedlist_movedown_gen s (Some e))) (Some e))) x
    = mem s x.
Proof.
intros Hd.
destruct (movedown_gen_swap _ _ _ _ _ Hd) as [R1 Hd1].
destruct (moveup_gen_swap _ _ _ _ _ Hd1) as [R2 Hd2].
split; [exact R1|]. split; [exact R2|].
set (s1 := fst (gui_linkedlist_movedown_gen s (Some e))) in *.
set (s2 := fst (gui_linkedlist_moveup_gen s1 (Some e))) in *.
destruct (dll_neighbours _ _ _ _ Hd) as (Hp & Hn & _ & _). simpl in Hn.
assert (Hnn : next (lk s n) = hd_error l2).
{ change (l1 ++ e :: n :: l2) with (l1 ++ [e] ++ n :: l2) in Hd.
  rewrite app_assoc in Hd. apply dll_neighbours in Hd. tauto. }
assert (Hd1' := Hd1).
change (l1 ++ n :: e :: l2) with (l1 ++ [n] ++ e :: l2) in Hd1'.
rewrite app_assoc in Hd1'.
destruct (dll_neighbours _ _ _ _ Hd1') as (Hp1 & Hn1 & _ & _).
rewrite rev_app_distr in Hp1. simpl in Hp1.
destruct (dll_neighbours _ _ _ _ Hd1) as (Hpn & _ & _ & _).
apply dll_restored with (l := l1 ++ e :: n :: l2); auto.
- eapply links_only_trans; [apply movedown_gen_links_only | apply moveup_gen_links_only].
- intros x Hx.
  assert (Hx1 : ~ In x l1) by (intros i; apply Hx; apply in_or_app; auto).
  assert (Hx2 : ~ In x l2) by (intros i; apply Hx; apply in_or_app; simpl; auto).
  assert (Hxe : x <> e) by (intros ->; apply Hx; apply in_or_app; simpl; auto).
  assert (Hxn : x <> n) by (intros ->; apply Hx; apply in_or_app; simpl; auto).
  unfold s2. rewrite moveup_gen_frame.
  + unfold s1. apply movedown_gen_frame; auto.
    * rewrite Hp. intros E. apply Hx1. apply hd_error_rev_in. exact E.
    * rewrite Hn. congruence.
    * intros n' En'. rewrite Hn in En'. injection En' as <-.
      rewrite Hnn. intros E. apply Hx2. apply hd_error_in. exact E.
  + exact Hxe.
  + rewrite Hp1. congruence.
  + rewrite Hn1. intros E. apply Hx2. apply hd_error_in. exact E.
  + intros p Ep. rewrite Hp1 in Ep. injection Ep as <-.
    rewrite Hpn. intros E. apply Hx1. apply hd_error_rev_in. exact E.
Qed.

End GenericRoundTrips.
(** The example list holds 1, 2 and 3 in this order. *)
Ltac dll_by_computation :=
  split; [repeat constructor; simpl; intuition discriminate | vm_compute; repeat split].

Lemma getnext_byindex_nth_witness :
  dll example_list [1; 2; 3] /\
  gui_linkedlist_getnext_byindex_gen example_list 1 = Some 2 /\
  gui_linkedlist_getnext_byindex_gen example_list 3 = None.
Proof.
assert (Hd : dll example_list [1; 2; 3]) by dll_by_computation.
split; [exact Hd|]. split.
- exact (getnext_byindex_nth example_list [1; 2; 3] 1 Hd).
- exact (getnext_byindex_nth example_list [1; 2; 3] 3 Hd).
Defined.

Lemma getnext_getprev_neighbours_witness :
  dll example_list ([1; 2] ++ 3 :: []) /\
  gui_linkedlist_getnext_gen example_list true (Some 3) = None /\
  gui_linkedlist_getprev_gen example_list true (Some 3) = Some 2.
Proof.
assert (Hd : dll example_list ([1; 2] ++ 3 :: [])) by dll_by_computation.
split; [exact Hd|].
destruct (getnext_getprev_neighbours example_list [1; 2] [] 3 true Hd) as (Hn & Hp & _).
split; [exact Hn | exact Hp].
Defined.

Lemma add_gen_appends_witness :
  dll example_list [1; 2; 3] /\ ~ In 4 [1; 2; 3] /\
  dll (gui_linkedlist_add_gen example_list 4) ([1; 2; 3] ++ [4]).
Proof.
assert (Hd : dll example_list [1; 2; 3]) by dll_by_computation.
assert (Hn : ~ In 4 [1; 2; 3]) by (simpl; intuition discriminate).
split; [exact Hd|]. split; [exact Hn|].
exact (proj1 (add_gen_appends example_list [1; 2; 3] 4 Hd Hn)).
Defined.

Lemma remove_gen_removes_witness :
  dll example_list ([1] ++ 2 :: [3]) /\
  dll (fst (gui_linkedlist_remove_gen example_list (Some 2))) ([1] ++ [3]).
Proof.
assert (Hd : dll example_list ([1] ++ 2 :: [3])) by dll_by_computation.
split; [exact Hd|].
exact (proj1 (remove_gen_removes example_list [1] [3] 2 Hd)).
Defined.

Lemma movedown_gen_moves_witness :
  dll example_list ([1] ++ 2 :: [3]) /\
  snd (gui_linkedlist_movedown_gen example_list (Some 2)) = 1%Z /\
  dll (fst (gui_linkedlist_movedown_gen example_list (Some 2))) ([1] ++ 3 :: 2 :: []).
Proof.
assert (Hd : dll example_list ([1] ++ 2 :: [3])) by dll_by_computation.
split; [exact Hd|].
destruct (movedown_gen_moves example_list [1] [3] 2 Hd) as [(H1 & H2 & _) _].
split; [exact H1 | exact H2].
Defined.

Lemma moveup_gen_moves_witness :
  dll example_list ([1] ++ 2 :: [3]) /\
  snd (gui_linkedlist_moveup_gen example_list (Some 2)) = 1%Z /\
  dll (fst (gui_linkedlist_moveup_gen example_list (Some 2))) (rev [] ++ 2 :: 1 :: [3]).
Proof.
assert (Hd : dll example_list ([1] ++ 2 :: [3])) by dll_by_computation.
split; [exact Hd|].
destruct (moveup_gen_moves example_list [1] [3] 2 Hd) as [(H1 & H2 & _) _].
split; [exact H1 | exact H2].
Defined.

Lemma add_remove_round_trip_witness :
  dll example_list [1; 2; 3] /\ ~ In 4 [1; 2; 3] /\
  root (fst (gui_linkedlist_remove_gen (gui_linkedlist_add_gen example_list 4) (Some 4)))
    = root example_list.
Proof.
assert (Hd : dll example_list [1; 2; 3]) by dll_by_computation.
assert (Hn : ~ In 4 [1; 2; 3]) by (simpl; intuition discriminate).
split; [exact Hd|]. split; [exact Hn|].
exact (proj1 (add_remove_round_trip example_list [1; 2; 3] 4 Hd Hn)).
Defined.

Lemma movedown_moveup_round_trip_witness :
  dll example_list ([1] ++ 2 :: 3 :: []) /\
  root (fst (gui_linkedlist_moveup_gen
               (fst (gui_linkedlist_movedown_gen example_list (Some 2))) (Some 2)))
    = root example_list.
Proof.
assert (Hd : dll example_list ([1] ++ 2 :: 3 :: [])) by dll_by_computation.
split; [exact Hd|].
destruct (movedown_moveup_round_trip example_list [1] [] 2 3 Hd) as (_ & _ & Hr & _).
exact Hr.
Defined.

(** ** The z-order walks, called twice *)

(** gui_linkedlist_widgetmovetobottom leaves the widget where a second
    call has nothing to do: the second call returns 0 and changes
    nothing. *)
Theorem movetobottom_twice (s : wlist) (h : handle) (l1 l2 : list handle) (fuel : nat) :
  dll s (l1 ++ h :: l2) -> length l2 < fuel ->
  exists s' n,
    gui_linkedlist_widgetmovetobottom fuel s h = Some (s', n) /\
    gui_linkedlist_widgetmovetobottom fuel s' h = Some (s', 0%Z).
Proof.
intros Hd Hf.
destruct (widgetmovetobottom_spec h l1 l2 s fuel Hd Hf) as [s' (Hrun & Hd' & Hlo)].
exists s'. eexists. split; [exact Hrun|].
set (f := fun x => down_ok (mem s h) (mem s x)) in *.
rewrite app_assoc in Hd'.
destruct (dll_neighbours _ _ _ _ Hd') as (_ & Hn & _ & _).
unfold gui_linkedlist_widgetmovetobottom.
change (@lk gui_handle Linked_handle s' h) with (lk s' h).
rewrite Hn. destruct (drop_while f l2) as [|d r] eqn:Ed; [reflexivity|].
simpl hd_error. cbv iota.
destruct fuel as [|k]; [lia|].
rewrite movetobottom_loop_unfold, Hn. simpl hd_error. cbv iota.
rewrite (down_ok_links_only s s' h d Hlo).
apply drop_while_head in Ed. unfold f in Ed. rewrite Ed. reflexivity.
Qed.

(** gui_linkedlist_widgetmovetotop likewise: a second call changes
    nothing, whatever it returns. *)
Theorem movetotop_twice (s : wlist) (h : handle) (l1 l2 : list handle) (fuel : nat)
    (cnt0 cnt1 : Z) :
  dll s (l1 ++ h :: l2) -> length l1 < fuel ->
  exists s' n,
    gui_linkedlist_widgetmovetotop fuel cnt0 s h = Some (s', n) /\
    option_map fst (gui_linkedlist_widgetmovetotop fuel cnt1 s' h) = Some s'.
Proof.
intros Hd Hf.
destruct (widgetmovetotop_spec h l1 l2 s fuel cnt0 Hd Hf) as [s' (Hrun & Hd' & Hlo)].
exists s'. eexists. split; [exact Hrun|].
set (f := fun x => up_ok (mem s h) (mem s x)) in *.
destruct (dll_neighbours _ _ _ _ Hd') as (Hp & _ & _ & _).
rewrite rev_involutive in Hp.
unfold gui_linkedlist_widgetmovetotop.
change (@lk gui_handle Linked_handle s' h) with (lk s' h).
rewrite Hp. destruct (drop_while f (rev l1)) as [|d r] eqn:Ed; [reflexivity|].
simpl hd_error. cbv iota.
destruct fuel as [|k]; [lia|].
rewrite movetotop_loop_unfold, Hp. simpl hd_error. cbv iota.
rewrite (up_ok_links_only s s' h d Hlo).
apply drop_while_head in Ed. unfold f in Ed. rewrite Ed. reflexivity.
Qed.
(** ** The z-index and the stacking order *)

Lemma stacked_app m a b :
  stacked m (a ++ b) <->
  stacked m a /\ stacked m b /\
  (forall x y, In x a -> In y b -> stacking_rule (m x) (m y) = true).
Proof.
induction a as [|x a IH]; simpl.
- intuition.
- rewrite IH. split.
  + intros [Hx [Ha [Hb Hab]]]. repeat split; auto.
    * intros y Hy. apply Hx. apply in_or_app. auto.
    * intros x' y [<-|Hx'] Hy; [apply Hx; apply in_or_app; auto | auto].
  + intros [[Hx Ha] [Hb Hab]]. repeat split; auto.
    intros y Hy. apply in_app_or in Hy. destruct Hy; auto.
Qed.

Lemma stacked_ext m m' l :
  (forall x, In x l -> payload (m' x) = payload (m x)) -> stacked m l -> stacked m' l.
Proof.
induction l as [|x r IH]; simpl; intros E Hs; [exact I|].
destruct Hs as [Hx Hr]. split.
- intros y Hy.
  change (stacking_rule (payload (m' x)) (payload (m' y)) = true).
  rewrite !E by auto. apply Hx. exact Hy.
- apply IH; auto.
Qed.

Lemma stacking_rule_trans a b c :
  stacking_rule a b = true -> stacking_rule b c = true -> stacking_rule a c = true.
Proof.
unfold stacking_rule. intros H1 H2.
apply andb_true_iff in H1. destruct H1 as [G1 Z1].
apply andb_true_iff in H2. destruct H2 as [G2 Z2].
apply Nat.leb_le in G1. apply Nat.leb_le in G2.
apply andb_true_iff. split; [apply Nat.leb_le; lia|].
destruct (Nat.eqb_spec (group a) (group c)) as [Eac|]; [|reflexivity].
destruct (Nat.ltb_spec (group a) 2) as [L|]; [|reflexivity]. cbn [andb].
destruct (Nat.eqb_spec (group a) (group b)) as [Eab|]; [|lia].
destruct (Nat.eqb_spec (group b) (group c)) as [Ebc|]; [|lia].
destruct (Nat.ltb_spec (group b) 2) as [L'|]; [|lia]. cbn [andb] in Z1, Z2.
apply Z.leb_le in Z1. apply Z.leb_le in Z2. apply Z.leb_le. lia.
Qed.

(** A downward walk that passes only what may stand before the widget,
    and stops only at what may stand behind it, keeps the list stacked. *)
Lemma stacked_movetobottom m (f : handle -> bool) l1 h l2 :
  stacked m (l1 ++ l2) ->
  (forall x, In x l1 -> stacking_rule (m x) (m h) = true) ->
  (forall x, In x l2 -> f x = true -> stacking_rule (m x) (m h) = true) ->
  (forall x, In x l2 -> f x = false -> stacking_rule (m h) (m x) = true) ->
  stacked m (l1 ++ take_while f l2 ++ h :: drop_while f l2).
Proof.
intros Hs H1 Ht Hf.
assert (HT : forall x, In x (take_while f l2) -> stacking_rule (m x) (m h) = true).
{ intros x Hx. apply Ht; [|eapply take_while_all; eauto].
  rewrite <- (take_drop_while f l2). apply in_or_app. auto. }
assert (HD : forall y, In y (drop_while f l2) -> stacking_rule (m h) (m y) = true).
{ intros y Hy. destruct (drop_while f l2) as [|d r] eqn:Ed; [destruct Hy|].
  assert (Hd : stacking_rule (m h) (m d) = true).
  { apply Hf; [|eapply drop_while_head; eauto].
    rewrite <- (take_drop_while f l2), Ed. apply in_or_app. simpl. auto. }
  destruct Hy as [<-|Hy]; [exact Hd|].
  apply stacking_rule_trans with (b := m d); [exact Hd|].
  rewrite <- (take_drop_while f l2), Ed in Hs.
  apply stacked_app in Hs. destruct Hs as (_ & Hs & _).
  apply stacked_app in Hs. destruct Hs as (_ & Hs & _).
  simpl in Hs. apply Hs. exact Hy. }
rewrite <- (take_drop_while f l2) in Hs.
set (T := take_while f l2) in *. set (D := drop_while f l2) in *.
apply stacked_app in Hs. destruct Hs as (S1 & Hs & S12).
apply stacked_app in Hs. destruct Hs as (ST & SD & STD).
apply stacked_app. split; [exact S1|]. split.
- apply stacked_app. split; [exact ST|]. split.
  + simpl. split; [exact HD | exact SD].
  + intros x y Hx [<-|Hy]; [apply HT; exact Hx | apply STD; assumption].
- intros x y Hx Hy. apply in_app_or in Hy. destruct Hy as [Hy|[<-|Hy]].
  + apply S12; [exact Hx | apply in_or_app; auto].
  + apply H1. exact Hx.
  + apply S12; [exact Hx | apply in_or_app; auto].
Qed.

(** The same for an upward walk. *)
Lemma stacked_movetotop m (f : handle -> bool) l1 h l2 :
  stacked m (l1 ++ l2) ->
  (forall y, In y l2 -> stacking_rule (m h) (m y) = true) ->
  (forall x, In x l1 -> f x = true -> stacking_rule (m h) (m x) = true) ->
  (forall x, In x l1 -> f x = false -> stacking_rule (m x) (m h) = true) ->
  stacked m (rev (drop_while f (rev l1)) ++ h :: rev (take_while f (rev l1)) ++ l2).
Proof.
intros Hs H2 Ht Hf.
assert (Hl := rev_drop_take_while f l1).
assert (HY : forall x, In x (rev (take_while f (rev l1))) ->
               stacking_rule (m h) (m x) = true).
{ intros x Hx. apply in_rev in Hx. apply Ht; [|eapply take_while_all; eauto].
  apply in_rev. rewrite <- (take_drop_while f (rev l1)). apply in_or_app. auto. }
assert (HX : forall x, In x (rev (drop_while f (rev l1))) ->
               stacking_rule (m x) (m h) = true).
{ intros x Hx. destruct (drop_while f (rev l1)) as [|d r] eqn:Ed; [destruct Hx|].
  simpl in Hx, Hl.
  assert (Hd : stacking_rule (m d) (m h) = true).
  { apply Hf; [|eapply drop_while_head; eauto].
    rewrite <- Hl. rewrite !in_app_iff. simpl. auto. }
  apply in_app_or in Hx. destruct Hx as [Hx|[<-|[]]]; [|exact Hd].
  apply stacking_rule_trans with (b := m d); [|exact Hd].
  rewrite <- Hl in Hs. rewrite <- !app_assoc in Hs.
  apply stacked_app in Hs. destruct Hs as (_ & _ & Hs).
  apply Hs; [exact Hx | simpl; auto]. }
rewrite <- Hl in Hs.
set (X := rev (drop_while f (rev l1))) in *.
set (Y := rev (take_while f (rev l1))) in *.
rewrite <- app_assoc in Hs.
apply stacked_app in Hs. destruct Hs as (SX & Hs & SXr).
apply stacked_app in Hs. destruct Hs as (SY & S2 & SY2).
apply stacked_app. split; [exact SX|]. split.
- simpl. split.
  + intros y Hy. apply in_app_or in Hy. destruct Hy as [Hy|Hy]; auto.
  + apply stacked_app. auto.
- intros x y Hx [<-|Hy]; [apply HX; exact Hx | apply SXr; assumption].
Qed.

Lemma with_zindex_same w : with_zindex (zindex w) w = w.
Proof. destruct w; reflexivity. Qed.

(** guii_widget_setzindex returns 1 and keeps a stacked sibling list
    stacked: it stores the new z-index and moves the widget, and no
    other, to a place where every widget before it and every widget
    behind it obeys the stacking rule with it.  Nothing but the z-index
    of the widget and link cells is written.  Dialog bases are taken to
    allow children, as the walks assume. *)
Theorem setzindex_keeps_stacking (fuel : nat) (cnt0 : Z) (s : wlist) (l : list handle)
    (h : handle) (z : Z) :
  dll s l -> In h l -> length l <= fuel ->
  (forall x, In x l -> guii_widget_isdialogbase (mem s x) = true ->
             guii_widget_allowchildren (mem s x) = true) ->
  stacked (mem s) l ->
  exists s' l',
    guii_widget_setzindex fuel cnt0 s h z = Some (s', 1%Z) /\
    dll s' l' /\ Permutation l' l /\ stacked (mem s') l' /\
    zindex (mem s' h) = z /\
    forall x, payload (mem s' x)
              = payload (if Nat.eqb x h then with_zindex z (mem s x) else mem s x).
Proof.
intros Hd Hin Hf Hdc Hs. unfold guii_widget_setzindex.
destruct (Z.eqb_spec (zindex (mem s h)) z) as [E|E]; cbv zeta; cbn [negb].
{ exists s, l. split; [reflexivity|]. split; [exact Hd|]. split; [reflexivity|].
  split; [exact Hs|]. split; [exact E|].
  intros x. destruct (Nat.eqb_spec x h) as [->|]; [|reflexivity].
  rewrite <- E. now rewrite with_zindex_same. }
apply in_split in Hin. destruct Hin as [l1 [l2 ->]].
set (s1 := mk_lstate (root s) (upd (mem s) h (with_zindex z))).
assert (Hm1 : forall x, mem s1 x = if Nat.eqb x h then with_zindex z (mem s x) else mem s x).
{ intros x. unfold s1, upd. simpl. reflexivity. }
assert (Hd1 : dll s1 (l1 ++ h :: l2)).
{ destruct Hd as [Hn Hd]. split; [exact Hn|].
  apply dseg_frame with (s := s); [|exact Hd].
  intros x _. unfold lk. rewrite Hm1. destruct (Nat.eqb x h) eqn:Ex; [|reflexivity].
  apply Nat.eqb_eq in Ex. subst x. reflexivity. }
destruct (dll_split _ _ _ _ Hd) as (_ & _ & E1 & E2 & _).
assert (Hx1 : forall x, In x l1 -> mem s1 x = mem s x).
{ intros x Hx. rewrite Hm1. destruct (Nat.eqb_spec x h); [subst; tauto | reflexivity]. }
assert (Hx2 : forall x, In x l2 -> mem s1 x = mem s x).
{ intros x Hx. rewrite Hm1. destruct (Nat.eqb_spec x h); [subst; tauto | reflexivity]. }
assert (Hh : mem s1 h = with_zindex z (mem s h)).
{ rewrite Hm1, Nat.eqb_refl. reflexivity. }
apply stacked_app in Hs. destruct Hs as (S1 & Hs & S12). simpl in Hs.
destruct Hs as [Sh S2].
assert (S1h : forall x, In x l1 -> stacking_rule (mem s x) (mem s h) = true).
{ intros x Hx. apply S12; simpl; auto. }
assert (S12' : stacked (mem s1) (l1 ++ l2)).
{ apply stacked_ext with (m := mem s).
  - intros x Hx. apply in_app_or in Hx. destruct Hx; [rewrite Hx1 | rewrite Hx2]; auto.
  - apply stacked_app. split; [exact S1|]. split; [exact S2|].
    intros x y Hx Hy. apply S12; simpl; auto. }
assert (Hdh := Hdc h ltac:(apply in_or_app; simpl; auto)).
assert (Hd1' : forall x, In x l1 -> guii_widget_isdialogbase (mem s x) = true ->
                 guii_widget_allowchildren (mem s x) = true).
{ intros x Hx. apply Hdc. apply in_or_app. auto. }
assert (Hd2' : forall x, In x l2 -> guii_widget_isdialogbase (mem s x) = true ->
                 guii_widget_allowchildren (mem s x) = true).
{ intros x Hx. apply Hdc. apply in_or_app. simpl. auto. }
assert (Gh : group (with_zindex z (mem s h)) = group (mem s h)) by reflexivity.
destruct (Z.ltb_spec z (zindex (mem s h))) as [Hlt|Hge].
- destruct (widgetmovetotop_spec h l1 l2 s1 fuel cnt0 Hd1) as [s' (Hrun & Hd' & Hlo)].
  { rewrite length_app in Hf. simpl in Hf. lia. }
  rewrite Hrun. cbn [fst]. eexists s', _. split; [reflexivity|].
  split; [exact Hd'|]. split; [apply rev_drop_take_while_perm|]. split.
  + apply stacked_ext with (m := mem s1).
    { intros x _. apply links_only_payload. exact Hlo. }
    apply stacked_movetotop; [exact S12' | | |].
    * intros y Hy. rewrite Hh, (Hx2 y Hy). specialize (Sh y Hy).
      specialize (Hd2' y Hy). clear - Sh Hd2' Hdh Hlt.
      unfold stacking_rule in *. change (group (with_zindex z (mem s h))) with (group (mem s h)).
      change (zindex (with_zindex z (mem s h))) with z.
      apply andb_true_iff in Sh. destruct Sh as [G Z']. rewrite G. simpl.
      destruct ((group (mem s h) =? group (mem s y)) && (group (mem s h) <? 2)); [|reflexivity].
      apply Z.leb_le in Z'. apply Z.leb_le. lia.
    * intros x Hx Hup. rewrite Hh, (Hx1 x Hx) in *. specialize (S1h x Hx).
      specialize (Hd1' x Hx). clear - S1h Hd1' Hdh Hup.
      change (up_ok (with_zindex z (mem s h)) (mem s x))
        with (if guii_widget_isdialogbase (mem s h) then guii_widget_isdialogbase (mem s x)
              else if guii_widget_allowchildren (mem s h)
                   then guii_widget_allowchildren (mem s x) && (z <=? zindex (mem s x))%Z
                   else (z <=? zindex (mem s x))%Z) in Hup.
      unfold stacking_rule in *. change (group (with_zindex z (mem s h))) with (group (mem s h)).
      change (zindex (with_zindex z (mem s h))) with z.
      unfold group in *.
      destruct (guii_widget_isdialogbase (mem s h)), (guii_widget_allowchildren (mem s h)),
        (guii_widget_isdialogbase (mem s x)), (guii_widget_allowchildren (mem s x));
        simpl in *; try discriminate; try reflexivity;
        try (specialize (Hdh eq_refl)); try (specialize (Hd1' eq_refl));
        try discriminate; try exact Hup.
    * intros x Hx Hup. rewrite Hh, (Hx1 x Hx) in *. specialize (S1h x Hx).
      specialize (Hd1' x Hx). clear - S1h Hd1' Hdh Hup.
      change (up_ok (with_zindex z (mem s h)) (mem s x))
        with (if guii_widget_isdialogbase (mem s h) then guii_widget_isdialogbase (mem s x)
              else if guii_widget_allowchildren (mem s h)
                   then guii_widget_allowchildren (mem s x) && (z <=? zindex (mem s x))%Z
                   else (z <=? zindex (mem s x))%Z) in Hup.
      unfold stacking_rule in *. change (group (with_zindex z (mem s h))) with (group (mem s h)).
      change (zindex (with_zindex z (mem s h))) with z.
      unfold group in *.
      destruct (guii_widget_isdialogbase (mem s h)), (guii_widget_allowchildren (mem s h)),
        (guii_widget_isdialogbase (mem s x)), (guii_widget_allowchildren (mem s x));
        simpl in *; try discriminate; try reflexivity;
        try (specialize (Hdh eq_refl)); try (specialize (Hd1' eq_refl));
        try discriminate;
        apply Z.leb_gt in Hup; apply Z.leb_le; lia.
  + split.
    * rewrite (Hlo h). change (zindex (mem s1 h) = z). rewrite Hh. reflexivity.
    * intros x. rewrite (links_only_payload s1 s' x Hlo), Hm1. reflexivity.
- destruct (widgetmovetobottom_spec h l1 l2 s1 fuel Hd1) as [s' (Hrun & Hd' & Hlo)].
  { rewrite length_app in Hf. simpl in Hf. lia. }
  rewrite Hrun. cbn [fst]. eexists s', _. split; [reflexivity|].
  split; [exact Hd'|]. split; [apply take_drop_while_perm|]. split.
  + apply stacked_ext with (m := mem s1).
    { intros x _. apply links_only_payload. exact Hlo. }
    apply stacked_movetobottom; [exact S12' | | |].
    * intros x Hx. rewrite Hh, (Hx1 x Hx). specialize (S1h x Hx).
      clear - S1h Hge E.
      unfold stacking_rule in *. change (group (with_zindex z (mem s h))) with (group (mem s h)).
      change (zindex (with_zindex z (mem s h))) with z.
      apply andb_true_iff in S1h. destruct S1h as [G Z']. rewrite G. simpl.
      destruct ((group (mem s x) =? group (mem s h)) && (group (mem s x) <? 2)); [|reflexivity].
      apply Z.leb_le in Z'. apply Z.leb_le. lia.
    * intros x Hx Hdn. rewrite Hh, (Hx2 x Hx) in *. specialize (Sh x Hx).
      specialize (Hd2' x Hx). clear - Sh Hd2' Hdh Hdn.
      change (down_ok (with_zindex z (mem s h)) (mem s x))
        with (if guii_widget_isdialogbase (mem s h) then true
              else if guii_widget_allowchildren (mem s h)
                   then negb (guii_widget_isdialogbase (mem s x)) && (z >=? zindex (mem s x))%Z
                   else negb (guii_widget_allowchildren (mem s x)) && (z >=? zindex (mem s x))%Z)
        in Hdn.
      unfold stacking_rule in *. change (group (with_zindex z (mem s h))) with (group (mem s h)).
      change (zindex (with_zindex z (mem s h))) with z.
      unfold group in *.
      destruct (guii_widget_isdialogbase (mem s h)), (guii_widget_allowchildren (mem s h)),
        (guii_widget_isdialogbase (mem s x)), (guii_widget_allowchildren (mem s x));
        simpl in *; try discriminate; try reflexivity;
        try (specialize (Hdh eq_refl)); try (specialize (Hd2' eq_refl));
        try discriminate;
        rewrite Z.geb_leb in Hdn; exact Hdn.
    * intros x Hx Hdn. rewrite Hh, (Hx2 x Hx) in *. specialize (Sh x Hx).
      specialize (Hd2' x Hx). clear - Sh Hd2' Hdh Hdn.
      change (down_ok (with_zindex z (mem s h)) (mem s x))
        with (if guii_widget_isdialogbase (mem s h) then true
              else if guii_widget_allowchildren (mem s h)
                   then negb (guii_widget_isdialogbase (mem s x)) && (z >=? zindex (mem s x))%Z
                   else negb (guii_widget_allowchildren (mem s x)) && (z >=? zindex (mem s x))%Z)
        in Hdn.
      unfold stacking_rule in *. change (group (with_zindex z (mem s h))) with (group (mem s h)).
      change (zindex (with_zindex z (mem s h))) with z.
      unfold group in *.
      destruct (guii_widget_isdialogbase (mem s h)), (guii_widget_allowchildren (mem s h)),
        (guii_widget_isdialogbase (mem s x)), (guii_widget_allowchildren (mem s x));
        simpl in *; try discriminate; try reflexivity;
        try (specialize (Hdh eq_refl)); try (specialize (Hd2' eq_refl));
        try discriminate;
        rewrite Z.geb_leb in Hdn; apply Z.leb_gt in Hdn; apply Z.leb_le; lia.
  + split.
    * rewrite (Hlo h). change (zindex (mem s1 h) = z). rewrite Hh. reflexivity.
    * intros x. rewrite (links_only_payload s1 s' x Hlo), Hm1. reflexivity.
Qed.
Lemma movetobottom_twice_witness :
  dll control_and_window ([] ++ 1 :: [2]) /\ length [2] < 3 /\
  exists s' n,
    gui_linkedlist_widgetmovetobottom 3 control_and_window 1 = Some (s', n) /\
    gui_linkedlist_widgetmovetobottom 3 s' 1 = Some (s', 0%Z).
Proof.
assert (Hd : dll control_and_window ([] ++ 1 :: [2])) by dll_by_computation.
assert (Hf : length [2] < 3) by (simpl; lia).
split; [exact Hd|]. split; [exact Hf|].
exact (movetobottom_twice control_and_window 1 [] [2] 3 Hd Hf).
Defined.

Lemma movetotop_twice_witness :
  dll control_and_window ([1] ++ 2 :: []) /\ length [1] < 3 /\
  exists s' n,
    gui_linkedlist_widgetmovetotop 3 7 control_and_window 2 = Some (s', n) /\
    option_map fst (gui_linkedlist_widgetmovetotop 3 9 s' 2) = Some s'.
Proof.
assert (Hd : dll control_and_window ([1] ++ 2 :: [])) by dll_by_computation.
assert (Hf : length [1] < 3) by (simpl; lia).
split; [exact Hd|]. split; [exact Hf|].
exact (movetotop_twice control_and_window 2 [1] [] 3 7 9 Hd Hf).
Defined.

(** On the example the control 1 gets z-index 7 and moves behind the
    control 2, whose z-index is 5. *)
Lemma setzindex_keeps_stacking_witness :
  dll example_stack [1; 2; 3; 4] /\ In 1 [1; 2; 3; 4] /\ length [1; 2; 3; 4] <= 4 /\
  (forall x, In x [1; 2; 3; 4] -> guii_widget_isdialogbase (mem example_stack x) = true ->
             guii_widget_allowchildren (mem example_stack x) = true) /\
  stacked (mem example_stack) [1; 2; 3; 4] /\
  exists s' l',
    guii_widget_setzindex 4 0 example_stack 1 7 = Some (s', 1%Z) /\
    dll s' l' /\ stacked (mem s') l'.
Proof.
assert (Hd : dll example_stack [1; 2; 3; 4]) by dll_by_computation.
assert (Hin : In 1 [1; 2; 3; 4]) by (simpl; auto).
assert (Hf : length [1; 2; 3; 4] <= 4) by (simpl; lia).
assert (Hdc : forall x, In x [1; 2; 3; 4] ->
          guii_widget_isdialogbase (mem example_stack x) = true ->
          guii_widget_allowchildren (mem example_stack x) = true).
{ intros x [<-|[<-|[<-|[<-|[]]]]]; vm_compute; intros E; (discriminate || reflexivity). }
assert (Hs : stacked (mem example_stack) [1; 2; 3; 4]).
{ simpl. repeat split; intros y Hy;
    repeat (destruct Hy as [<-|Hy]; [reflexivity|]); destruct Hy. }
split; [exact Hd|]. split; [exact Hin|]. split; [exact Hf|]. split; [exact Hdc|].
split; [exact Hs|].
destruct (setzindex_keeps_stacking 4 0 example_stack [1; 2; 3; 4] 1 7 Hd Hin Hf Hdc Hs)
  as [s' [l' (Hrun & Hd' & _ & Hs' & _)]].
exists s', l'. auto.
Defined.

Example setzindex_example :
  option_map (fun r => walk_next 5 (fst r) (first (root (fst r))))
    (guii_widget_setzindex 4 0 example_stack 1 7) = Some [2; 1; 3; 4].
Proof. reflexivity. Qed.

(** ** The focus path *)

Lemma chain_functional g : forall c c' p, chain g p c -> chain g p c' -> c = c'.
Proof.
induction c as [|x r IH]; intros c' p H1 H2; destruct c' as [|x' r']; simpl in *.
- reflexivity.
- destruct H2; congruence.
- destruct H1; congruence.
- destruct H1 as [-> H1], H2 as [[= <-] H2]. f_equal. eapply IH; eauto.
Qed.

Lemma chain_suffix g : forall pre p a post,
  chain g p (pre ++ a :: post) -> chain g (Some a) (a :: post).
Proof.
induction pre as [|x r IH]; intros p a post Hc; simpl in Hc.
- destruct Hc as [-> Hc]. simpl. auto.
- destruct Hc as [_ Hc]. eapply IH; eauto.
Qed.

Lemma find_split {T : Type} (P : T -> bool) l a :
  find P l = Some a ->
  exists pre post, l = pre ++ a :: post /\ (forall x, In x pre -> P x = false) /\ P a = true.
Proof.
induction l as [|x r IH]; simpl; [discriminate|].
destruct (P x) eqn:Px.
- intros [= ->]. exists [], r. simpl. repeat split; [tauto | exact Px].
- intros Hf. destruct (IH Hf) as [pre [post (-> & Hpre & Ha)]].
  exists (x :: pre), post. repeat split; [|exact Ha].
  intros y [<-|Hy]; auto.
Qed.

Lemma take_while_neq_split l : forall a pre post,
  l = pre ++ a :: post -> ~ In a pre ->
  take_while (fun x => negb (Nat.eqb x a)) l = pre.
Proof.
intros a pre post -> Hn. induction pre as [|x r IH]; simpl.
- now rewrite Nat.eqb_refl.
- destruct (Nat.eqb_spec x a) as [->|_]; [exfalso; apply Hn; simpl; auto|].
  simpl. f_equal. apply IH. intros Hin. apply Hn. simpl. auto.
Qed.

Lemma in_split_first (a : handle) l :
  In a l -> exists pre post, l = pre ++ a :: post /\ ~ In a pre.
Proof.
induction l as [|x r IH]; [intros []|].
destruct (Nat.eq_dec x a) as [->|Hne].
- intros _. exists [], r. simpl. split; [reflexivity | tauto].
- intros [E|Hin]; [contradiction|].
  destruct (IH Hin) as [pre [post (-> & Hn)]].
  exists (x :: pre), post. split; [reflexivity|]. simpl. tauto.
Qed.

Lemma isfocused_focus_out_step g y x :
  guii_widget_isfocused (wmem (focus_out_step g y) x) =
  negb (Nat.eqb x y) && guii_widget_isfocused (wmem g x).
Proof.
simpl. unfold upd. destruct (Nat.eqb x y); [|reflexivity].
unfold guii_widget_isfocused, guii_widget_getflag, guii_widget_clrflag. simpl.
apply flag_test_clr_same. reflexivity.
Qed.

Lemma isfocused_focus_in_step g y x :
  guii_widget_isfocused (wmem (focus_in_step g y) x) =
  Nat.eqb x y || guii_widget_isfocused (wmem g x).
Proof.
simpl. unfold upd. destruct (Nat.eqb x y); [|reflexivity].
unfold guii_widget_isfocused, guii_widget_getflag, guii_widget_setflag. simpl.
apply flag_test_set_same. discriminate.
Qed.

Lemma isfocused_fold_focus_out l : forall g x,
  guii_widget_isfocused (wmem (fold_left focus_out_step l g) x) =
  negb (existsb (Nat.eqb x) l) && guii_widget_isfocused (wmem g x).
Proof.
induction l as [|y r IH]; intros g x; [reflexivity|].
simpl fold_left. rewrite IH, isfocused_focus_out_step. simpl existsb.
destruct (Nat.eqb x y), (existsb (Nat.eqb x) r); reflexivity.
Qed.

Lemma isfocused_fold_focus_in l : forall g x,
  guii_widget_isfocused (wmem (fold_left focus_in_step l g) x) =
  existsb (Nat.eqb x) l || guii_widget_isfocused (wmem g x).
Proof.
induction l as [|y r IH]; intros g x; [reflexivity|].
simpl fold_left. rewrite IH, isfocused_focus_in_step. simpl existsb.
destruct (Nat.eqb x y), (existsb (Nat.eqb x) r); reflexivity.
Qed.

Lemma tree_fold_focus_out l : forall g, tree (fold_left focus_out_step l g) = tree g.
Proof. induction l as [|x r IH]; intros g; [reflexivity|]. simpl. now rewrite IH. Qed.

Lemma tree_fold_focus_in l : forall g, tree (fold_left focus_in_step l g) = tree g.
Proof. induction l as [|x r IH]; intros g; [reflexivity|]. simpl. now rewrite IH. Qed.

Lemma parent_fold_focus_out l : forall g x,
  parent (wmem (fold_left focus_out_step l g) x) = parent (wmem g x).
Proof.
induction l as [|y r IH]; intros g x; [reflexivity|].
simpl fold_left. rewrite IH. apply parent_focus_out_step.
Qed.

Lemma parent_fold_focus_in l : forall g x,
  parent (wmem (fold_left focus_in_step l g) x) = parent (wmem g x).
Proof.
induction l as [|y r IH]; intros g x; [reflexivity|].
simpl fold_left. rewrite IH. apply parent_focus_in_step.
Qed.

(** A chain through a node without parent ends there. *)
Lemma chain_ends_at g r : parent (wmem g r) = None ->
  forall c p, chain g p c -> In r c -> exists pre, c = pre ++ [r] /\ ~ In r pre.
Proof.
intros Hr c p Hc Hin. destruct (in_split_first r c Hin) as [pre [post (-> & Hn)]].
apply chain_suffix in Hc. simpl in Hc. destruct Hc as [_ Hc]. rewrite Hr in Hc.
destruct post as [|y t]; [|simpl in Hc; destruct Hc; discriminate].
exists pre. auto.
Qed.

(** What set_focus writes to the focus flags, as sets of nodes. *)
Lemma set_focus_spec_marks g target c1 c2 x :
  FocusedWidget g <> target ->
  guii_widget_isfocused (wmem (set_focus_spec g target c1 c2) x) =
  existsb (Nat.eqb x) (below c2 (nearest_common g c1 c2))
  || (negb (existsb (Nat.eqb x) (below c1 (nearest_common g c1 c2)))
      && guii_widget_isfocused (wmem g x)).
Proof.
intros Hne. unfold set_focus_spec.
destruct (ptr_eqb_spec (FocusedWidget g) target) as [E|_]; [contradiction|].
cbv zeta. rewrite isfocused_fold_focus_in. f_equal.
change (wmem (set_FocusedWidget target ?a)) with (wmem a).
apply isfocused_fold_focus_out.
Qed.

Lemma existsb_eqb_true x l : existsb (Nat.eqb x) l = true <-> In x l.
Proof.
rewrite existsb_exists. split.
- intros [y [Hy E]]. apply Nat.eqb_eq in E. now subst.
- intros Hin. exists x. split; [exact Hin | apply Nat.eqb_refl].
Qed.

(** The two chains split at the common node. *)
Lemma chains_split g r c1 c2 pf pt :
  root_first g = Some r -> parent (wmem g r) = None ->
  chain g pf c1 -> chain g pt c2 ->
  (c1 <> [] -> In r c1) -> (c2 <> [] -> In r c2) ->
  forall x, x <> r ->
    ((In x (below c2 (nearest_common g c1 c2))
      \/ (~ In x (below c1 (nearest_common g c1 c2)) /\ In x c1)) <-> In x c2).
Proof.
intros Hrf Hr H1 H2 R1 R2 x Hx. unfold nearest_common.
destruct (find (fun a => existsb (Nat.eqb a) c2) c1) as [a|] eqn:Ef.
- destruct (find_split _ _ _ Ef) as [pre [post (E1 & Hpre & Ha)]].
  apply existsb_eqb_true in Ha.
  destruct (in_split_first a c2 Ha) as [pre2 [post2 (E2 & Hn2)]].
  assert (Hn1 : ~ In a pre).
  { intros Hin. apply Hpre in Hin. apply not_true_iff_false in Hin. apply Hin.
    apply existsb_eqb_true. exact Ha. }
  unfold below. rewrite (take_while_neq_split c1 a pre post E1 Hn1).
  rewrite (take_while_neq_split c2 a pre2 post2 E2 Hn2).
  subst c1 c2. apply chain_suffix in H1. apply chain_suffix in H2.
  assert (Epost := chain_functional g _ _ _ H1 H2). injection Epost as Epost. subst post2.
  rewrite !in_app_iff. split.
  + intros [Hin|[Hnot [Hin|Hin]]]; auto. contradiction.
  + intros [Hin|Hin]; [auto|]. right. split; [|auto].
    intros Hp. apply Hpre in Hp. apply not_true_iff_false in Hp. apply Hp.
    apply existsb_eqb_true. apply in_or_app. auto.
- rewrite Hrf. unfold below.
  assert (Hnone : forall y, In y c1 -> ~ In y c2).
  { intros y Hy Hy2. apply (find_none _ _ Ef) in Hy. simpl in Hy.
    apply not_true_iff_false in Hy. apply Hy. apply existsb_eqb_true. exact Hy2. }
  destruct c1 as [|f t1].
  + simpl. destruct c2 as [|t t2]; [simpl; tauto|].
    destruct (chain_ends_at g r Hr _ _ H2 (R2 ltac:(discriminate))) as [pre [E Hn]].
    rewrite (take_while_neq_split _ r pre [] E Hn). rewrite E, in_app_iff. simpl.
    split; [tauto|]. intros [Hin|[Hin|[]]]; [auto | congruence].
  + destruct c2 as [|t t2].
    * destruct (chain_ends_at g r Hr _ _ H1 (R1 ltac:(discriminate))) as [pre [E Hn]].
      rewrite (take_while_neq_split _ r pre [] E Hn). rewrite E, in_app_iff. simpl.
      split; [|tauto]. intros [[]|[Hnot [Hin|[Hin|[]]]]]; [contradiction | congruence].
    * exfalso. apply (Hnone r); [apply R1 | apply R2]; discriminate.
Qed.

(** gui_widget_focus_set keeps the focus flags on the path of the focused
    widget.  Let the first widget [r] of the root list have no parent,
    and let the parent chains of the focused widget and of the target,
    a widget, lead to it.  If the focus flags mark the chain of the
    focused widget before the call, they mark the chain of the target
    after it, and the target is the focused widget; parents and lists
    are as before.  Called with NULL the function empties the focus slot
    and leaves the flags where they were, on the old path. *)
Theorem focus_set_keeps_marks (fuel : nat) (g : gui_t) (t : handle) (r : handle)
    (c1 c2 : list handle) :
  root_first g = Some r -> parent (wmem g r) = None ->
  ancestors fuel g (FocusedWidget g) = Some c1 ->
  ancestors fuel g (Some t) = Some c2 ->
  (c1 <> [] -> In r c1) -> In r c2 ->
  focus_marks g c1 ->
  (exists g',
     gui_widget_focus_set (S (fuel + fuel)) g (Some t) = Some g' /\
     FocusedWidget g' = Some t /\
     root_first g' = Some r /\ parent (wmem g' r) = None /\
     ancestors fuel g' (FocusedWidget g') = Some c2 /\
     focus_marks g' c2) /\
  (exists g0,
     gui_widget_focus_set (S (fuel + fuel)) g None = Some g0 /\
     FocusedWidget g0 = None /\ focus_marks g0 c1).
Proof.
intros Hrf Hr A1 A2 R1 R2' Hm.
assert (R2 : c2 <> [] -> In r c2) by (intros _; exact R2').
split.
2:{ exists (set_FocusedWidget None g). split; [apply gui_widget_focus_set_null|].
    split; [reflexivity | exact Hm]. }
exists (set_focus_spec g (Some t) c1 c2).
split; [apply gui_widget_focus_set_spec; assumption|].
split; [apply set_focus_spec_focused|].
destruct (ptr_eqb_spec (FocusedWidget g) (Some t)) as [E|Hne].
- assert (Eg : set_focus_spec g (Some t) c1 c2 = g).
  { unfold set_focus_spec. destruct (ptr_eqb_spec (FocusedWidget g) (Some t)); tauto. }
  rewrite Eg. rewrite E in A1. assert (c1 = c2) by congruence. subst c2.
  rewrite E. auto.
- assert (Hpar : forall x, parent (wmem (set_focus_spec g (Some t) c1 c2) x) = parent (wmem g x)).
  { intros x. unfold set_focus_spec.
    destruct (ptr_eqb_spec (FocusedWidget g) (Some t)); [contradiction|].
    cbv zeta. rewrite parent_fold_focus_in.
    change (wmem (set_FocusedWidget (Some t) ?a)) with (wmem a).
    apply parent_fold_focus_out. }
  assert (Htree : root_first (set_focus_spec g (Some t) c1 c2) = root_first g).
  { unfold root_first, set_focus_spec.
    destruct (ptr_eqb_spec (FocusedWidget g) (Some t)); [contradiction|].
    cbv zeta. rewrite tree_fold_focus_in.
    change (tree (set_FocusedWidget (Some t) ?a)) with (tree a).
    now rewrite tree_fold_focus_out. }
  split; [rewrite Htree; exact Hrf|]. split; [rewrite Hpar; exact Hr|].
  split.
  { rewrite set_focus_spec_focused, (ancestors_ext fuel g _ Hpar). exact A2. }
  intros x Hx. rewrite Htree, Hrf in Hx.
  assert (Hxr : x <> r) by congruence.
  rewrite (set_focus_spec_marks g (Some t) c1 c2 x Hne).
  apply ancestors_chain in A1. apply ancestors_chain in A2.
  destruct A1 as [H1 _], A2 as [H2 _].
  rewrite <- (chains_split g r c1 c2 _ _ Hrf Hr H1 H2 R1 R2 x Hxr).
  rewrite orb_true_iff, andb_true_iff, negb_true_iff, existsb_eqb_true.
  rewrite (Hm x) by (rewrite Hrf; congruence).
  split; (intros [Hin|[Hn Hin]]; [left; exact Hin | right; split; [|exact Hin]]).
  + intros Hb. apply existsb_eqb_true in Hb. congruence.
  + destruct (existsb (Nat.eqb x) (below c1 (nearest_common g c1 c2))) eqn:Eb;
      [|reflexivity].
    apply existsb_eqb_true in Eb. contradiction.
Qed.

Lemma focus_clear_loop_spec r : forall c g fuel f rest,
  root_first g = Some r ->
  chain g (FocusedWidget g) (f :: c ++ r :: rest) -> ~ In r c -> length c < fuel ->
  exists g1,
    focus_clear_loop fuel g = Some g1 /\
    forall p, set_FocusedWidget p g1 =
              set_FocusedWidget p (fold_left focus_out_step (f :: c) g).
Proof.
induction c as [|y c IH]; intros g fuel f rest Hrf Hc Hn Hf;
  (destruct fuel as [|fuel]; [simpl in Hf; lia|]);
  simpl in Hc; destruct Hc as (Hfw & Hc).
- destruct Hc as [Hp _]. cbn [focus_clear_loop]. rewrite Hfw.
  change (exists g1,
    (if ptr_eqb (parent (wmem (focus_out_step g f) f)) (root_first g)
     then Some (set_FocusedWidget (parent (wmem (focus_out_step g f) f)) (focus_out_step g f))
     else focus_clear_loop fuel
            (set_FocusedWidget (parent (wmem (focus_out_step g f) f)) (focus_out_step g f)))
    = Some g1 /\
    forall p, set_FocusedWidget p g1 = set_FocusedWidget p (focus_out_step g f)).
  rewrite parent_focus_out_step, Hp, Hrf, ptr_eqb_refl.
  eexists. split; reflexivity.
- destruct Hc as [Hp Hc]. cbn [focus_clear_loop]. rewrite Hfw.
  change (exists g1,
    (if ptr_eqb (parent (wmem (focus_out_step g f) f)) (root_first g)
     then Some (set_FocusedWidget (parent (wmem (focus_out_step g f) f)) (focus_out_step g f))
     else focus_clear_loop fuel
            (set_FocusedWidget (parent (wmem (focus_out_step g f) f)) (focus_out_step g f)))
    = Some g1 /\
    forall p, set_FocusedWidget p g1 =
              set_FocusedWidget p (fold_left focus_out_step (y :: c) (focus_out_step g f))).
  rewrite parent_focus_out_step, Hp, Hrf.
  destruct (ptr_eqb_spec (Some y) (Some r)) as [E|_].
  { exfalso. apply Hn. injection E as ->. simpl. auto. }
  destruct (IH (set_FocusedWidget (Some y) (focus_out_step g f)) fuel y rest)
    as [g1 [Hrun Hg1]].
  + exact Hrf.
  + simpl FocusedWidget. cbn [chain]. split; [reflexivity|].
    change (wmem (set_FocusedWidget (Some y) (focus_out_step g f)))
      with (wmem (focus_out_step g f)).
    rewrite parent_focus_out_step.
    apply chain_ext with (g := g); [|exact Hc]. intros x. apply parent_focus_out_step.
  + intros Hin. apply Hn. simpl. auto.
  + simpl in Hf. lia.
  + exists g1. split; [exact Hrun|]. intros p. rewrite Hg1.
    apply (fold_focus_out_set_FocusedWidget p (Some y) (y :: c)).
Qed.

(** gui_widget_focus_clear takes the focus from the whole path.  Let the
    parent chain of the focused widget lead to the first widget [r] of
    the root list.  Then the call returns; each widget of the path below
    [r] gets a focus-out notification, loses its flag and is
    invalidated, from the focused widget upwards; afterwards no widget
    is focused and the previous focus is the widget that had it.  When
    [r] itself is focused the call does nothing.  If the flags marked
    the path before, no widget but possibly [r] carries one after. *)
Theorem focus_clear_clears (fuel : nat) (g : gui_t) (r : handle) (c : list handle) :
  root_first g = Some r ->
  ancestors fuel g (FocusedWidget g) = Some (c ++ [r]) -> ~ In r c ->
  focus_marks g (c ++ [r]) ->
  exists g',
    gui_widget_focus_clear fuel g = Some g' /\
    (c = [] -> g' = g) /\
    (c <> [] -> FocusedWidget g' = None /\ FocusedWidgetPrev g' = FocusedWidget g) /\
    trace g' = trace g
               ++ flat_map (fun x => [EvCallback x GUI_WC_FocusOut; EvInvalidate x]) c /\
    focus_marks g' [].
Proof.
intros Hrf Ha Hn Hm. apply ancestors_chain in Ha. destruct Ha as [Hc Hl].
unfold gui_widget_focus_clear.
destruct c as [|f c].
- simpl in Hc. destruct Hc as [Hfw _]. rewrite Hfw, Hrf, ptr_eqb_refl.
  exists g. split; [reflexivity|]. split; [reflexivity|]. split; [tauto|].
  split; [simpl; now rewrite app_nil_r|].
  intros x Hx. rewrite (Hm x Hx). simpl. split; [|tauto].
  intros [E|[]]. subst x. congruence.
- assert (Hfw : FocusedWidget g = Some f) by (simpl in Hc; tauto).
  assert (Hfr : f <> r) by (intros ->; apply Hn; simpl; auto).
  rewrite Hfw, Hrf.
  destruct (ptr_eqb_spec (Some f) (Some r)) as [E|_]; [congruence|].
  destruct (focus_clear_loop_spec r c (set_FocusedWidgetPrev (Some f) g) fuel f [])
    as [g1 [Hrun Hg1]].
  + exact Hrf.
  + simpl FocusedWidget. rewrite Hfw.
    apply chain_ext with (g := g); [intros x; reflexivity|].
    rewrite Hfw in Hc. exact Hc.
  + intros Hin. apply Hn. simpl. auto.
  + rewrite length_app in Hl. simpl in Hl. lia.
  + rewrite Hrun. eexists. split; [reflexivity|]. rewrite (Hg1 None).
    split; [discriminate|]. split; [intros _; split; [reflexivity|]|split].
    * simpl FocusedWidgetPrev.
      assert (K : forall l g0, FocusedWidgetPrev (fold_left focus_out_step l g0)
                               = FocusedWidgetPrev g0).
      { induction l as [|a l IHl]; intros g0; [reflexivity|]. simpl. now rewrite IHl. }
      change (FocusedWidgetPrev (fold_left focus_out_step (f :: c)
                (set_FocusedWidgetPrev (Some f) g)) = Some f).
      now rewrite K.
    * change (trace (fold_left focus_out_step (f :: c) (set_FocusedWidgetPrev (Some f) g))
              = trace g ++ flat_map (fun x => [EvCallback x GUI_WC_FocusOut; EvInvalidate x])
                             (f :: c)).
      now rewrite trace_fold_focus_out.
    * intros x Hx.
      change (root_first (fold_left focus_out_step (f :: c)
                (set_FocusedWidgetPrev (Some f) g)) <> Some x) in Hx.
      unfold root_first in Hx. rewrite tree_fold_focus_out in Hx.
      change (guii_widget_isfocused
                (wmem (fold_left focus_out_step (f :: c) (set_FocusedWidgetPrev (Some f) g)) x)
              = true <-> In x []).
      rewrite isfocused_fold_focus_out.
      change (wmem (set_FocusedWidgetPrev (Some f) g)) with (wmem g).
      simpl In. split; [|tauto]. intros Hb.
      apply andb_true_iff in Hb. destruct Hb as [Hb Hfoc].
      apply (Hm x Hx) in Hfoc. apply in_app_or in Hfoc.
      destruct Hfoc as [Hin|[E|[]]].
      -- apply negb_true_iff in Hb. apply not_true_iff_false in Hb. apply Hb.
         apply existsb_eqb_true. exact Hin.
      -- subst x. apply Hx. exact Hrf.
Qed.

(** ** The active widget *)

Lemma active_flag_cleared f :
  flag_test (flag_clr f (Z.lor GUI_FLAG_ACTIVE GUI_FLAG_TOUCH_MOVE)) GUI_FLAG_ACTIVE = false.
Proof.
unfold flag_test, flag_clr. rewrite <- Z.land_assoc.
change (Z.land (Z.lxor 4294967295 (Z.lor GUI_FLAG_ACTIVE GUI_FLAG_TOUCH_MOVE)) GUI_FLAG_ACTIVE)
  with 0%Z.
now rewrite Z.land_0_r.
Qed.

Lemma touch_move_flag_cleared f :
  flag_test (flag_clr f (Z.lor GUI_FLAG_ACTIVE GUI_FLAG_TOUCH_MOVE)) GUI_FLAG_TOUCH_MOVE = false.
Proof.
unfold flag_test, flag_clr. rewrite <- Z.land_assoc.
change (Z.land (Z.lxor 4294967295 (Z.lor GUI_FLAG_ACTIVE GUI_FLAG_TOUCH_MOVE))
          GUI_FLAG_TOUCH_MOVE) with 0%Z.
now rewrite Z.land_0_r.
Qed.

(** gui_widget_active_set makes [h] the active widget and keeps the
    active flag on the active widget alone.  The widget that was active
    gets the active-out notification, loses the active and the
    touch-move flag and becomes the previous active widget; then [h], if
    not NULL, gets the flag and the active-in notification.  Nothing is
    skipped when [h] is the active widget already: it is notified out
    and in again. *)
Theorem active_set_keeps_marks (g : gui_t) (h : ptr) :
  active_marks g ->
  ActiveWidget (gui_widget_active_set g h) = h /\
  active_marks (gui_widget_active_set g h) /\
  ActiveWidgetPrev (gui_widget_active_set g h)
    = match ActiveWidget g with Some a => Some a | None => ActiveWidgetPrev g end /\
  trace (gui_widget_active_set g h)
    = trace g
      ++ match ActiveWidget g with Some a => [EvCallback a GUI_WC_ActiveOut] | None => [] end
      ++ match h with Some x => [EvCallback x GUI_WC_ActiveIn] | None => [] end /\
  (forall a, ActiveWidget g = Some a -> h <> Some a ->
     guii_widget_getflag (wmem (gui_widget_active_set g h) a) GUI_FLAG_TOUCH_MOVE = false).
Proof.
intros Hm. unfold gui_widget_active_set, gui_widget_active_clear.
destruct (ActiveWidget g) as [a|] eqn:Ea; destruct h as [x|]; cbv zeta.
- split; [reflexivity|]. split; [|split; [simpl; exact Ea|split]].
  + intros y. simpl. unfold upd.
    destruct (Nat.eqb_spec y x) as [->|Hne].
    * unfold guii_widget_getflag, guii_widget_setflag. simpl.
      rewrite flag_test_set_same by discriminate. tauto.
    * split; [|congruence].
      destruct (Nat.eqb_spec y a) as [->|Hna]; intros Hf; exfalso.
      -- unfold guii_widget_getflag, guii_widget_clrflag in Hf. simpl in Hf.
         rewrite active_flag_cleared in Hf. discriminate.
      -- apply Hm in Hf. congruence.
  + simpl. rewrite <- app_assoc. reflexivity.
  + intros a' [= <-] Hne. simpl. unfold upd.
    destruct (Nat.eqb_spec a x) as [->|_]; [congruence|].
    rewrite Nat.eqb_refl. unfold guii_widget_getflag, guii_widget_clrflag. simpl.
    apply touch_move_flag_cleared.
- split; [reflexivity|]. split; [|split; [simpl; exact Ea|split]].
  + intros y. simpl. unfold upd. split; [|discriminate].
    destruct (Nat.eqb_spec y a) as [->|Hna]; intros Hf; exfalso.
    * unfold guii_widget_getflag, guii_widget_clrflag in Hf. simpl in Hf.
      rewrite active_flag_cleared in Hf. discriminate.
    * apply Hm in Hf. congruence.
  + simpl. reflexivity.
  + intros a' [= <-] _. simpl. unfold upd. rewrite Nat.eqb_refl.
    unfold guii_widget_getflag, guii_widget_clrflag. simpl.
    apply touch_move_flag_cleared.
- split; [reflexivity|]. split; [|split; [reflexivity|split]].
  + intros y. simpl. unfold upd.
    destruct (Nat.eqb_spec y x) as [->|Hne].
    * unfold guii_widget_getflag, guii_widget_setflag. simpl.
      rewrite flag_test_set_same by discriminate. tauto.
    * split; [|congruence]. intros Hf. apply Hm in Hf. congruence.
  + reflexivity.
  + intros a' Hd. discriminate.
- split; [reflexivity|]. split; [|split; [reflexivity|split]].
  + intros y. simpl. rewrite (Hm y), Ea. reflexivity.
  + simpl. now rewrite app_nil_r.
  + intros a' Hd. discriminate.
Qed.

(** ** Widgets by id *)

Lemma get_widget_by_id_round_unfold m id deep h kids :
  get_widget_by_id_round m id deep (WNode h kids) =
  if (guii_widget_getid (m h) =? id)%Z then Some h
  else if deep && guii_widget_allowchildren (m h) then get_widget_by_id m id deep kids
  else None.
Proof.
cbn [get_widget_by_id_round].
destruct (guii_widget_getid (m h) =? id)%Z; [reflexivity|].
destruct (deep && guii_widget_allowchildren (m h)); [|reflexivity].
induction kids as [|k r IH]; [reflexivity|].
cbn [get_widget_by_id]. destruct (get_widget_by_id_round m id deep k); [reflexivity | exact IH].
Qed.

Lemma find_app {T : Type} (P : T -> bool) a b :
  find P (a ++ b) = match find P a with Some x => Some x | None => find P b end.
Proof.
induction a as [|x a IH]; simpl; [reflexivity|]. destruct (P x); [reflexivity | exact IH].
Qed.

Lemma get_widget_by_id_round_spec m id deep : forall t,
  get_widget_by_id_round m id deep t
  = find (fun h => (guii_widget_getid (m h) =? id)%Z) (searched m deep t).
Proof.
apply wtree_induction. intros h kids IH.
rewrite get_widget_by_id_round_unfold. cbn [searched find].
destruct (guii_widget_getid (m h) =? id)%Z; [reflexivity|].
destruct (deep && guii_widget_allowchildren (m h)); [|reflexivity].
induction IH as [|k r Hk _ IHr]; [reflexivity|].
cbn [get_widget_by_id flat_map]. rewrite find_app, Hk, IHr. reflexivity.
Qed.

(** get_widget_by_id returns the first widget with the id among those it
    looks at, which are the widgets of the list, each before its
    children, and below a widget only in a deep search and when the
    widget allows children.  A widget that is returned has the id and is
    among those; NULL is returned exactly when none of them has the id.
    guii_widget_getbyid is the deep search from the root list. *)
Theorem get_widget_by_id_first (m : handle -> gui_handle) (id : Z) (deep : bool)
    (ks : list wtree) :
  get_widget_by_id m id deep ks
    = find (fun h => (guii_widget_getid (m h) =? id)%Z) (flat_map (searched m deep) ks) /\
  (forall h, get_widget_by_id m id deep ks = Some h ->
     guii_widget_getid (m h) = id /\ In h (flat_map (searched m deep) ks)) /\
  (get_widget_by_id m id deep ks = None <->
   forall h, In h (flat_map (searched m deep) ks) -> guii_widget_getid (m h) <> id) /\
  (forall g, guii_widget_getbyid g id = get_widget_by_id (wmem g) id true (tree g)).
Proof.
assert (E : get_widget_by_id m id deep ks
            = find (fun h => (guii_widget_getid (m h) =? id)%Z)
                (flat_map (searched m deep) ks)).
{ induction ks as [|k r IH]; [reflexivity|].
  cbn [get_widget_by_id flat_map]. rewrite find_app, get_widget_by_id_round_spec, IH.
  reflexivity. }
split; [exact E|]. rewrite E. split; [|split; [|reflexivity]].
- intros h Hf. apply find_some in Hf. destruct Hf as [Hin Hid].
  apply Z.eqb_eq in Hid. auto.
- split.
  + intros Hn h Hin Hid. apply (find_none _ _ Hn) in Hin. simpl in Hin.
    apply Z.eqb_neq in Hin. contradiction.
  + intros Hall.
    destruct (find (fun h => (guii_widget_getid (m h) =? id)%Z)
                (flat_map (searched m deep) ks)) as [h|] eqn:Ef; [|reflexivity].
    apply find_some in Ef. destruct Ef as [Hin Hid]. apply Z.eqb_eq in Hid.
    exfalso. exact (Hall h Hin Hid).
Qed.

(** ** The public removal *)

(** gui_widget_remove returns 1 whatever guii_widget_remove has done, and
    leaves the handle variable as it was.  When the removal is refused
    (for the desktop, after a veto, for a widget with a descendant that
    may not be removed) the result is 1 all the same, and nothing but
    the trace of the can-remove queries has changed. *)
Theorem remove_reports_success (fuel : nat) (g : gui_t) (h : handle) (c1 c2 : list handle) :
  ancestors fuel g (FocusedWidget g) = Some c1 ->
  ancestors fuel g (parent (wmem g h)) = Some c2 ->
  exists g',
    gui_widget_remove (S (fuel + fuel)) g h = Some (g', Some h, 1%Z) /\
    (forallb (removable g) (descendants_or_self g (subtree_at g h)) = false ->
       same_but_trace g g') /\
    (gui_window_getdesktop g = Some h -> same_but_trace g g' /\ trace g' = trace g) /\
    (forallb (removable g) (descendants_or_self g (subtree_at g h)) = true ->
       guii_widget_getflag (wmem g' h) GUI_FLAG_REMOVE = true).
Proof.
intros H1 H2.
destruct (guii_widget_remove_spec fuel g h c1 c2 H1 H2) as [g' (Hrun & Hno & Hyes)].
exists g'. unfold gui_widget_remove. rewrite Hrun. cbn [fst].
split; [reflexivity|]. split; [intros Hf; apply Hno; exact Hf|]. split.
- intros Hd. destruct (Hno (remove_desktop_refused g h Hd)) as [Hs Ht].
  split; [exact Hs|]. rewrite Ht.
  destruct (descendants_or_self_head g (subtree_at g h)) as [l ->].
  rewrite subtree_at_root. simpl.
  rewrite Hd, Nat.eqb_refl. simpl. now rewrite app_nil_r.
- intros Hf. apply Hyes. exact Hf.
Qed.

(** On the example screen the focus flags mark the path of control 4. *)
Ltac example_marks :=
  let x := fresh "x" in let Hx := fresh "Hx" in
  intros x Hx;
  do 6 (try destruct x as [|x]); simpl in *;
  split; intros; try discriminate; try tauto; try congruence;
  repeat match goal with H : _ \/ _ |- _ => destruct H end;
  try discriminate; try tauto.

Lemma focus_set_keeps_marks_witness :
  root_first example_gui = Some 1 /\ parent (wmem example_gui 1) = None /\
  ancestors 5 example_gui (FocusedWidget example_gui) = Some [4; 3; 2; 1] /\
  ancestors 5 example_gui (Some 5) = Some [5; 1] /\
  focus_marks example_gui [4; 3; 2; 1] /\
  exists g',
    gui_widget_focus_set 11 example_gui (Some 5) = Some g' /\
    focus_marks g' [5; 1].
Proof.
assert (Hm : focus_marks example_gui [4; 3; 2; 1]) by (unfold focus_marks; example_marks).
split; [reflexivity|]. split; [reflexivity|]. split; [reflexivity|]. split; [reflexivity|].
split; [exact Hm|].
destruct (focus_set_keeps_marks 5 example_gui 5 1 [4; 3; 2; 1] [5; 1])
  as [[g' (Hrun & _ & _ & _ & _ & Hm')] _];
  try reflexivity; try exact Hm; try (intros _; simpl; tauto); try (simpl; tauto).
exists g'. split; [exact Hrun | exact Hm'].
Defined.

Lemma focus_clear_clears_witness :
  root_first example_gui = Some 1 /\
  ancestors 5 example_gui (FocusedWidget example_gui) = Some ([4; 3; 2] ++ [1]) /\
  ~ In 1 [4; 3; 2] /\ focus_marks example_gui ([4; 3; 2] ++ [1]) /\
  exists g',
    gui_widget_focus_clear 5 example_gui = Some g' /\ focus_marks g' [].
Proof.
assert (Hm : focus_marks example_gui ([4; 3; 2] ++ [1]))
  by (unfold focus_marks; example_marks).
assert (Hn : ~ In 1 [4; 3; 2]) by (simpl; intuition discriminate).
split; [reflexivity|]. split; [reflexivity|]. split; [exact Hn|]. split; [exact Hm|].
destruct (focus_clear_clears 5 example_gui 1 [4; 3; 2] eq_refl eq_refl Hn Hm)
  as [g' (Hrun & _ & _ & _ & Hm')].
exists g'. split; [exact Hrun | exact Hm'].
Defined.

Lemma active_set_keeps_marks_witness :
  active_marks example_gui /\
  active_marks (gui_widget_active_set (gui_widget_active_set example_gui (Some 5)) (Some 4)) /\
  trace (gui_widget_active_set (gui_widget_active_set example_gui (Some 5)) (Some 4))
    = [EvCallback 5 GUI_WC_ActiveIn; EvCallback 5 GUI_WC_ActiveOut;
       EvCallback 4 GUI_WC_ActiveIn].
Proof.
assert (Hm : active_marks example_gui).
{ intros x. do 6 (try destruct x as [|x]); simpl; split; intros; discriminate. }
split; [exact Hm|].
destruct (active_set_keeps_marks example_gui (Some 5) Hm) as (_ & Hm1 & _).
destruct (active_set_keeps_marks (gui_widget_active_set example_gui (Some 5)) (Some 4) Hm1)
  as (_ & Hm2 & _ & Ht & _).
split; [exact Hm2 | reflexivity].
Defined.

Lemma remove_reports_success_witness :
  ancestors 5 example_gui (FocusedWidget example_gui) = Some [4; 3; 2; 1] /\
  ancestors 5 example_gui (parent (wmem example_gui 1)) = Some [] /\
  exists g',
    gui_widget_remove 11 example_gui 1 = Some (g', Some 1, 1%Z) /\
    same_but_trace example_gui g' /\ trace g' = trace example_gui.
Proof.
split; [reflexivity|]. split; [reflexivity|].
destruct (remove_reports_success 5 example_gui 1 [4; 3; 2; 1] [] eq_refl eq_refl)
  as [g' (Hrun & _ & Hd & _)].
exists g'. split; [exact Hrun|]. apply Hd. reflexivity.
Defined.

(** On the example screen, with ids given to the widgets by their
    handles, the search for the id of control 4 goes down through the
    windows 2 and 3. *)
Example getbyid_example :
  get_widget_by_id (fun h => mk_handle (mk_linkedlist None None) (Z.of_nat h)
                               (widget (example_memory h)) None None 0 0xFF 0
                               None None None (mk_linkedlistroot None None))
    4 true example_tree = Some 4 /\
  get_widget_by_id (fun h => mk_handle (mk_linkedlist None None) (Z.of_nat h)
                               (widget (example_memory h)) None None 0 0xFF 0
                               None None None (mk_linkedlistroot None None))
    4 false example_tree = None.
Proof. split; reflexivity. Qed.

(** ** The registry of dialogs: registering and finding *)

Lemma is_entry_of_ext st st' h e :
  dl_h (mem (ddlist st') e) = dl_h (mem (ddlist st) e) ->
  dl_id (mem (ddlist st') e) = dl_id (mem (ddlist st) e) ->
  guii_widget_getid (wmem (GUI st') h) = guii_widget_getid (wmem (GUI st) h) ->
  is_entry_of st' h e = is_entry_of st h e.
Proof. intros H1 H2 H3. unfold is_entry_of. now rewrite H1, H2, H3. Qed.

Lemma find_ext_in {T : Type} (P Q : T -> bool) l :
  (forall x, In x l -> P x = Q x) -> find P l = find Q l.
Proof.
induction l as [|x r IH]; intros E; [reflexivity|]. simpl.
rewrite (E x (or_introl eq_refl)). destruct (Q x); [reflexivity|].
apply IH. intros y Hy. apply E. now right.
Qed.

(** What add_to_active_dialogs leaves: the registry with the new entry at
    its end, the entry filled in, the other entries as they were. *)
Lemma add_to_active_dialogs_spec st l e h :
  dll (ddlist st) l -> ~ In e l ->
  dll (ddlist (fst (add_to_active_dialogs st (Some e) h))) (l ++ [e]) /\
  is_entry_of (fst (add_to_active_dialogs st (Some e) h)) h e = true /\
  (forall x h', x <> e ->
     is_entry_of (fst (add_to_active_dialogs st (Some e) h)) h' x = is_entry_of st h' x) /\
  wmem (GUI (fst (add_to_active_dialogs st (Some e) h))) = wmem (GUI st).
Proof.
intros Hd He. unfold add_to_active_dialogs. cbv zeta. cbn [fst].
set (d1 := mk_lstate (root (ddlist st))
             (upd (mem (ddlist st)) e (fun a =>
                mk_dissmissed (dl_list a)
                  (guii_widget_getid (wmem (log (EvMemAlloc e) (GUI st)) h)) (Some h)
                  (dl_status a) (dl_sem a) (dl_ib a)))).
assert (Hd1 : dll d1 l).
{ destruct Hd as [Hn Hd]. split; [exact Hn|].
  apply dseg_frame with (s := ddlist st); [|exact Hd].
  intros x _. unfold lk, d1. simpl. unfold upd. destruct (Nat.eqb x e); reflexivity. }
assert (Hlo := add_gen_links_only d1 e).
split; [apply add_gen_dll; assumption|]. split; [|split; [|reflexivity]].
- unfold is_entry_of. cbn [ddlist GUI]. rewrite (Hlo e). simpl.
  unfold d1. simpl. rewrite upd_same. simpl.
  rewrite Nat.eqb_refl, Z.eqb_refl. reflexivity.
- intros x h' Hx. unfold is_entry_of. cbn [ddlist GUI]. rewrite (Hlo x). simpl.
  unfold d1. simpl. rewrite upd_other by exact Hx. reflexivity.
Qed.

(** A dialog that was registered is found: after add_to_active_dialogs
    get_dialog returns an entry that holds the handle and its id, and it
    returns the new entry when the handle was not registered before.
    When the allocation fails nothing is registered and nothing
    changes. *)
Theorem registered_dialog_found (fuel : nat) (st : dialogs_t) (l : list handle)
    (e h : handle) :
  dll (ddlist st) l -> ~ In e l -> length l < fuel ->
  (exists e',
     get_dialog fuel (fst (add_to_active_dialogs st (Some e) h)) h = Some (Some e') /\
     is_entry_of (fst (add_to_active_dialogs st (Some e) h)) h e' = true) /\
  ((forall x, In x l -> is_entry_of st h x = false) ->
   get_dialog fuel (fst (add_to_active_dialogs st (Some e) h)) h = Some (Some e)) /\
  snd (add_to_active_dialogs st (Some e) h) = Some e /\
  add_to_active_dialogs st None h = (st, None).
Proof.
intros Hd He Hf.
destruct (add_to_active_dialogs_spec st l e h Hd He) as (Hd' & Hent & Hold & _).
set (st' := fst (add_to_active_dialogs st (Some e) h)) in *.
assert (Hget : get_dialog fuel st' h = Some (find (is_entry_of st' h) (l ++ [e]))).
{ apply get_dialog_spec; [exact Hd'|]. rewrite length_app. simpl. lia. }
rewrite Hget. split; [|split; [|split; reflexivity]].
- destruct (find (is_entry_of st' h) (l ++ [e])) as [e'|] eqn:Ef.
  + exists e'. split; [reflexivity|]. apply find_some in Ef. tauto.
  + exfalso. rewrite (find_none _ _ Ef e) in Hent; [discriminate|].
    apply in_or_app. simpl. auto.
- intros Hno. rewrite find_app.
  rewrite (find_ext_in (is_entry_of st' h) (is_entry_of st h) l).
  + destruct (find (is_entry_of st h) l) as [x|] eqn:Ef.
    * apply find_some in Ef. destruct Ef as [Hin Hx]. rewrite (Hno x Hin) in Hx. discriminate.
    * simpl. rewrite Hent. reflexivity.
  + intros x Hx. apply Hold. intros ->. contradiction.
Qed.

Lemma registered_dialog_found_witness :
  dll (ddlist example_dialogs) [7] /\ ~ In 8 [7] /\ length [7] < 3 /\
  get_dialog 3 (fst (add_to_active_dialogs example_dialogs (Some 8) 5)) 5 = Some (Some 8).
Proof.
assert (Hd : dll (ddlist example_dialogs) [7]).
{ split; [repeat constructor; simpl; tauto|]. simpl. auto. }
assert (Hn : ~ In 8 [7]) by (simpl; intuition discriminate).
assert (Hf : length [7] < 3) by (simpl; lia).
split; [exact Hd|]. split; [exact Hn|]. split; [exact Hf|].
destruct (registered_dialog_found 3 example_dialogs [7] 8 5 Hd Hn Hf) as (_ & Hnew & _).
apply Hnew. intros x [<-|[]]. reflexivity.
Defined.

(** ** Removal, from the request to the sweep *)

Lemma differ_in_refl F w : differ_in F w w.
Proof. split; [reflexivity | intros; reflexivity]. Qed.

Lemma differ_in_trans F w1 w2 w3 :
  differ_in F w1 w2 -> differ_in F w2 w3 -> differ_in F w1 w3.
Proof.
intros [E1 H1] [E2 H2]. split; [congruence|].
intros m Hm. rewrite H2, H1 by exact Hm. reflexivity.
Qed.

Lemma differ_in_weaken F G w w' :
  (forall f, In f F -> In f G) -> differ_in F w w' -> differ_in G w w'.
Proof. intros Hs [E H]. split; [exact E|]. intros m Hm. apply H. auto. Qed.

Lemma differ_in_setflag f w : differ_in [f] w (guii_widget_setflag w f).
Proof.
split; [reflexivity|]. intros m Hm. destruct (Hm f (or_introl eq_refl)) as [H0 _].
unfold guii_widget_getflag, guii_widget_setflag. simpl.
apply flag_test_set_other. exact H0.
Qed.

Lemma differ_in_clrflag f w : differ_in [f] w (guii_widget_clrflag w f).
Proof.
split; [reflexivity|]. intros m Hm. destruct (Hm f (or_introl eq_refl)) as [_ H1].
unfold guii_widget_getflag, guii_widget_clrflag. simpl.
apply flag_test_clr_other. exact H1.
Qed.

Lemma differ_in_fold_focus_out l : forall g y,
  differ_in [GUI_FLAG_FOCUS] (wmem g y) (wmem (fold_left focus_out_step l g) y).
Proof.
induction l as [|x r IH]; intros g y; [apply differ_in_refl|].
simpl fold_left. eapply differ_in_trans; [|apply IH].
simpl. unfold upd. destruct (Nat.eqb y x); [apply differ_in_clrflag | apply differ_in_refl].
Qed.

Lemma differ_in_fold_focus_in l : forall g y,
  differ_in [GUI_FLAG_FOCUS] (wmem g y) (wmem (fold_left focus_in_step l g) y).
Proof.
induction l as [|x r IH]; intros g y; [apply differ_in_refl|].
simpl fold_left. eapply differ_in_trans; [|apply IH].
simpl. unfold upd. destruct (Nat.eqb y x); [apply differ_in_setflag | apply differ_in_refl].
Qed.

Lemma differ_in_set_focus_spec g target c1 c2 y :
  differ_in [GUI_FLAG_FOCUS] (wmem g y) (wmem (set_focus_spec g target c1 c2) y).
Proof.
unfold set_focus_spec. destruct (ptr_eqb (FocusedWidget g) target); [apply differ_in_refl|].
cbv zeta. eapply differ_in_trans; [|apply differ_in_fold_focus_in].
change (wmem (set_FocusedWidget target ?a)) with (wmem a).
apply differ_in_fold_focus_out.
Qed.

Lemma freed_callbacks (f : handle -> list event) l :
  (forall x, freed (f x) = []) -> freed (flat_map f l) = [].
Proof.
intros Hf. induction l as [|x r IH]; [reflexivity|].
cbn [flat_map]. now rewrite freed_app, Hf, IH.
Qed.

Lemma freed_set_focus_spec g target c1 c2 :
  freed (trace (set_focus_spec g target c1 c2)) = freed (trace g).
Proof.
unfold set_focus_spec. destruct (ptr_eqb (FocusedWidget g) target); [reflexivity|].
cbv zeta. rewrite trace_fold_focus_in. simpl trace. rewrite trace_fold_focus_out.
rewrite !freed_app, !freed_callbacks by reflexivity. now rewrite !app_nil_r.
Qed.

Lemma trace_set_focus_spec_grows g target c1 c2 :
  exists E, trace (set_focus_spec g target c1 c2) = trace g ++ E.
Proof.
unfold set_focus_spec. destruct (ptr_eqb (FocusedWidget g) target).
- exists []. now rewrite app_nil_r.
- cbv zeta. rewrite trace_fold_focus_in. simpl trace. rewrite trace_fold_focus_out.
  eexists. rewrite <- app_assoc. reflexivity.
Qed.

Lemma tree_set_focus_spec g target c1 c2 : tree (set_focus_spec g target c1 c2) = tree g.
Proof.
unfold set_focus_spec. destruct (ptr_eqb (FocusedWidget g) target); [reflexivity|].
cbv zeta. rewrite tree_fold_focus_in. simpl tree. apply tree_fold_focus_out.
Qed.

Lemma Desktop_set_focus_spec g target c1 c2 :
  Desktop (set_focus_spec g target c1 c2) = Desktop g.
Proof.
unfold set_focus_spec. destruct (ptr_eqb _ _); [reflexivity|].
assert (Ht : forall l g0, Desktop (fold_left focus_in_step l g0) = Desktop g0)
  by (induction l; intros; simpl; [reflexivity | now rewrite IHl]).
assert (Ht' : forall l g0, Desktop (fold_left focus_out_step l g0) = Desktop g0)
  by (induction l; intros; simpl; [reflexivity | now rewrite IHl]).
rewrite Ht. simpl. now rewrite Ht'.
Qed.

(** The same of what the call leaves for any target, NULL included. *)
Lemma focus_set_result_frame g target c1 c2 :
  tree (focus_set_result g target c1 c2) = tree g /\
  Desktop (focus_set_result g target c1 c2) = Desktop g /\
  freed (trace (focus_set_result g target c1 c2)) = freed (trace g) /\
  (exists E, trace (focus_set_result g target c1 c2) = trace g ++ E) /\
  forall y, differ_in [GUI_FLAG_FOCUS] (wmem g y) (wmem (focus_set_result g target c1 c2) y).
Proof.
destruct target as [t|]; simpl.
- split; [apply tree_set_focus_spec|]. split; [apply Desktop_set_focus_spec|].
  split; [apply freed_set_focus_spec|]. split; [apply trace_set_focus_spec_grows|].
  intros y. apply differ_in_set_focus_spec.
- split; [reflexivity|]. split; [reflexivity|]. split; [reflexivity|].
  split; [exists []; now rewrite app_nil_r | intros y; apply differ_in_refl].
Qed.

(** guii_widget_remove writes flags only, and of these the focus and the
    being-removed bit; it frees nothing and leaves the lists alone. *)
Lemma guii_widget_remove_keeps (fuel : nat) (g : gui_t) (h : handle) (c1 c2 : list handle) :
  ancestors fuel g (FocusedWidget g) = Some c1 ->
  ancestors fuel g (parent (wmem g h)) = Some c2 ->
  exists g' c,
    guii_widget_remove (S (fuel + fuel)) g h = Some (g', c) /\
    tree g' = tree g /\ Desktop g' = Desktop g /\
    freed (trace g') = freed (trace g) /\
    (forall ev, In ev (trace g) -> In ev (trace g')) /\
    forall x, differ_in [GUI_FLAG_FOCUS; GUI_FLAG_REMOVE] (wmem g x) (wmem g' x).
Proof.
intros H1 H2. unfold guii_widget_remove.
destruct (can_remove_widget_spec (subtree_at g h) g) as [Hs _].
pose proof (can_remove_widget_trace (subtree_at g h) g) as Htr.
destruct (can_remove_widget g (subtree_at g h)) as [g1 c]. simpl in Hs, Htr.
unfold same_but_trace in Hs. decompose [and] Hs. clear Hs.
assert (Hfr1 : freed (trace g1) = freed (trace g)).
{ rewrite Htr, freed_app.
  assert (K : forall l, freed (map (fun x => EvCallback x GUI_WC_Remove) l) = [])
    by (induction l; [reflexivity | assumption]).
  now rewrite K, app_nil_r. }
assert (Hin1 : forall ev, In ev (trace g) -> In ev (trace g1)).
{ intros ev Hev. rewrite Htr. apply in_or_app. auto. }
destruct (negb (c =? 0)%Z); cbv iota zeta.
- set (g2 := on_widget h (fun w => guii_widget_setflag w GUI_FLAG_REMOVE) g1).
  set (g3 := set_GUI_Flags (flag_set (GUI_Flags g2) GUI_FLAG_REMOVE) g2).
  assert (Hd3 : forall x, differ_in [GUI_FLAG_FOCUS; GUI_FLAG_REMOVE] (wmem g x) (wmem g3 x)).
  { intros x. simpl. unfold upd. rewrite H. destruct (Nat.eqb x h).
    - apply differ_in_weaken with (F := [GUI_FLAG_REMOVE]); [simpl; tauto|].
      apply differ_in_setflag.
    - apply differ_in_refl. }
  assert (Hpar : forall x, parent (wmem g3 x) = parent (wmem g x)).
  { intros x. simpl. unfold upd. rewrite H. destruct (Nat.eqb x h); reflexivity. }
  destruct (guii_widget_isfocused (wmem g3 h)).
  + rewrite (gui_widget_focus_set_result fuel g3 (parent (wmem g3 h)) c1 c2).
    * set (g4 := focus_set_result g3 (parent (wmem g3 h)) c1 c2).
      destruct (focus_set_result_frame g3 (parent (wmem g3 h)) c1 c2)
        as (Ht4 & Hk4 & Hf4 & [E HE] & Hd4').
      fold g4 in Ht4, Hk4, Hf4, HE, Hd4'.
      assert (Ht4' : tree g3 = tree g) by (simpl; assumption).
      assert (Hk4' : Desktop g3 = Desktop g) by (simpl; assumption).
      assert (Hf4' : freed (trace g3) = freed (trace g)) by (simpl; exact Hfr1).
      rewrite Ht4' in Ht4. rewrite Hk4' in Hk4. rewrite Hf4' in Hf4.
      assert (Hd4 : forall x, differ_in [GUI_FLAG_FOCUS; GUI_FLAG_REMOVE] (wmem g x) (wmem g4 x)).
      { intros x. eapply differ_in_trans; [apply Hd3|].
        apply differ_in_weaken with (F := [GUI_FLAG_FOCUS]); [simpl; tauto|].
        apply Hd4'. }
      assert (Hin4 : forall ev, In ev (trace g) -> In ev (trace g4)).
      { intros ev Hev. rewrite HE. apply in_or_app. left. apply Hin1. exact Hev. }
      eexists _, _. split; [reflexivity|].
      destruct (GUI_CFG_OS g4); simpl; rewrite ?freed_app; simpl; rewrite ?app_nil_r;
        (split; [exact Ht4|]); (split; [exact Hk4|]); (split; [exact Hf4|]);
        (split; [|exact Hd4]); intros ev Hev; [apply in_or_app; left|]; apply Hin4; exact Hev.
    * rewrite (ancestors_ext fuel g g3 Hpar). simpl FocusedWidget. rewrite H4. exact H1.
    * rewrite (ancestors_ext fuel g g3 Hpar). rewrite Hpar. exact H2.
  + eexists _, _. split; [reflexivity|].
    destruct (GUI_CFG_OS g3); simpl; rewrite ?freed_app; simpl; rewrite ?app_nil_r;
      (split; [assumption|]); (split; [assumption|]); (split; [exact Hfr1|]);
      (split; [|exact Hd3]); intros ev Hev; [apply in_or_app; left|]; apply Hin1; exact Hev.
- eexists _, _. split; [reflexivity|]. split; [assumption|]. split; [assumption|].
  split; [exact Hfr1|]. split; [exact Hin1|]. intros x. rewrite H. apply differ_in_refl.
Qed.

Lemma differ_in_attrs w w' :
  differ_in [GUI_FLAG_FOCUS; GUI_FLAG_REMOVE] w w' ->
  parent w' = parent w /\ Id w' = Id w /\
  guii_widget_allowchildren w' = guii_widget_allowchildren w.
Proof.
intros [E Hf]. split; [exact (f_equal parent E)|]. split; [exact (f_equal Id E)|].
unfold guii_widget_allowchildren, guii_widget_getcoreflag.
change (widget w') with (widget (with_flags 0 w')). rewrite E. simpl.
f_equal. apply Hf. intros f [<-|[<-|[]]]; split; reflexivity.
Qed.

Lemma descendants_or_self_ext g g' : 
  (forall x, guii_widget_allowchildren (wmem g' x) = guii_widget_allowchildren (wmem g x)) ->
  forall t, descendants_or_self g' t = descendants_or_self g t.
Proof.
intros E. apply wtree_induction. intros h kids IH.
cbn [descendants_or_self]. rewrite E. f_equal.
destruct (guii_widget_allowchildren (wmem g h)); [|reflexivity].
induction IH as [|k r Hk _ IHr]; [reflexivity|].
cbn [flat_map]. now rewrite Hk, IHr.
Qed.

Lemma containers_ok_ext m m' :
  (forall x, guii_widget_allowchildren (m' x) = guii_widget_allowchildren (m x)) ->
  forall t, containers_ok m' t = containers_ok m t.
Proof.
intros E. apply wtree_induction. intros h kids IH.
cbn [containers_ok]. rewrite E. f_equal.
induction IH as [|k r Hk _ IHr]; [reflexivity|].
cbn [forallb]. now rewrite Hk, IHr.
Qed.

Lemma forallb_pointwise_in {T : Type} (P Q : T -> bool) l :
  (forall x, In x l -> P x = Q x) -> forallb P l = forallb Q l.
Proof.
induction l as [|x r IH]; intros E; [reflexivity|]. simpl.
rewrite (E x (or_introl eq_refl)), IH; [reflexivity|]. intros y Hy. apply E. now right.
Qed.

(** The sweep when one widget alone is flagged. *)
Lemma executeremove_one (fuel : nat) (g : gui_t) (h : handle) :
  sweep_ready g -> flag_test (GUI_Flags g) GUI_FLAG_REMOVE = true ->
  only_flagged g h -> forallb (containers_ok (wmem g)) (tree g) = true ->
  exists g' D,
    gui_widget_executeremove fuel g = Some (g', 1%Z) /\
    freed (trace g') = freed (trace g) ++ D /\
    Permutation D (descendants_or_self g (subtree_at g h)) /\
    (forall x, In x D ->
       ~ In x (flat_map handles_of (tree g')) /\
       FocusedWidget g' <> Some x /\ FocusedWidgetPrev g' <> Some x /\
       ActiveWidget g' <> Some x /\ ActiveWidgetPrev g' <> Some x /\
       WindowActive g' <> Some x) /\
    (forall x, In x (flat_map handles_of (tree g')) -> In x (flat_map handles_of (tree g))) /\
    flag_test (GUI_Flags g') GUI_FLAG_REMOVE = false.
Proof.
intros (Hnd & Hpo & Hroot) Hfl [Hin Honly] Hc.
unfold gui_widget_executeremove. rewrite Hfl. unfold remove_widgets.
set (D := flat_map (doomed false (wmem g)) (tree g)).
destruct (sweep_list_spec fuel (tree g)
            (proj2 (Forall_forall _ _) (fun t _ => sweep_node_spec fuel t))
            g 0 None Hnd Hpo) as [g1 [Hrun S1]].
{ intros k Hk Hf. rewrite forallb_forall in Hroot. specialize (Hroot k Hk).
  rewrite Hf in Hroot. discriminate. }
rewrite Hrun. cbn iota beta.
pose proof (swept_notify (wmem g) 0 g1) as Sn.
pose proof (swept_trans _ _ _ _ _ _ _ _ _ _ S1 Sn) as S2.
rewrite !app_nil_r in S2. fold D in S2.
set (g2 := sweep_notify 0 g1) in *.
set (E := flat_map (sweep_events false (wmem g) (GUI_CFG_OS g) 0) (tree g)) in *.
eexists _, D. split; [reflexivity|].
assert (Hfreed : freed E = D).
{ unfold E, D. clear. induction (tree g) as [|t r IH]; [reflexivity|].
  cbn [flat_map]. now rewrite freed_app, freed_sweep_events, IH. }
assert (Htrace : freed (trace g2) = freed (trace g) ++ D).
{ rewrite (sw_trace _ _ _ _ _ _ S2), !freed_app, Hfreed.
  destruct (GUI_CFG_OS g1 && Nat.eqb 0 0); simpl; now rewrite app_nil_r. }
assert (Hlate : late_parents (wmem g) [] D).
{ apply (doomed_list_late (wmem g) (tree g)
           (proj2 (Forall_forall _ _) (fun t _ => doomed_late (wmem g) t))
           false None [] Hnd Hpo).
  - intros z [=].
  - intros z []. }
cbn [trace set_GUI_Flags tree FocusedWidget FocusedWidgetPrev ActiveWidget
     ActiveWidgetPrev WindowActive GUI_Flags].
split; [exact Htrace|]. split; [|split; [|split]].
- assert (HD : D = doomed true (wmem g) (subtree_at g h)).
  { unfold D. rewrite (doomed_list_single (wmem g) h (tree g)); [| |exact Hnd|exact Hc| |].
    - unfold subtree_at. destruct (find_in h (tree g)) as [s|] eqn:Ef; [reflexivity|].
      exfalso. clear - Hin Ef. induction (tree g) as [|t r IH]; [destruct Hin|].
      cbn [find_in flat_map] in *. destruct (find_subtree h t) eqn:Et; [discriminate|].
      apply in_app_or in Hin. destruct Hin as [Hin|Hin]; [|now apply IH].
      now apply find_subtree_none in Et.
    - apply Forall_forall. intros t _. apply doomed_single.
    - intros x Hx Hf. now apply Honly.
    - now apply Honly. }
  rewrite HD. apply doomed_inherited_all.
- intros x Hx. split; [|split; [|split; [|split; [|split]]]].
  + rewrite (sw_tree _ _ _ _ _ _ S2). intros Hi. apply prune_handles in Hi. tauto.
  + rewrite (sw_focused _ _ _ _ _ _ S2).
    apply (redirect_avoids _ _ [] _ Hlate); [intros y []|now right].
  + rewrite (sw_focused_prev _ _ _ _ _ _ S2).
    apply (drop_owner_avoids _ []); [intros y []|now right].
  + rewrite (sw_active _ _ _ _ _ _ S2).
    apply (drop_owner_avoids _ []); [intros y []|now right].
  + rewrite (sw_active_prev _ _ _ _ _ _ S2).
    apply (redirect_avoids _ _ [] _ Hlate); [intros y []|now right].
  + rewrite (sw_window _ _ _ _ _ _ S2).
    apply (redirect_avoids _ _ [] _ Hlate); [intros y []|now right].
- intros x. rewrite (sw_tree _ _ _ _ _ _ S2). intros Hi. apply prune_handles in Hi. tauto.
- apply flag_test_clr_same. reflexivity.
Qed.

(** Removing a widget and running the sweep.  Let the lists be well
    formed (no widget linked twice, the parent pointers as the lists
    have them, children only below widgets that allow them), let no
    widget be flagged for removal, and let [h] be a linked widget that
    is not in the root list and may be removed together with all its
    descendants.  Then guii_widget_remove returns 1 and the sweep
    returns 1; together they free [h] and its descendants, each of them
    once, and nothing else; afterwards none of these widgets is linked
    or referenced by the focus, previous focus, active, previous active
    or active window slot, and a second sweep returns 0 and does
    nothing. *)
Theorem remove_then_sweep (fuel k : nat) (g : gui_t) (h : handle) (c1 c2 : list handle) :
  NoDup (flat_map handles_of (tree g)) ->
  forallb (parents_ok (wmem g) None) (tree g) = true ->
  forallb (containers_ok (wmem g)) (tree g) = true ->
  (forall x, In x (flat_map handles_of (tree g)) ->
     guii_widget_getflag (wmem g x) GUI_FLAG_REMOVE = false) ->
  In h (flat_map handles_of (tree g)) ->
  (forall t, In t (tree g) -> wroot t <> h) ->
  forallb (removable g) (descendants_or_self g (subtree_at g h)) = true ->
  ancestors fuel g (FocusedWidget g) = Some c1 ->
  ancestors fuel g (parent (wmem g h)) = Some c2 ->
  exists g1 g2 D,
    guii_widget_remove (S (fuel + fuel)) g h = Some (g1, 1%Z) /\
    gui_widget_executeremove k g1 = Some (g2, 1%Z) /\
    freed (trace g2) = freed (trace g) ++ D /\
    Permutation D (descendants_or_self g (subtree_at g h)) /\
    (forall x, In x (descendants_or_self g (subtree_at g h)) ->
       ~ In x (flat_map handles_of (tree g2)) /\
       FocusedWidget g2 <> Some x /\ FocusedWidgetPrev g2 <> Some x /\
       ActiveWidget g2 <> Some x /\ ActiveWidgetPrev g2 <> Some x /\
       WindowActive g2 <> Some x) /\
    gui_widget_executeremove k g2 = Some (g2, 0%Z).
Proof.
intros Hnd Hpo Hco Hnone Hin Hnr Hok A1 A2.
destruct (guii_widget_remove_spec fuel g h c1 c2 A1 A2) as [g1 (Hrun & _ & Hyes)].
rewrite Hok in Hrun. destruct (Hyes Hok) as (Hfh & Hgf & Ht1 & Hother).
destruct (guii_widget_remove_keeps fuel g h c1 c2 A1 A2)
  as [g1' [c (Hrun' & _ & _ & Hfr & _ & Hdiff)]].
rewrite Hrun in Hrun'. injection Hrun' as <- <-.
assert (Hattr : forall x, parent (wmem g1 x) = parent (wmem g x) /\
                          Id (wmem g1 x) = Id (wmem g x) /\
                          guii_widget_allowchildren (wmem g1 x)
                          = guii_widget_allowchildren (wmem g x)).
{ intros x. apply differ_in_attrs. apply Hdiff. }
assert (Hready : sweep_ready g1).
{ split; [rewrite Ht1; exact Hnd|]. split.
  - rewrite Ht1. rewrite <- Hpo. apply forallb_pointwise_in. intros t _.
    apply parents_ok_ext. intros x. apply Hattr.
  - rewrite Ht1. apply forallb_forall. intros t Ht. apply negb_true_iff.
    rewrite Hother by (apply Hnr; exact Ht). apply Hnone.
    apply in_flat_map. exists t. split; [exact Ht|]. destruct t. simpl. auto. }
assert (Honly : only_flagged g1 h).
{ split; [rewrite Ht1; exact Hin|]. intros x Hx. rewrite Ht1 in Hx. split.
  - intros Hf. destruct (Nat.eq_dec x h) as [E|Hne]; [exact E|].
    rewrite (Hother x Hne), (Hnone x Hx) in Hf. discriminate.
  - intros ->. exact Hfh. }
assert (Hco1 : forallb (containers_ok (wmem g1)) (tree g1) = true).
{ rewrite Ht1, <- Hco. apply forallb_pointwise_in. intros t _.
  apply containers_ok_ext. intros x. apply Hattr. }
destruct (executeremove_one k g1 h Hready Hgf Honly Hco1)
  as [g2 [D (Hrun2 & Hfr2 & HP & Hgone & _ & Hclear)]].
assert (Hdesc : descendants_or_self g1 (subtree_at g1 h)
                = descendants_or_self g (subtree_at g h)).
{ unfold subtree_at. rewrite Ht1. apply descendants_or_self_ext. intros x. apply Hattr. }
rewrite Hdesc in HP.
exists g1, g2, D. split; [exact Hrun|]. split; [exact Hrun2|].
split; [rewrite Hfr2, Hfr; reflexivity|]. split; [exact HP|]. split.
- intros x Hx. apply Hgone. eapply Permutation_in; [symmetry; exact HP | exact Hx].
- unfold gui_widget_executeremove. rewrite Hclear. reflexivity.
Qed.

(** On the example screen window 2 goes with window 3 and control 4. *)
Lemma remove_then_sweep_witness :
  NoDup (flat_map handles_of (tree example_gui)) /\
  forallb (parents_ok (wmem example_gui) None) (tree example_gui) = true /\
  forallb (containers_ok (wmem example_gui)) (tree example_gui) = true /\
  (forall x, In x (flat_map handles_of (tree example_gui)) ->
     guii_widget_getflag (wmem example_gui x) GUI_FLAG_REMOVE = false) /\
  In 2 (flat_map handles_of (tree example_gui)) /\
  (forall t, In t (tree example_gui) -> wroot t <> 2) /\
  forallb (removable example_gui)
    (descendants_or_self example_gui (subtree_at example_gui 2)) = true /\
  ancestors 5 example_gui (FocusedWidget example_gui) = Some [4; 3; 2; 1] /\
  ancestors 5 example_gui (parent (wmem example_gui 2)) = Some [1] /\
  exists g1 g2 D,
    guii_widget_remove 11 example_gui 2 = Some (g1, 1%Z) /\
    gui_widget_executeremove 5 g1 = Some (g2, 1%Z) /\
    freed (trace g2) = freed (trace example_gui) ++ D /\
    Permutation D [2; 3; 4].
Proof.
assert (Hnd : NoDup (flat_map handles_of (tree example_gui))).
{ change (NoDup [1; 5; 2; 3; 4]). repeat constructor; simpl; intuition discriminate. }
assert (Hnone : forall x, In x (flat_map handles_of (tree example_gui)) ->
          guii_widget_getflag (wmem example_gui x) GUI_FLAG_REMOVE = false).
{ intros x Hx. change (In x [1; 5; 2; 3; 4]) in Hx.
  repeat (destruct Hx as [<-|Hx]; [reflexivity|]). destruct Hx. }
assert (Hin : In 2 (flat_map handles_of (tree example_gui))) by (simpl; auto).
assert (Hnr : forall t, In t (tree example_gui) -> wroot t <> 2).
{ intros t [<-|[]]. discriminate. }
split; [exact Hnd|]. split; [reflexivity|]. split; [reflexivity|]. split; [exact Hnone|].
split; [exact Hin|]. split; [exact Hnr|]. split; [reflexivity|]. split; [reflexivity|].
split; [reflexivity|].
destruct (remove_then_sweep 5 5 example_gui 2 [4; 3; 2; 1] [1]
            Hnd eq_refl eq_refl Hnone Hin Hnr eq_refl eq_refl eq_refl)
  as [g1 [g2 [D (R1 & R2 & Hfr & HP & _)]]].
exists g1, g2, D. auto.
Defined.

(** ** Dialogs: dismissing twice *)

(** A dialog is dismissed once.  Let the registry hold exactly one entry
    for [h], and let it not be an entry that a blocking creation waits
    on.  Then gui_dialog_dismiss takes the entry out of the registry and
    frees it, and afterwards the dialog is not registered: get_dialog
    returns NULL, and a second gui_dialog_dismiss changes nothing. *)
Theorem dismiss_twice (fuel : nat) (st : dialogs_t) (h : handle) (status status' : Z)
    (l1 l2 : list handle) (e : handle) (c1 c2 : list handle) :
  dll (ddlist st) (l1 ++ e :: l2) -> length (l1 ++ e :: l2) <= S (fuel + fuel) ->
  is_entry_of st h e = true ->
  (forall x, In x (l1 ++ l2) -> is_entry_of st h x = false) ->
  GUI_CFG_OS (GUI st) && (dl_ib (mem (ddlist st) e) && dl_sem (mem (ddlist st) e)) = false ->
  ancestors fuel (GUI st) (FocusedWidget (GUI st)) = Some c1 ->
  ancestors fuel (GUI st) (parent (wmem (GUI st) h)) = Some c2 ->
  exists st1,
    gui_dialog_dismiss (S (fuel + fuel)) st h status = Some (st1, 0%Z) /\
    dll (ddlist st1) (l1 ++ l2) /\
    In (EvMemFreeEntry e) (trace (GUI st1)) /\
    get_dialog (S (fuel + fuel)) st1 h = Some None /\
    gui_dialog_dismiss (S (fuel + fuel)) st1 h status' = Some (st1, 0%Z).
Proof.
intros Hd Hf He Hno Hnb H1 H2.
assert (Hfind : find (is_entry_of st h) (l1 ++ e :: l2) = Some e).
{ rewrite find_app.
  destruct (find (is_entry_of st h) l1) as [x|] eqn:Ef.
  - apply find_some in Ef. destruct Ef as [Hin Hx].
    rewrite (Hno x (in_or_app _ _ _ (or_introl Hin))) in Hx. discriminate.
  - simpl. rewrite He. reflexivity. }
unfold gui_dialog_dismiss at 1.
rewrite (get_dialog_spec _ st h _ Hd Hf), Hfind. cbv zeta.
set (st1 := set_status e status st).
set (g1 := fst (guii_widget_callback (GUI st1) h GUI_WC_OnDismiss
                  (dl_status (mem (ddlist st1) e)))).
set (st2 := mk_dialogs (ddlist st1) g1).
assert (Hcond : GUI_CFG_OS g1 && (dl_ib (mem (ddlist st2) e) && dl_sem (mem (ddlist st2) e))
                = false).
{ unfold st2, g1, st1. simpl. rewrite upd_same. simpl. exact Hnb. }
rewrite Hcond.
set (st3 := remove_from_active_dialogs st2 e).
assert (Hpar : forall x, parent (wmem (GUI st3) x) = parent (wmem (GUI st) x))
  by (intros x; reflexivity).
destruct (guii_widget_remove_keeps fuel (GUI st3) h c1 c2)
  as [g' [c (Hrun & _ & _ & _ & Hsub & Hdiff)]].
{ rewrite (ancestors_ext fuel (GUI st) (GUI st3) Hpar). exact H1. }
{ rewrite (ancestors_ext fuel (GUI st) (GUI st3) Hpar). exact H2. }
rewrite Hrun. cbn [fst ddlist].
assert (Hd1 : dll (ddlist st1) (l1 ++ e :: l2)).
{ destruct Hd as [Hn Hd]. split; [exact Hn|].
  apply dseg_frame with (s := ddlist st); [|exact Hd].
  intros x _. unfold lk, st1. simpl. unfold upd. destruct (Nat.eqb x e); reflexivity. }
destruct (remove_gen_dll _ _ _ _ Hd1) as [Hd3 _].
assert (Hd3' : dll (ddlist st3) (l1 ++ l2)) by exact Hd3.
destruct (dll_split _ _ _ _ Hd) as (_ & _ & E1 & E2 & _).
assert (Hid : guii_widget_getid (wmem g' h) = guii_widget_getid (wmem (GUI st) h)).
{ destruct (differ_in_attrs _ _ (Hdiff h)) as (_ & Hi & _). exact Hi. }
assert (Hno' : forall x, In x (l1 ++ l2) ->
          is_entry_of (mk_dialogs (ddlist st3) g') h x = false).
{ intros x Hx. rewrite <- (Hno x Hx).
  assert (Hxe : x <> e).
  { intros ->. apply in_app_or in Hx. tauto. }
  apply is_entry_of_ext; [| |exact Hid]; cbn [ddlist];
    unfold st3, remove_from_active_dialogs; cbn [ddlist];
    rewrite (remove_gen_links_only (ddlist st2) (Some e) x); simpl;
    rewrite upd_other by exact Hxe; reflexivity. }
assert (Hget : get_dialog (S (fuel + fuel)) (mk_dialogs (ddlist st3) g') h = Some None).
{ rewrite (get_dialog_spec _ _ h (l1 ++ l2)).
  - destruct (find _ (l1 ++ l2)) as [x|] eqn:Ef; [|reflexivity].
    apply find_some in Ef. destruct Ef as [Hin Hx]. rewrite (Hno' x Hin) in Hx. discriminate.
  - exact Hd3'.
  - rewrite length_app in *. simpl in Hf. lia. }
eexists. split; [reflexivity|]. split; [exact Hd3'|]. split; [|split; [exact Hget|]].
- cbn [GUI]. apply Hsub. unfold st3, remove_from_active_dialogs. simpl.
  apply in_or_app. right. simpl. auto.
- unfold gui_dialog_dismiss. rewrite Hget. reflexivity.
Qed.

Lemma dismiss_twice_witness :
  dll (ddlist example_dialogs) ([] ++ 7 :: []) /\
  length ([] ++ 7 :: [] : list handle) <= 11 /\
  is_entry_of example_dialogs 2 7 = true /\
  (forall x, In x ([] ++ [] : list handle) -> is_entry_of example_dialogs 2 x = false) /\
  exists st1,
    gui_dialog_dismiss 11 example_dialogs 2 42 = Some (st1, 0%Z) /\
    gui_dialog_dismiss 11 st1 2 43 = Some (st1, 0%Z).
Proof.
assert (Hd : dll (ddlist example_dialogs) ([] ++ 7 :: [])).
{ split; [repeat constructor; simpl; tauto|]. simpl. auto. }
assert (Hf : length ([] ++ 7 :: [] : list handle) <= 11) by (simpl; lia).
assert (Hno : forall x, In x ([] ++ [] : list handle) ->
                is_entry_of example_dialogs 2 x = false) by (intros x []).
split; [exact Hd|]. split; [exact Hf|]. split; [reflexivity|]. split; [exact Hno|].
destruct (dismiss_twice 5 example_dialogs 2 42 43 [] [] 7 [4; 3; 2; 1] [1]
            Hd Hf eq_refl Hno eq_refl eq_refl eq_refl)
  as [st1 (R1 & _ & _ & _ & R2)].
exists st1. split; [exact R1 | exact R2].
Defined.

(** ** The invalidation calls *)

Lemma loops_end_parent n m h p :
  loops_end n m h = true -> parent (m h) = Some p -> loops_end n m p = true.
Proof.
unfold loops_end. destruct (walk (parent_of m) n (Some h)) as [c|] eqn:E; [|discriminate].
intros Hall Hp. apply walk_path in E. destruct E as [Hc Hl].
destruct c as [|x c]; [simpl in Hc; discriminate|].
simpl in Hc. destruct Hc as [[= <-] Hc]. unfold parent_of in Hc at 2. rewrite Hp in Hc.
rewrite (path_walk _ c n _ Hc) by (simpl in Hl; lia).
simpl in Hall. apply andb_true_iff in Hall. tauto.
Qed.

Lemma loops_end_ext n m m' h : redraw_only m m' -> loops_end n m' h = loops_end n m h.
Proof.
intros H. unfold loops_end.
rewrite (walk_ext (parent_of m) (parent_of m') n _ (redraw_only_parent m m' H)).
destruct (walk (parent_of m) n (Some h)) as [c|]; [|reflexivity].
induction c as [|z c IH]; simpl; [reflexivity|].
now rewrite IH, (siblings_end_ext n m m' z H).
Qed.

Lemma redraw_only_getflag m m' x f :
  redraw_only m m' -> Z.land GUI_FLAG_REDRAW f = 0%Z ->
  guii_widget_getflag (m' x) f = guii_widget_getflag (m x) f.
Proof.
intros H Hf. destruct (H x) as [E|E]; rewrite E; [reflexivity|].
unfold guii_widget_getflag, guii_widget_setflag. simpl.
apply flag_test_set_other. exact Hf.
Qed.

Lemma redraw_only_coreflag m m' x f :
  redraw_only m m' -> guii_widget_getcoreflag (m' x) f = guii_widget_getcoreflag (m x) f.
Proof. intros H. destruct (H x) as [E|E]; rewrite E; reflexivity. Qed.

Lemma redraw_only_but_flags m m' x :
  redraw_only m m' -> with_flags 0 (m' x) = with_flags 0 (m x).
Proof. intros H. destruct (H x) as [E|E]; rewrite E; reflexivity. Qed.

Lemma loops_end_same_links n m m' h :
  (forall x, parent_of m' x = parent_of m x) -> (forall x, next_of m' x = next_of m x) ->
  loops_end n m' h = loops_end n m h.
Proof.
intros Hp Hn. unfold loops_end. rewrite (walk_ext (parent_of m) (parent_of m') n _ Hp).
destruct (walk (parent_of m) n (Some h)) as [c|]; [|reflexivity].
apply forallb_pointwise_in. intros y _. unfold siblings_end.
rewrite (walk_ext (next_of m) (next_of m') n _ Hn).
destruct (walk (next_of m) n (Some y)) as [l|]; [|reflexivity].
apply forallb_pointwise_in. intros z _. unfold parents_end.
now rewrite (walk_ext (parent_of m) (parent_of m') n _ Hp).
Qed.

Section RedrawProps.

Variables ax ay wd ht pax pay piw pih : handle -> Z.
Variable RM : gui_display_t -> gui_display_t -> bool.
Variable TR : bool.
Variable OS : bool.

Local Notation "'vis'" := (get_lcd_abs_position_and_visible_width_height
                         ax ay wd ht pax pay piw pih).
Local Notation "'inval'" := (Redraw.invalidate ax ay wd ht pax pay piw pih RM TR).
Local Notation "'wants'" := (Redraw.wants_parent TR).
Local Notation "'invalidate_call'" :=
  (Redraw.guii_widget_invalidate ax ay wd ht pax pay piw pih RM TR OS).
Local Notation "'invalidatewithparent_call'" :=
  (Redraw.guii_widget_invalidatewithparent ax ay wd ht pax pay piw pih RM TR).
Local Notation "'set3dstyle_call'" :=
  (Redraw.guii_widget_set3dstyle ax ay wd ht pax pay piw pih RM TR OS).
Local Notation "'show_call'" :=
  (Redraw.guii_widget_show ax ay wd ht pax pay piw pih RM TR).

(** One call of invalidate_widget on a widget whose loops end. *)
Lemma invalidate_runs n st h b :
  loops_end n (inv_widgets st) h = true ->
  exists st' ret,
    inval n st h b = Some (st', ret) /\
    redraw_only (inv_widgets st) (inv_widgets st') /\
    flags_grow st st' /\
    (b = false -> inv_Display st' = inv_Display st) /\
    (guii_widget_getflag (inv_widgets st h) GUI_FLAG_IGNORE_INVALIDATE = true ->
       st' = st /\ ret = 0%Z) /\
    (guii_widget_getflag (inv_widgets st h) GUI_FLAG_IGNORE_INVALIDATE = false ->
       ret = 1%Z /\
       guii_widget_getflag (inv_widgets st' h) GUI_FLAG_REDRAW = true /\
       flag_test (inv_Flags st') GUI_FLAG_REDRAW = true /\
       (b = true -> forall rA, vis n (inv_widgets st) h = Some rA ->
                    contains (inv_Display st') rA)).
Proof.
intros Hle. unfold loops_end in Hle.
destruct (walk (parent_of (inv_widgets st)) n (Some h)) as [c|] eqn:Ec; [|discriminate].
apply walk_path in Ec. destruct Ec as [Hp Hl].
rewrite forallb_forall in Hle.
destruct (invalidate_widget_spec ax ay wd ht pax pay piw pih RM TR n n st h b c Hp Hl Hl Hle)
  as [st' [ret (Hrun & Hro & Hfg & Hdis & Hig & Hdo)]].
exists st', ret. unfold Redraw.invalidate.
split; [exact Hrun|]. split; [exact Hro|]. split; [exact Hfg|]. split; [exact Hdis|].
split; [exact Hig|]. intros Hno. destruct (Hdo Hno) as (R & F & G & C & _). auto.
Qed.

(** guii_widget_invalidatewithparent returns 1 in every case.  A widget
    that does not ignore invalidation is marked for redraw and the dirty
    rectangle grows to hold its visible rectangle, as the program
    computes it in 16-bit coordinates; its parent, if it has
    one that does not ignore invalidation, is marked as well, also when
    the widget itself ignores invalidation, and without growing the
    dirty rectangle.  Nothing but redraw bits is written to the
    widgets, and no message is posted. *)
Theorem invalidatewithparent_marks (n : nat) (s : redraw_t) (h : handle) :
  loops_end n (inv_widgets (rd_inval s)) h = true ->
  exists s',
    invalidatewithparent_call n s h = Some (s', 1%Z) /\
    redraw_only (inv_widgets (rd_inval s)) (inv_widgets (rd_inval s')) /\
    rd_posted s' = rd_posted s /\
    (guii_widget_getflag (inv_widgets (rd_inval s) h) GUI_FLAG_IGNORE_INVALIDATE = false ->
       guii_widget_getflag (inv_widgets (rd_inval s') h) GUI_FLAG_REDRAW = true /\
       flag_test (inv_Flags (rd_inval s')) GUI_FLAG_REDRAW = true /\
       forall rA, vis n (inv_widgets (rd_inval s)) h = Some rA ->
                  contains (inv_Display (rd_inval s')) rA) /\
    (guii_widget_getflag (inv_widgets (rd_inval s) h) GUI_FLAG_IGNORE_INVALIDATE = true ->
       inv_Display (rd_inval s') = inv_Display (rd_inval s)) /\
    (forall p, parent (inv_widgets (rd_inval s) h) = Some p ->
       guii_widget_getflag (inv_widgets (rd_inval s) p) GUI_FLAG_IGNORE_INVALIDATE = false ->
       guii_widget_getflag (inv_widgets (rd_inval s') p) GUI_FLAG_REDRAW = true /\
       flag_test (inv_Flags (rd_inval s')) GUI_FLAG_REDRAW = true).
Proof.
intros Hle. unfold Redraw.guii_widget_invalidatewithparent.
destruct (invalidate_runs n (rd_inval s) h true Hle)
  as [st1 [ret (Hrun & Hro & Hfg & _ & Hig & Hdo)]].
change (Redraw.invalidate ax ay wd ht pax pay piw pih RM TR n (rd_inval s) h true)
  with (inval n (rd_inval s) h true).
rewrite Hrun. cbn [fst].
assert (Hpar : parent (inv_widgets st1 h) = parent (inv_widgets (rd_inval s) h))
  by apply (redraw_only_parent _ _ Hro).
rewrite Hpar.
destruct (parent (inv_widgets (rd_inval s) h)) as [p|] eqn:Ep.
- assert (Hlp : loops_end n (inv_widgets st1) p = true).
  { rewrite (loops_end_ext n _ _ p Hro). eapply loops_end_parent; eauto. }
  destruct (invalidate_runs n st1 p false Hlp)
    as [st2 [ret2 (Hrun2 & Hro2 & Hfg2 & Hdis2 & Hig2 & Hdo2)]].
  rewrite Hrun2. cbn [option_map fst].
  eexists. split; [reflexivity|]. cbn [rd_inval rd_posted].
  split; [eapply redraw_only_trans; eauto|]. split; [reflexivity|].
  split; [|split].
  + intros Hno. destruct (Hdo Hno) as (_ & F & G & C).
    split; [apply (redraw_only_mono _ _ h Hro2 F)|]. split.
    * destruct Hfg2 as [E|E]; rewrite E; [exact G|]. apply flag_test_set_same. discriminate.
    * intros rA HrA. rewrite (Hdis2 eq_refl). apply C; auto.
  + intros Hyes. destruct (Hig Hyes) as [-> _]. apply Hdis2. reflexivity.
  + intros p' [= <-] Hno.
    assert (Hno1 : guii_widget_getflag (inv_widgets st1 p) GUI_FLAG_IGNORE_INVALIDATE = false).
    { rewrite (redraw_only_getflag _ _ p _ Hro) by reflexivity. exact Hno. }
    destruct (Hdo2 Hno1) as (_ & F & G & _). auto.
- eexists. split; [reflexivity|]. cbn [rd_inval rd_posted].
  split; [exact Hro|]. split; [reflexivity|]. split; [|split].
  + intros Hno. destruct (Hdo Hno) as (_ & F & G & C). auto.
  + intros Hyes. destruct (Hig Hyes) as [-> _]. reflexivity.
  + intros p [=].
Qed.

(** guii_widget_invalidate returns what invalidate_widget returns for the
    widget: 0 when it ignores invalidation, 1 otherwise; in the second
    case the widget is marked for redraw and the dirty rectangle grows
    to hold its visible rectangle, as the program computes it in 16-bit
    coordinates.  The parent is
    invalidated as well, without growing the dirty rectangle, when the
    widget or its type carries the invalidate-parent flag or the widget
    is transparent, and this also when the widget itself ignores
    invalidation.  With an operating system one message is posted in
    every case.  A widget that ignores invalidation and does not ask for
    its parent leaves the state of the invalidation as it is. *)
Theorem invalidate_parent_rule (n : nat) (s : redraw_t) (h : handle) :
  loops_end n (inv_widgets (rd_inval s)) h = true ->
  exists s',
    invalidate_call n s h
      = Some (s', if guii_widget_getflag (inv_widgets (rd_inval s) h)
                       GUI_FLAG_IGNORE_INVALIDATE then 0%Z else 1%Z) /\
    redraw_only (inv_widgets (rd_inval s)) (inv_widgets (rd_inval s')) /\
    rd_posted s' = (if OS then S (rd_posted s) else rd_posted s) /\
    (guii_widget_getflag (inv_widgets (rd_inval s) h) GUI_FLAG_IGNORE_INVALIDATE = false ->
       guii_widget_getflag (inv_widgets (rd_inval s') h) GUI_FLAG_REDRAW = true /\
       forall rA, vis n (inv_widgets (rd_inval s)) h = Some rA ->
                  contains (inv_Display (rd_inval s')) rA) /\
    (forall p, wants (inv_widgets (rd_inval s) h) = true ->
       parent (inv_widgets (rd_inval s) h) = Some p ->
       guii_widget_getflag (inv_widgets (rd_inval s) p) GUI_FLAG_IGNORE_INVALIDATE = false ->
       guii_widget_getflag (inv_widgets (rd_inval s') p) GUI_FLAG_REDRAW = true) /\
    (guii_widget_getflag (inv_widgets (rd_inval s) h) GUI_FLAG_IGNORE_INVALIDATE = true ->
     wants (inv_widgets (rd_inval s) h) = false ->
     rd_inval s' = rd_inval s).
Proof.
intros Hle. unfold Redraw.guii_widget_invalidate.
destruct (invalidate_runs n (rd_inval s) h true Hle)
  as [st1 [ret (Hrun & Hro & Hfg & _ & Hig & Hdo)]].
change (Redraw.invalidate ax ay wd ht pax pay piw pih RM TR n (rd_inval s) h true)
  with (inval n (rd_inval s) h true).
rewrite Hrun. cbv iota beta.
assert (Hpar : parent (inv_widgets st1 h) = parent (inv_widgets (rd_inval s) h))
  by apply (redraw_only_parent _ _ Hro).
assert (Hw : wants (inv_widgets st1 h) = wants (inv_widgets (rd_inval s) h)).
{ unfold Redraw.wants_parent.
  rewrite (redraw_only_getflag _ _ h _ Hro) by reflexivity.
  rewrite (redraw_only_coreflag _ _ h _ Hro), (redraw_only_transparent _ _ h Hro).
  reflexivity. }
assert (Hret : ret = if guii_widget_getflag (inv_widgets (rd_inval s) h)
                          GUI_FLAG_IGNORE_INVALIDATE then 0%Z else 1%Z).
{ destruct (guii_widget_getflag (inv_widgets (rd_inval s) h) GUI_FLAG_IGNORE_INVALIDATE).
  - apply Hig. reflexivity.
  - apply Hdo. reflexivity. }
rewrite Hw, Hpar, <- Hret.
destruct (wants (inv_widgets (rd_inval s) h)) eqn:Ew;
  [destruct (parent (inv_widgets (rd_inval s) h)) as [p|] eqn:Ep|].
- assert (Hlp : loops_end n (inv_widgets st1) p = true).
  { rewrite (loops_end_ext n _ _ p Hro). eapply loops_end_parent; eauto. }
  destruct (invalidate_runs n st1 p false Hlp)
    as [st2 [ret2 (Hrun2 & Hro2 & Hfg2 & Hdis2 & Hig2 & Hdo2)]].
  rewrite Hrun2. cbn [option_map fst].
  eexists. split; [reflexivity|]. cbn [rd_inval rd_posted].
  split; [eapply redraw_only_trans; eauto|]. split; [reflexivity|].
  split; [|split].
  + intros Hno. destruct (Hdo Hno) as (_ & F & G & C).
    split; [apply (redraw_only_mono _ _ h Hro2 F)|].
    intros rA HrA. rewrite (Hdis2 eq_refl). apply C; auto.
  + intros p' _ [= <-] Hno.
    assert (Hno1 : guii_widget_getflag (inv_widgets st1 p) GUI_FLAG_IGNORE_INVALIDATE = false).
    { rewrite (redraw_only_getflag _ _ p _ Hro) by reflexivity. exact Hno. }
    destruct (Hdo2 Hno1) as (_ & F & _). exact F.
  + intros _ [=].
- eexists. split; [reflexivity|]. cbn [rd_inval rd_posted].
  split; [exact Hro|]. split; [reflexivity|]. split; [|split].
  + intros Hno. destruct (Hdo Hno) as (_ & F & G & C). auto.
  + intros p _ [=].
  + intros _ [=].
- eexists. split; [reflexivity|]. cbn [rd_inval rd_posted].
  split; [exact Hro|]. split; [reflexivity|]. split; [|split].
  + intros Hno. destruct (Hdo Hno) as (_ & F & G & C). auto.
  + intros p [=].
  + intros Hyes _. apply Hig. exact Hyes.
Qed.

(** The two calls return when the loops end, and write redraw bits only. *)
Lemma invalidate_call_returns n s h :
  loops_end n (inv_widgets (rd_inval s)) h = true ->
  exists s' ret,
    invalidate_call n s h = Some (s', ret) /\
    redraw_only (inv_widgets (rd_inval s)) (inv_widgets (rd_inval s')).
Proof.
intros Hle. unfold Redraw.guii_widget_invalidate.
destruct (invalidate_runs n (rd_inval s) h true Hle) as [st1 [ret (Hrun & Hro & _)]].
change (Redraw.invalidate ax ay wd ht pax pay piw pih RM TR n (rd_inval s) h true)
  with (inval n (rd_inval s) h true).
rewrite Hrun. cbv iota beta.
destruct (wants (inv_widgets st1 h)); [|eexists _, _; split; [reflexivity | exact Hro]].
destruct (parent (inv_widgets st1 h)) as [p|] eqn:Ep;
  [|eexists _, _; split; [reflexivity | exact Hro]].
assert (Hlp : loops_end n (inv_widgets st1) p = true).
{ eapply loops_end_parent; [|exact Ep]. rewrite (loops_end_ext n _ _ h Hro). exact Hle. }
destruct (invalidate_runs n st1 p false Hlp) as [st2 [ret2 (Hrun2 & Hro2 & _)]].
rewrite Hrun2. eexists _, _. split; [reflexivity|]. cbn [rd_inval option_map fst].
eapply redraw_only_trans; eauto.
Qed.

Lemma invalidatewithparent_call_returns n s h :
  loops_end n (inv_widgets (rd_inval s)) h = true ->
  exists s',
    invalidatewithparent_call n s h = Some (s', 1%Z) /\
    redraw_only (inv_widgets (rd_inval s)) (inv_widgets (rd_inval s')).
Proof.
intros Hle. unfold Redraw.guii_widget_invalidatewithparent.
destruct (invalidate_runs n (rd_inval s) h true Hle) as [st1 [ret (Hrun & Hro & _)]].
change (Redraw.invalidate ax ay wd ht pax pay piw pih RM TR n (rd_inval s) h true)
  with (inval n (rd_inval s) h true).
rewrite Hrun. cbn [fst].
destruct (parent (inv_widgets st1 h)) as [p|] eqn:Ep;
  [|eexists; split; [reflexivity | exact Hro]].
assert (Hlp : loops_end n (inv_widgets st1) p = true).
{ eapply loops_end_parent; [|exact Ep]. rewrite (loops_end_ext n _ _ h Hro). exact Hle. }
destruct (invalidate_runs n st1 p false Hlp) as [st2 [ret2 (Hrun2 & Hro2 & _)]].
rewrite Hrun2. eexists. split; [reflexivity|]. cbn [rd_inval option_map fst].
eapply redraw_only_trans; eauto.
Qed.

Lemma loops_end_on_redraw n s h x (f : gui_handle -> gui_handle) :
  (forall w, parent (f w) = parent w) -> (forall w, llist (f w) = llist w) ->
  loops_end n (inv_widgets (rd_inval (on_redraw x f s))) h
  = loops_end n (inv_widgets (rd_inval s)) h.
Proof.
intros Hp Hl. apply loops_end_same_links; intros y; unfold parent_of, next_of; simpl;
  unfold upd; destruct (Nat.eqb y x); rewrite ?Hp, ?Hl; reflexivity.
Qed.

(** guii_widget_set3dstyle returns 1 and leaves the 3D flag as asked.  It
    invalidates the widget only when the flag changes: called with the
    value the flag has it changes nothing, so a second call with the
    same argument does nothing. *)
Theorem set3dstyle_changes_once (n : nat) (s : redraw_t) (h : handle) (enable : Z) :
  loops_end n (inv_widgets (rd_inval s)) h = true ->
  exists s',
    set3dstyle_call n s h enable = Some (s', 1%Z) /\
    guii_widget_getflag (inv_widgets (rd_inval s') h) GUI_FLAG_3D = negb (enable =? 0)%Z /\
    (guii_widget_getflag (inv_widgets (rd_inval s) h) GUI_FLAG_3D = negb (enable =? 0)%Z ->
     s' = s) /\
    set3dstyle_call n s' h enable = Some (s', 1%Z).
Proof.
intros Hle. unfold Redraw.guii_widget_set3dstyle at 1. cbv zeta.
destruct (enable =? 0)%Z eqn:Een;
  destruct (guii_widget_getflag (inv_widgets (rd_inval s) h) GUI_FLAG_3D) eqn:Ef;
  cbn [negb andb].
- set (s1 := on_redraw h (fun w => guii_widget_clrflag w GUI_FLAG_3D) s).
  destruct (invalidate_call_returns n s1 h) as [s' [ret (Hrun & Hro)]].
  { unfold s1. rewrite loops_end_on_redraw by reflexivity. exact Hle. }
  rewrite Hrun. cbn [fst]. exists s'.
  assert (Hf : guii_widget_getflag (inv_widgets (rd_inval s') h) GUI_FLAG_3D = false).
  { rewrite (redraw_only_getflag _ _ h _ Hro) by reflexivity.
    unfold s1. simpl. rewrite upd_same.
    unfold guii_widget_getflag, guii_widget_clrflag. simpl.
    apply flag_test_clr_same. reflexivity. }
  split; [reflexivity|]. split; [exact Hf|]. split; [discriminate|].
  unfold Redraw.guii_widget_set3dstyle. cbv zeta. rewrite Een, Hf. reflexivity.
- exists s. split; [reflexivity|]. split; [exact Ef|]. split; [reflexivity|].
  unfold Redraw.guii_widget_set3dstyle. cbv zeta. rewrite Een, Ef. reflexivity.
- exists s. split; [reflexivity|]. split; [exact Ef|]. split; [reflexivity|].
  unfold Redraw.guii_widget_set3dstyle. cbv zeta. rewrite Een, Ef. reflexivity.
- set (s1 := on_redraw h (fun w => guii_widget_setflag w GUI_FLAG_3D) s).
  destruct (invalidate_call_returns n s1 h) as [s' [ret (Hrun & Hro)]].
  { unfold s1. rewrite loops_end_on_redraw by reflexivity. exact Hle. }
  rewrite Hrun. cbn [fst]. exists s'.
  assert (Hf : guii_widget_getflag (inv_widgets (rd_inval s') h) GUI_FLAG_3D = true).
  { rewrite (redraw_only_getflag _ _ h _ Hro) by reflexivity.
    unfold s1. simpl. rewrite upd_same.
    unfold guii_widget_getflag, guii_widget_setflag. simpl.
    apply flag_test_set_same. discriminate. }
  split; [reflexivity|]. split; [exact Hf|]. split; [discriminate|].
  unfold Redraw.guii_widget_set3dstyle. cbv zeta. rewrite Een, Hf. reflexivity.
Qed.

(** guii_widget_show returns 1 and leaves the widget not hidden.  A hidden
    widget loses the hidden flag and is invalidated together with its
    parent; a widget that is not hidden is left alone, so a second call
    does nothing. *)
Theorem show_changes_once (n : nat) (s : redraw_t) (h : handle) :
  loops_end n (inv_widgets (rd_inval s)) h = true ->
  exists s',
    show_call n s h = Some (s', 1%Z) /\
    guii_widget_getflag (inv_widgets (rd_inval s') h) GUI_FLAG_HIDDEN = false /\
    (guii_widget_getflag (inv_widgets (rd_inval s) h) GUI_FLAG_HIDDEN = false -> s' = s) /\
    (guii_widget_getflag (inv_widgets (rd_inval s) h) GUI_FLAG_HIDDEN = true ->
     guii_widget_getflag (inv_widgets (rd_inval s) h) GUI_FLAG_IGNORE_INVALIDATE = false ->
     guii_widget_getflag (inv_widgets (rd_inval s') h) GUI_FLAG_REDRAW = true) /\
    show_call n s' h = Some (s', 1%Z).
Proof.
intros Hle. unfold Redraw.guii_widget_show at 1.
destruct (guii_widget_getflag (inv_widgets (rd_inval s) h) GUI_FLAG_HIDDEN) eqn:Ef.
- set (s1 := on_redraw h (fun w => guii_widget_clrflag w GUI_FLAG_HIDDEN) s).
  assert (Hle1 : loops_end n (inv_widgets (rd_inval s1)) h = true).
  { unfold s1. rewrite loops_end_on_redraw by reflexivity. exact Hle. }
  destruct (invalidatewithparent_call_returns n s1 h Hle1) as [s' (Hrun & Hro)].
  cbv zeta. fold s1. rewrite Hrun. cbn [fst]. exists s'.
  assert (Hf : guii_widget_getflag (inv_widgets (rd_inval s') h) GUI_FLAG_HIDDEN = false).
  { rewrite (redraw_only_getflag _ _ h _ Hro) by reflexivity.
    unfold s1. simpl. rewrite upd_same.
    unfold guii_widget_getflag, guii_widget_clrflag. simpl.
    apply flag_test_clr_same. reflexivity. }
  split; [reflexivity|]. split; [exact Hf|]. split; [discriminate|]. split.
  + intros _ Hno.
    assert (Hno1 : guii_widget_getflag (inv_widgets (rd_inval s1) h)
                     GUI_FLAG_IGNORE_INVALIDATE = false).
    { unfold s1. simpl. rewrite upd_same.
      unfold guii_widget_getflag, guii_widget_clrflag in *. simpl.
      rewrite flag_test_clr_other by reflexivity. exact Hno. }
    revert Hrun. unfold Redraw.guii_widget_invalidatewithparent.
    destruct (invalidate_runs n (rd_inval s1) h true Hle1)
      as [st1 [ret (Hr1 & Hro1 & _ & _ & _ & Hdo)]].
    change (Redraw.invalidate ax ay wd ht pax pay piw pih RM TR n (rd_inval s1) h true)
      with (inval n (rd_inval s1) h true).
    rewrite Hr1. cbn [fst]. destruct (Hdo Hno1) as (_ & F & _).
    destruct (parent (inv_widgets st1 h)) as [p|] eqn:Ep.
    * assert (Hlp : loops_end n (inv_widgets st1) p = true).
      { eapply loops_end_parent; [|exact Ep]. rewrite (loops_end_ext n _ _ h Hro1).
        exact Hle1. }
      destruct (invalidate_runs n st1 p false Hlp) as [st2 [ret2 (Hr2 & Hro2 & _)]].
      rewrite Hr2. cbn [option_map fst]. intros [= <-]. cbn [rd_inval].
      apply (redraw_only_mono _ _ h Hro2 F).
    * intros [= <-]. exact F.
  + unfold Redraw.guii_widget_show. rewrite Hf. reflexivity.
- exists s. split; [reflexivity|]. split; [exact Ef|]. split; [reflexivity|].
  split; [discriminate|]. unfold Redraw.guii_widget_show. rewrite Ef. reflexivity.
Qed.

End RedrawProps.

Lemma invalidatewithparent_marks_witness :
  loops_end 3 (inv_widgets (rd_inval (mk_redraw example_inval 0))) 2 = true /\
  exists s',
    Redraw.guii_widget_invalidatewithparent example_position example_position
      example_extent example_extent (fun _ => 0%Z) (fun _ => 0%Z)
      (fun _ => 100%Z) (fun _ => 100%Z) example_rect_match true 3
      (mk_redraw example_inval 0) 2 = Some (s', 1%Z) /\
    guii_widget_getflag (inv_widgets (rd_inval s') 2) GUI_FLAG_REDRAW = true /\
    guii_widget_getflag (inv_widgets (rd_inval s') 1) GUI_FLAG_REDRAW = true.
Proof.
split; [reflexivity|].
destruct (invalidatewithparent_marks example_position example_position example_extent
            example_extent (fun _ => 0%Z) (fun _ => 0%Z) (fun _ => 100%Z) (fun _ => 100%Z)
            example_rect_match true 3 (mk_redraw example_inval 0) 2 eq_refl)
  as [s' (Hrun & _ & _ & Hh & _ & Hp)].
exists s'. split; [exact Hrun|]. split.
- apply Hh. reflexivity.
- apply (Hp 1); reflexivity.
Defined.

Lemma invalidate_parent_rule_witness :
  loops_end 3 (inv_widgets (rd_inval (mk_redraw example_inval 0))) 2 = true /\
  exists s',
    Redraw.guii_widget_invalidate example_position example_position
      example_extent example_extent (fun _ => 0%Z) (fun _ => 0%Z)
      (fun _ => 100%Z) (fun _ => 100%Z) example_rect_match true true 3
      (mk_redraw example_inval 0) 2 = Some (s', 1%Z) /\
    rd_posted s' = 1.
Proof.
split; [reflexivity|].
destruct (invalidate_parent_rule example_position example_position example_extent
            example_extent (fun _ => 0%Z) (fun _ => 0%Z) (fun _ => 100%Z) (fun _ => 100%Z)
            example_rect_match true true 3 (mk_redraw example_inval 0) 2 eq_refl)
  as [s' (Hrun & _ & Hpost & _)].
exists s'. split; [exact Hrun | exact Hpost].
Defined.

Lemma set3dstyle_changes_once_witness :
  loops_end 3 (inv_widgets (rd_inval (mk_redraw example_inval 0))) 2 = true /\
  exists s',
    Redraw.guii_widget_set3dstyle example_position example_position
      example_extent example_extent (fun _ => 0%Z) (fun _ => 0%Z)
      (fun _ => 100%Z) (fun _ => 100%Z) example_rect_match true false 3
      (mk_redraw example_inval 0) 2 1 = Some (s', 1%Z) /\
    guii_widget_getflag (inv_widgets (rd_inval s') 2) GUI_FLAG_3D = true /\
    Redraw.guii_widget_set3dstyle example_position example_position
      example_extent example_extent (fun _ => 0%Z) (fun _ => 0%Z)
      (fun _ => 100%Z) (fun _ => 100%Z) example_rect_match true false 3
      s' 2 1 = Some (s', 1%Z).
Proof.
split; [reflexivity|].
destruct (set3dstyle_changes_once example_position example_position example_extent
            example_extent (fun _ => 0%Z) (fun _ => 0%Z) (fun _ => 100%Z) (fun _ => 100%Z)
            example_rect_match true false 3 (mk_redraw example_inval 0) 2 1 eq_refl)
  as [s' (Hrun & Hf & _ & Hagain)].
exists s'. split; [exact Hrun|]. split; [exact Hf | exact Hagain].
Defined.

Lemma show_changes_once_witness :
  loops_end 3 (inv_widgets (rd_inval example_redraw)) 3 = true /\
  exists s',
    Redraw.guii_widget_show example_position example_position
      example_extent example_extent (fun _ => 0%Z) (fun _ => 0%Z)
      (fun _ => 100%Z) (fun _ => 100%Z) example_rect_match true 3
      example_redraw 3 = Some (s', 1%Z) /\
    guii_widget_getflag (inv_widgets (rd_inval s') 3) GUI_FLAG_HIDDEN = false /\
    guii_widget_getflag (inv_widgets (rd_inval s') 3) GUI_FLAG_REDRAW = true.
Proof.
split; [reflexivity|].
destruct (show_changes_once example_position example_position example_extent
            example_extent (fun _ => 0%Z) (fun _ => 0%Z) (fun _ => 100%Z) (fun _ => 100%Z)
            example_rect_match true 3 example_redraw 3 eq_refl)
  as [s' (Hrun & Hf & _ & Hr & _)].
exists s'. split; [exact Hrun|]. split; [exact Hf|]. apply Hr; reflexivity.
Defined.

(** ** The multi list *)

Lemma find_remove_loop_absent (s : multi_t) data xs : forall fuel pp p q ret,
  dseg (links s) pp p xs q None -> length xs <= fuel ->
  (forall x, In x xs -> is_released s x = false) ->
  (forall x, In x xs -> gui_linkedlist_multi_getdata s x <> data) ->
  find_remove_loop fuel s data p ret = Returns (s, ret).
Proof.
induction xs as [|x tl IH]; intros fuel pp p q ret Hd Hf Hlive Hno.
- destruct Hd as [-> _]. destruct fuel; reflexivity.
- destruct Hd as (-> & _ & Hd). simpl in Hf. destruct fuel as [|f]; [lia|].
  cbn [find_remove_loop]. rewrite (Hlive x (or_introl eq_refl)).
  destruct (ptr_eqb_spec (gui_linkedlist_multi_getdata s x) data) as [E|_].
  { exfalso. exact (Hno x (or_introl eq_refl) E). }
  rewrite (Hlive x (or_introl eq_refl)).
  apply (IH f _ _ _ ret Hd); [lia | |]; intros y Hy; [apply Hlive | apply Hno]; now right.
Qed.

(** gui_linkedlist_multi_find_remove on a list in which no link points to
    the element returns 0 and changes nothing: no link is unlinked and
    none is freed. *)
Theorem multi_find_remove_absent (fuel : nat) (s : multi_t) (data : ptr) (l : list handle) :
  dll (links s) l -> length l <= fuel ->
  (forall x, In x l -> is_released s x = false) ->
  (forall x, In x l -> gui_linkedlist_multi_getdata s x <> data) ->
  gui_linkedlist_multi_find_remove fuel s data = Returns (s, 0%Z).
Proof.
intros [_ Hd] Hf Hlive Hno. unfold gui_linkedlist_multi_find_remove. simpl.
eapply find_remove_loop_absent; eauto.
Qed.

Lemma find_remove_loop_present (s : multi_t) data x l2 : forall l1 fuel pp p q ret,
  dseg (links s) pp p (l1 ++ x :: l2) q None -> length l1 < fuel ->
  (forall y, In y (l1 ++ [x]) -> is_released s y = false) ->
  (forall y, In y l1 -> gui_linkedlist_multi_getdata s y <> data) ->
  gui_linkedlist_multi_getdata s x = data ->
  find_remove_loop fuel s data p ret = ReadsFreed x.
Proof.
induction l1 as [|y tl IH]; intros fuel pp p q ret Hd Hf Hlive Hno Hx;
  simpl in Hd; destruct Hd as (-> & _ & Hd); (destruct fuel as [|f]; [simpl in Hf; lia|]);
  cbn [find_remove_loop].
- rewrite (Hlive x (or_introl eq_refl)), Hx, ptr_eqb_refl.
  unfold gui_linkedlist_multi_remove_gen, is_released. cbn [fst released existsb].
  rewrite Nat.eqb_refl. reflexivity.
- rewrite (Hlive y (or_introl eq_refl)).
  destruct (ptr_eqb_spec (gui_linkedlist_multi_getdata s y) data) as [E|_].
  { exfalso. exact (Hno y (or_introl eq_refl) E). }
  rewrite (Hlive y (or_introl eq_refl)).
  apply (IH f _ _ _ ret Hd); [simpl in Hf; lia | | | exact Hx];
    intros z Hz; [apply Hlive | apply Hno]; now right.
Qed.

(** gui_linkedlist_multi_find_remove on a list in which a link points to
    the element does not get past the first such link: it unlinks and
    frees that link, and the step of its loop then reads the next
    pointer of the link it has just freed. *)
Theorem multi_find_remove_reads_freed (fuel : nat) (s : multi_t) (data : ptr)
    (l1 l2 : list handle) (x : handle) :
  dll (links s) (l1 ++ x :: l2) -> length l1 < fuel ->
  (forall y, In y (l1 ++ [x]) -> is_released s y = false) ->
  (forall y, In y l1 -> gui_linkedlist_multi_getdata s y <> data) ->
  gui_linkedlist_multi_getdata s x = data ->
  gui_linkedlist_multi_find_remove fuel s data = ReadsFreed x.
Proof.
intros [_ Hd] Hf Hlive Hno Hx. unfold gui_linkedlist_multi_find_remove. simpl.
eapply find_remove_loop_present; eauto.
Qed.

Lemma multi_find_remove_absent_witness :
  dll (links example_multi) [1; 2; 3] /\ length [1; 2; 3] <= 3 /\
  (forall x, In x [1; 2; 3] -> is_released example_multi x = false) /\
  (forall x, In x [1; 2; 3] -> gui_linkedlist_multi_getdata example_multi x <> Some 30) /\
  gui_linkedlist_multi_find_remove 3 example_multi (Some 30) = Returns (example_multi, 0%Z).
Proof.
assert (Hd : dll (links example_multi) [1; 2; 3]) by dll_by_computation.
assert (Hf : length [1; 2; 3] <= 3) by (simpl; lia).
assert (Hlive : forall x, In x [1; 2; 3] -> is_released example_multi x = false).
{ intros x Hx. repeat (destruct Hx as [<-|Hx]; [reflexivity|]). destruct Hx. }
assert (Hno : forall x, In x [1; 2; 3] ->
                gui_linkedlist_multi_getdata example_multi x <> Some 30).
{ intros x Hx. repeat (destruct Hx as [<-|Hx]; [vm_compute; discriminate|]). destruct Hx. }
split; [exact Hd|]. split; [exact Hf|]. split; [exact Hlive|]. split; [exact Hno|].
exact (multi_find_remove_absent 3 example_multi (Some 30) [1; 2; 3] Hd Hf Hlive Hno).
Defined.

Lemma multi_find_remove_reads_freed_witness :
  dll (links example_multi) ([1] ++ 2 :: [3]) /\ length [1] < 3 /\
  (forall y, In y ([1] ++ [2]) -> is_released example_multi y = false) /\
  (forall y, In y [1] -> gui_linkedlist_multi_getdata example_multi y <> Some 20) /\
  gui_linkedlist_multi_getdata example_multi 2 = Some 20 /\
  gui_linkedlist_multi_find_remove 3 example_multi (Some 20) = ReadsFreed 2.
Proof.
assert (Hd : dll (links example_multi) ([1] ++ 2 :: [3])) by dll_by_computation.
assert (Hf : length [1] < 3) by (simpl; lia).
assert (Hlive : forall y, In y ([1] ++ [2]) -> is_released example_multi y = false).
{ intros x Hx. repeat (destruct Hx as [<-|Hx]; [reflexivity|]). destruct Hx. }
assert (Hno : forall y, In y [1] -> gui_linkedlist_multi_getdata example_multi y <> Some 20).
{ intros x Hx. repeat (destruct Hx as [<-|Hx]; [vm_compute; discriminate|]). destruct Hx. }
split; [exact Hd|]. split; [exact Hf|]. split; [exact Hlive|]. split; [exact Hno|].
split; [reflexivity|].
exact (multi_find_remove_reads_freed 3 example_multi (Some 20) [1] [3] 2
         Hd Hf Hlive Hno eq_refl).
Defined.

(** ** Creation: the new widget *)





Section OnChildren.

Variables (p h : handle) (f : list wtree -> list wtree).
Hypothesis f_adds : forall ks,
  Permutation (flat_map handles_of (f ks)) (h :: flat_map handles_of ks).




End OnChildren.



(** ** The sibling list: adding a widget and removing it *)

Lemma widgetadd_spec (s : wlist) l h fuel cnt0 :
  dll s l -> ~ In h l -> S (length l) < fuel ->
  exists s' l1 l2,
    gui_linkedlist_widgetadd fuel cnt0 s h = Some s' /\
    l = l1 ++ l2 /\ dll s' (l1 ++ h :: l2) /\ links_only s s'.
Proof.
intros Hd Hin Hf. unfold gui_linkedlist_widgetadd.
assert (Hd1 := add_gen_dll s l h Hd Hin).
assert (Hlo1 := add_gen_links_only s h).
set (s1 := gui_linkedlist_add_gen s h) in *.
destruct (widgetmovetotop_spec h l [] s1 fuel cnt0 Hd1) as [s2 [Hrun2 [Hd2 Hlo2]]]; [lia|].
rewrite Hrun2. rewrite app_nil_r in Hd2.
set (up := fun x => up_ok (mem s1 h) (mem s1 x)) in *.
assert (HlenY : length (rev (take_while up (rev l))) <= length l).
{ rewrite <- (rev_drop_take_while up l) at 2. rewrite length_app. lia. }
destruct (widgetmovetobottom_spec h _ _ s2 fuel Hd2) as [s3 [Hrun3 [Hd3 Hlo3]]]; [lia|].
rewrite Hrun3.
set (down := fun x => down_ok (mem s2 h) (mem s2 x)) in *.
exists s3, (rev (drop_while up (rev l)) ++ take_while down (rev (take_while up (rev l)))),
  (drop_while down (rev (take_while up (rev l)))).
split; [reflexivity|]. split.
- rewrite <- app_assoc, take_drop_while. symmetry. apply rev_drop_take_while.
- split; [rewrite <- app_assoc; exact Hd3|].
  eapply links_only_trans; [exact Hlo1|]. eapply links_only_trans; eassumption.
Qed.

(** gui_linkedlist_widgetadd followed by gui_linkedlist_widgetremove.
    Adding a widget that is not in a well-formed sibling list returns
    when the two walks have fuel for the list, and puts the widget
    somewhere among the others, whose order is kept.  Removing it again
    gives back the list: the root and every node of the list are as they
    were, and the widget is left with both pointers NULL and its other
    fields as given. *)
Theorem widgetadd_widgetremove_round_trip (fuel : nat) (cnt0 : Z) (s : wlist)
    (l : list handle) (h : handle) :
  dll s l -> ~ In h l -> S (length l) < fuel ->
  exists s1 l1 l2,
    gui_linkedlist_widgetadd fuel cnt0 s h = Some s1 /\
    l = l1 ++ l2 /\ dll s1 (l1 ++ h :: l2) /\
    root (gui_linkedlist_widgetremove s1 h) = root s /\
    (forall x, In x l -> mem (gui_linkedlist_widgetremove s1 h) x = mem s x) /\
    mem (gui_linkedlist_widgetremove s1 h) h = set_list (mk_linkedlist None None) (mem s h).
Proof.
intros Hd Hin Hf.
destruct (widgetadd_spec s l h fuel cnt0 Hd Hin Hf) as (s1 & l1 & l2 & Hrun & El & Hd1 & Hlo1).
exists s1, l1, l2. split; [exact Hrun|]. split; [exact El|]. split; [exact Hd1|].
unfold gui_linkedlist_widgetremove.
destruct (remove_gen_dll _ _ _ _ Hd1) as [Hd2 Hc]. rewrite <- El in Hd2.
assert (Hlo : links_only s (fst (gui_linkedlist_remove_gen s1 (Some h)))).
{ eapply links_only_trans; [exact Hlo1 | apply remove_gen_links_only]. }
destruct (dll_unique _ _ _ Hd Hd2) as [Hr Hx].
split; [exact Hr|]. split.
- intros x Hxl. rewrite (Hlo x), (Hx x Hxl). apply set_list_list_of.
- rewrite (Hlo h), Hc. reflexivity.
Qed.

Lemma widgetadd_widgetremove_round_trip_witness :
  dll example_stack [1; 2; 3; 4] /\ ~ In 7 [1; 2; 3; 4] /\
  exists s1,
    gui_linkedlist_widgetadd 6 0 example_stack 7 = Some s1 /\
    root (gui_linkedlist_widgetremove s1 7) = root example_stack.
Proof.
assert (Hd : dll example_stack [1; 2; 3; 4]) by dll_by_computation.
assert (Hn : ~ In 7 [1; 2; 3; 4]) by (simpl; intuition discriminate).
split; [exact Hd|]. split; [exact Hn|].
destruct (widgetadd_widgetremove_round_trip 6 0 example_stack [1; 2; 3; 4] 7 Hd Hn
            ltac:(simpl; lia)) as (s1 & l1 & l2 & Hrun & _ & _ & Hr & _).
exists s1. split; [exact Hrun | exact Hr].
Defined.
